(** * Mesh and skin compilation (src/user/user_mesh.cc)

    A shallow embedding of the mesh compiler [mjCMesh] and the skin compiler
    [mjCSkin] of user_mesh.cc, and the properties of the loaders, of the
    orientation check, of the convex-hull graph builder, of the accessors and
    of the skin weight normalisation.

    Conventions of the embedding.
    - [int] values are [Z]; where the source converts or multiplies at a
      fixed width, the wrap-around is written out ([wrap32], [to_size_t]).
    - the coordinates and the inertial quantities that the mesh code
      computes with are rationals [Q]: [+ - * /] are exact, rounding is not
      modelled, and a bit pattern of an infinity or a NaN has no value of
      its own.  The statements about these quantities say where they are
      written and which tests guard them, never which way a test on a
      computed value goes.  The bone weights of a skin, whose
      normalisation is a statement about values, are binary32 values
      [float32] with the rounded [+=] and [/=] of the source.  Square roots
      and the other routines of the engine (eigen-decomposition,
      quaternions, Qhull, tinyobj, the file system) are fields of the
      interface [Externals].
    - a file buffer is a [list byte]; the binary loaders read little-endian
      32-bit words from it and keep [float] payloads as their bit patterns
      until the value is needed.
    - a C pointer to an owned array is an [option]: [None] is the null
      pointer.
    - a member function is a function from the object to an [outcome]:
      normal return, [throw mjCError], the engine's fatal [mju_error], or
      undefined behaviour of the C++ abstract machine. *)

From Stdlib Require Import ZArith QArith Qabs List Bool Lia Lqa.
From Stdlib.Strings Require Import String Ascii Byte.
From Stdlib Require Import Permutation Sorting.Sorted.
Import ListNotations.

#[local] Open Scope string_scope.
#[local] Open Scope list_scope.
#[local] Open Scope Z_scope.

(* ================================================================= *)
(** ** Outcomes of a member function *)

(** [mjCError(this, fmt, ...)]: the format string and the integer arguments
    that the source passes; file and mesh names are left out. *)
Record mjCError : Type := Err { err_text : string; err_args : list Z }.

Inductive outcome (A : Type) : Type :=
| Done (a : A)               (* the function returns *)
| Throw (e : mjCError)       (* throw mjCError(...) *)
| Fatal (msg : string)       (* mju_error(msg): does not return *)
| Undefined (what : string). (* out-of-bounds access, use after free, ... *)

Arguments Done {A} a.
Arguments Throw {A} e.
Arguments Fatal {A} msg.
Arguments Undefined {A} what.

Definition bind {A B : Type} (c : outcome A) (k : A -> outcome B) : outcome B :=
  match c with
  | Done a => k a
  | Throw e => Throw e
  | Fatal s => Fatal s
  | Undefined s => Undefined s
  end.

Notation "x <- c ;; k" := (bind c (fun x => k))
  (at level 61, c at next level, right associativity).
Notation "' pat <- c ;; k" := (bind c (fun x => match x with pat => k end))
  (at level 61, pat pattern, c at next level, right associativity).

Definition throw {A : Type} (text : string) (args : list Z) : outcome A :=
  Throw (Err text args).

Definition is_Done {A : Type} (c : outcome A) : bool :=
  match c with Done _ => true | _ => false end.

Definition is_Throw {A : Type} (c : outcome A) : bool :=
  match c with Throw _ => true | _ => false end.

(* ================================================================= *)
(** ** Arrays *)

Definition len {A : Type} (l : list A) : Z := Z.of_nat (List.length l).

(** [a[i]] for a valid index. *)
Definition rd {A : Type} (l : list A) (i : Z) : option A :=
  if i <? 0 then None else nth_error l (Z.to_nat i).

(** [a[i] = v]; [None] when [i] is outside the array. *)
Definition upd {A : Type} (l : list A) (i : Z) (v : A) : option (list A) :=
  if (i <? 0) || (len l <=? i) then None
  else Some (firstn (Z.to_nat i) l ++ v :: skipn (S (Z.to_nat i)) l).

(** The same accesses inside a member function. *)
Definition load {A : Type} (what : string) (l : list A) (i : Z) : outcome A :=
  match rd l i with Some v => Done v | None => Undefined what end.

Definition store {A : Type} (what : string) (l : list A) (i : Z) (v : A)
  : outcome (list A) :=
  match upd l i v with Some l' => Done l' | None => Undefined what end.

(** Reads of data whose indices the source has already checked. *)
Definition getZ (l : list Z) (i : Z) : Z := nth (Z.to_nat i) l 0.
Definition getQ (l : list Q) (i : Z) : Q := nth (Z.to_nat i) l 0%Q.

(** [0, 1, ..., n-1] as loop indices. *)
Definition iota (n : Z) : list Z := map Z.of_nat (seq 0 (Z.to_nat n)).

(* ================================================================= *)
(** ** Record update *)

Class Setter {R T : Type} (proj : R -> T) := set : (T -> T) -> R -> R.
Arguments set {R T} proj {Setter} _ _.

Ltac make_setter eta :=
  match goal with
  | |- @Setter _ _ ?proj =>
      match eval pattern proj in eta with
      | ?s proj => exact (fun f => s (fun r => f (proj r)))
      end
  end.

#[warnings="-postfix-notation-not-level-1"]
Notation "m <| p := v |>" := (set p (fun _ => v) m)
  (at level 12, left associativity, p at level 0, format "m  <| p  :=  v |>").

(* ================================================================= *)
(** ** The mesh object *)

Definition vec3 : Type := Q * Q * Q.
Definition quat : Type := Q * Q * Q * Q.

Inductive mjtMeshType : Type := mjVOLUME_MESH | mjSHELL_MESH.

(** The members of [mjCMesh] that user_mesh.cc reads or writes.
    [warnings] is the stream of [mju_warning], kept with the object. *)
Record mjCMesh : Type := {
  (* options *)
  refpos : vec3;
  refquat : quat;
  scale : vec3;
  smoothnormal : bool;
  file : string;
  (* staging arrays *)
  uservert : list Q;
  usernormal : list Q;
  usertexcoord : list Q;
  userface : list Z;
  userfacenormal : list Z;
  userfacetexcoord : list Z;
  useredge : list (Z * Z);
  (* computed properties *)
  pos_surface : vec3;
  pos_volume : vec3;
  quat_surface : quat;
  quat_volume : quat;
  boxsz_surface : vec3;
  boxsz_volume : vec3;
  aabb : list Q;
  surface : Q;
  volume : Q;
  (* owned arrays *)
  nvert : Z;
  nnormal : Z;
  ntexcoord : Z;
  nface : Z;
  szgraph : Z;
  vert : option (list Q);
  normal : option (list Q);
  texcoord : option (list Q);
  face : option (list Z);
  facenormal : option (list Z);
  facetexcoord : option (list Z);
  graph : option (list Z);
  needhull : bool;
  (* validity *)
  invalidorientation : Z * Z;
  validarea : bool;
  validvolume : bool;
  valideigenvalue : bool;
  validinequality : bool;
  processed : bool;
  warnings : list string
}.

Definition eta_mjCMesh : mjCMesh -> mjCMesh := fun m =>
  Build_mjCMesh (refpos m) (refquat m) (scale m) (smoothnormal m) (file m)
    (uservert m) (usernormal m) (usertexcoord m) (userface m)
    (userfacenormal m) (userfacetexcoord m) (useredge m)
    (pos_surface m) (pos_volume m) (quat_surface m) (quat_volume m)
    (boxsz_surface m) (boxsz_volume m) (aabb m) (surface m) (volume m)
    (nvert m) (nnormal m) (ntexcoord m) (nface m) (szgraph m)
    (vert m) (normal m) (texcoord m) (face m) (facenormal m)
    (facetexcoord m) (graph m) (needhull m)
    (invalidorientation m) (validarea m) (validvolume m)
    (valideigenvalue m) (validinequality m) (processed m) (warnings m).

Ltac mesh_setter :=
  let e := eval unfold eta_mjCMesh in eta_mjCMesh in make_setter e.

#[global] Instance set_refpos : Setter refpos := ltac:(mesh_setter).
#[global] Instance set_refquat : Setter refquat := ltac:(mesh_setter).
#[global] Instance set_scale : Setter scale := ltac:(mesh_setter).
#[global] Instance set_smoothnormal : Setter smoothnormal := ltac:(mesh_setter).
#[global] Instance set_needhull : Setter needhull := ltac:(mesh_setter).
#[global] Instance set_file : Setter file := ltac:(mesh_setter).
#[global] Instance set_uservert : Setter uservert := ltac:(mesh_setter).
#[global] Instance set_usernormal : Setter usernormal := ltac:(mesh_setter).
#[global] Instance set_usertexcoord : Setter usertexcoord := ltac:(mesh_setter).
#[global] Instance set_userface : Setter userface := ltac:(mesh_setter).
#[global] Instance set_userfacenormal : Setter userfacenormal := ltac:(mesh_setter).
#[global] Instance set_userfacetexcoord : Setter userfacetexcoord := ltac:(mesh_setter).
#[global] Instance set_useredge : Setter useredge := ltac:(mesh_setter).
#[global] Instance set_pos_surface : Setter pos_surface := ltac:(mesh_setter).
#[global] Instance set_pos_volume : Setter pos_volume := ltac:(mesh_setter).
#[global] Instance set_quat_surface : Setter quat_surface := ltac:(mesh_setter).
#[global] Instance set_quat_volume : Setter quat_volume := ltac:(mesh_setter).
#[global] Instance set_boxsz_surface : Setter boxsz_surface := ltac:(mesh_setter).
#[global] Instance set_boxsz_volume : Setter boxsz_volume := ltac:(mesh_setter).
#[global] Instance set_aabb : Setter aabb := ltac:(mesh_setter).
#[global] Instance set_surface : Setter surface := ltac:(mesh_setter).
#[global] Instance set_volume : Setter volume := ltac:(mesh_setter).
#[global] Instance set_nvert : Setter nvert := ltac:(mesh_setter).
#[global] Instance set_nnormal : Setter nnormal := ltac:(mesh_setter).
#[global] Instance set_ntexcoord : Setter ntexcoord := ltac:(mesh_setter).
#[global] Instance set_nface : Setter nface := ltac:(mesh_setter).
#[global] Instance set_szgraph : Setter szgraph := ltac:(mesh_setter).
#[global] Instance set_vert : Setter vert := ltac:(mesh_setter).
#[global] Instance set_normal : Setter normal := ltac:(mesh_setter).
#[global] Instance set_texcoord : Setter texcoord := ltac:(mesh_setter).
#[global] Instance set_face : Setter face := ltac:(mesh_setter).
#[global] Instance set_facenormal : Setter facenormal := ltac:(mesh_setter).
#[global] Instance set_facetexcoord : Setter facetexcoord := ltac:(mesh_setter).
#[global] Instance set_graph : Setter graph := ltac:(mesh_setter).
#[global] Instance set_invalidorientation : Setter invalidorientation := ltac:(mesh_setter).
#[global] Instance set_validarea : Setter validarea := ltac:(mesh_setter).
#[global] Instance set_validvolume : Setter validvolume := ltac:(mesh_setter).
#[global] Instance set_valideigenvalue : Setter valideigenvalue := ltac:(mesh_setter).
#[global] Instance set_validinequality : Setter validinequality := ltac:(mesh_setter).
#[global] Instance set_processed : Setter processed := ltac:(mesh_setter).
#[global] Instance set_warnings : Setter warnings := ltac:(mesh_setter).

(** The constructor [mjCMesh::mjCMesh] without a default to copy from.
    The body of the constructor assigns neither [surface] nor [volume]:
    the object holds in them what its storage held before, [surface0] and
    [volume0]. *)
Definition mjCMesh_mjCMesh (surface0 volume0 : Q) : mjCMesh := {|
  refpos := (0, 0, 0)%Q;
  refquat := (1, 0, 0, 0)%Q;
  scale := (1, 1, 1)%Q;
  smoothnormal := false;
  file := "";
  uservert := [];
  usernormal := [];
  usertexcoord := [];
  userface := [];
  userfacenormal := [];
  userfacetexcoord := [];
  useredge := [];
  pos_surface := (0, 0, 0)%Q;
  pos_volume := (0, 0, 0)%Q;
  quat_surface := (1, 0, 0, 0)%Q;
  quat_volume := (1, 0, 0, 0)%Q;
  boxsz_surface := (0, 0, 0)%Q;
  boxsz_volume := (0, 0, 0)%Q;
  aabb := [10000000000; 10000000000; 10000000000;
           -10000000000; -10000000000; -10000000000]%Q;
  surface := surface0;
  volume := volume0;
  nvert := 0;
  nnormal := 0;
  ntexcoord := 0;
  nface := 0;
  szgraph := 0;
  vert := None;
  normal := None;
  texcoord := None;
  face := None;
  facenormal := None;
  facetexcoord := None;
  graph := None;
  needhull := false;
  invalidorientation := (-1, -1);
  validarea := true;
  validvolume := true;
  valideigenvalue := true;
  validinequality := true;
  processed := false;
  warnings := []
|}.

(** The object built in storage that held zeros.  The examples start from
    it; no statement depends on the two values. *)
Definition mjCMesh_new : mjCMesh := mjCMesh_mjCMesh 0%Q 0%Q.

(* ================================================================= *)
(** ** CheckMesh and the accessors *)

Definition CheckMesh (m : mjCMesh) : outcome unit :=
  if negb (processed m) then Done tt
  else if (fst (invalidorientation m) >=? 0) || (snd (invalidorientation m) >=? 0)
  then throw "faces of mesh '%s' have inconsistent orientation. Please check the faces containing the vertices %d and %d."
         [fst (invalidorientation m); snd (invalidorientation m)]
  else if negb (validarea m)
  then throw "mesh surface area is too small: %s" []
  else if negb (validvolume m)
  then throw "mesh volume is too small: %s" []
  else if negb (valideigenvalue m)
  then throw "eigenvalue of mesh inertia must be positive: %s" []
  else if negb (validinequality m)
  then throw "eigenvalues of mesh inertia violate A + B >= C: %s" []
  else Done tt.

Definition GetPosPtr (m : mjCMesh) (type : mjtMeshType) : vec3 :=
  match type with mjSHELL_MESH => pos_surface m | mjVOLUME_MESH => pos_volume m end.

Definition GetQuatPtr (m : mjCMesh) (type : mjtMeshType) : quat :=
  match type with mjSHELL_MESH => quat_surface m | mjVOLUME_MESH => quat_volume m end.

Definition GetInertiaBoxPtr (m : mjCMesh) (type : mjtMeshType) : outcome vec3 :=
  _ <- CheckMesh m ;;
  Done (match type with
        | mjSHELL_MESH => boxsz_surface m
        | mjVOLUME_MESH => boxsz_volume m
        end).

Definition GetVolumeRef (m : mjCMesh) (type : mjtMeshType) : outcome Q :=
  _ <- CheckMesh m ;;
  Done (match type with
        | mjSHELL_MESH => surface m
        | mjVOLUME_MESH => volume m
        end).

(** Writes through the references that the accessors return
    ([GetVolumeRef(type) = v], [boxsz[k] = ...], [GetPosPtr(type)],
    [GetQuatPtr(type)]). *)
Definition set_VolumeRef (m : mjCMesh) (type : mjtMeshType) (v : Q)
  : outcome mjCMesh :=
  _ <- CheckMesh m ;;
  Done (match type with
        | mjSHELL_MESH => m <| surface := v |>
        | mjVOLUME_MESH => m <| volume := v |>
        end).

Definition set_InertiaBox (m : mjCMesh) (type : mjtMeshType) (b : vec3)
  : outcome mjCMesh :=
  _ <- CheckMesh m ;;
  Done (match type with
        | mjSHELL_MESH => m <| boxsz_surface := b |>
        | mjVOLUME_MESH => m <| boxsz_volume := b |>
        end).

Definition set_Pos (m : mjCMesh) (type : mjtMeshType) (p : vec3) : mjCMesh :=
  match type with
  | mjSHELL_MESH => m <| pos_surface := p |>
  | mjVOLUME_MESH => m <| pos_volume := p |>
  end.

Definition set_Quat (m : mjCMesh) (type : mjtMeshType) (q : quat) : mjCMesh :=
  match type with
  | mjSHELL_MESH => m <| quat_surface := q |>
  | mjVOLUME_MESH => m <| quat_volume := q |>
  end.

(* ================================================================= *)
(** ** The convex-hull graph: MakeGraph and CopyGraph *)

(** What the code reads from Qhull after [qh_qhull], [qh_triangulate] and
    [qh_vertexneighbors].  A vertex is seen through [qh_pointid] of its
    point; [FORALLvertices] walks [vertex_list], [FORALLfacets] walks
    [facet_list], and [num_vertices], [num_facets] are their lengths. *)
Record facetT : Type := {
  vertices : list Z;      (* qh_pointid of the members of facet->vertices *)
  toporient : bool
}.

Record vertexT : Type := {
  point : Z;              (* qh_pointid(qh, vertex->point) *)
  neighbors : list facetT (* vertex->neighbors *)
}.

Record qhT : Type := {
  vertex_list : list vertexT;
  facet_list : list facetT
}.

Definition num_vertices (qh : qhT) : Z := len (vertex_list qh).
Definition num_facets (qh : qhT) : Z := len (facet_list qh).

Definition msg_not_triangle : string := "Qhull did not return triangle".
Definition msg_wrong_size : string := "Wrong size in convex hull graph".
Definition msg_id_not_found : string := "Vertex id not found in convex hull".
Definition msg_no_graph : string := "Could not construct convex hull graph".
Definition ub_graph_bounds : string := "access outside the graph array".
Definition ub_graph_freed : string := "access to the graph array after mju_free".
Definition ub_graph_null : string := "null graph dereferenced".

(** The locals of the fill loop: the graph buffer, [adr] and [ok]. *)
Record fill : Type := { g : list Z; adr : Z; ok : bool }.

(** [for (j=start; j<adr; j++) if (pid1==edge_localid[j]) break;]
    followed by the test [j>=adr]: true when [pid1] is already recorded. *)
Definition recorded (buf : list Z) (eoff start adr pid1 : Z) : bool :=
  existsb (fun j => getZ buf (eoff + j) =? pid1)
          (map (fun k => start + k) (iota (adr - start))).

(** [FOREACHsetelement_(vertexT, facet->vertices, vertex1)] of the fill
    loop; returns [cnt] and the locals.  [eoff] is the offset of
    [edge_localid] in the graph. *)
Fixpoint scan_facet (nv pid start eoff : Z) (vs : list Z) (cnt : Z) (s : fill)
  : outcome (Z * fill) :=
  match vs with
  | [] => Done (cnt, s)
  | pid1 :: vs' =>
      let cnt := cnt + 1 in
      if (pid1 <? 0) || (pid1 >=? nv)
      then Done (cnt, {| g := g s; adr := adr s; ok := false |})   (* break *)
      else if pid =? pid1 then scan_facet nv pid start eoff vs' cnt s
      else if recorded (g s) eoff start (adr s) pid1
      then scan_facet nv pid start eoff vs' cnt s
      else
        g' <- store ub_graph_bounds (g s) (eoff + adr s) pid1 ;;
        scan_facet nv pid start eoff vs' cnt
                   {| g := g'; adr := adr s + 1; ok := ok s |}
  end.

(** [FOREACHsetelement_(facetT, vertex->neighbors, facet)]. *)
Fixpoint scan_neighbors (nv pid start eoff : Z) (fs : list facetT) (s : fill)
  : outcome fill :=
  match fs with
  | [] => Done s
  | f :: fs' =>
      '(cnt, s') <- scan_facet nv pid start eoff (vertices f) 0 s ;;
      if negb (cnt =? 3) then Fatal msg_not_triangle
      else scan_neighbors nv pid start eoff fs' s'
  end.

(** [FORALLvertices] of the fill loop; [i] is the local id of the vertex. *)
Fixpoint fill_vertices (nv numvert : Z) (vl : list vertexT) (i : Z) (s : fill)
  : outcome fill :=
  match vl with
  | [] => Done s
  | v :: vl' =>
      let pid := point v in
      if (pid <? 0) || (pid >=? nv)
      then Done {| g := g s; adr := adr s; ok := false |}          (* break *)
      else
        g1 <- store ub_graph_bounds (g s) (2 + i) (adr s) ;;
        g2 <- store ub_graph_bounds g1 (2 + numvert + i) pid ;;
        s' <- scan_neighbors nv pid (adr s) (2 + 2 * numvert) (neighbors v)
                {| g := g2; adr := adr s; ok := ok s |} ;;
        g3 <- store ub_graph_bounds (g s') (2 + 2 * numvert + adr s') (-1) ;;
        fill_vertices nv numvert vl' (i + 1)
                      {| g := g3; adr := adr s' + 1; ok := ok s' |}
  end.

(** [int ind[3] = {0, 1, 2}], with the first two exchanged for a facet
    whose [toporient] is set. *)
Definition ind (f : facetT) (ii : Z) : Z :=
  if toporient f then (if ii =? 0 then 1 else if ii =? 1 then 0 else ii) else ii.

(** The copy of one facet into [face_globalid] ([foff] is its offset). *)
Fixpoint fill_facet (foff adr : Z) (f : facetT) (vs : list Z) (ii : Z)
  (buf : list Z) : outcome (list Z) :=
  match vs with
  | [] => Done buf
  | pid :: vs' =>
      if ii >=? 3 then Fatal msg_not_triangle
      else
        buf' <- store ub_graph_bounds buf (foff + adr + ind f ii) pid ;;
        fill_facet foff adr f vs' (ii + 1) buf'
  end.

(** [FORALLfacets]. *)
Fixpoint fill_facets (foff : Z) (fs : list facetT) (adr : Z) (buf : list Z)
  : outcome (list Z) :=
  match fs with
  | [] => Done buf
  | f :: fs' =>
      buf' <- fill_facet foff adr f (vertices f) 0 buf ;;
      fill_facets foff fs' (adr + 3) buf'
  end.

(** First [adr < numvert] with [vert_globalid[adr] == x]. *)
Fixpoint find_global (buf : list Z) (goff : Z) (x : Z) (cand : list Z) : option Z :=
  match cand with
  | [] => None
  | a :: cand' =>
      if getZ buf (goff + a) =? x then Some a else find_global buf goff x cand'
  end.

(** The loop that replaces global ids by local ids in [edge_localid]. *)
Fixpoint relabel (numvert : Z) (idx : list Z) (buf : list Z) : outcome (list Z) :=
  match idx with
  | [] => Done buf
  | i :: idx' =>
      e <- load ub_graph_bounds buf (2 + 2 * numvert + i) ;;
      if e >=? 0 then
        match find_global buf (2 + numvert) e (iota numvert) with
        | Some a =>
            buf' <- store ub_graph_bounds buf (2 + 2 * numvert + i) a ;;
            relabel numvert idx' buf'
        | None => Fatal msg_id_not_found
        end
      else relabel numvert idx' buf
  end.

(** The state of MakeGraph after the block "bad graph: delete": the object,
    the memory that the local pointers [edge_localid], [vert_globalid]
    still address, and whether that memory is still allocated. *)
Record built : Type := {
  b_mesh : mjCMesh;
  b_buf : list Z;
  b_live : bool;
  b_numvert : Z;
  b_numface : Z
}.

(** MakeGraph from the allocation of the graph to the block
    "bad graph: delete", for the hull [qh] that the engine built. *)
Definition MakeGraph_build (qh : qhT) (m : mjCMesh) : outcome built :=
  let numvert := num_vertices qh in
  let numface := num_facets qh in
  let sz := 2 + 3 * numvert + 6 * numface in
  let buf0 := numvert :: numface :: repeat 0 (Z.to_nat (sz - 2)) in
  s <- fill_vertices (nvert m) numvert (vertex_list qh) 0
         {| g := buf0; adr := 0; ok := true |} ;;
  if negb (adr s =? numvert + 3 * numface) then Fatal msg_wrong_size
  else
    buf <- fill_facets (2 + 3 * numvert + 3 * numface) (facet_list qh) 0 (g s) ;;
    if ok s
    then Done {| b_mesh := m <| szgraph := sz |> <| graph := Some buf |>;
                 b_buf := buf; b_live := true;
                 b_numvert := numvert; b_numface := numface |}
    else Done {| b_mesh := m <| szgraph := 0 |> <| graph := None |>
                              <| warnings := warnings m ++ [msg_no_graph] |>;
                 b_buf := buf; b_live := false;
                 b_numvert := numvert; b_numface := numface |}.

(** The rest of MakeGraph: the relabelling loop runs through the local
    pointers whether or not the graph was released. *)
Definition MakeGraph_relabel (b : built) : outcome mjCMesh :=
  let n := b_numvert b + 3 * b_numface b in
  if b_live b then
    buf <- relabel (b_numvert b) (iota n) (b_buf b) ;;
    Done ((b_mesh b) <| graph := Some buf |>)
  else if 0 <? n then Undefined ub_graph_freed
  else Done (b_mesh b).

(** [mjCMesh::MakeGraph]; [answer] is what the engine did with the
    vertices: [None] when it left through its error exit. *)
Definition MakeGraph_with (answer : option qhT) (m : mjCMesh) : outcome mjCMesh :=
  if nvert m <? 4 then Done m
  else
    match answer with
    | Some qh => b <- MakeGraph_build qh m ;; MakeGraph_relabel b
    | None => throw "qhull error" []
    end.

(** [mjCMesh::CopyGraph]. *)
Fixpoint copy_faces (buf : list Z) (base : Z) (idx : list Z) : outcome (list Z) :=
  match idx with
  | [] => Done []
  | i :: idx' =>
      a <- load ub_graph_bounds buf (base + 3 * i) ;;
      b <- load ub_graph_bounds buf (base + 3 * i + 1) ;;
      c <- load ub_graph_bounds buf (base + 3 * i + 2) ;;
      rest <- copy_faces buf base idx' ;;
      Done (a :: b :: c :: rest)
  end.

Definition CopyGraph (m : mjCMesh) : outcome mjCMesh :=
  match face m with
  | Some _ => Done m
  | None =>
      match graph m with
      | None => Undefined ub_graph_null
      | Some buf =>
          numvert <- load ub_graph_bounds buf 0 ;;
          nf <- load ub_graph_bounds buf 1 ;;
          fs <- copy_faces buf (2 + 3 * numvert + 3 * nf) (iota nf) ;;
          Done (m <| nface := nf |> <| face := Some fs |>)
      end
  end.

(** A tetrahedron as Qhull reports it, and two damaged variants: one facet
    with four vertices, and one facet that names a point that does not
    exist. *)
Definition tri (a b c : Z) : facetT := {| vertices := [a; b; c]; toporient := false |}.

Definition hull_tetra : qhT := {|
  vertex_list := [
    {| point := 0; neighbors := [tri 0 1 2; tri 0 1 3; tri 0 2 3] |};
    {| point := 1; neighbors := [tri 0 1 2; tri 0 1 3; tri 1 2 3] |};
    {| point := 2; neighbors := [tri 0 1 2; tri 0 2 3; tri 1 2 3] |};
    {| point := 3; neighbors := [tri 0 1 3; tri 0 2 3; tri 1 2 3] |} ];
  facet_list := [tri 0 1 2; tri 0 1 3; tri 0 2 3; tri 1 2 3]
|}.

Definition quad_facet : facetT := {| vertices := [0; 1; 2; 3]; toporient := false |}.

Definition hull_quad : qhT := {|
  vertex_list := [
    {| point := 0; neighbors := [quad_facet; tri 0 1 3; tri 0 2 3] |};
    {| point := 1; neighbors := [quad_facet; tri 0 1 3; tri 1 2 3] |};
    {| point := 2; neighbors := [quad_facet; tri 0 2 3; tri 1 2 3] |};
    {| point := 3; neighbors := [tri 0 1 3; tri 0 2 3; tri 1 2 3] |} ];
  facet_list := [quad_facet; tri 0 1 3; tri 0 2 3; tri 1 2 3]
|}.

Definition hull_bad_id : qhT := {|
  vertex_list := [
    {| point := 0; neighbors := [tri 0 1 2; tri 0 3 99] |} ];
  facet_list := [tri 0 1 2]
|}.

Definition mesh4 : mjCMesh := mjCMesh_new <| nvert := 4 |>
  <| vert := Some [0; 0; 0; 1; 0; 0; 0; 1; 0; 0; 0; 1]%Q |>.

(** Properties of a hull that the statements below speak about: every
    point id that the fill loop can read lies in [[0, nv)], and some facet
    next to a hull vertex is not a triangle. *)
Definition id_ok (nv pid : Z) : bool := negb ((pid <? 0) || (pid >=? nv)).

Definition facet_ids_ok (nv : Z) (f : facetT) : bool :=
  forallb (id_ok nv) (vertices f).

Definition vertex_ids_ok (nv : Z) (v : vertexT) : bool :=
  id_ok nv (point v) && forallb (facet_ids_ok nv) (neighbors v).

Definition hull_ids_ok (nv : Z) (qh : qhT) : bool :=
  forallb (vertex_ids_ok nv) (vertex_list qh).

Definition is_triangle (f : facetT) : bool := len (vertices f) =? 3.

Definition hull_triangles (qh : qhT) : bool :=
  forallb (fun v => forallb is_triangle (neighbors v)) (vertex_list qh).

(* ================================================================= *)
(** ** The engine and the libraries that user_mesh.cc calls *)

(** The OBJ file as tinyobj's [ObjReader] returns it: [attrib] and the
    mesh of the first shape, its [indices] grouped face by face according
    to [num_face_vertices]. *)
Record index_t : Type := {
  vertex_index : Z;
  normal_index : Z;
  texcoord_index : Z
}.

Record ObjData : Type := {
  attrib_vertices : list Q;
  attrib_normals : list Q;
  attrib_texcoords : list Q;
  shapes0 : option (list (list index_t))  (* None: GetShapes() is empty *)
}.

Inductive mesh_ext : Type := ext_stl | ext_obj | ext_msh | ext_other.

(** Everything user_mesh.cc takes from outside this file. *)
Class Externals : Type := {
  mjMINVAL : Q;                         (* mjmodel.h *)
  mju_sqrt : Q -> Q;                    (* sqrt, sqrtf *)
  mju_normalize3 : vec3 -> vec3 * Q;    (* normalised vector, old length *)
  mju_normalize4 : quat -> quat;
  mju_quat2Mat : quat -> list Q;
  mju_rotVecMatT : vec3 -> list Q -> vec3;
  mjuu_quat2mat : quat -> list Q;
  mjuu_mulvecmat : vec3 -> list Q -> vec3;
  mju_eig3 : list Q -> vec3 * list Q * quat;   (* eigval, eigvec, quat *)
  qh_qhull : list Q -> Z -> option qhT; (* None: error exit of Qhull *)
  mjQUICKSORT : (Z -> Z -> comparison) -> list Z -> list Z;
  mjuu_strippath : string -> string;
  file_ext : string -> mesh_ext;        (* strcasecmp on mjuu_getext(file) *)
  open_file : string -> option (list byte);  (* VFS, then the file system *)
  is_skn : string -> bool;              (* strcasecmp on mjuu_getext(file) *)
  find_body : string -> option Z;       (* model->FindObject(mjOBJ_BODY, ..) *)
  find_material : string -> option Z;   (* model->FindObject(mjOBJ_MATERIAL, ..) *)
  obj_reader : string -> option ObjData (* None: !objReader.Valid() *)
}.

(** The fields of [mjCModel] and of the default class that the mesh
    compiler reads. *)
Record mjCModel : Type := {
  strippath : bool;
  convexhull : bool;
  exactmeshinertia : bool;
  geom_density : Q                      (* def->geom.density *)
}.

(* ================================================================= *)
(** ** Numbers *)

#[local] Open Scope Q_scope.

Definition Qlt_bool (a b : Q) : bool := negb (Qle_bool b a).
Definition Qgt_bool (a b : Q) : bool := Qlt_bool b a.
Definition Qmin (a b : Q) : Q := if Qlt_bool a b then a else b.
Definition Qmax (a b : Q) : Q := if Qlt_bool b a then a else b.

Definition vadd (a b : vec3) : vec3 :=
  let '(a0, a1, a2) := a in let '(b0, b1, b2) := b in (a0 + b0, a1 + b1, a2 + b2).
Definition vsub (a b : vec3) : vec3 :=
  let '(a0, a1, a2) := a in let '(b0, b1, b2) := b in (a0 - b0, a1 - b1, a2 - b2).
Definition vmul (a b : vec3) : vec3 :=
  let '(a0, a1, a2) := a in let '(b0, b1, b2) := b in (a0 * b0, a1 * b1, a2 * b2).
Definition vscl (k : Q) (a : vec3) : vec3 :=
  let '(a0, a1, a2) := a in (k * a0, k * a1, k * a2).
Definition vdiv (a : vec3) (k : Q) : vec3 :=
  let '(a0, a1, a2) := a in (a0 / k, a1 / k, a2 / k).
Definition vcomp (a : vec3) (k : Z) : Q :=
  let '(a0, a1, a2) := a in if (k =? 0)%Z then a0 else if (k =? 1)%Z then a1 else a2.
Definition veqb (a b : vec3) : bool :=
  let '(a0, a1, a2) := a in let '(b0, b1, b2) := b in
  Qeq_bool a0 b0 && Qeq_bool a1 b1 && Qeq_bool a2 b2.

(** [mju_dot3], [mjuu_dot3], [mju_cross], [mju_norm3]. *)
Definition dot3 (a b : vec3) : Q :=
  let '(a0, a1, a2) := a in let '(b0, b1, b2) := b in a0 * b0 + a1 * b1 + a2 * b2.
Definition mju_cross (a b : vec3) : vec3 :=
  let '(a0, a1, a2) := a in let '(b0, b1, b2) := b in
  (a1 * b2 - a2 * b1, a2 * b0 - a0 * b2, a0 * b1 - a1 * b0).

(** The three coordinates at [p + 3*i]. *)
Definition vtx (p : list Q) (i : Z) : vec3 :=
  (getQ p (3 * i), getQ p (3 * i + 1), getQ p (3 * i + 2))%Z.

(** A store to a [float] array: the value is kept, in lowest terms. *)
Definition to_float (x : Q) : Q := Qred x.

(** The [float] array [p] with [f] applied to each of its first [n]
    triples. *)
Fixpoint map3 (f : vec3 -> vec3) (n : nat) (p : list Q) : list Q :=
  match n, p with
  | S n', x :: y :: z :: p' =>
      let '(x', y', z') := f (x, y, z) in
      to_float x' :: to_float y' :: to_float z' :: map3 f n' p'
  | _, _ => p
  end.

Section Engine.
Context {E : Externals}.

Definition mju_norm3 (a : vec3) : Q := mju_sqrt (dot3 a a).

(** [_triangle]: the area, with [normal] and [center] as results. *)
Definition _triangle (v1 v2 v3 : vec3) : Q * vec3 * vec3 :=
  let center := vdiv (vadd (vadd v1 v2) v3) 3 in
  let normal := mju_cross (vsub v2 v1) (vsub v3 v1) in
  let len := mju_norm3 normal in
  if Qlt_bool len mjMINVAL then (0, normal, center)
  else (len / 2, vdiv normal len, center).

Definition tri_area (v1 v2 v3 : vec3) : Q := fst (fst (_triangle v1 v2 v3)).

End Engine.

(* ================================================================= *)
(** ** File buffers *)

#[local] Close Scope Q_scope.

Definition byteZ (b : byte) : Z := Z.of_N (Byte.to_N b).

Definition byte_at (buf : list byte) (off : Z) : Z :=
  byteZ (nth (Z.to_nat off) buf x00).

(** [*(unsigned int* )(buffer+off)] on a little-endian host. *)
Definition u32_at (buf : list byte) (off : Z) : Z :=
  byte_at buf off + 256 * byte_at buf (off + 1)
  + 65536 * byte_at buf (off + 2) + 16777216 * byte_at buf (off + 3).

(** Conversion of an [unsigned int] to [int]. *)
Definition to_int (u : Z) : Z := if u <? 2 ^ 31 then u else u - 2 ^ 32.

(** [((int* )buffer)[k]] and the [int] at a byte offset. *)
Definition i32_at (buf : list byte) (off : Z) : Z := to_int (u32_at buf off).

(** Signed 32-bit arithmetic with the overflow of the hardware, and the
    conversion of an [int] to the 64-bit [size_t]. *)
Definition wrap32 (z : Z) : Z := to_int (z mod 2 ^ 32).
Definition to_size_t (z : Z) : Z := z mod 2 ^ 64.

(** A [float] in memory: sign, biased exponent and mantissa of the
    binary32 pattern [w]. *)
Definition f32_sign (w : Z) : bool := Z.testbit w 31.
Definition f32_exp (w : Z) : Z := Z.land (Z.shiftr w 23) 255.
Definition f32_man (w : Z) : Z := Z.land w (2 ^ 23 - 1).

Definition f32_isnan (w : Z) : bool := (f32_exp w =? 255) && negb (f32_man w =? 0).
Definition f32_isinf (w : Z) : bool := (f32_exp w =? 255) && (f32_man w =? 0).

(** The number that a finite pattern denotes.  The patterns with exponent
    255 denote no number.  LoadSTL tests [isnan] and [isinf] before it
    uses a value; LoadMSH and LoadSKN copy every pattern as it is, and the
    rational that the formula gives to an infinity or a NaN in their
    coordinate arrays stands for no number: the statements about these two
    loaders speak of counts, sizes and indices only.  (The bone weights of
    LoadSKN are read through [f32_of_bits], which keeps infinities and
    NaN.) *)
Definition f32_mag (w : Z) : Q :=
  let e := f32_exp w in
  let s := if e =? 0 then f32_man w else 2 ^ 23 + f32_man w in
  let p := if e =? 0 then -149 else e - 150 in
  if 0 <=? p then inject_Z (s * 2 ^ p) else Qmake s (Z.to_pos (2 ^ (- p))).

Definition f32_value (w : Z) : Q :=
  Qred (if f32_sign w then Qopp (f32_mag w) else f32_mag w).

Definition f32_at (buf : list byte) (off : Z) : Z := u32_at buf off.

(** [n] consecutive values starting at byte [off]. *)
Definition floats_at (buf : list byte) (off n : Z) : list Q :=
  map (fun k => f32_value (f32_at buf (off + 4 * k))) (iota n).
Definition ints_at (buf : list byte) (off n : Z) : list Z :=
  map (fun k => i32_at buf (off + 4 * k)) (iota n).

(** Little-endian encodings, for writing buffers down. *)
Definition byte_of_Z (z : Z) : byte :=
  match Byte.of_N (Z.to_N (z mod 256)) with Some b => b | None => x00 end.
Definition le32 (z : Z) : list byte :=
  [byte_of_Z z; byte_of_Z (z / 256); byte_of_Z (z / 65536); byte_of_Z (z / 16777216)].
Definition le32s (zs : list Z) : list byte := flat_map le32 zs.

(** Bit patterns of a few [float] values. *)
Definition f32_0 : Z := 0.
Definition f32_1 : Z := 0x3F800000.
Definition f32_2 : Z := 0x40000000.
Definition f32_nan : Z := 0x7FC00000.
Definition f32_inf : Z := 0x7F800000.
Definition f32_2p31 : Z := 0x4F000000.

(* ================================================================= *)
(** ** Arithmetic on [float] *)

(** A [float] as a value: a finite number with its sign (which tells -0
    from +0), an infinity, or a NaN (the payload is not kept).  [mag] is
    the magnitude, a rational that binary32 has. *)
Inductive float32 : Type :=
| F_num (neg : bool) (mag : Q)
| F_inf (neg : bool)
| F_nan.

(** The value of a bit pattern, and the real number of a finite value. *)
Definition f32_of_bits (w : Z) : float32 :=
  if f32_exp w =? 255
  then (if f32_man w =? 0 then F_inf (f32_sign w) else F_nan)
  else F_num (f32_sign w) (Qred (f32_mag w)).

Definition signedQ (neg : bool) (mag : Q) : Q :=
  if neg then Qopp mag else mag.

Definition f32_real (x : float32) : option Q :=
  match x with
  | F_num s a => Some (signedQ s a)
  | _ => None
  end.

(** [2^k] for an integer [k], and [floor (log2 q)] for [q > 0]. *)
Definition pow2 (k : Z) : Q :=
  if 0 <=? k then inject_Z (2 ^ k) else Qmake 1 (Z.to_pos (2 ^ (- k))).

Definition ilog2 (q : Q) : Z :=
  let k := Z.log2 (Qnum q) - Z.log2 (Zpos (Qden q)) in
  if Qle_bool (pow2 k) q then k else k - 1.

(** The integer nearest to [q >= 0], the even one of two at the same
    distance. *)
Definition round_half_even (q : Q) : Z :=
  let n := Qnum q in
  let d := Zpos (Qden q) in
  let f := n / d in
  match (2 * (n mod d)) ?= d with
  | Lt => f
  | Gt => f + 1
  | Eq => if Z.even f then f else f + 1
  end.

(** Rounding of the magnitude [q >= 0] to binary32, to nearest and ties to
    even: 24 bits of precision, the least exponent -149 (subnormal
    numbers), and an infinity from [2^128] on. *)
Definition round32 (neg : bool) (q : Q) : float32 :=
  if Qeq_bool q 0 then F_num neg 0
  else
    let e := Z.max (ilog2 q - 23) (-149) in
    let r := (inject_Z (round_half_even (q / pow2 e)) * pow2 e)%Q in
    if Qle_bool (pow2 128) r then F_inf neg else F_num neg (Qred r).

(** [a + b] on two [float]. *)
Definition f32_add (a b : float32) : float32 :=
  match a, b with
  | F_nan, _ | _, F_nan => F_nan
  | F_inf s, F_inf t => if Bool.eqb s t then F_inf s else F_nan
  | F_inf s, F_num _ _ => F_inf s
  | F_num _ _, F_inf t => F_inf t
  | F_num s x, F_num t y =>
      let r := (signedQ s x + signedQ t y)%Q in
      if Qeq_bool r 0 then F_num (s && t) 0
      else round32 (Qlt_bool r 0) (Qabs r)
  end.

(** [a / b] on two [float]. *)
Definition f32_div (a b : float32) : float32 :=
  match a, b with
  | F_nan, _ | _, F_nan => F_nan
  | F_inf _, F_inf _ => F_nan
  | F_inf s, F_num t _ => F_inf (xorb s t)
  | F_num s _, F_inf t => F_num (xorb s t) 0
  | F_num s x, F_num t y =>
      if Qeq_bool y 0
      then (if Qeq_bool x 0 then F_nan else F_inf (xorb s t))
      else round32 (xorb s t) (x / y)%Q
  end.

(** [a <= c] for a [float] and a [double] constant: false for a NaN. *)
Definition f32_le (a : float32) (c : Q) : bool :=
  match a with
  | F_nan => false
  | F_inf s => s
  | F_num s x => Qle_bool (signedQ s x) c
  end.

(** [n] consecutive [float] starting at byte [off]. *)
Definition f32s_at (buf : list byte) (off n : Z) : list float32 :=
  map (fun k => f32_of_bits (f32_at buf (off + 4 * k))) (iota n).

(** Reads and total updates of an array of [float]. *)
Definition getF (l : list float32) (i : Z) : float32 :=
  nth (Z.to_nat i) l (F_num false 0).
Definition putF (l : list float32) (i : Z) (v : float32) : list float32 :=
  match upd l i v with Some l' => l' | None => l end.

(* ================================================================= *)
(** ** RemoveRepeated *)

Section Loaders.
Context {E : Externals}.

(** The sort key of [vertcompare] and the comparison itself. *)
Definition vertkey (vert : list Q) (el : Z) : Q :=
  (getQ vert (3 * el) + (1 # 100) * getQ vert (1 + 3 * el)
   + (1 # 10000) * getQ vert (2 + 3 * el))%Q.

Definition vertcompare (vert : list Q) (el1 el2 : Z) : comparison :=
  if Qlt_bool (vertkey vert el1) (vertkey vert el2) then Lt
  else if Qeq_bool (vertkey vert el1) (vertkey vert el2) then Eq
  else Gt.

(** Total update of a cell that the source addresses through an index it
    has produced itself. *)
Definition putZ (l : list Z) (i : Z) (v : Z) : list Z :=
  match upd l i v with Some l' => l' | None => l end.
Definition putQ (l : list Q) (i : Z) (v : Q) : list Q :=
  match upd l i v with Some l' => l' | None => l end.

(** "find repeated vertices, set redirect": the loop over [i = 1..nvert-1];
    [prev] is [index[i-1]] and [rest] the tail of [index] from [i] on.
    Returns [redirect] and [repeated]. *)
Fixpoint find_repeated (vert : list Q) (prev : Z) (rest : list Z)
  (redirect : list Z) (repeated : Z) : list Z * Z :=
  match rest with
  | [] => (redirect, repeated)
  | cur :: rest' =>
      if veqb (vtx vert cur) (vtx vert prev)
      then find_repeated vert cur rest' (putZ redirect cur prev) (repeated + 1)
      else find_repeated vert cur rest' redirect repeated
  end.

(** [while (redirect[j]!=j) j = redirect[j];]  [None] when the chain has
    not ended after [fuel] steps. *)
Fixpoint chase (redirect : list Z) (j : Z) (fuel : nat) : option Z :=
  if getZ redirect j =? j then Some j
  else match fuel with
       | O => None
       | S fuel' => chase redirect (getZ redirect j) fuel'
       end.

(** "track redirections until non-redirected vertex, set". *)
Fixpoint resolve (idx : list Z) (redirect : list Z) : outcome (list Z) :=
  match idx with
  | [] => Done redirect
  | i :: idx' =>
      match chase redirect i (List.length redirect) with
      | Some j => resolve idx' (putZ redirect i j)
      | None => Undefined "redirection chain without end"
      end
  end.

(** "find good vertices, compress": returns [index], [vert] and [j]. *)
Fixpoint compress (idx : list Z) (redirect index : list Z) (vert : list Q) (j : Z)
  : list Z * list Q * Z :=
  match idx with
  | [] => (index, vert, j)
  | i :: idx' =>
      if getZ redirect i =? i
      then
        let '(x, y, z) := vtx vert i in
        let vert' := putQ (putQ (putQ vert (3 * j) x) (3 * j + 1) y) (3 * j + 2) z in
        compress idx' redirect (putZ index i j) vert' (j + 1)
      else compress idx' redirect (putZ index i (-1)) vert j
  end.

(** "recompute face data to reflect compressed vertices". *)
Fixpoint reface (redirect index : list Z) (limit : Z) (fs : list Z)
  : outcome (list Z) :=
  match fs with
  | [] => Done []
  | f :: fs' =>
      let f' := getZ index (getZ redirect f) in
      if (f' <? 0) || (f' >=? limit)
      then throw "error removing vertices from mesh '%s'" []
      else rest <- reface redirect index limit fs' ;; Done (f' :: rest)
  end.

Definition RemoveRepeated (m : mjCMesh) : outcome mjCMesh :=
  match vert m, face m with
  | Some v, Some fs =>
      let n := nvert m in
      let index := mjQUICKSORT (vertcompare v) (iota n) in
      let '(redirect, repeated) :=
        match index with
        | [] => (iota n, 0)
        | first :: rest => find_repeated v first rest (iota n) 0
        end in
      if repeated =? 0 then Done m
      else
        redirect' <- resolve (iota n) redirect ;;
        let '(index', v', _) := compress (iota n) redirect' index v 0 in
        fs' <- reface redirect' index' (n - repeated)
                 (firstn (Z.to_nat (3 * nface m)) fs) ;;
        let fs'' := fs' ++ skipn (Z.to_nat (3 * nface m)) fs in
        Done (m <| face := Some fs'' |> <| nvert := n - repeated |>
                <| vert := Some (firstn (Z.to_nat (3 * (n - repeated))) v') |>)
  | _, _ => Undefined "null vert or face in RemoveRepeated"
  end.

(* ================================================================= *)
(** ** LoadSTL *)

Definition righthand (m : mjCMesh) : bool :=
  let '(s0, s1, s2) := scale m in Qgt_bool (s0 * s1 * s2) 0.

Definition msg_stl_open : string := "could not open STL file '%s'".
Definition msg_stl_empty : string := "STL file '%s' is empty".
Definition msg_stl_header : string := "invalid header in STL file '%s'".
Definition msg_stl_nface : string :=
  "number of faces should be between 1 and 200000 in STL file '%s'; perhaps this is an ASCII file?".
Definition msg_stl_size : string :=
  "STL file '%s' has wrong size; perhaps this is an ASCII file?".
Definition msg_stl_invalid : string := "STL file '%s' contains invalid vertices.".
Definition msg_stl_bounds : string :=
  "vertex coordinates in STL file '%s' exceed maximum bounds".

(** The two tests on [v[k]], for the coordinates at byte [off], [off+4],
    [off+8] of the buffer, in the order of the source. *)
Fixpoint stl_check (buf : list byte) (off : Z) (ks : list Z) : outcome unit :=
  match ks with
  | [] => Done tt
  | k :: ks' =>
      let w := f32_at buf (off + 4 * k) in
      if f32_isnan w || f32_isinf w then throw msg_stl_invalid []
      else if Qlt_bool (2 ^ 30) (Qabs (f32_value w)) then throw msg_stl_bounds []
      else stl_check buf off ks'
  end.

(** The locals that the vertex loop updates. *)
Record stl_state : Type := { s_face : list Z; s_vert : list Q; s_nvert : Z }.

(** The body of the loops over [i] and [j], for the corners [ij]. *)
Fixpoint stl_corners (rh : bool) (buf : list byte) (ij : list (Z * Z)) (s : stl_state)
  : outcome stl_state :=
  match ij with
  | [] => Done s
  | (i, j) :: ij' =>
      let off := 84 + 50 * i + 12 * (j + 1) in
      _ <- stl_check buf off [0; 1; 2] ;;
      f' <- store "face array of LoadSTL" (s_face s)
              (if rh || (j =? 0) then 3 * i + j else 3 * i + 3 - j) (s_nvert s) ;;
      v1 <- store "vert array of LoadSTL" (s_vert s)
              (3 * s_nvert s) (f32_value (f32_at buf off)) ;;
      v2 <- store "vert array of LoadSTL" v1
              (3 * s_nvert s + 1) (f32_value (f32_at buf (off + 4))) ;;
      v3 <- store "vert array of LoadSTL" v2
              (3 * s_nvert s + 2) (f32_value (f32_at buf (off + 8))) ;;
      stl_corners rh buf ij' {| s_face := f'; s_vert := v3; s_nvert := s_nvert s + 1 |}
  end.

Definition corners (n : Z) : list (Z * Z) :=
  flat_map (fun i => [(i, 0); (i, 1); (i, 2)]) (iota n).

(** LoadSTL up to the call of RemoveRepeated. *)
Definition LoadSTL_emit (m : mjCMesh) : outcome mjCMesh :=
  let rh := righthand m in
  match open_file (file m) with
  | None => throw msg_stl_open []
  | Some buffer =>
      let buffer_sz := len buffer in
      if buffer_sz =? 0 then throw msg_stl_empty []
      else if buffer_sz <? 84 then throw msg_stl_header []
      else
        let nf := to_int (u32_at buffer 80) in
        if (nf <? 1) || (nf >? 200000) then throw msg_stl_nface []
        else if negb (nf * 50 =? buffer_sz - 84) then throw msg_stl_size []
        else
          s <- stl_corners rh buffer (corners nf)
                 {| s_face := repeat 0 (Z.to_nat (3 * nf));
                    s_vert := repeat 0%Q (Z.to_nat (9 * nf));
                    s_nvert := nvert m |} ;;
          Done (m <| nface := nf |> <| face := Some (s_face s) |>
                  <| vert := Some (s_vert s) |> <| nvert := s_nvert s |>)
  end.

Definition LoadSTL (m : mjCMesh) : outcome mjCMesh :=
  m' <- LoadSTL_emit m ;; RemoveRepeated m'.

(** What a valid STL file holds: the coordinates that pass the tests of
    the loader, the vertices in the order of the file (one per face
    corner), and the faces over them for either handedness. *)
Definition stl_coord_ok (w : Z) : bool :=
  negb (f32_isnan w || f32_isinf w)
  && negb (Qlt_bool (2 ^ 30) (Qabs (f32_value w))).

Definition stl_corner_ok (buf : list byte) (i j : Z) : bool :=
  let off := 84 + 50 * i + 12 * (j + 1) in
  stl_coord_ok (f32_at buf off) && stl_coord_ok (f32_at buf (off + 4))
  && stl_coord_ok (f32_at buf (off + 8)).

Definition stl_tri_ok (buf : list byte) (i : Z) : bool :=
  stl_corner_ok buf i 0 && stl_corner_ok buf i 1 && stl_corner_ok buf i 2.

Definition stl_corner_vert (buf : list byte) (i j : Z) : list Q :=
  let off := 84 + 50 * i + 12 * (j + 1) in
  [f32_value (f32_at buf off); f32_value (f32_at buf (off + 4));
   f32_value (f32_at buf (off + 8))].

Definition stl_tri_vert (buf : list byte) (i : Z) : list Q :=
  stl_corner_vert buf i 0 ++ stl_corner_vert buf i 1 ++ stl_corner_vert buf i 2.

Definition stl_tri_face (rh : bool) (i : Z) : list Z :=
  if rh then [3 * i; 3 * i + 1; 3 * i + 2] else [3 * i; 3 * i + 2; 3 * i + 1].

Definition stl_valid (buf : list byte) (n : Z) : bool :=
  forallb (stl_tri_ok buf) (iota n).
Definition stl_vertices (buf : list byte) (n : Z) : list Q :=
  flat_map (stl_tri_vert buf) (iota n).
Definition stl_faces (rh : bool) (n : Z) : list Z :=
  flat_map (stl_tri_face rh) (iota n).

(** An STL file of one triangle, and the same file with a NaN. *)
Definition stl_record (coords : list Z) : list byte :=
  le32s [0; 0; 0] ++ le32s coords ++ [x00; x00].

Definition stl_file (records : list (list Z)) : list byte :=
  repeat x00 80 ++ le32 (len records) ++ flat_map stl_record records.

Definition stl_one : list byte :=
  stl_file [[f32_0; f32_0; f32_0; f32_1; f32_0; f32_0; f32_0; f32_1; f32_0]].

Definition stl_nan : list byte :=
  stl_file [[f32_0; f32_0; f32_0; f32_1; f32_nan; f32_0; f32_0; f32_1; f32_0]].

Definition stl_big : list byte :=
  stl_file [[f32_0; f32_0; f32_0; f32_2p31; f32_0; f32_0; f32_0; f32_1; f32_0]].

(** Two triangles with a common edge, (A, B, C) and (A, C, D) over
    A = (0, 0, 0), B = (1, 0, 0), C = (0, 1, 0), D = (0, 0, 1); and two
    triangles (A, B', C'), (A, D', E') with the common corner A and
    B' = (1, -100, 0), which has the sort key of A, C' = (5, 0, 0),
    D' = (6, 0, 0), E' = (7, 0, 0). *)
Definition f32_m100 : Z := 0xC2C80000.
Definition f32_5 : Z := 0x40A00000.
Definition f32_6 : Z := 0x40C00000.
Definition f32_7 : Z := 0x40E00000.

Definition stl_two : list byte :=
  stl_file [[f32_0; f32_0; f32_0; f32_1; f32_0; f32_0; f32_0; f32_1; f32_0];
            [f32_0; f32_0; f32_0; f32_0; f32_1; f32_0; f32_0; f32_0; f32_1]].

Definition stl_tied : list byte :=
  stl_file [[f32_0; f32_0; f32_0; f32_1; f32_m100; f32_0; f32_5; f32_0; f32_0];
            [f32_0; f32_0; f32_0; f32_6; f32_0; f32_0; f32_7; f32_0; f32_0]].

(* ================================================================= *)
(** ** LoadMSH *)

Definition msg_msh_open : string := "could not open MSH file '%s'".
Definition msg_msh_empty : string := "MSH file '%s' is empty".
Definition msg_msh_header : string := "missing header in MSH file '%s'".
Definition msg_msh_sizes : string := "invalid sizes in MSH file '%s'".
Definition msg_msh_filesize : string := "unexpected file size in MSH file '%s'".

(** [k*n*sizeof(float)]: the product [k*n] is an [int], the result a
    [size_t]. *)
Definition msh_bytes (k n : Z) : Z := to_size_t (to_size_t (wrap32 (k * n)) * 4).

(** The right-hand side of the file size test. *)
Definition msh_size (nv nn nt nf : Z) : Z :=
  to_size_t (16 + msh_bytes 3 nv + msh_bytes 3 nn + msh_bytes 2 nt + msh_bytes 3 nf).

(** The array [fs] with the 2nd and 3rd entry of each of its first [n]
    triples exchanged. *)
Fixpoint swap_faces (n : nat) (fs : list Z) : list Z :=
  match n, fs with
  | S n', a :: b :: c :: fs' => a :: c :: b :: swap_faces n' fs'
  | _, _ => fs
  end.

(** [memcpy] of [bytes] bytes out of the buffer, starting at [off]. *)
Definition msh_floats (buf : list byte) (off bytes : Z) : outcome (list Q) :=
  if off + bytes <=? len buf then Done (floats_at buf off (bytes / 4))
  else Undefined "memcpy past the end of the MSH buffer".
Definition msh_ints (buf : list byte) (off bytes : Z) : outcome (list Z) :=
  if off + bytes <=? len buf then Done (ints_at buf off (bytes / 4))
  else Undefined "memcpy past the end of the MSH buffer".

Definition LoadMSH (m : mjCMesh) : outcome mjCMesh :=
  let rh := righthand m in
  match open_file (file m) with
  | None => throw msg_msh_open []
  | Some buffer =>
      let buffer_sz := len buffer in
      if buffer_sz =? 0 then throw msg_msh_empty []
      else if buffer_sz <? 16 then throw msg_msh_header []
      else
        let nv := i32_at buffer 0 in
        let nn := i32_at buffer 4 in
        let nt := i32_at buffer 8 in
        let nf := i32_at buffer 12 in
        if (nv <? 4) || (nf <? 0) || (nn <? 0) || (nt <? 0)
           || ((nn >? 0) && negb (nn =? nv))
           || ((nt >? 0) && negb (nt =? nv))
        then throw msg_msh_sizes []
        else if negb (to_size_t buffer_sz =? msh_size nv nn nt nf)
        then throw msg_msh_filesize []
        else
          let m0 := m <| nvert := nv |> <| nnormal := nn |>
                      <| ntexcoord := nt |> <| nface := nf |> in
          (* fdata, as a byte offset *)
          let off0 := 16 in
          v <- msh_floats buffer off0 (msh_bytes 3 nv) ;;
          let m1 := m0 <| vert := Some v |> in
          let off1 := off0 + 4 * wrap32 (3 * nv) in
          '(m2, off2) <-
            (if nn =? 0 then Done (m1, off1)
             else n <- msh_floats buffer off1 (msh_bytes 3 nv) ;;
                  Done (m1 <| normal := Some n |>, off1 + 4 * wrap32 (3 * nv))) ;;
          '(m3, off3) <-
            (if nt =? 0 then Done (m2, off2)
             else t <- msh_floats buffer off2 (msh_bytes 2 nv) ;;
                  Done (m2 <| texcoord := Some t |>, off2 + 4 * wrap32 (2 * nv))) ;;
          m4 <-
            (if nf =? 0 then Done m3
             else fs <- msh_ints buffer off3 (msh_bytes 3 nf) ;;
                  Done (m3 <| face := Some fs |> <| facenormal := Some fs |>)) ;;
          m5 <-
            (match texcoord m4 with
             | Some _ =>
                 if nf =? 0 then Done m4
                 else fs <- msh_ints buffer off3 (msh_bytes 3 nf) ;;
                      Done (m4 <| facetexcoord := Some fs |>)
             | None => Done m4
             end) ;;
          (* rearrange face data if left-handed scaling *)
          match face m5 with
          | Some fs =>
              if negb (nf =? 0) && negb rh
              then Done (m5 <| face := Some (swap_faces (Z.to_nat nf) fs) |>)
              else Done m5
          | None => Done m5
          end
  end.

(** An MSH file: the header, the float payload (bit patterns) and the
    faces. *)
Definition msh_file (header payload faces : list Z) : list byte :=
  le32s header ++ le32s payload ++ le32s faces.

(** Four vertices and the triangle (0, 1, 2). *)
Definition msh_one : list byte :=
  msh_file [4; 0; 0; 1]
           [f32_0; f32_0; f32_0;  f32_1; f32_0; f32_0;
            f32_0; f32_1; f32_0;  f32_0; f32_0; f32_1]
           [0; 1; 2].

(** The same mesh with a normal (0, 0, 1) for each vertex. *)
Definition msh_normals : list byte :=
  msh_file [4; 4; 0; 1]
           [f32_0; f32_0; f32_0;  f32_1; f32_0; f32_0;
            f32_0; f32_1; f32_0;  f32_0; f32_0; f32_1;
            f32_0; f32_0; f32_1;  f32_0; f32_0; f32_1;
            f32_0; f32_0; f32_1;  f32_0; f32_0; f32_1]
           [0; 1; 2].

(** A header whose vertex count overflows [3*nvert], in 24 bytes. *)
Definition msh_overflow : list byte :=
  msh_file [1431655766; 0; 0; 0] [f32_0; f32_0] [].

(** The list [l] with the 2nd and 3rd element of every triple
    exchanged. *)
Fixpoint swap23 {A : Type} (l : list A) : list A :=
  match l with
  | a :: b :: c :: l' => a :: c :: b :: swap23 l'
  | _ => l
  end.

(* ================================================================= *)
(** ** LoadOBJ *)

Definition msg_obj_parse : string := "could not parse OBJ file '%s'".
Definition msg_obj_ngon : string :=
  "only tri or quad meshes are supported for OBJ (file '%s')".

(** One face of the OBJ mesh: the [index_t] that the loop over
    [mesh.indices] pushes to [face_indices]. *)
Definition obj_face (rh : bool) (f : list index_t) : outcome (list index_t) :=
  match f with
  | [a; b; c] => Done (if rh then [a; b; c] else [a; c; b])
  | [a; b; c; d] =>
      Done (if rh then [a; b; c; a; c; d] else [a; c; b; a; d; c])
  | _ => throw msg_obj_ngon []
  end.

Fixpoint obj_faces (rh : bool) (fs : list (list index_t)) : outcome (list index_t) :=
  match fs with
  | [] => Done []
  | f :: fs' =>
      t <- obj_face rh f ;;
      rest <- obj_faces rh fs' ;;
      Done (t ++ rest)
  end.

(** The three directed edges of a triangle whose area is significant. *)
Definition face_edges (vert : list Q) (v0 v1 v2 : Z) : list (Z * Z) :=
  if Qgt_bool (tri_area (vtx vert v0) (vtx vert v1) (vtx vert v2)) (mju_sqrt mjMINVAL)
  then [(v0, v1); (v1, v2); (v2, v0)]
  else [].

(** "add edges": [uservert.data() + 3*vertex_index] is read for the three
    corners of every triangle, with no test of the index; the product is
    an [int].  [flt3 vert o] is the three [float] from cell [o] on. *)
Definition ub_obj_vertex : string :=
  "read outside uservert in LoadOBJ".

Definition flt3 (vert : list Q) (o : Z) : vec3 :=
  (getQ vert o, getQ vert (o + 1), getQ vert (o + 2)).

Definition obj_corner_ok (vert : list Q) (i : Z) : bool :=
  let o := wrap32 (3 * i) in (0 <=? o) && (o + 3 <=? len vert).

Definition obj_face_edges (vert : list Q) (v0 v1 v2 : Z) : list (Z * Z) :=
  if Qgt_bool (tri_area (flt3 vert (wrap32 (3 * v0))) (flt3 vert (wrap32 (3 * v1)))
                        (flt3 vert (wrap32 (3 * v2))))
              (mju_sqrt mjMINVAL)
  then [(v0, v1); (v1, v2); (v2, v0)]
  else [].

Fixpoint obj_edges (vert : list Q) (fi : list index_t) : outcome (list (Z * Z)) :=
  match fi with
  | a :: b :: c :: fi' =>
      if obj_corner_ok vert (vertex_index a) && obj_corner_ok vert (vertex_index b)
         && obj_corner_ok vert (vertex_index c)
      then
        rest <- obj_edges vert fi' ;;
        Done (obj_face_edges vert (vertex_index a) (vertex_index b) (vertex_index c)
              ++ rest)
      else Undefined ub_obj_vertex
  | _ => Done []
  end.

(** "flip the second texcoord": the loop over [i = 1 .. size/2 - 1]. *)
Definition flip_texcoord (tc : list Q) : list Q :=
  fold_left (fun l i => putQ l (2 * i + 1) (1 - getQ l (2 * i + 1))%Q)
            (map (fun k => 1 + k) (iota (len tc / 2 - 1))) tc.

Definition LoadOBJ (m : mjCMesh) : outcome mjCMesh :=
  match obj_reader (file m) with
  | None => throw msg_obj_parse []
  | Some obj =>
      let m1 := m <| uservert := attrib_vertices obj |>
                  <| usernormal := attrib_normals obj |>
                  <| usertexcoord := attrib_texcoords obj |> in
      m2 <-
        (match shapes0 obj with
         | None => Done m1
         | Some mesh =>
             fi <- obj_faces (righthand m) mesh ;;
             es <- obj_edges (uservert m1) fi ;;
             Done (m1 <| userface := userface m1 ++ map vertex_index fi |>
                      <| userfacenormal :=
                           match usernormal m1 with
                           | [] => userfacenormal m1
                           | _ => userfacenormal m1 ++ map normal_index fi
                           end |>
                      <| userfacetexcoord :=
                           match usertexcoord m1 with
                           | [] => userfacetexcoord m1
                           | _ => userfacetexcoord m1 ++ map texcoord_index fi
                           end |>
                      <| useredge := useredge m1 ++ es |>)
         end) ;;
      Done (m2 <| usertexcoord := flip_texcoord (usertexcoord m2) |>)
  end.

End Loaders.

(* ================================================================= *)
(** ** MakeNormal *)

Section Compiler.
Context {E : Externals}.
Variable model : mjCModel.

#[local] Open Scope Q_scope.

(** [p[3*i+k] += a[k]] and [p[3*i+k] = a[k]] for [k = 0, 1, 2]. *)
Definition set3 (p : list Q) (i : Z) (a : vec3) : list Q :=
  let '(x, y, z) := a in
  putQ (putQ (putQ p (3 * i)%Z (to_float x)) (3 * i + 1)%Z (to_float y))
       (3 * i + 2)%Z (to_float z).
Definition add3 (p : list Q) (i : Z) (a : vec3) : list Q :=
  set3 p i (vadd (vtx p i) a).

(** The unit face normal and the length of the cross product. *)
Definition face_normal (v : list Q) (a b c : Z) : vec3 * Q :=
  mju_normalize3 (mju_cross (vsub (vtx v b) (vtx v a)) (vsub (vtx v c) (vtx v a))).

(** "loop over faces, accumulate vertex normals". *)
Fixpoint normal_accumulate (v : list Q) (fs : list Z) (nrmls : list Q) : list Q :=
  match fs with
  | a :: b :: c :: fs' =>
      let '(nrm, area) := face_normal v a b c in
      let w := vscl area nrm in
      normal_accumulate v fs' (add3 (add3 (add3 nrmls a w) b w) c w)
  | _ => nrmls
  end.

(** "remove contributions from faces at large angles with vertex normal". *)
Definition remove_corner (nrmls : list Q) (nrm : vec3) (area : Q) (vid : Z)
  (nremove : list Q) : list Q :=
  let vnrm := fst (mju_normalize3 (vtx nrmls vid)) in
  if Qlt_bool (dot3 nrm vnrm) (8 # 10) then add3 nremove vid (vscl area nrm)
  else nremove.

Fixpoint normal_remove (v : list Q) (fs : list Z) (nrmls nremove : list Q) : list Q :=
  match fs with
  | a :: b :: c :: fs' =>
      let '(nrm, area) := face_normal v a b c in
      normal_remove v fs' nrmls
        (remove_corner nrmls nrm area c
           (remove_corner nrmls nrm area b
              (remove_corner nrmls nrm area a nremove)))
  | _ => nremove
  end.

(** "normalize normals" at the end of MakeNormal. *)
Definition unit_or_z (n : vec3) : vec3 :=
  let l := mju_sqrt (dot3 n n) in
  if Qgt_bool l mjMINVAL then vdiv n l else (0, 0, 1).

Definition in_range (nv : Z) (i : Z) : bool := ((0 <=? i) && (i <? nv))%Z.

Definition MakeNormal (m : mjCMesh) : outcome mjCMesh :=
  match normal m with
  | Some _ => Done m
  | None =>
      match vert m, face m with
      | Some v, Some fs0 =>
          let nn := nvert m in
          let fs := firstn (Z.to_nat (3 * nface m)) fs0 in
          let fn0 := match facenormal m with
                     | Some fn => fn
                     | None => repeat 0%Z (Z.to_nat (3 * nface m))
                     end in
          if negb (forallb (in_range nn) fs)
          then Undefined "vertex index outside vert in MakeNormal"
          else
            let n1 := normal_accumulate v fs (repeat 0 (Z.to_nat (3 * nn))) in
            let n2 := if smoothnormal m then n1
                      else
                        let nremove :=
                          normal_remove v fs n1 (repeat 0 (Z.to_nat (3 * nn))) in
                        map (fun p => fst p - snd p) (combine n1 nremove) in
            let n3 := map3 unit_or_z (Z.to_nat nn) n2 in
            Done (m <| nnormal := nn |> <| normal := Some n3 |>
                    <| facenormal :=
                         Some (fs ++ skipn (Z.to_nat (3 * nface m)) fn0) |>)
      | _, _ => Undefined "null vert or face in MakeNormal"
      end
  end.

(* ================================================================= *)
(** ** Process *)

Definition msg_index_range : string :=
  "vertex index out of range in %s (index = %d)".

(** "normalize normals" of the volume pass. *)
Definition renormalize (n : vec3) : vec3 :=
  let l := dot3 n n in
  if Qgt_bool l mjMINVAL then vmul n (let s := 1 / mju_sqrt l in (s, s, s))
  else (0, 0, 1).

Definition vnonzero (a : vec3) : bool := negb (veqb a (0, 0, 0)).

(** Translation, rotation, scaling and renormalisation of the volume
    pass, on [vert] and [normal]. *)
Definition Process_transform (m : mjCMesh) (v n : list Q) : list Q * list Q :=
  let nv := Z.to_nat (nvert m) in
  let nn := Z.to_nat (nnormal m) in
  let v1 := if vnonzero (refpos m) then map3 (fun p => vsub p (refpos m)) nv v else v in
  let '(q0, q1, q2, q3) := refquat m in
  let '(v2, n2) :=
    if negb (Qeq_bool q0 1) || negb (Qeq_bool q1 0)
       || negb (Qeq_bool q2 0) || negb (Qeq_bool q3 0)
    then
      let mat := mju_quat2Mat (mju_normalize4 (refquat m)) in
      (map3 (fun p => mju_rotVecMatT p mat) nv v1,
       map3 (fun p => mju_rotVecMatT p mat) nn n)
    else (v1, n) in
  let '(v3, n3) :=
    if negb (veqb (scale m) (1, 1, 1))
    then (map3 (fun p => vmul p (scale m)) nv v2,
          map3 (fun p => vmul p (scale m)) nn n2)
    else (v2, n2) in
  (v3, map3 renormalize nn n3).

(** "find centroid of faces": [facecen] and [area] after the loop. *)
Fixpoint centroid (v : list Q) (nv : Z) (fs : list Z) (i : Z) (facecen : vec3)
  (area : Q) : outcome (vec3 * Q) :=
  match fs with
  | a :: b :: c :: fs' =>
      if negb (in_range nv a) || negb (in_range nv b) || negb (in_range nv c)
      then throw msg_index_range [i]
      else
        let '(ar, _, cen) := _triangle (vtx v a) (vtx v b) (vtx v c) in
        centroid v nv fs' (i + 1)%Z (vadd facecen (vscl ar cen)) (area + ar)
  | _ => Done (facecen, area)
  end.

(** The signed volume of the pyramid of a face, or its area for a shell;
    positive in any case in the legacy computation. *)
Definition face_vol (type : mjtMeshType) (ar : Q) (nrm ref : vec3) : Q :=
  let vol := match type with
             | mjSHELL_MESH => ar
             | mjVOLUME_MESH => dot3 ref nrm * ar / 3
             end in
  if exactmeshinertia model then vol else Qabs vol.

(** "compute CoM and volume from pyramid volumes". *)
Fixpoint com_loop (type : mjtMeshType) (v : list Q) (facecen : vec3) (fs : list Z)
  (m : mjCMesh) (CoM : vec3) : outcome (mjCMesh * vec3) :=
  match fs with
  | a :: b :: c :: fs' =>
      let '(ar, nrm, cen) := _triangle (vtx v a) (vtx v b) (vtx v c) in
      let vol := face_vol type ar nrm (vsub cen facecen) in
      cur <- GetVolumeRef m type ;;
      m' <- set_VolumeRef m type (cur + vol) ;;
      com_loop type v facecen fs' m'
        (vadd CoM (vscl vol (vadd (vdiv (vscl 3 cen) 4) (vdiv facecen 4))))
  | _ => Done (m, CoM)
  end.

(** The bracket of the inertia formula for the pair of axes [(a, b)]. *)
Definition P_term (D F G : vec3) (a b : Z) : Q :=
  2 * (vcomp D a * vcomp D b + vcomp F a * vcomp F b + vcomp G a * vcomp G b)
  + vcomp D a * vcomp F b + vcomp D b * vcomp F a
  + vcomp D a * vcomp G b + vcomp D b * vcomp G a
  + vcomp F a * vcomp G b + vcomp F b * vcomp G a.

Definition axis_pairs : list (Z * Z) :=
  [(0, 0); (1, 1); (2, 2); (0, 1); (0, 2); (1, 2)]%Z.

(** "accumulate products of inertia, recompute volume". *)
Fixpoint inertia_loop (type : mjtMeshType) (v : list Q) (fs : list Z)
  (m : mjCMesh) (P : list Q) : outcome (mjCMesh * list Q) :=
  match fs with
  | a :: b :: c :: fs' =>
      let D := vtx v a in
      let F := vtx v b in
      let G := vtx v c in
      let '(ar, nrm, cen) := _triangle D F G in
      let vol := face_vol type ar nrm cen in
      cur <- GetVolumeRef m type ;;
      m' <- set_VolumeRef m type (cur + vol) ;;
      let k := match type with mjSHELL_MESH => 12 | mjVOLUME_MESH => 20 end in
      inertia_loop type v fs' m'
        (map (fun pj => fst pj
                        + geom_density model * vol / k
                          * P_term D F G (fst (snd pj)) (snd (snd pj)))
             (combine P axis_pairs))
  | _ => Done (m, P)
  end.

(** "axis-aligned bounding box" while the vertices are rotated. *)
Fixpoint grow_aabb (box : list Q) (n : nat) (p : list Q) : list Q :=
  match n, p with
  | S n', x :: y :: z :: p' =>
      grow_aabb [Qmin (getQ box 0) x; Qmin (getQ box 1) y; Qmin (getQ box 2) z;
                 Qmax (getQ box 3) x; Qmax (getQ box 4) y; Qmax (getQ box 5) z]
                n' p'
  | _, _ => box
  end.

(** One round of the loop over the two mesh types, in four steps.  Each
    step returns the object and a boolean that tells whether the round
    ended in [return].  The area, the volume and the eigenvalues are
    exact here and rounded doubles in the source, so a test of one of them
    against [mjMINVAL] or zero can go the other way in the source when the
    exact value is at the threshold (the volume of an open surface, which
    is zero exactly, is the case in point).

    First step, for the volume only: transform the mesh and find the
    centroid of the faces; [fs] is the face array. *)
Definition Process_centroid (type : mjtMeshType) (m : mjCMesh)
  (v0 n0 : list Q) (fs : list Z) : outcome (mjCMesh * vec3 * bool) :=
  match type with
  | mjVOLUME_MESH =>
      let '(v, n) := Process_transform m v0 n0 in
      let m1 := m <| vert := Some v |> <| normal := Some n |> in
      '(facecen, area) <- centroid v (nvert m) fs 0%Z (0, 0, 0) 0 ;;
      if Qlt_bool area mjMINVAL
      then Done (m1 <| validarea := false |>, (0, 0, 0), true)
      else Done (m1, vdiv facecen area, false)
  | mjSHELL_MESH => Done (m, (0, 0, 0), false)
  end.

(** Second step: "compute CoM and volume from pyramid volumes", "require
    positive volume", "finalize CoM, save as mesh center". *)
Definition Process_com (type : mjtMeshType) (m : mjCMesh) (v : list Q)
  (facecen : vec3) (fs : list Z) : outcome (mjCMesh * vec3 * bool) :=
  m2 <- set_VolumeRef m type 0 ;;
  '(m3, CoM0) <- com_loop type v facecen fs m2 (0, 0, 0) ;;
  vol <- GetVolumeRef m3 type ;;
  if Qlt_bool vol mjMINVAL
  then Done (m3 <| validvolume := false |>, (0, 0, 0), true)
  else
    vol' <- GetVolumeRef m3 type ;;
    let CoM := vdiv CoM0 vol' in
    Done (set_Pos m3 type CoM, CoM, false).

(** Third step: "re-center mesh at CoM", "accumulate products of
    inertia", "get quaternion and diagonal inertia", "check eigval".
    Returns the eigenvalues and the quaternion as well. *)
Definition Process_inertia (type : mjtMeshType) (m : mjCMesh) (v1 : list Q)
  (CoM : vec3) (fs : list Z) : outcome (mjCMesh * (vec3 * quat) * bool) :=
  let v2 := match type with
            | mjVOLUME_MESH => map3 (fun p => vsub p CoM) (Z.to_nat (nvert m)) v1
            | mjSHELL_MESH => v1
            end in
  let m5 := m <| vert := Some v2 |> in
  m6 <- set_VolumeRef m5 type 0 ;;
  '(m7, P) <- inertia_loop type v2 fs m6 [0; 0; 0; 0; 0; 0] ;;
  let P := fun k => getQ P k in
  let i0 := P 1%Z + P 2%Z in
  let i1 := P 0%Z + P 2%Z in
  let i2 := P 0%Z + P 1%Z in
  let i3 := - P 3%Z in
  let i4 := - P 4%Z in
  let i5 := - P 5%Z in
  let '(eigval, _, quattmp) := mju_eig3 [i0; i3; i4; i3; i1; i5; i4; i5; i2] in
  let '(e0, e1, e2) := eigval in
  if Qle_bool e2 0
  then Done (m7 <| valideigenvalue := false |>, (eigval, quattmp), true)
  else if Qlt_bool (e0 + e1) e2 || Qlt_bool (e0 + e2) e1 || Qlt_bool (e1 + e2) e0
  then Done (m7 <| validinequality := false |>, (eigval, quattmp), true)
  else Done (m7, (eigval, quattmp), false).

(** Fourth step: "compute sizes of equivalent inertia box", "copy quat",
    "rotate vertices and normals into axis-aligned frame". *)
Definition Process_box (type : mjtMeshType) (m : mjCMesh) (eigval : vec3)
  (quattmp : quat) : outcome mjCMesh :=
  let '(e0, e1, e2) := eigval in
  volm <- GetVolumeRef m type ;;
  let mass := volm * geom_density model in
  m8 <- set_InertiaBox m type
          (mju_sqrt (6 * (e1 + e2 - e0) / mass) / 2,
           mju_sqrt (6 * (e0 + e2 - e1) / mass) / 2,
           mju_sqrt (6 * (e0 + e1 - e2) / mass) / 2) ;;
  let m9 := set_Quat m8 type
              (match type with
               | mjVOLUME_MESH => quattmp
               | mjSHELL_MESH => GetQuatPtr m8 mjVOLUME_MESH
               end) in
  match type with
  | mjVOLUME_MESH =>
      let '(t0, t1, t2, t3) := quattmp in
      let mat := mjuu_quat2mat (t0, - t1, - t2, - t3) in
      let v3 := match vert m9 with
                | Some v => map3 (fun p => mjuu_mulvecmat p mat)
                                 (Z.to_nat (nvert m)) v
                | None => []
                end in
      let n3 := match normal m9 with
                | Some n => map3 (fun p => mjuu_mulvecmat p mat)
                                 (Z.to_nat (nnormal m)) n
                | None => []
                end in
      Done (m9 <| vert := Some v3 |> <| normal := Some n3 |>
               <| aabb := grow_aabb (aabb m9) (Z.to_nat (nvert m)) v3 |>)
  | mjSHELL_MESH => Done m9
  end.

Definition Process_type (type : mjtMeshType) (m : mjCMesh)
  : outcome (mjCMesh * bool) :=
  match vert m, normal m, face m with
  | Some v0, Some n0, Some fs0 =>
      let fs := firstn (Z.to_nat (3 * nface m)) fs0 in
      '(m1, facecen, stop) <- Process_centroid type m v0 n0 fs ;;
      if stop then Done (m1, true)
      else
        let v1 := match vert m1 with Some v => v | None => v0 end in
        '(m4, CoM, stop) <- Process_com type m1 v1 facecen fs ;;
        if stop then Done (m4, true)
        else
          '(m7, eq, stop) <- Process_inertia type m4 v1 CoM fs ;;
          if stop then Done (m7, true)
          else
            m9 <- Process_box type m7 (fst eq) (snd eq) ;;
            Done (m9, false)
  | _, _, _ => Undefined "null vert, normal or face in Process"
  end.

Definition Process (m : mjCMesh) : outcome mjCMesh :=
  '(m1, stop) <- Process_type mjVOLUME_MESH m ;;
  if stop then Done m1
  else '(m2, _) <- Process_type mjSHELL_MESH m1 ;; Done m2.

(* ================================================================= *)
(** ** Compile *)

#[local] Close Scope Q_scope.

(** [VecToArray]: the array, and the vector as the call leaves it. *)
Definition VecToArray {T : Type} (vector : list T) (clear : bool)
  : option (list T) * list T :=
  match vector with
  | [] => (None, vector)
  | _ => (Some vector, if clear then [] else vector)
  end.

Definition is_empty {T : Type} (l : list T) : bool :=
  match l with [] => true | _ => false end.

Definition has_file (m : mjCMesh) : bool := negb (String.eqb (file m) "").

Definition is_null {T : Type} (p : option T) : bool :=
  match p with None => true | Some _ => false end.

(** "load file". *)
Definition Compile_load (m : mjCMesh) : outcome mjCMesh :=
  if has_file m then
    let m1 := if strippath model then m <| file := mjuu_strippath (file m) |> else m in
    match file_ext (file m1) with
    | ext_stl => LoadSTL m1
    | ext_obj => LoadOBJ m1
    | ext_msh => LoadMSH m1
    | ext_other => throw "Unknown mesh file type: %s" []
    end
  else Done m.

(** "copy user vertex". *)
Definition Compile_vert (m : mjCMesh) : outcome mjCMesh :=
  if is_empty (uservert m) then Done m
  else if negb (is_null (vert m)) then throw "repeated vertex specification" []
  else if len (uservert m) <? 12 then throw "at least 4 verices required" []
  else if negb (len (uservert m) mod 3 =? 0)
  then throw "vertex data must be a multiple of 3" []
  else
    let '(arr, rest) := VecToArray (uservert m) (has_file m) in
    Done (m <| nvert := len (uservert m) / 3 |> <| vert := arr |>
            <| uservert := rest |>).

(** "copy user normal". *)
Definition Compile_normal (m : mjCMesh) : outcome mjCMesh :=
  if is_empty (usernormal m) then Done m
  else if negb (is_null (normal m)) then throw "repeated normal specification" []
  else if negb (len (usernormal m) mod 3 =? 0)
  then throw "normal data must be a multiple of 3" []
  else
    let '(arr, rest) := VecToArray (usernormal m) (has_file m) in
    Done (m <| nnormal := len (usernormal m) / 3 |> <| normal := arr |>
            <| usernormal := rest |>).

(** "copy user texcoord". *)
Definition Compile_texcoord (m : mjCMesh) : outcome mjCMesh :=
  if is_empty (usertexcoord m) then Done m
  else if negb (is_null (texcoord m)) then throw "repeated texcoord specification" []
  else if negb (len (usertexcoord m) mod 2 =? 0)
  then throw "texcoord must be a multiple of 2" []
  else
    let '(arr, rest) := VecToArray (usertexcoord m) (has_file m) in
    Done (m <| ntexcoord := len (usertexcoord m) / 2 |> <| texcoord := arr |>
            <| usertexcoord := rest |>).

(** "create half-edge structure (if mesh was in XML)": the loop over the
    faces, reading [userface] as VecToArray left it. *)
Fixpoint xml_edges (v : list Q) (uf : list Z) (idx : list Z) : outcome (list (Z * Z)) :=
  match idx with
  | [] => Done []
  | i :: idx' =>
      v0 <- load "userface read after clear" uf (3 * i) ;;
      v1 <- load "userface read after clear" uf (3 * i + 1) ;;
      v2 <- load "userface read after clear" uf (3 * i + 2) ;;
      rest <- xml_edges v uf idx' ;;
      Done (face_edges v v0 v1 v2 ++ rest)
  end.

(** "copy user face". *)
Definition Compile_face (m : mjCMesh) : outcome mjCMesh :=
  if is_empty (userface m) then Done m
  else if negb (is_null (face m)) then throw "repeated face specification" []
  else if negb (len (userface m) mod 3 =? 0)
  then throw "face data must be a multiple of 3" []
  else
    let nf := len (userface m) / 3 in
    let '(arr, uf) := VecToArray (userface m) (has_file m) in
    let m1 := m <| nface := nf |> <| face := arr |> <| userface := uf |> in
    if existsb (fun vertex_index =>
                  (vertex_index >=? nvert m1) || (vertex_index <? 0)) uf
    then throw "found index in userface that exceeds uservert size." []
    else if is_empty (useredge m1) then
      match vert m1 with
      | Some v =>
          es <- xml_edges v uf (iota nf) ;;
          Done (m1 <| useredge := es |>)
      | None =>
          if 0 <? nf then Undefined "null vert in Compile" else Done m1
      end
    else Done m1.

(** [std::sort] on pairs of [int] and [std::adjacent_find]. *)
Definition edge_leb (a b : Z * Z) : bool :=
  (fst a <? fst b) || ((fst a =? fst b) && (snd a <=? snd b)).

Definition edge_eqb (a b : Z * Z) : bool :=
  (fst a =? fst b) && (snd a =? snd b).

Fixpoint insert_edge (e : Z * Z) (l : list (Z * Z)) : list (Z * Z) :=
  match l with
  | [] => [e]
  | x :: l' => if edge_leb e x then e :: l else x :: insert_edge e l'
  end.

Definition sort_edges (l : list (Z * Z)) : list (Z * Z) :=
  fold_right insert_edge [] l.

Fixpoint adjacent_find (l : list (Z * Z)) : option (Z * Z) :=
  match l with
  | a :: (b :: _) as l' => if edge_eqb a b then Some a else adjacent_find l'
  | _ => None
  end.

(** "check for inconsistent face orientations".  The ids of an edge are
    vertex indices, so the increment stays inside [int]. *)
Definition Compile_orientation (m : mjCMesh) : mjCMesh :=
  if is_empty (useredge m) then m
  else
    let sorted := sort_edges (useredge m) in
    let m1 := m <| useredge := sorted |> in
    match adjacent_find sorted with
    | Some (a, b) => m1 <| invalidorientation := (a + 1, b + 1) |>
    | None => m1
    end.

(** [mjCMesh::MakeGraph] inside the compiler: the double copy of [vert]
    goes to Qhull. *)
Definition MakeGraph (m : mjCMesh) : outcome mjCMesh :=
  match vert m with
  | Some v =>
      MakeGraph_with (qh_qhull (firstn (Z.to_nat (3 * nvert m)) v) (nvert m)) m
  | None =>
      if nvert m <? 4 then Done m else Undefined "null vert in MakeGraph"
  end.

(** "copy user normal indices". *)
Definition Compile_facenormal (m : mjCMesh) : outcome mjCMesh :=
  if is_empty (userfacenormal m) then Done m
  else if negb (is_null (facenormal m))
  then throw "repeated facenormal specification" []
  else if negb (len (userfacenormal m) =? to_size_t (wrap32 (3 * nface m)))
  then throw "face data must have the same size as face normal data" []
  else
    let '(arr, rest) := VecToArray (userfacenormal m) (has_file m) in
    Done (m <| facenormal := arr |> <| userfacenormal := rest |>).

(** "copy user texcoord" (the indices). *)
Definition Compile_facetexcoord (m : mjCMesh) : outcome mjCMesh :=
  if is_empty (userfacetexcoord m) then Done m
  else if negb (is_null (facetexcoord m))
  then throw "repeated facetexcoord specification" []
  else
    let '(arr, rest) := VecToArray (userfacetexcoord m) (has_file m) in
    Done (m <| facetexcoord := arr |> <| userfacetexcoord := rest |>).

(** "facenormal might not exist if usernormal was specified". *)
Definition Compile_default_facenormal (m : mjCMesh) : outcome mjCMesh :=
  match facenormal m with
  | Some _ => Done m
  | None =>
      match face m with
      | Some fs => Done (m <| facenormal := Some (firstn (Z.to_nat (3 * nface m)) fs) |>)
      | None => Undefined "null face in Compile"
      end
  end.

(** Compile up to the orientation check: the staging. *)
Definition Compile_stage (m : mjCMesh) : outcome mjCMesh :=
  m1 <- Compile_load m ;;
  m2 <- Compile_vert m1 ;;
  m3 <- Compile_normal m2 ;;
  m4 <- Compile_texcoord m3 ;;
  Compile_face m4.

(** Compile after the orientation check. *)
Definition Compile_finish (m : mjCMesh) : outcome mjCMesh :=
  if is_null (vert m) then throw "no vertices" []
  else
    m1 <- (if (convexhull model && needhull m) || is_null (face m)
           then MakeGraph m else Done m) ;;
    m2 <- (if is_null (face m1) then CopyGraph m1 else Done m1) ;;
    m3 <- (if is_null (normal m2) then MakeNormal m2 else Done m2) ;;
    m4 <- Compile_facenormal m3 ;;
    m5 <- Compile_facetexcoord m4 ;;
    m6 <- Compile_default_facenormal m5 ;;
    m7 <- Process m6 ;;
    Done (m7 <| processed := true |>).

(** [mjCMesh::Compile]. *)
Definition Compile (m : mjCMesh) : outcome mjCMesh :=
  m1 <- Compile_stage m ;;
  Compile_finish (Compile_orientation m1).

End Compiler.

(* ================================================================= *)
(** ** The skin object *)

Module Skin.

Record mjCSkin : Type := {
  file : string;
  material : string;
  vert : list Q;
  texcoord : list Q;
  face : list Z;
  bodyname : list string;
  bindpos : list Q;
  bindquat : list Q;
  vertid : list (list Z);
  vertweight : list (list float32);
  bodyid : list Z;
  matid : Z
}.

Definition eta_mjCSkin : mjCSkin -> mjCSkin := fun s =>
  Build_mjCSkin (file s) (material s) (vert s) (texcoord s) (face s)
    (bodyname s) (bindpos s) (bindquat s) (vertid s) (vertweight s)
    (bodyid s) (matid s).

Ltac skin_setter :=
  let e := eval unfold eta_mjCSkin in eta_mjCSkin in make_setter e.

#[global] Instance set_file : Setter file := ltac:(skin_setter).
#[global] Instance set_material : Setter material := ltac:(skin_setter).
#[global] Instance set_vert : Setter vert := ltac:(skin_setter).
#[global] Instance set_texcoord : Setter texcoord := ltac:(skin_setter).
#[global] Instance set_face : Setter face := ltac:(skin_setter).
#[global] Instance set_bodyname : Setter bodyname := ltac:(skin_setter).
#[global] Instance set_bindpos : Setter bindpos := ltac:(skin_setter).
#[global] Instance set_bindquat : Setter bindquat := ltac:(skin_setter).
#[global] Instance set_vertid : Setter vertid := ltac:(skin_setter).
#[global] Instance set_vertweight : Setter vertweight := ltac:(skin_setter).
#[global] Instance set_bodyid : Setter bodyid := ltac:(skin_setter).
#[global] Instance set_matid : Setter matid := ltac:(skin_setter).

(** The constructor [mjCSkin::mjCSkin] (the members that Compile uses). *)
Definition mjCSkin_new : mjCSkin := {|
  file := ""; material := ""; vert := []; texcoord := []; face := [];
  bodyname := []; bindpos := []; bindquat := []; vertid := [];
  vertweight := []; bodyid := []; matid := -1
|}.

Section SkinCompiler.
Context {E : Externals}.
Variable model : mjCModel.

(* ----------------------------------------------------------------- *)
(** *** LoadSKN *)

(** The C string in the 39 bytes at [off]. *)
Fixpoint c_string (bs : list byte) : string :=
  match bs with
  | [] => ""
  | b :: bs' =>
      if byteZ b =? 0 then "" else String (ascii_of_byte b) (c_string bs')
  end.

Definition name_at (buf : list byte) (off : Z) : string :=
  c_string (firstn 39 (skipn (Z.to_nat off) buf)).

Definition msg_skn_open : string := "could not open SKN file '%s'".
Definition msg_skn_empty : string := "SKN file '%s' is empty".
Definition msg_skn_header : string := "missing header in SKN file '%s'".
Definition msg_skn_negative : string := "negative size in header of SKN file '%s'".
Definition msg_skn_data : string := "insufficient data in SKN file '%s'".
Definition msg_skn_bone : string := "insufficient data in SKN file '%s', bone %d".
Definition msg_skn_vcount : string :=
  "vertex count must be positive in SKN file '%s', bone %d".
Definition msg_skn_vdata : string :=
  "insufficient vertex data in SKN file '%s', bone %d".
Definition msg_skn_size : string := "unexpected buffer size in SKN file '%s'".
Definition exc_skn_resize : string :=
  "std::length_error: resize of a vector to a negative int".
Definition ub_skn_read : string := "read outside the SKN buffer".
Definition ub_skn_write : string := "write outside a bone array in LoadSKN".

(** [pdata+cnt] and the [bytes] bytes behind it lie in the buffer; [cnt]
    is an [int] that counts the 4-byte words after the header. *)
Definition skn_in (buf : list byte) (cnt bytes : Z) : bool :=
  (0 <=? cnt) && (16 + 4 * cnt + bytes <=? len buf).

(** [v.resize(n); memcpy(v.data(), pdata+cnt, n*sizeof(float)); cnt += n]
    for the [int] [n]: a negative [n] is a size that no vector can have, the
    copy may run out of the buffer, and the sum is an [int].  The vector is
    overwritten from end to end, so what it held before does not matter. *)
Definition skn_copy {T : Type} (read : list byte -> Z -> Z -> list T)
  (buf : list byte) (cnt n : Z) : outcome (list T * Z) :=
  if n <? 0 then throw exc_skn_resize []
  else if negb (skn_in buf cnt (to_size_t (n * 4))) then Undefined ub_skn_read
  else Done (read buf (16 + 4 * cnt) n, wrap32 (cnt + n)).

(** [memcpy(a.data()+k*i, ..., k*sizeof(float))]: the array with
    [k] cells from [k*i] on replaced; the cells have to be there. *)
Definition skn_put {T : Type} (a : list T) (k i : Z) (x : list T)
  : outcome (list T) :=
  let o := wrap32 (k * i) in
  if (0 <=? o) && (o + k <=? len a)
  then Done (firstn (Z.to_nat o) a ++ x ++ skipn (Z.to_nat (o + k)) a)
  else Undefined ub_skn_write.

(** "read bones": the loop over [i]; [cnt] counts 4-byte words after the
    header. *)
Fixpoint read_bones (buf : list byte) (idx : list Z) (cnt : Z) (s : mjCSkin)
  : outcome (mjCSkin * Z) :=
  match idx with
  | [] => Done (s, cnt)
  | i :: idx' =>
      if wrap32 (len buf / 4 - 4 - cnt) <? 18 then throw msg_skn_bone [i]
      else if negb (skn_in buf cnt 72) then Undefined ub_skn_read
      else
        let name := name_at buf (16 + 4 * cnt) in
        let cnt := wrap32 (cnt + 10) in
        let pos := floats_at buf (16 + 4 * cnt) 3 in
        bp <- skn_put (bindpos s) 3 i pos ;;
        let cnt := wrap32 (cnt + 3) in
        let qt := floats_at buf (16 + 4 * cnt) 4 in
        bq <- skn_put (bindquat s) 4 i qt ;;
        let cnt := wrap32 (cnt + 4) in
        let vcount := i32_at buf (16 + 4 * cnt) in
        let cnt := wrap32 (cnt + 1) in
        if vcount <? 1 then throw msg_skn_vcount [i]
        else if wrap32 (len buf / 4 - 4 - cnt) <? wrap32 (2 * vcount)
        then throw msg_skn_vdata [i]
        else
          '(ids, cnt) <- skn_copy ints_at buf cnt vcount ;;
          vi <- skn_put (vertid s) 1 i [ids] ;;
          '(ws, cnt) <- skn_copy f32s_at buf cnt vcount ;;
          vw <- skn_put (vertweight s) 1 i [ws] ;;
          read_bones buf idx' cnt
            (s <| bodyname := bodyname s ++ [name] |>
               <| bindpos := bp |> <| bindquat := bq |>
               <| vertid := vi |> <| vertweight := vw |>)
  end.

(** [v.resize(n)] on a vector: truncation or padding with [d]. *)
Definition resize {T : Type} (d : T) (n : Z) (v : list T) : list T :=
  firstn (Z.to_nat n) v ++ repeat d (Z.to_nat n - List.length v).

(** [mjCSkin::LoadSKN].  The sizes and [cnt] are [int]: the products and
    sums are those of the hardware. *)
Definition LoadSKN (s : mjCSkin) : outcome mjCSkin :=
  match open_file (file s) with
  | None => throw msg_skn_open []
  | Some buffer =>
      let buffer_sz := len buffer in
      if buffer_sz =? 0 then throw msg_skn_empty []
      else if buffer_sz <? 16 then throw msg_skn_header []
      else
        let nv := i32_at buffer 0 in
        let nt := i32_at buffer 4 in
        let nf := i32_at buffer 8 in
        let nbone := i32_at buffer 12 in
        if (nv <? 0) || (nt <? 0) || (nf <? 0) || (nbone <? 0)
        then throw msg_skn_negative []
        else if buffer_sz <? wrap32 (16 + 12 * nv + 8 * nt + 12 * nf)
        then throw msg_skn_data []
        else
          let cnt := 0 in
          '(s1, cnt) <-
            (if nv =? 0 then Done (s, cnt)
             else '(v, cnt) <- skn_copy floats_at buffer cnt (wrap32 (3 * nv)) ;;
                  Done (s <| vert := v |>, cnt)) ;;
          '(s2, cnt) <-
            (if nt =? 0 then Done (s1, cnt)
             else '(t, cnt) <- skn_copy floats_at buffer cnt (wrap32 (2 * nt)) ;;
                  Done (s1 <| texcoord := t |>, cnt)) ;;
          '(s3, cnt) <-
            (if nf =? 0 then Done (s2, cnt)
             else '(f, cnt) <- skn_copy ints_at buffer cnt (wrap32 (3 * nf)) ;;
                  Done (s2 <| face := f |>, cnt)) ;;
          if (wrap32 (3 * nbone) <? 0) || (wrap32 (4 * nbone) <? 0)
          then throw exc_skn_resize []
          else
            let s4 := s3 <| bodyname := [] |>
                         <| bindpos := resize 0%Q (wrap32 (3 * nbone)) (bindpos s3) |>
                         <| bindquat := resize 0%Q (wrap32 (4 * nbone)) (bindquat s3) |>
                         <| vertid := resize [] nbone (vertid s3) |>
                         <| vertweight := resize [] nbone (vertweight s3) |> in
            '(s5, cnt) <- read_bones buffer (iota nbone) cnt s4 ;;
            if negb (buffer_sz =? wrap32 (16 + 4 * cnt))
            then throw msg_skn_size []
            else Done s5
  end.

(* ----------------------------------------------------------------- *)
(** *** Compile *)

Definition msg_skin_weight : string :=
  "vertex %d must have positive total weight in skin".
Definition msg_skin_bone : string :=
  "vertid and vertweight must have same non-zero size in skin".
Definition msg_skin_range : string := "vertid %d out of range in skin".

(** "load file". *)
Definition Compile_load (s : mjCSkin) : outcome mjCSkin :=
  if String.eqb (file s) "" then Done s
  else if negb (is_empty (vert s)) || negb (is_empty (texcoord s))
          || negb (is_empty (face s)) || negb (is_empty (bodyname s))
          || negb (is_empty (bindpos s)) || negb (is_empty (bindquat s))
          || negb (is_empty (vertid s)) || negb (is_empty (vertweight s))
          || negb (is_empty (bodyid s))
  then throw "Data already exists, trying to load from skin file: %s" []
  else
    let s1 := if strippath model then s <| file := mjuu_strippath (file s) |> else s in
    if is_skn (file s1) then LoadSKN s1
    else throw "Unknown skin file type: %s" [].

(** "make sure all data is present", "check mesh sizes", "check bone
    sizes". *)
Definition Compile_check (s : mjCSkin) : outcome unit :=
  if is_empty (vert s) || is_empty (face s) || is_empty (bodyname s)
     || is_empty (bindpos s) || is_empty (bindquat s)
     || is_empty (vertid s) || is_empty (vertweight s)
  then throw "Missing data in skin" []
  else if negb (len (vert s) mod 3 =? 0)
  then throw "Vertex data must be multiple of 3" []
  else if negb (is_empty (texcoord s))
          && negb (len (texcoord s) =? 2 * len (vert s) / 3)
  then throw "Vertex and texcoord data incompatible size" []
  else if negb (len (face s) mod 3 =? 0)
  then throw "Face data must be multiple of 3" []
  else
    let nbone := len (bodyname s) in
    if negb (len (bindpos s) =? 3 * nbone)
    then throw "Unexpected bindpos size in skin" []
    else if negb (len (bindquat s) =? 4 * nbone)
    then throw "Unexpected bindquat size in skin" []
    else if negb (len (vertid s) =? nbone)
    then throw "Unexpected vertid size in skin" []
    else if negb (len (vertweight s) =? nbone)
    then throw "Unexpected vertweight size in skin" []
    else Done tt.

(** "resolve body names". *)
Fixpoint resolve_bodies (names : list string) : outcome (list Z) :=
  match names with
  | [] => Done []
  | n :: names' =>
      match find_body n with
      | None => throw "unknown body '%s' in skin" []
      | Some id => rest <- resolve_bodies names' ;; Done (id :: rest)
      end
  end.

(** "resolve material name". *)
Definition resolve_material (s : mjCSkin) : outcome mjCSkin :=
  match find_material (material s) with
  | Some id => Done (s <| matid := id |>)
  | None =>
      if negb (String.eqb (material s) "")
      then throw "unkown material '%s' in skin" []
      else Done s
  end.

(** "accumulate weights in global array", for one bone: [vw[jj] += w] on
    [float]. *)
Fixpoint accumulate_bone (nv : Z) (ids : list Z) (ws : list float32)
  (vw : list float32) : outcome (list float32) :=
  match ids, ws with
  | jj :: ids', w :: ws' =>
      if (jj <? 0) || (jj >=? nv) then throw msg_skin_range [jj]
      else accumulate_bone nv ids' ws' (putF vw jj (f32_add (getF vw jj) w))
  | _, _ => Done vw
  end.

(** "accumulate vertex weights from all bones". *)
Fixpoint accumulate (nv : Z) (ids : list (list Z)) (ws : list (list float32))
  (vw : list float32) : outcome (list float32) :=
  match ids, ws with
  | bi :: ids', bw :: ws' =>
      if negb (len bw =? len bi) || (len bi =? 0) then throw msg_skin_bone []
      else
        vw' <- accumulate_bone nv bi bw vw ;;
        accumulate nv ids' ws' vw'
  | _, _ => Done vw
  end.

(** "check coverage": [vw[i]<=mjMINVAL], a [float] against a [double]. *)
Fixpoint coverage (vw : list float32) (i : Z) : outcome unit :=
  match vw with
  | [] => Done tt
  | w :: vw' =>
      if f32_le w mjMINVAL then throw msg_skin_weight [i]
      else coverage vw' (i + 1)
  end.

(** "normalize vertex weights": [vertweight[i][j] /= vw[vertid[i][j]]] on
    [float]. *)
Definition normalize_bone (vw : list float32) (ids : list Z) (ws : list float32)
  : list float32 :=
  map (fun p => f32_div (snd p) (getF vw (fst p))) (combine ids ws).

Definition normalize_weights (vw : list float32) (ids : list (list Z))
  (ws : list (list float32)) : list (list float32) :=
  map (fun p => normalize_bone vw (fst p) (snd p)) (combine ids ws).

(** "normalize bindquat". *)
Fixpoint normalize_quats (q : list Q) : list Q :=
  match q with
  | a :: b :: c :: d :: q' =>
      let '(a', b', c', d') := mju_normalize4 (a, b, c, d) in
      a' :: b' :: c' :: d' :: normalize_quats q'
  | _ => q
  end.

(** [mjCSkin::Compile]. *)
Definition Compile (s : mjCSkin) : outcome mjCSkin :=
  s1 <- Compile_load s ;;
  _ <- Compile_check s1 ;;
  ids <- resolve_bodies (bodyname s1) ;;
  let s2 := s1 <| bodyid := ids |> in
  s3 <- resolve_material s2 ;;
  let nv := len (vert s3) / 3 in
  vw <- accumulate nv (vertid s3) (vertweight s3)
          (repeat (F_num false 0) (Z.to_nat nv)) ;;
  _ <- coverage vw 0 ;;
  Done (s3 <| vertweight := normalize_weights vw (vertid s3) (vertweight s3) |>
           <| bindquat := normalize_quats (bindquat s3) |>).

End SkinCompiler.

(** The total of vertex [v] as the accumulation loop computes it: the
    weights that the bones give to [v] are added to [t] one by one, in the
    order of the loop, each sum rounded to [float]. *)
Fixpoint bone_total (v : Z) (ids : list Z) (ws : list float32) (t : float32)
  : float32 :=
  match ids, ws with
  | id :: ids', w :: ws' =>
      bone_total v ids' ws' (if id =? v then f32_add t w else t)
  | _, _ => t
  end.

Fixpoint vertex_total (v : Z) (ids : list (list Z)) (ws : list (list float32))
  (t : float32) : float32 :=
  match ids, ws with
  | bi :: ids', bw :: ws' => vertex_total v ids' ws' (bone_total v bi bw t)
  | _, _ => t
  end.

(** The exact sum of the weights that the bones give to [v], where all
    of them are finite. *)
Fixpoint bone_sum (v : Z) (ids : list Z) (ws : list float32) : option Q :=
  match ids, ws with
  | id :: ids', w :: ws' =>
      match bone_sum v ids' ws' with
      | Some r =>
          if id =? v
          then match f32_real w with Some x => Some (x + r)%Q | None => None end
          else Some r
      | None => None
      end
  | _, _ => Some 0%Q
  end.

Fixpoint vertex_sum (v : Z) (ids : list (list Z)) (ws : list (list float32))
  : option Q :=
  match ids, ws with
  | bi :: ids', bw :: ws' =>
      match bone_sum v bi bw, vertex_sum v ids' ws' with
      | Some a, Some b => Some (a + b)%Q
      | _, _ => None
      end
  | _, _ => Some 0%Q
  end.

(** A few [float]: 1, 2 and the largest finite one. *)
Definition f1 : float32 := F_num false 1.
Definition f2 : float32 := F_num false 2.
Definition fmax : float32 := F_num false 340282346638528859811704183484516925440.

(** A skin of one triangle with two bones; both bones hold vertex 0, with
    weights 1 and 2, and share the other two vertices evenly. *)
Definition two_bones : mjCSkin := {|
  file := ""; material := "";
  vert := [0; 0; 0; 1; 0; 0; 0; 1; 0]%Q;
  texcoord := [];
  face := [0; 1; 2];
  bodyname := ["upper"; "lower"];
  bindpos := [0; 0; 0; 0; 0; 0]%Q;
  bindquat := [1; 0; 0; 0; 1; 0; 0; 0]%Q;
  vertid := [[0; 1; 2]; [0; 1; 2]];
  vertweight := [[f1; f1; f1]; [f2; f1; f1]];
  bodyid := [];
  matid := -1
|}.

(** The same skin with the largest [float] as both weights of vertex 0:
    their sum is an infinity. *)
Definition heavy_bones : mjCSkin := {|
  file := ""; material := "";
  vert := [0; 0; 0; 1; 0; 0; 0; 1; 0]%Q;
  texcoord := [];
  face := [0; 1; 2];
  bodyname := ["upper"; "lower"];
  bindpos := [0; 0; 0; 0; 0; 0]%Q;
  bindquat := [1; 0; 0; 0; 1; 0; 0; 0]%Q;
  vertid := [[0; 1; 2]; [0; 1; 2]];
  vertweight := [[fmax; f1; f1]; [fmax; f1; f1]];
  bodyid := [];
  matid := -1
|}.

End Skin.

(* ================================================================= *)
(** ** An instance of the interface, for the examples *)

Module Demo.

#[local] Open Scope Q_scope.

(** A square root that is exact on the squares of rationals. *)
Definition sqrtQ (q : Q) : Q :=
  let r := Qred q in
  Qmake (Z.sqrt (Qnum r)) (Z.to_pos (Z.sqrt (Zpos (Qden r)))).

Definition minval : Q := 1 # 1000000000000000.

Definition normalize3 (v : vec3) : vec3 * Q :=
  let n := sqrtQ (dot3 v v) in
  if Qlt_bool n minval then ((1, 0, 0), n) else (vdiv v n, n).

Definition normalize4 (q : quat) : quat :=
  let '(a, b, c, d) := q in
  let n := sqrtQ (a * a + b * b + c * c + d * d) in
  if Qlt_bool n minval then (1, 0, 0, 0) else (a / n, b / n, c / n, d / n).

Definition quat2mat (q : quat) : list Q :=
  let '(a, b, c, d) := q in
  [a * a + b * b - c * c - d * d; 2 * (b * c - a * d); 2 * (b * d + a * c);
   2 * (b * c + a * d); a * a - b * b + c * c - d * d; 2 * (c * d - a * b);
   2 * (b * d - a * c); 2 * (c * d + a * b); a * a - b * b - c * c + d * d].

Definition mulvecmat (v : vec3) (mat : list Q) : vec3 :=
  let '(x, y, z) := v in
  let a := fun k => getQ mat k in
  (a 0%Z * x + a 1%Z * y + a 2%Z * z,
   a 3%Z * x + a 4%Z * y + a 5%Z * z,
   a 6%Z * x + a 7%Z * y + a 8%Z * z).

Definition rotVecMatT (v : vec3) (mat : list Q) : vec3 :=
  let '(x, y, z) := v in
  let a := fun k => getQ mat k in
  (a 0%Z * x + a 3%Z * y + a 6%Z * z,
   a 1%Z * x + a 4%Z * y + a 7%Z * z,
   a 2%Z * x + a 5%Z * y + a 8%Z * z).

(** Eigenvalues of a matrix that is already diagonal. *)
Definition eig3_diag (mat : list Q) : vec3 * list Q * quat :=
  ((Qred (getQ mat 0), Qred (getQ mat 4), Qred (getQ mat 8)),
   [1; 0; 0; 0; 1; 0; 0; 0; 1], (1, 0, 0, 0)).

Fixpoint insert_by (cmp : Z -> Z -> comparison) (x : Z) (l : list Z) : list Z :=
  match l with
  | [] => [x]
  | y :: l' =>
      match cmp x y with
      | Gt => y :: insert_by cmp x l'
      | _ => x :: l
      end
  end.

Definition sort_by (cmp : Z -> Z -> comparison) (l : list Z) : list Z :=
  fold_right (insert_by cmp) [] l.

#[local] Close Scope Q_scope.

Definition ext_of (name : string) : mesh_ext :=
  let n := String.length name in
  let e := substring (n - 4) 4 name in
  if String.eqb e ".stl" then ext_stl
  else if String.eqb e ".obj" then ext_obj
  else if String.eqb e ".msh" then ext_msh
  else ext_other.

Definition lookup {T : Type} (files : list (string * T)) (name : string) : option T :=
  match find (fun p => String.eqb (fst p) name) files with
  | Some p => Some (snd p)
  | None => None
  end.

(** The instance over a file system [files], a set of parsed OBJ files
    [objs] and a hull [hull] that Qhull answers with. *)
Definition externals (files : list (string * list byte))
  (objs : list (string * ObjData)) (hull : option qhT) : Externals := {|
  mjMINVAL := minval;
  mju_sqrt := sqrtQ;
  mju_normalize3 := normalize3;
  mju_normalize4 := normalize4;
  mju_quat2Mat := quat2mat;
  mju_rotVecMatT := rotVecMatT;
  mjuu_quat2mat := quat2mat;
  mjuu_mulvecmat := mulvecmat;
  mju_eig3 := eig3_diag;
  qh_qhull := fun _ _ => hull;
  mjQUICKSORT := sort_by;
  mjuu_strippath := fun s => s;
  file_ext := ext_of;
  open_file := lookup files;
  is_skn := fun name =>
    String.eqb (substring (String.length name - 4) 4 name) ".skn";
  find_body := fun name => if String.eqb name "" then None else Some 0;
  find_material := fun _ => None;
  obj_reader := lookup objs
|}.

Definition model : mjCModel := {|
  strippath := false; convexhull := false; exactmeshinertia := true;
  geom_density := 1000%Q
|}.

(** The unit cube with corners at +-1/2 : 8 vertices, 12 triangles. *)
Definition cube_vert : list Q :=
  [-1 # 2; -1 # 2; -1 # 2;   1 # 2; -1 # 2; -1 # 2;
    1 # 2;  1 # 2; -1 # 2;  -1 # 2;  1 # 2; -1 # 2;
   -1 # 2; -1 # 2;  1 # 2;   1 # 2; -1 # 2;  1 # 2;
    1 # 2;  1 # 2;  1 # 2;  -1 # 2;  1 # 2;  1 # 2]%Q.

Definition cube_face : list Z :=
  [0; 2; 1;  0; 3; 2;   4; 5; 6;  4; 6; 7;
   0; 1; 5;  0; 5; 4;   2; 3; 7;  2; 7; 6;
   0; 4; 7;  0; 7; 3;   1; 2; 6;  1; 6; 5].

Definition cube : mjCMesh :=
  mjCMesh_new <| uservert := cube_vert |> <| userface := cube_face |>.

(** An OBJ file with four vertices, three texture coordinates, one
    triangle and one quad. *)
Definition ix (v : Z) : index_t :=
  {| vertex_index := v; normal_index := -1; texcoord_index := v |}.

Definition obj_patch : ObjData := {|
  attrib_vertices := [0; 0; 0; 1; 0; 0; 1; 1; 0; 0; 1; 0]%Q;
  attrib_normals := [];
  attrib_texcoords := [0; 1 # 4; 1; 1 # 4; 1; 3 # 4]%Q;
  shapes0 := Some [[ix 0; ix 1; ix 2]; [ix 0; ix 1; ix 2; ix 3]]
|}.

(** An OBJ file with one triangle and nothing else. *)
Definition iv (v : Z) : index_t :=
  {| vertex_index := v; normal_index := -1; texcoord_index := -1 |}.

Definition obj_tri : ObjData := {|
  attrib_vertices := [0; 0; 0; 1; 0; 0; 0; 1; 0]%Q;
  attrib_normals := [];
  attrib_texcoords := [];
  shapes0 := Some [[iv 0; iv 1; iv 2]]
|}.

(** An SKN file: three vertices, one face, and one bone named "b" that
    holds the three vertices with weight 1. *)
Definition skn_one : list byte :=
  le32s [3; 0; 1; 1]
  ++ le32s [f32_0; f32_0; f32_0;  f32_1; f32_0; f32_0;  f32_0; f32_1; f32_0]
  ++ le32s [0; 1; 2]
  ++ le32s [98; 0; 0; 0; 0; 0; 0; 0; 0; 0]
  ++ le32s [f32_0; f32_0; f32_0]
  ++ le32s [f32_1; f32_0; f32_0; f32_0]
  ++ le32s [3]
  ++ le32s [0; 1; 2]
  ++ le32s [f32_1; f32_1; f32_1].

(** The file systems of the examples. *)
Definition files : list (string * list byte) :=
  [("one.stl", stl_one); ("nan.stl", stl_nan); ("big.stl", stl_big);
   ("one.msh", msh_one); ("overflow.msh", msh_overflow)].

Definition objs : list (string * ObjData) :=
  [("patch.obj", obj_patch); ("tri.obj", obj_tri)].

Definition E0 : Externals := externals files objs (Some hull_tetra).

(** The same with the MSH file that has normals, with the SKN file and
    with the STL files of two triangles. *)
Definition files_more : list (string * list byte) :=
  files ++ [("normals.msh", msh_normals); ("one.skn", skn_one);
            ("two.stl", stl_two); ("tied.stl", stl_tied)].

Definition E1 : Externals := externals files_more objs (Some hull_tetra).

End Demo.
(* ================================================================= *)
(** ** FitGeom *)

(** The geom types that FitGeom tells apart; [mjGEOM_OTHER] stands for
    every other value of [mjtGeom] (plane, height field, mesh and the
    types used for rendering only), which all take the [default] branch. *)
Inductive mjtGeom : Type :=
  | mjGEOM_SPHERE
  | mjGEOM_CAPSULE
  | mjGEOM_ELLIPSOID
  | mjGEOM_CYLINDER
  | mjGEOM_BOX
  | mjGEOM_OTHER.

(** The fields of [mjCGeom] that FitGeom reads and writes. *)
Module Geom.

Record mjCGeom : Type := {
  type : mjtGeom;
  size : vec3;                          (* double size[3] *)
  typeinertia : mjtMeshType;
  fitscale : Q
}.

Definition with_size (geom : mjCGeom) (s : vec3) : mjCGeom :=
  {| type := type geom; size := s;
     typeinertia := typeinertia geom; fitscale := fitscale geom |}.

End Geom.

(** What FitGeom calls outside user_mesh.cc besides the engine above:
    [mjuu_dist3] of user_util.cc and [sin], [acos] of the C library.
    [sqrt] is [mju_sqrt] of the interface and [fabs] is [Qabs]. *)
Class MathLib : Type := {
  mjuu_dist3 : vec3 -> vec3 -> Q;
  sin : Q -> Q;
  acos : Q -> Q
}.

Definition msg_fit_type : string := "invalid geom type in fitting mesh %s".
Definition msg_fit_aabb : string := "invalid fittype in mesh %s".
Definition ub_fit_vert : string := "read outside the vert array in FitGeom".
Definition nan_fit_capsule : string :=
  "quotient by a zero radius in the capsule fit: not a rational number".

Section Fitting.
Context {E : Externals} {L : MathLib}.

#[local] Open Scope Q_scope.

(** [double cen[3]]: the centre of the bounding box. *)
Definition aabb_center (m : mjCMesh) : vec3 :=
  let a := fun k => getQ (aabb m) k in
  ((a 0%Z + a 3%Z) / 2, (a 1%Z + a 4%Z) / 2, (a 2%Z + a 5%Z) / 2).

(** [sqrt((v[0]-cen[0])*(v[0]-cen[0]) + (v[1]-cen[1])*(v[1]-cen[1]))] and
    [fabs(v[2]-cen[2])]. *)
Definition dist_xy (p cen : vec3) : Q :=
  let '(v0, v1, _) := p in
  let '(c0, c1, _) := cen in
  mju_sqrt ((v0 - c0) * (v0 - c0) + (v1 - c1) * (v1 - c1)).

Definition dist_z (p cen : vec3) : Q :=
  let '(_, _, v2) := p in
  let '(_, _, c2) := cen in
  Qabs (v2 - c2).

(** The array that the loops over [i < nvert] read: [3*nvert] floats
    behind [vert]. *)
Definition vert_array (m : mjCMesh) : outcome (list Q) :=
  if (nvert m <=? 0)%Z then Done []
  else
    match vert m with
    | Some v => if (len v <? 3 * nvert m)%Z then Undefined ub_fit_vert else Done v
    | None => Undefined ub_fit_vert
    end.

(** "find maximum distance": the loop of the sphere; [s0] is
    [geom->size[0]]. *)
Fixpoint fit_sphere (v : list Q) (cen : vec3) (idx : list Z) (s0 : Q) : Q :=
  match idx with
  | [] => s0
  | i :: idx' => fit_sphere v cen idx' (Qmax s0 (mjuu_dist3 (vtx v i) cen))
  end.

(** "find maximum distance in XY, separately in Z". *)
Fixpoint fit_cylinder (v : list Q) (cen : vec3) (idx : list Z) (s0 s1 : Q)
  : Q * Q :=
  match idx with
  | [] => (s0, s1)
  | i :: idx' =>
      let dst := dist_xy (vtx v i) cen in
      let s0 := Qmax s0 dst in
      let dst2 := dist_z (vtx v i) cen in
      fit_cylinder v cen idx' s0 (Qmax s1 dst2)
  end.

(** "special handling of capsule: consider curved cap"; [s0] is the
    radius found before.  With a zero radius the quotient [dst/size[0]]
    is a NaN or an infinity, which the rationals do not have. *)
Fixpoint fit_cap (v : list Q) (cen : vec3) (idx : list Z) (s0 s1 : Q)
  : outcome Q :=
  match idx with
  | [] => Done s1
  | i :: idx' =>
      let dst := dist_xy (vtx v i) cen in
      let dst2 := dist_z (vtx v i) cen in
      if Qeq_bool s0 0 then Undefined nan_fit_capsule
      else
        let h := s0 * sin (acos (dst / s0)) in
        fit_cap v cen idx' s0 (Qmax s1 (dst2 - h))
  end.

(** "rescale size". *)
Definition rescale (geom : Geom.mjCGeom) (s : vec3) : Geom.mjCGeom :=
  let '(s0, s1, s2) := s in
  let k := Geom.fitscale geom in
  Geom.with_size geom (s0 * k, s1 * k, s2 * k).

(** [mjCMesh::FitGeom]; [fitaabb] is [model->fitaabb].  Returns the geom
    and the array [meshpos]. *)
Definition FitGeom (fitaabb : bool) (m : mjCMesh) (geom : Geom.mjCGeom)
  : outcome (Geom.mjCGeom * vec3) :=
  let meshpos := GetPosPtr m (Geom.typeinertia geom) in
  let '(s0, s1, s2) := Geom.size geom in
  if negb fitaabb then
    boxsz <- GetInertiaBoxPtr m (Geom.typeinertia geom) ;;
    let '(b0, b1, b2) := boxsz in
    s <- match Geom.type geom with
         | mjGEOM_SPHERE => Done ((b0 + b1 + b2) / 3, s1, s2)
         | mjGEOM_CAPSULE =>
             let r := (b0 + b1) / 2 in
             Done (r, Qmax 0 (b2 - r / 2), s2)
         | mjGEOM_CYLINDER => Done ((b0 + b1) / 2, b2, s2)
         | mjGEOM_ELLIPSOID | mjGEOM_BOX => Done (b0, b1, b2)
         | mjGEOM_OTHER => throw msg_fit_type []
         end ;;
    Done (rescale geom s, meshpos)
  else
    let cen := aabb_center m in
    let meshpos := vadd meshpos cen in
    s <- match Geom.type geom with
         | mjGEOM_SPHERE =>
             v <- vert_array m ;;
             Done (fit_sphere v cen (iota (nvert m)) 0, s1, s2)
         | mjGEOM_CAPSULE =>
             v <- vert_array m ;;
             let '(r, _) := fit_cylinder v cen (iota (nvert m)) 0 0 in
             h <- fit_cap v cen (iota (nvert m)) r 0 ;;
             Done (r, h, s2)
         | mjGEOM_CYLINDER =>
             v <- vert_array m ;;
             let '(r, h) := fit_cylinder v cen (iota (nvert m)) 0 0 in
             Done (r, h, s2)
         | mjGEOM_ELLIPSOID | mjGEOM_BOX =>
             let '(c0, c1, c2) := cen in
             Done (getQ (aabb m) 3 - c0, getQ (aabb m) 4 - c1, getQ (aabb m) 5 - c2)
         | mjGEOM_OTHER => throw msg_fit_aabb []
         end ;;
    Done (rescale geom s, meshpos).

End Fitting.

(** The distance for the examples, exact where the squared distance is the
    square of a rational.  No example fits a capsule, so [sin] and [acos]
    are never applied there. *)
Definition demo_math : MathLib := {|
  mjuu_dist3 := fun a b => Demo.sqrtQ (dot3 (vsub a b) (vsub a b));
  sin := fun x => x;
  acos := fun x => x
|}.

(* ================================================================= *)
(** ** Predicates and views that the statements use *)

(** An outcome of MakeGraph that is neither a return nor a throw: the
    fatal error for a facet that is not a triangle, or an access outside
    the graph array before that. *)
Definition stops {A : Type} (r : outcome A) : Prop :=
  r = Fatal msg_not_triangle \/ r = Undefined ub_graph_bounds.

(** A tetrahedron in which Qhull names the point 99 for the fourth
    vertex. *)
Definition hull_tetra_bad : qhT := {|
  vertex_list := [
    {| point := 0; neighbors := [tri 0 1 2; tri 0 1 99; tri 0 2 99] |};
    {| point := 1; neighbors := [tri 0 1 2; tri 0 1 99; tri 1 2 99] |};
    {| point := 2; neighbors := [tri 0 1 2; tri 0 2 99; tri 1 2 99] |};
    {| point := 99; neighbors := [tri 0 1 99; tri 0 2 99; tri 1 2 99] |} ];
  facet_list := [tri 0 1 2; tri 0 1 99; tri 0 2 99; tri 1 2 99]
|}.

(** The weights of a bone after Compile, entry by entry: the weight that
    was given, divided in [float] by the total of its vertex. *)
Definition divided_by_total (nv : Z) (ids : list (list Z))
  (ws : list (list float32)) (ids1 : list Z) (ws1 ws1' : list float32) : Prop :=
  Forall2 (fun iw w' =>
             0 <= fst iw < nv ->
             w' = f32_div (snd iw)
                    (Skin.vertex_total (fst iw) ids ws (F_num false 0)))
          (combine ids1 ws1) ws1'.

(** The two errors of the coordinate tests. *)
Definition stl_throws {A : Type} (r : outcome A) : Prop :=
  r = throw msg_stl_invalid [] \/ r = throw msg_stl_bounds [].

(** The triangles [k, k+1, ..., k+m-1]. *)
Definition corners_of (l : list Z) : list (Z * Z) :=
  flat_map (fun i => [(i, 0); (i, 1); (i, 2)]) l.

(** Three views of the object: the texture coordinates with the vertex
    count, the record of the orientation check, the validity flags. *)
Definition tex_view (m : mjCMesh) : option (list Q) * Z * Z :=
  (texcoord m, ntexcoord m, nvert m).

Definition orient_view (m : mjCMesh) : Z * Z * bool :=
  (invalidorientation m, processed m).

Definition valid_view (m : mjCMesh) : bool * bool * bool * bool :=
  (validarea m, validvolume m, valideigenvalue m, validinequality m).

(** A coordinate fails the tests of the loader exactly if it is a NaN,
    an infinity, or larger than [2^30] in absolute value. *)
Definition stl_coord_bad (w : Z) : Prop :=
  f32_isnan w = true \/ f32_isinf w = true
  \/ (2 ^ 30 < Qabs (f32_value w))%Q.

(** The coordinate [k] of corner [j] of triangle [i]. *)
Definition stl_word (buf : list byte) (i j k : Z) : Z :=
  f32_at buf (84 + 50 * i + 12 * (j + 1) + 4 * k).

(** The fields that no stage after the orientation check writes. *)
Definition kept_view (m : mjCMesh)
  : option (list Q) * Z * Z * (Z * Z) * bool * list (Z * Z) :=
  (texcoord m, ntexcoord m, nvert m, invalidorientation m, processed m,
   useredge m).

(** The accessors write [surface] and [volume] only. *)
Definition volumes_only (m m' : mjCMesh) : Prop :=
  exists s v, m' = m <| surface := s |> <| volume := v |>.

(** What every step of Process keeps. *)
Definition kept (m m' : mjCMesh) : Prop :=
  kept_view m' = kept_view m /\ nface m' = nface m /\ face m' = face m.

Section Prepare.
Context {E : Externals}.
Variable model : mjCModel.

(** The object that Compile hands to Process. *)
Definition Compile_prepare (m : mjCMesh) : outcome mjCMesh :=
  m1 <- (if (convexhull model && needhull m) || is_null (face m)
         then MakeGraph m else Done m) ;;
  m2 <- (if is_null (face m1) then CopyGraph m1 else Done m1) ;;
  m3 <- (if is_null (normal m2) then MakeNormal m2 else Done m2) ;;
  m4 <- Compile_facenormal m3 ;;
  m5 <- Compile_facetexcoord m4 ;;
  Compile_default_facenormal m5.

End Prepare.

(** The texture coordinates are absent, or as many pairs as counted. *)
Definition tex_ok (m : mjCMesh) : Prop :=
  (texcoord m = None /\ ntexcoord m = 0)
  \/ (exists tc, texcoord m = Some tc /\ len tc = 2 * ntexcoord m
                 /\ 0 < ntexcoord m).

(** File sizes are [int]s. *)
Definition int_sized_files (E : Externals) : Prop :=
  forall name buf, open_file name = Some buf -> len buf < 2 ^ 31.

(** The object with the pair [p] in [invalidorientation], and an outcome
    with its result changed by [f]. *)
Definition with_pair (p : Z * Z) (m : mjCMesh) : mjCMesh :=
  m <| invalidorientation := p |>.

Definition omap {A B : Type} (f : A -> B) (o : outcome A) : outcome B :=
  match o with
  | Done a => Done (f a)
  | Throw e => Throw e
  | Fatal s => Fatal s
  | Undefined s => Undefined s
  end.

Definition with_pair_fst {X : Type} (p : Z * Z) (r : mjCMesh * X)
  : mjCMesh * X :=
  (with_pair p (fst r), snd r).

Definition with_pair_fst3 {X Y : Type} (p : Z * Z) (r : mjCMesh * X * Y)
  : mjCMesh * X * Y :=
  (with_pair p (fst (fst r)), snd (fst r), snd r).

Definition with_pair_built (p : Z * Z) (b : built) : built :=
  {| b_mesh := with_pair p (b_mesh b); b_buf := b_buf b; b_live := b_live b;
     b_numvert := b_numvert b; b_numface := b_numface b |}.

Definition edge_eq_dec (a b : Z * Z) : {a = b} + {a <> b}.
Proof. decide equality; apply Z.eq_dec. Defined.

(** How many half-edges of [l] are the directed edge [e]. *)
Definition occurrences (e : Z * Z) (l : list (Z * Z)) : nat :=
  count_occ edge_eq_dec l e.

Definition edge_le (a b : Z * Z) : Prop := edge_leb a b = true.

(* ================================================================= *)
(** ** The meshes of the examples *)

Module Examples.
Import Demo.

(** A mesh from the one-triangle STL file, and what Compile makes of it. *)
Definition stl_mesh : mjCMesh := mjCMesh_new <| file := "one.stl" |>.

Definition result {A : Type} (o : outcome A) (default : A) : A :=
  match o with Done a => a | _ => default end.



(** The cube with its first face turned over. *)
Definition cube_flipped : mjCMesh :=
  mjCMesh_new <| uservert := cube_vert |>
    <| userface := [0; 1; 2;  0; 3; 2;   4; 5; 6;  4; 6; 7;
                    0; 1; 5;  0; 5; 4;   2; 3; 7;  2; 7; 6;
                    0; 4; 7;  0; 7; 3;   1; 2; 6;  1; 6; 5] |>.

Definition cube_flipped_staged : mjCMesh :=
  Eval vm_compute in result (@Compile_stage E0 model cube_flipped) mjCMesh_new.

(** The cube with one pair of texture coordinates. *)
Definition cube_tex : mjCMesh := cube <| usertexcoord := [0; 0]%Q |>.

(** Meshes from the MSH file of one triangle: mirrored in x, and with a
    scale of zero in x. *)
Definition msh_mirrored : mjCMesh :=
  mjCMesh_new <| file := "one.msh" |> <| scale := (-1, 1, 1)%Q |>.
Definition msh_flat : mjCMesh :=
  mjCMesh_new <| file := "one.msh" |> <| scale := (0, 1, 1)%Q |>.
Definition msh_plain : mjCMesh := mjCMesh_new <| file := "one.msh" |>.

(** The MSH file with normals, mirrored in x. *)
Definition msh_normals_mirrored : mjCMesh :=
  mjCMesh_new <| file := "normals.msh" |> <| scale := (-1, 1, 1)%Q |>.

Definition obj_mesh : mjCMesh := mjCMesh_new <| file := "patch.obj" |>.

End Examples.

(** The counts, the index arrays and the records of the checks. *)
Definition index_view (m : mjCMesh) :=
  (nvert m, nnormal m, ntexcoord m, nface m, szgraph m,
   face m, facenormal m, facetexcoord m, texcoord m, graph m,
   useredge m, invalidorientation m, processed m, warnings m).

(** What the user has set. *)
Definition user_view (m : mjCMesh) :=
  (file m, uservert m, usernormal m, usertexcoord m, userface m,
   userfacenormal m, userfacetexcoord m,
   refpos m, refquat m, scale m, smoothnormal m, needhull m).

(** Process leaves everything but the coordinates, the inertial data and
    the validity flags, and frees no array. *)
Definition coordinates_only (m m' : mjCMesh) : Prop :=
  index_view m' = index_view m
  /\ user_view m' = user_view m
  /\ (vert m <> None -> vert m' <> None)
  /\ (normal m <> None -> normal m' <> None).

(** One of the four validity flags of [m] has been cleared in [m']. *)
Definition cleared_one (m m' : mjCMesh) : Prop :=
  valid_view m' = (false, validvolume m, valideigenvalue m, validinequality m)
  \/ valid_view m' = (validarea m, false, valideigenvalue m, validinequality m)
  \/ valid_view m' = (validarea m, validvolume m, false, validinequality m)
  \/ valid_view m' = (validarea m, validvolume m, valideigenvalue m, false).

(** Two vertices at the same place. *)
Definition same_place (a b : vec3) : Prop := veqb a b = true.

(** Every entry of [redirect] names a vertex at the place of its own. *)
Definition redirects (v : list Q) (n : Z) (redirect : list Z) : Prop :=
  len redirect = n
  /\ forall i, 0 <= i < n ->
       0 <= getZ redirect i < n
       /\ same_place (vtx v (getZ redirect i)) (vtx v i).

(** The entries of the vertices in [done] are roots. *)
Definition resolved (redirect : list Z) (done : list Z) : Prop :=
  forall k, In k done -> getZ redirect (getZ redirect k) = getZ redirect k.

(** The state of the compression loop before vertex [i0]: the roots below
    [i0] have their places among the first [j] vertices, and the vertices
    from [j] on are as they were. *)
Definition compressed (v0 : list Q) (redirect : list Z) (n i0 : Z)
  (index : list Z) (vert : list Q) (j : Z) : Prop :=
  0 <= j <= i0 /\ len index = n /\ len vert = len v0
  /\ (forall r, 0 <= r < i0 -> getZ redirect r = r ->
        0 <= getZ index r < j /\ vtx vert (getZ index r) = vtx v0 r)
  /\ (forall t, j <= t -> vtx vert t = vtx v0 t).

Section SortContract.
Context {E : Externals}.

(** The contract of the engine's sort: the array is rearranged. *)
Definition sort_permutes : Prop :=
  forall (cmp : Z -> Z -> comparison) (l : list Z),
    Permutation (mjQUICKSORT cmp l) l.

End SortContract.

(** The place of corner [j] of triangle [i] in the file, and the corner
    of the file that a load of either hand stores as corner [j]. *)
Definition stl_place (buf : list byte) (i j : Z) : vec3 :=
  let off := 84 + 50 * i + 12 * (j + 1) in
  (f32_value (f32_at buf off), f32_value (f32_at buf (off + 4)),
   f32_value (f32_at buf (off + 8))).

Definition stl_stored (rh : bool) (j : Z) : Z :=
  if rh then j else if j =? 0 then 0 else 3 - j.

(** How many vertices of the sorted order [prev :: rest] lie at the place
    of the vertex before them. *)
Fixpoint repeats (v : list Q) (prev : Z) (rest : list Z) : Z :=
  match rest with
  | [] => 0
  | cur :: rest' =>
      (if veqb (vtx v cur) (vtx v prev) then 1 else 0) + repeats v cur rest'
  end.

Definition repeated_in (v : list Q) (index : list Z) : Z :=
  match index with
  | [] => 0
  | first :: rest => repeats v first rest
  end.

(** In the sorted order [index], every vertex from position [p + 1] to
    position [q] lies at the place of the vertex before it. *)
Definition glued (v : list Q) (index : list Z) (p q : Z) : Prop :=
  forall t, p < t <= q ->
    same_place (vtx v (getZ index t)) (vtx v (getZ index (t - 1))).

(** The entries of [redirect] that name themselves among the first [n]. *)
Definition is_root (redirect : list Z) (i : Z) : bool := getZ redirect i =? i.

Definition nroots (n : Z) (redirect : list Z) : Z :=
  len (filter (is_root redirect) (iota n)).

(** The new indices of the roots grow with the roots. *)
Definition ranked (redirect : list Z) (n i0 : Z) (index : list Z) (j : Z)
  : Prop :=
  len index = n
  /\ (forall r, 0 <= r < i0 -> getZ redirect r = r -> 0 <= getZ index r < j)
  /\ (forall r1 r2, 0 <= r1 -> r1 < r2 -> r2 < i0 ->
        getZ redirect r1 = r1 -> getZ redirect r2 = r2 ->
        getZ index r1 < getZ index r2).

(** A bone's vertex ids and weights: as many weights as ids, at least
    one, and every id a vertex. *)
Definition bone_ok (nv : Z) (ids : list Z) (ws : list float32) : Prop :=
  len ws = len ids /\ ids <> [] /\ Forall (fun id => 0 <= id < nv) ids.

(** The number of triangles that a polygon of the OBJ file gives. *)
Definition obj_triangles (f : list index_t) : Z := len f - 2.

(** The lists of a bone as the loader leaves them: as many weights as
    vertex ids, and at least one. *)
Definition bone_read (ids : list Z) (ws : list float32) : Prop :=
  len ws = len ids /\ 1 <= len ids.

(** The 4-byte words that the bones take in the file: 18 for the name, the
    position, the quaternion and the count of a bone, and two for each of
    its vertices. *)
Definition bone_words (ids : list (list Z)) : Z :=
  fold_right (fun l n => 18 + 2 * len l + n) 0 ids.

(** The mesh data of a skin, which the loop over the bones leaves. *)
Definition skin_mesh (s : Skin.mjCSkin) :=
  (Skin.vert s, Skin.texcoord s, Skin.face s).

(** The state of the bone loop before bone [i0] of [nb]: [np] and [nq] are
    the sizes of [bindpos] and [bindquat], [c0] is the word count before
    the first bone and [cnt] the one before bone [i0]. *)
Definition bones_read (buf : list byte) (np nq nb c0 i0 cnt : Z)
  (s : Skin.mjCSkin) : Prop :=
  len (Skin.bodyname s) = i0
  /\ len (Skin.bindpos s) = np /\ 3 * i0 <= np
  /\ len (Skin.bindquat s) = nq /\ 4 * i0 <= nq
  /\ len (Skin.vertid s) = nb
  /\ len (Skin.vertweight s) = nb
  /\ Forall2 bone_read (firstn (Z.to_nat i0) (Skin.vertid s))
                       (firstn (Z.to_nat i0) (Skin.vertweight s))
  /\ 0 <= cnt /\ 16 + 4 * cnt <= len buf
  /\ cnt = c0 + bone_words (firstn (Z.to_nat i0) (Skin.vertid s)).

(** The graph array keeps its size and its two header cells. *)
Definition header_kept (b b' : list Z) : Prop :=
  len b' = len b /\ getZ b' 0 = getZ b 0 /\ getZ b' 1 = getZ b 1.

(** The three cells of [face_globalid] that the facet loop fills for one
    triangle: [ind] is its own inverse, so cell [j] receives vertex
    [ind j] of the facet. *)
Definition oriented (f : facetT) : list Z :=
  [getZ (vertices f) (ind f 0); getZ (vertices f) (ind f 1);
   getZ (vertices f) (ind f 2)].

(** Three consecutive cells of an array. *)
Definition cells3 (buf : list Z) (z : Z) : list Z :=
  [getZ buf z; getZ buf (z + 1); getZ buf (z + 2)].

(** An entry of [edge_localid] is a separator or a local vertex id. *)
Definition local_edge (numvert : Z) (buf : list Z) (i : Z) : Prop :=
  getZ buf (2 + 2 * numvert + i) < 0
  \/ 0 <= getZ buf (2 + 2 * numvert + i) < numvert.

(** The graph of the tetrahedron [hull_tetra] over the four vertices of
    [mesh4]. *)
Definition tetra_graph : mjCMesh :=
  Eval vm_compute in
    match MakeGraph_with (Some hull_tetra) mesh4 with
    | Done m1 => m1
    | _ => mesh4
    end.

(** The four vertices of [mesh4] with their bounding box, a box with
    [fitscale] 2 and a sphere with [fitscale] 1, and what FitGeom makes of
    them. *)
Definition fit_mesh : mjCMesh := mesh4 <| aabb := [0; 0; 0; 1; 1; 1]%Q |>.

Definition box_geom : Geom.mjCGeom :=
  {| Geom.type := mjGEOM_BOX; Geom.size := (0, 0, 0)%Q;
     Geom.typeinertia := mjVOLUME_MESH; Geom.fitscale := 2%Q |}.

Definition sphere_geom : Geom.mjCGeom :=
  {| Geom.type := mjGEOM_SPHERE; Geom.size := (0, 0, 0)%Q;
     Geom.typeinertia := mjVOLUME_MESH; Geom.fitscale := 1%Q |}.

Definition box_fitted : Geom.mjCGeom * vec3 :=
  Eval vm_compute in
    match @FitGeom Demo.E0 demo_math true fit_mesh box_geom with
    | Done r => r
    | _ => (box_geom, (0, 0, 0)%Q)
    end.

Definition sphere_fitted : Geom.mjCGeom * vec3 :=
  Eval vm_compute in
    match @FitGeom Demo.E0 demo_math true fit_mesh sphere_geom with
    | Done r => r
    | _ => (sphere_geom, (0, 0, 0)%Q)
    end.

(** Two triangles that share an edge, as six vertices. *)
Definition two_triangles : mjCMesh :=
  mjCMesh_new <| nvert := 6 |> <| nface := 2 |>
    <| vert := Some [0; 0; 0;  1; 0; 0;  0; 1; 0;
                     1; 0; 0;  1; 1; 0;  0; 1; 0]%Q |>
    <| face := Some [0; 1; 2; 3; 4; 5] |>.

(** The cube as Compile hands it to Process. *)
Definition cube_prepared : mjCMesh :=
  Eval vm_compute in
    Examples.result
      (@Compile_prepare Demo.E0 Demo.model
         (Compile_orientation
            (Examples.result (@Compile_stage Demo.E0 Demo.model Demo.cube)
               mjCMesh_new)))
      mjCMesh_new.

Definition tri_mesh : mjCMesh := mjCMesh_new <| file := "tri.obj" |>.

(** A skin from the SKN file of one bone. *)
Definition skn_skin : Skin.mjCSkin :=
  Skin.mjCSkin_new <| Skin.file := "one.skn" |>.

(** The meshes of the two STL files of two triangles. *)
Definition stl_two_mesh : mjCMesh := mjCMesh_new <| file := "two.stl" |>.

Definition stl_tied_mesh : mjCMesh := mjCMesh_new <| file := "tied.stl" |>.

(* ================================================================= *)
(** * Properties *)

(** ** Outcomes *)

Lemma bind_Done {A B : Type} (c : outcome A) (k : A -> outcome B) (b : B) :
  bind c k = Done b -> exists a, c = Done a /\ k a = Done b.
Proof.
  destruct c as [a| | |]; simpl; intros H; try discriminate.
  exists a; split; [reflexivity | exact H].
Qed.

Lemma store_Done {A : Type} (what : string) (l : list A) (i : Z) (v : A) (l' : list A) :
  store what l i v = Done l' -> upd l i v = Some l'.
Proof.
  unfold store. destruct (upd l i v); intros H; inversion H; reflexivity.
Qed.

(** Inversion of a run that returned: splits [x <- c ;; k = Done _]. *)
Tactic Notation "inv_bind" hyp(H) "as" ident(a) ident(Ha) :=
  apply bind_Done in H; destruct H as [a [Ha H]].

Ltac done_inv :=
  repeat match goal with
  | H : Done _ = Done _ |- _ => inversion H; subst; clear H
  | H : Throw _ = Done _ |- _ => discriminate H
  | H : throw _ _ = Done _ |- _ => discriminate H
  | H : Fatal _ = Done _ |- _ => discriminate H
  | H : Undefined _ = Done _ |- _ => discriminate H
  end.

(** ** MakeGraph *)


Lemma stops_bind {A B : Type} (c : outcome A) (k : A -> outcome B) :
  stops c -> stops (bind c k).
Proof.
  intros [-> | ->]; simpl; [left | right]; reflexivity.
Qed.

Lemma stops_not_Done {A : Type} (r : outcome A) (a : A) : stops r -> r <> Done a.
Proof. intros [-> | ->]; discriminate. Qed.

Lemma store_cases {A : Type} (what : string) (l : list A) (i : Z) (v : A) :
  (exists l', store what l i v = Done l') \/ store what l i v = Undefined what.
Proof.
  unfold store. destruct (upd l i v) as [l'|]; [left; exists l' | right]; reflexivity.
Qed.

(** The facet scan returns or runs out of the array; when it returns,
    [ok] has been cleared exactly if some id was out of range, and [cnt]
    counts all the vertices of the facet unless the scan was cut short. *)
Lemma scan_facet_spec (nv pid start eoff : Z) (vs : list Z) :
  forall (cnt : Z) (s : fill),
    scan_facet nv pid start eoff vs cnt s = Undefined ub_graph_bounds
    \/ (exists cnt' s',
          scan_facet nv pid start eoff vs cnt s = Done (cnt', s')
          /\ ok s' = ok s && forallb (id_ok nv) vs
          /\ (forallb (id_ok nv) vs = true -> cnt' = cnt + len vs)).
Proof.
  induction vs as [|pid1 vs IH]; intros cnt s; simpl.
  - right. exists cnt, s. rewrite andb_true_r. unfold len; simpl.
    repeat split; try reflexivity. intros _. lia.
  - unfold id_ok at 1 3. destruct ((pid1 <? 0) || (pid1 >=? nv)) eqn:Hbad; simpl.
    + right. eexists _, _. split; [reflexivity|]. simpl.
      rewrite andb_false_r. split; [reflexivity | discriminate].
    + assert (Hlen : forall c, c + 1 + len vs = c + len (pid1 :: vs)).
      { intros c. unfold len. simpl List.length. lia. }
      destruct (pid =? pid1).
      { destruct (IH (cnt + 1) s) as [Hw | (c' & s' & Hr & Hok & Hc)].
        - left; exact Hw.
        - right. exists c', s'. repeat split; try assumption.
          intros Hall. rewrite <- Hlen. apply Hc, Hall. }
      destruct (recorded (g s) eoff start (adr s) pid1).
      { destruct (IH (cnt + 1) s) as [Hw | (c' & s' & Hr & Hok & Hc)].
        - left; exact Hw.
        - right. exists c', s'. repeat split; try assumption.
          intros Hall. rewrite <- Hlen. apply Hc, Hall. }
      destruct (store_cases ub_graph_bounds (g s) (eoff + adr s) pid1)
        as [[g' Hg] | Hg]; rewrite Hg; simpl.
      * destruct (IH (cnt + 1) {| g := g'; adr := adr s + 1; ok := ok s |})
          as [Hw | (c' & s' & Hr & Hok & Hc)].
        -- left; exact Hw.
        -- right. exists c', s'. repeat split; try assumption.
           intros Hall. rewrite <- Hlen. apply Hc, Hall.
      * left. reflexivity.
Qed.

(** The loop over the neighbouring facets returns, stops as above, and
    when it returns every facet had three vertices counted. *)
Lemma scan_neighbors_spec (nv pid start eoff : Z) (fs : list facetT) :
  forall s : fill,
    stops (scan_neighbors nv pid start eoff fs s)
    \/ (exists s',
          scan_neighbors nv pid start eoff fs s = Done s'
          /\ ok s' = ok s && forallb (facet_ids_ok nv) fs
          /\ (forallb (facet_ids_ok nv) fs = true -> forallb is_triangle fs = true)).
Proof.
  induction fs as [|f fs IH]; intros s; simpl.
  - right. exists s. rewrite andb_true_r. repeat split; reflexivity.
  - destruct (scan_facet_spec nv pid start eoff (vertices f) 0 s)
      as [Hw | (c' & s' & Hr & Hok & Hc)]; rewrite ?Hw, ?Hr; simpl.
    + left. right. reflexivity.
    + destruct (c' =? 3) eqn:Hc3; simpl.
      * destruct (IH s') as [Hstop | (s'' & Hr' & Hok' & Htri)].
        -- left; exact Hstop.
        -- right. exists s''. split; [exact Hr'|]. split.
           ++ rewrite Hok', Hok. unfold facet_ids_ok at 2. now rewrite andb_assoc.
           ++ intros Hall. apply andb_true_iff in Hall as [Hf Hfs].
              apply andb_true_iff. split; [|apply Htri, Hfs].
              unfold is_triangle. specialize (Hc Hf).
              apply Z.eqb_eq in Hc3. apply Z.eqb_eq. lia.
      * left. left. reflexivity.
Qed.

Lemma fill_vertices_spec (nv numvert : Z) (vl : list vertexT) :
  forall (i : Z) (s : fill),
    stops (fill_vertices nv numvert vl i s)
    \/ (exists s',
          fill_vertices nv numvert vl i s = Done s'
          /\ ok s' = ok s && forallb (vertex_ids_ok nv) vl
          /\ (forallb (vertex_ids_ok nv) vl = true ->
              forallb (fun v => forallb is_triangle (neighbors v)) vl = true)).
Proof.
  induction vl as [|v vl IH]; intros i s; cbn [fill_vertices forallb].
  - right. exists s. rewrite andb_true_r. repeat split; reflexivity.
  - unfold vertex_ids_ok at 1 3, id_ok.
    destruct ((point v <? 0) || (point v >=? nv)) eqn:Hbad; cbn [negb andb].
    + right. eexists. split; [reflexivity|]. cbn [ok].
      rewrite andb_false_r. split; [reflexivity | discriminate].
    + destruct (store_cases ub_graph_bounds (g s) (2 + i) (adr s))
        as [[g1 Hg1] | Hg1]; rewrite Hg1; cbn [bind];
        [| left; right; reflexivity].
      destruct (store_cases ub_graph_bounds g1 (2 + numvert + i) (point v))
        as [[g2 Hg2] | Hg2]; rewrite Hg2; cbn [bind];
        [| left; right; reflexivity].
      destruct (scan_neighbors_spec nv (point v) (adr s) (2 + 2 * numvert)
                  (neighbors v) {| g := g2; adr := adr s; ok := ok s |})
        as [Hstop | (s' & Hr & Hok & Htri)].
      * left. apply stops_bind. exact Hstop.
      * rewrite Hr; cbn [bind].
        destruct (store_cases ub_graph_bounds (g s') (2 + 2 * numvert + adr s') (-1))
          as [[g3 Hg3] | Hg3]; rewrite Hg3; cbn [bind];
          [| left; right; reflexivity].
        destruct (IH (i + 1) {| g := g3; adr := adr s' + 1; ok := ok s' |})
          as [Hstop | (s'' & Hr' & Hok' & Htri')].
        -- left; exact Hstop.
        -- right. exists s''. split; [exact Hr'|]. cbn [ok] in Hok'. split.
           ++ rewrite Hok', Hok. cbn [ok]. now rewrite andb_assoc.
           ++ intros Hall. apply andb_true_iff in Hall as [Hv Hvl].
              apply andb_true_iff. split; [apply Htri, Hv | apply Htri', Hvl].
Qed.

(** The copy of the facets returns or stops as above. *)
Lemma fill_facet_cases (foff adr : Z) (f : facetT) (vs : list Z) :
  forall (ii : Z) (buf : list Z),
    stops (fill_facet foff adr f vs ii buf)
    \/ exists buf', fill_facet foff adr f vs ii buf = Done buf'.
Proof.
  induction vs as [|pid vs IH]; intros ii buf; cbn [fill_facet].
  - right. exists buf. reflexivity.
  - destruct (ii >=? 3); [left; left; reflexivity|].
    destruct (store_cases ub_graph_bounds buf (foff + adr + ind f ii) pid)
      as [[buf' Hb] | Hb]; rewrite Hb; cbn [bind];
      [apply IH | left; right; reflexivity].
Qed.

Lemma fill_facets_cases (foff : Z) (fs : list facetT) :
  forall (adr : Z) (buf : list Z),
    stops (fill_facets foff fs adr buf)
    \/ exists buf', fill_facets foff fs adr buf = Done buf'.
Proof.
  induction fs as [|f fs IH]; intros adr buf; cbn [fill_facets].
  - right. exists buf. reflexivity.
  - destruct (fill_facet_cases foff adr f (vertices f) 0 buf)
      as [Hstop | [buf' Hb]].
    + left. apply stops_bind. exact Hstop.
    + rewrite Hb. cbn [bind]. apply IH.
Qed.

(** C10. MakeGraph on a mesh with fewer than four vertices returns at
    once: the object is unchanged (so a null graph stays null and szgraph
    stays 0), whatever Qhull would have answered, and nothing is raised. *)
Theorem MakeGraph_small_mesh (E : Externals) (m : mjCMesh) :
  nvert m < 4 ->
  MakeGraph m = Done m
  /\ (forall answer : option qhT, MakeGraph_with answer m = Done m)
  /\ (graph m = None -> szgraph m = 0 ->
      forall m', MakeGraph m = Done m' -> graph m' = None /\ szgraph m' = 0).
Proof.
  intros Hn. apply Z.ltb_lt in Hn.
  assert (Hw : forall answer, MakeGraph_with answer m = Done m).
  { intros answer. unfold MakeGraph_with. now rewrite Hn. }
  assert (Hm : MakeGraph m = Done m).
  { unfold MakeGraph. destruct (vert m); [apply Hw | now rewrite Hn]. }
  repeat split; try assumption.
  - rewrite Hm in H1. inversion H1; subst; assumption.
  - rewrite Hm in H1. inversion H1; subst; assumption.
Qed.

Lemma MakeGraph_small_mesh_witness :
  let m := mjCMesh_new <| nvert := 3 |> in
  nvert m < 4 /\ MakeGraph_with (Some hull_tetra) m = Done m.
Proof.
  split; [reflexivity|].
  apply (MakeGraph_small_mesh Demo.E0
           (mjCMesh_new <| nvert := 3 |>)).
  reflexivity.
Defined.

(** C1.  With at least four vertices and a hull from Qhull in which some
    point id that the fill loop can read is outside [[0, nvert)], or in
    which a facet next to a hull vertex does not have exactly three
    vertices, MakeGraph never returns and never throws:
    - it ends in one of the fatal errors "Qhull did not return triangle"
      and "Wrong size in convex hull graph", or in an access outside the
      graph array, or in an access to the graph array after it was freed;
    - with all ids in range it ends in the fatal error for the facet
      that is not a triangle (or has left the graph array before);
    - if the run gets as far as the block "bad graph: delete", an id was
      out of range, the graph is discarded there (graph null, szgraph 0)
      with the one warning "Could not construct convex hull graph", and
      the loop after the block then reads the array that was freed. *)
Theorem MakeGraph_bad_hull (qh : qhT) (m : mjCMesh) :
  4 <= nvert m ->
  hull_ids_ok (nvert m) qh = false \/ hull_triangles qh = false ->
  let r := MakeGraph_with (Some qh) m in
  (r = Fatal msg_not_triangle \/ r = Fatal msg_wrong_size
   \/ r = Undefined ub_graph_bounds \/ r = Undefined ub_graph_freed)
  /\ (hull_ids_ok (nvert m) qh = true ->
      r = Fatal msg_not_triangle \/ r = Undefined ub_graph_bounds)
  /\ (forall b, MakeGraph_build qh m = Done b ->
        hull_ids_ok (nvert m) qh = false
        /\ b_live b = false
        /\ b_mesh b = m <| szgraph := 0 |> <| graph := None |>
                        <| warnings := warnings m ++ [msg_no_graph] |>
        /\ r = Undefined ub_graph_freed).
Proof.
  intros Hnv Hbad r.
  assert (Hlt : (nvert m <? 4) = false) by (apply Z.ltb_ge; lia).
  assert (Hr : r = (b <- MakeGraph_build qh m ;; MakeGraph_relabel b)).
  { unfold r, MakeGraph_with. now rewrite Hlt. }
  clearbody r. subst r.
  unfold MakeGraph_build.
  destruct (fill_vertices_spec (nvert m) (num_vertices qh) (vertex_list qh) 0
              {| g := num_vertices qh :: num_facets qh
                      :: repeat 0 (Z.to_nat (2 + 3 * num_vertices qh
                                             + 6 * num_facets qh - 2));
                 adr := 0; ok := true |})
    as [Hstop | (s' & Hfv & Hok & Htri)].
  - (* the fill loop stops *)
    assert (Hb : stops (b <- (s <- fill_vertices (nvert m) (num_vertices qh)
                                    (vertex_list qh) 0
                                    {| g := num_vertices qh :: num_facets qh
                                            :: repeat 0 (Z.to_nat (2 + 3 * num_vertices qh
                                                                   + 6 * num_facets qh - 2));
                                       adr := 0; ok := true |} ;;
                              if negb (adr s =? num_vertices qh + 3 * num_facets qh)
                              then Fatal msg_wrong_size
                              else
                                buf <- fill_facets (2 + 3 * num_vertices qh
                                                    + 3 * num_facets qh)
                                         (facet_list qh) 0 (g s) ;;
                                (if ok s
                                 then Done {| b_mesh := m <| szgraph := 2 + 3 * num_vertices qh
                                                                       + 6 * num_facets qh |>
                                                          <| graph := Some buf |>;
                                              b_buf := buf; b_live := true;
                                              b_numvert := num_vertices qh;
                                              b_numface := num_facets qh |}
                                 else Done {| b_mesh := m <| szgraph := 0 |> <| graph := None |>
                                                          <| warnings := warnings m ++ [msg_no_graph] |>;
                                              b_buf := buf; b_live := false;
                                              b_numvert := num_vertices qh;
                                              b_numface := num_facets qh |})) ;;
                        MakeGraph_relabel b))
      by (do 2 apply stops_bind; exact Hstop).
    split; [destruct Hb as [-> | ->]; tauto|].
    split; [intros _; exact Hb|].
    intros b Hdone. exfalso.
    destruct Hstop as [Hs | Hs]; rewrite Hs in Hdone; discriminate.
  - (* the fill loop returns: some id was out of range *)
    cbn [ok andb] in Hok. fold (hull_ids_ok (nvert m) qh) in Hok, Htri.
    assert (Hids : hull_ids_ok (nvert m) qh = false).
    { destruct (hull_ids_ok (nvert m) qh) eqn:Hi; [|reflexivity].
      destruct Hbad as [Hb | Hb]; [discriminate|].
      unfold hull_triangles in Hb. rewrite (Htri eq_refl) in Hb. discriminate. }
    rewrite Hids in Hok.
    assert (Hnum : 0 < num_vertices qh + 3 * num_facets qh).
    { unfold num_vertices, num_facets, hull_ids_ok in *.
      assert (Hf : 0 <= len (facet_list qh)) by (unfold len; lia).
      destruct (vertex_list qh) as [|v0 vl]; [discriminate|].
      unfold len in *. cbn [List.length]. lia. }
    rewrite Hfv. cbn [bind].
    destruct (negb (adr s' =? num_vertices qh + 3 * num_facets qh)).
    { cbn [bind]. split; [tauto|]. split; [rewrite Hids; discriminate|].
      intros b Hb. discriminate. }
    destruct (fill_facets_cases (2 + 3 * num_vertices qh + 3 * num_facets qh)
                (facet_list qh) 0 (g s')) as [Hstop | [buf Hbuf]].
    + assert (Hb : stops (b <- (buf <- fill_facets (2 + 3 * num_vertices qh
                                                     + 3 * num_facets qh)
                                          (facet_list qh) 0 (g s') ;;
                                 (if ok s'
                                  then Done {| b_mesh := m <| szgraph := 2 + 3 * num_vertices qh
                                                                        + 6 * num_facets qh |>
                                                           <| graph := Some buf |>;
                                               b_buf := buf; b_live := true;
                                               b_numvert := num_vertices qh;
                                               b_numface := num_facets qh |}
                                  else Done {| b_mesh := m <| szgraph := 0 |> <| graph := None |>
                                                           <| warnings := warnings m ++ [msg_no_graph] |>;
                                               b_buf := buf; b_live := false;
                                               b_numvert := num_vertices qh;
                                               b_numface := num_facets qh |})) ;;
                          MakeGraph_relabel b))
        by (do 2 apply stops_bind; exact Hstop).
      split; [destruct Hb as [-> | ->]; tauto|].
      split; [rewrite Hids; discriminate|].
      intros b Hdone. exfalso.
      destruct Hstop as [Hs | Hs]; rewrite Hs in Hdone; discriminate.
    + rewrite Hbuf, Hok. cbn [bind].
      assert (Hrel : MakeGraph_relabel
                       {| b_mesh := m <| szgraph := 0 |> <| graph := None |>
                                      <| warnings := warnings m ++ [msg_no_graph] |>;
                          b_buf := buf; b_live := false;
                          b_numvert := num_vertices qh;
                          b_numface := num_facets qh |}
                     = Undefined ub_graph_freed).
      { unfold MakeGraph_relabel. cbn [b_live b_numvert b_numface].
        apply Z.ltb_lt in Hnum. now rewrite Hnum. }
      rewrite Hrel.
      split; [tauto|]. split; [rewrite Hids; discriminate|].
      intros b Hb. injection Hb as <-. cbn [b_live b_mesh].
      split; [exact Hids|]. repeat split; reflexivity.
Qed.


(** C1 on three hulls for a mesh of four vertices.  A hull of one vertex
    whose second facet names the point 99 passes the tests of the fill
    loop: the graph is discarded with the warning, and the loop after it
    reads the freed array.  The tetrahedron with the point 99 ends in the
    fatal size error, and the hull with a facet of four vertices in the
    fatal triangle error. *)
Lemma MakeGraph_bad_hull_witness :
  (4 <= nvert mesh4
   /\ hull_ids_ok (nvert mesh4) hull_bad_id = false
   /\ (exists b, MakeGraph_build hull_bad_id mesh4 = Done b
                 /\ graph (b_mesh b) = None /\ szgraph (b_mesh b) = 0
                 /\ warnings (b_mesh b) = [msg_no_graph])
   /\ MakeGraph_with (Some hull_bad_id) mesh4 = Undefined ub_graph_freed)
  /\ (hull_ids_ok (nvert mesh4) hull_tetra_bad = false
      /\ MakeGraph_with (Some hull_tetra_bad) mesh4 = Fatal msg_wrong_size)
  /\ (hull_ids_ok (nvert mesh4) hull_quad = true
      /\ hull_triangles hull_quad = false
      /\ MakeGraph_with (Some hull_quad) mesh4 = Fatal msg_not_triangle).
Proof.
  split; [|split].
  - split; [simpl; lia|]. split; [reflexivity|].
    destruct (MakeGraph_bad_hull hull_bad_id mesh4) as (_ & _ & Hd);
      [simpl; lia | left; reflexivity |].
    destruct (MakeGraph_build hull_bad_id mesh4) as [b| | |] eqn:Hb;
      try (vm_compute in Hb; discriminate).
    destruct (Hd b eq_refl) as (_ & _ & Hm & Hr).
    split; [|exact Hr].
    exists b. split; [reflexivity|]. rewrite Hm. repeat split.
  - split; vm_compute; reflexivity.
  - split; [reflexivity|]. split; [reflexivity|].
    destruct (MakeGraph_bad_hull hull_quad mesh4) as (_ & Hf & _);
      [simpl; lia | right; reflexivity |].
    destruct (Hf eq_refl) as [H | H]; [exact H|].
    vm_compute in H. discriminate.
Defined.

(** ** Arrays *)

Lemma nth_update (A : Type) (l : list A) (i j : nat) (v d : A) :
  (i < List.length l)%nat ->
  nth j (firstn i l ++ v :: skipn (S i) l) d
  = if Nat.eqb j i then v else nth j l d.
Proof.
  revert i j. induction l as [|x l IH]; intros i j Hi; simpl in Hi; [lia|].
  destruct i as [|i]; destruct j as [|j]; simpl; try reflexivity.
  apply IH. lia.
Qed.

Lemma length_update (A : Type) (l : list A) (i : nat) (v : A) :
  (i < List.length l)%nat ->
  List.length (firstn i l ++ v :: skipn (S i) l) = List.length l.
Proof.
  intros Hi. rewrite length_app, length_firstn. cbn [List.length].
  rewrite length_skipn. lia.
Qed.

Lemma putQ_length (l : list Q) (i : Z) (v : Q) : len (putQ l i v) = len l.
Proof.
  unfold putQ, upd, len.
  destruct ((i <? 0) || (Z.of_nat (List.length l) <=? i)) eqn:Hc; [reflexivity|].
  apply orb_false_iff in Hc as [H1 H2].
  apply Z.ltb_ge in H1. apply Z.leb_gt in H2.
  rewrite length_update; [reflexivity | lia].
Qed.

Lemma getQ_putQ (l : list Q) (i j : Z) (v : Q) :
  0 <= i < len l -> 0 <= j ->
  getQ (putQ l i v) j = if j =? i then v else getQ l j.
Proof.
  intros Hi Hj. unfold putQ, upd, getQ, len in *.
  destruct ((i <? 0) || (Z.of_nat (List.length l) <=? i)) eqn:Hc.
  - apply orb_true_iff in Hc as [H | H];
      [apply Z.ltb_lt in H | apply Z.leb_le in H]; lia.
  - rewrite nth_update by lia.
    destruct (j =? i) eqn:Hji.
    + apply Z.eqb_eq in Hji. subst j. now rewrite Nat.eqb_refl.
    + apply Z.eqb_neq in Hji.
      assert (Hn : Nat.eqb (Z.to_nat j) (Z.to_nat i) = false)
        by (apply Nat.eqb_neq; lia).
      now rewrite Hn.
Qed.

(** ** Skin weights *)

Lemma putF_length (l : list float32) (i : Z) (v : float32) : len (putF l i v) = len l.
Proof.
  unfold putF, upd, len.
  destruct ((i <? 0) || (Z.of_nat (List.length l) <=? i)) eqn:Hc; [reflexivity|].
  apply orb_false_iff in Hc as [H1 H2].
  apply Z.ltb_ge in H1. apply Z.leb_gt in H2.
  rewrite length_update; [reflexivity | lia].
Qed.

Lemma getF_putF (l : list float32) (i j : Z) (v : float32) :
  0 <= i < len l -> 0 <= j ->
  getF (putF l i v) j = if j =? i then v else getF l j.
Proof.
  intros Hi Hj. unfold putF, upd, getF, len in *.
  destruct ((i <? 0) || (Z.of_nat (List.length l) <=? i)) eqn:Hc.
  - apply orb_true_iff in Hc as [H | H];
      [apply Z.ltb_lt in H | apply Z.leb_le in H]; lia.
  - rewrite nth_update by lia.
    destruct (j =? i) eqn:Hji.
    + apply Z.eqb_eq in Hji. subst j. now rewrite Nat.eqb_refl.
    + apply Z.eqb_neq in Hji.
      assert (Hn : Nat.eqb (Z.to_nat j) (Z.to_nat i) = false)
        by (apply Nat.eqb_neq; lia).
      now rewrite Hn.
Qed.

Section SkinFacts.
Context {E : Externals}.
Variable model : mjCModel.

(** One bone adds its weights to the running totals, in the order of
    the loop. *)
Lemma accumulate_bone_total (nv : Z) (ids : list Z) :
  forall (ws vw vw' : list float32),
    Skin.accumulate_bone nv ids ws vw = Done vw' ->
    len vw = nv ->
    len vw' = nv
    /\ forall v, 0 <= v < nv ->
         getF vw' v = Skin.bone_total v ids ws (getF vw v).
Proof.
  induction ids as [|jj ids IH]; intros ws vw vw' H Hlen; simpl in H.
  - injection H as <-. split; [assumption|]. intros v _. reflexivity.
  - destruct ws as [|w ws].
    + injection H as <-. split; [assumption|]. intros v _. reflexivity.
    + destruct ((jj <? 0) || (jj >=? nv)) eqn:Hbad; [discriminate|].
      apply orb_false_iff in Hbad as [H1 H2].
      apply Z.ltb_ge in H1. rewrite Z.geb_leb in H2. apply Z.leb_gt in H2.
      apply IH in H; [|now rewrite putF_length].
      destruct H as [Hl Hv]. split; [assumption|].
      intros v Hr. rewrite (Hv v Hr). cbn [Skin.bone_total].
      rewrite getF_putF by lia.
      rewrite (Z.eqb_sym v jj).
      destruct (jj =? v) eqn:Hjv; [|reflexivity].
      apply Z.eqb_eq in Hjv. subst jj. reflexivity.
Qed.

(** All the bones: the totals and the size conditions on each bone. *)
Lemma accumulate_total (nv : Z) (ids : list (list Z)) :
  forall (ws : list (list float32)) (vw vw' : list float32),
    Skin.accumulate nv ids ws vw = Done vw' ->
    len vw = nv ->
    len vw' = nv
    /\ forall v, 0 <= v < nv ->
         getF vw' v = Skin.vertex_total v ids ws (getF vw v).
Proof.
  induction ids as [|bi ids IH]; intros ws vw vw' H Hlen; simpl in H.
  - injection H as <-. split; [assumption|]. intros v _. reflexivity.
  - destruct ws as [|bw ws].
    + injection H as <-. split; [assumption|]. intros v _. reflexivity.
    + destruct (negb (len bw =? len bi) || (len bi =? 0)); [discriminate|].
      inv_bind H as vw1 Hvw1.
      apply accumulate_bone_total in Hvw1; [|assumption].
      destruct Hvw1 as [Hl1 Hv1].
      apply IH in H; [|assumption]. destruct H as [Hl Hv].
      split; [assumption|]. intros v Hr.
      rewrite (Hv v Hr), (Hv1 v Hr). reflexivity.
Qed.

Lemma getF_zeros (n : nat) (v : Z) :
  getF (repeat (F_num false 0) n) v = F_num false 0.
Proof.
  unfold getF. generalize (Z.to_nat v) as k. induction n as [|n IH]; intros k.
  - destruct k; reflexivity.
  - destruct k; simpl; [reflexivity | apply IH].
Qed.

(** The coverage check passes only over totals that are not at or below
    the threshold. *)
Lemma coverage_Done (vw : list float32) :
  forall i, Skin.coverage vw i = Done tt ->
  forall v, 0 <= v < len vw -> f32_le (getF vw v) mjMINVAL = false.
Proof.
  induction vw as [|w vw IH]; intros i H v Hv.
  - unfold len in Hv; simpl in Hv. lia.
  - simpl in H. destruct (f32_le w mjMINVAL) eqn:Hle; [discriminate|].
    destruct (Z.eq_dec v 0) as [-> | Hne].
    + exact Hle.
    + unfold getF. replace (Z.to_nat v) with (S (Z.to_nat (v - 1))) by lia.
      simpl. apply (IH _ H (v - 1)). unfold len in *. simpl in Hv. lia.
Qed.

Lemma coverage_Throw (vw : list float32) :
  forall i, Skin.coverage vw i = Done tt \/ exists e, Skin.coverage vw i = Throw e.
Proof.
  induction vw as [|w vw IH]; intros i; simpl.
  - left; reflexivity.
  - destruct (f32_le w mjMINVAL); [right; eexists; reflexivity | apply IH].
Qed.

(** In a run of Compile that got past the loader, nothing is fatal or
    undefined: it returns or throws. *)
Lemma resolve_bodies_cases (names : list string) :
  (exists ids, Skin.resolve_bodies names = Done ids)
  \/ exists e, Skin.resolve_bodies names = Throw e.
Proof.
  induction names as [|n names IH]; simpl.
  - left; eexists; reflexivity.
  - destruct (find_body n); [|right; eexists; reflexivity].
    destruct IH as [[ids ->] | [e ->]]; simpl;
      [left | right]; eexists; reflexivity.
Qed.

Lemma accumulate_bone_cases (nv : Z) (ids : list Z) :
  forall ws vw,
    (exists vw', Skin.accumulate_bone nv ids ws vw = Done vw')
    \/ exists e, Skin.accumulate_bone nv ids ws vw = Throw e.
Proof.
  induction ids as [|jj ids IH]; intros ws vw; simpl.
  - left; eexists; reflexivity.
  - destruct ws as [|w ws]; [left; eexists; reflexivity|].
    destruct ((jj <? 0) || (jj >=? nv)); [right; eexists; reflexivity|].
    apply IH.
Qed.

Lemma accumulate_cases (nv : Z) (ids : list (list Z)) :
  forall ws vw,
    (exists vw', Skin.accumulate nv ids ws vw = Done vw')
    \/ exists e, Skin.accumulate nv ids ws vw = Throw e.
Proof.
  induction ids as [|bi ids IH]; intros ws vw; simpl.
  - left; eexists; reflexivity.
  - destruct ws as [|bw ws]; [left; eexists; reflexivity|].
    destruct (negb (len bw =? len bi) || (len bi =? 0));
      [right; eexists; reflexivity|].
    destruct (accumulate_bone_cases nv bi bw vw) as [[vw1 ->] | [e ->]]; simpl;
      [apply IH | right; eexists; reflexivity].
Qed.


Lemma normalize_bone_divided (nv : Z) (ids : list (list Z))
  (ws : list (list float32)) (vw : list float32) :
  (forall v, 0 <= v < nv ->
     getF vw v = Skin.vertex_total v ids ws (F_num false 0)) ->
  forall ids1 ws1,
    divided_by_total nv ids ws ids1 ws1 (Skin.normalize_bone vw ids1 ws1).
Proof.
  intros Hvw ids1 ws1. unfold divided_by_total, Skin.normalize_bone.
  induction (combine ids1 ws1) as [|[id w] l IH]; simpl; constructor.
  - simpl. intros Hr. now rewrite (Hvw id Hr).
  - exact IH.
Qed.

(** C3 (as amended). For a skin whose data passed the loader, with the
    total of a vertex being the [float] sum that the accumulation loop
    computes:
    - if the total of some vertex is at or below the threshold, Compile
      raises an error;
    - if Compile returns, the vertex ids are as they were, every stored
      weight is the [float] quotient of the input weight by the total of
      its vertex, and no total is at or below the threshold (a total that
      is +infinity or a NaN is not).
    The quotients are rounded, so the stored weights of a vertex need not
    sum to 1. *)
Theorem skin_weights_normalized (s s1 : Skin.mjCSkin) :
  Skin.Compile_load model s = Done s1 ->
  let nv := len (Skin.vert s1) / 3 in
  let ids := Skin.vertid s1 in
  let ws := Skin.vertweight s1 in
  let total := fun v => Skin.vertex_total v ids ws (F_num false 0) in
  ((exists v, 0 <= v < nv /\ f32_le (total v) mjMINVAL = true) ->
   exists e, Skin.Compile model s = Throw e)
  /\ forall s', Skin.Compile model s = Done s' ->
       Skin.vertid s' = ids
       /\ Forall2 (fun iw ws1' =>
                     divided_by_total nv ids ws (fst iw) (snd iw) ws1')
                  (combine ids ws) (Skin.vertweight s')
       /\ forall v, 0 <= v < nv -> f32_le (total v) mjMINVAL = false.
Proof.
  intros Hload nv ids ws total.
  assert (Hrun :
    forall s', Skin.Compile model s = Done s' ->
      exists vw,
        (forall v, 0 <= v < nv -> getF vw v = total v)
        /\ (forall v, 0 <= v < nv -> f32_le (getF vw v) mjMINVAL = false)
        /\ Skin.vertid s' = ids
        /\ Skin.vertweight s' = Skin.normalize_weights vw ids ws).
  { intros s' H. unfold Skin.Compile in H. rewrite Hload in H. simpl in H.
    inv_bind H as ck Hck. inv_bind H as bids Hbids. inv_bind H as s3 Hmat.
    assert (Hs3 : Skin.vert s3 = Skin.vert s1 /\ Skin.vertid s3 = ids
                  /\ Skin.vertweight s3 = ws).
    { unfold Skin.resolve_material in Hmat.
      destruct (find_material _);
        [| destruct (negb _)]; inversion Hmat; subst; repeat split; reflexivity. }
    destruct Hs3 as (Hv3 & Hi3 & Hw3). rewrite Hv3, Hi3, Hw3 in H.
    fold nv in H. inv_bind H as vw Hacc. inv_bind H as cov Hcov.
    inversion H; subst s'. clear H.
    destruct cov.
    apply accumulate_total in Hacc;
      [| unfold len; rewrite repeat_length; unfold nv;
         pose proof (Z.div_pos (len (Skin.vert s1)) 3) as Hp;
         unfold len in *; lia].
    destruct Hacc as [Hl Hvw]. exists vw. repeat split.
    - intros v Hr. rewrite (Hvw v Hr), getF_zeros. reflexivity.
    - intros v Hr. apply (coverage_Done _ _ Hcov). now rewrite Hl.
    - simpl. exact Hi3. }
  split.
  - intros (v & Hr & Hle).
    assert (Hcases : (exists s', Skin.Compile model s = Done s')
                     \/ exists e, Skin.Compile model s = Throw e).
    { unfold Skin.Compile. rewrite Hload. simpl.
      destruct (Skin.Compile_check s1) as [[]| e| |] eqn:Hck; simpl;
        try (right; eexists; reflexivity).
      2,3: exfalso; unfold Skin.Compile_check in Hck;
           repeat match type of Hck with
                  | (if ?c then _ else _) = _ => destruct c
                  | (let _ := _ in _) = _ => cbv zeta in Hck
                  end; discriminate.
      destruct (resolve_bodies_cases (Skin.bodyname s1)) as [[bids ->] | [e ->]];
        simpl; [| right; eexists; reflexivity].
      unfold Skin.resolve_material. simpl.
      destruct (find_material (Skin.material s1)); simpl.
      - match goal with
        | |- context [Skin.accumulate ?a ?b ?c ?d] =>
            destruct (accumulate_cases a b c d) as [[vw ->] | [e ->]]
        end; simpl; [| right; eexists; reflexivity].
        destruct (coverage_Throw vw 0) as [-> | [e ->]]; simpl;
          [left | right]; eexists; reflexivity.
      - destruct (negb (Skin.material s1 =? "")%string); simpl;
          [right; eexists; reflexivity|].
        match goal with
        | |- context [Skin.accumulate ?a ?b ?c ?d] =>
            destruct (accumulate_cases a b c d) as [[vw ->] | [e ->]]
        end; simpl; [| right; eexists; reflexivity].
        destruct (coverage_Throw vw 0) as [-> | [e ->]]; simpl;
          [left | right]; eexists; reflexivity. }
    destruct Hcases as [[s' Hs'] | He]; [|exact He].
    exfalso. destruct (Hrun s' Hs') as (vw & Hvw & Hpos & _).
    specialize (Hvw v Hr). specialize (Hpos v Hr).
    rewrite Hvw in Hpos. congruence.
  - intros s' Hs'. destruct (Hrun s' Hs') as (vw & Hvw & Hpos & Hid & Hw).
    split; [exact Hid|]. split.
    + rewrite Hw. unfold Skin.normalize_weights.
      induction (combine ids ws) as [|[bi bw] l IH]; simpl; constructor.
      * simpl. apply normalize_bone_divided. exact Hvw.
      * exact IH.
    + intros v Hr. rewrite <- (Hvw v Hr). apply Hpos, Hr.
Qed.

End SkinFacts.

(** C3 on the skin with two bones: the weights 1 and 2 of vertex 0 become
    the [float] next to 1/3 and the [float] next to 2/3. *)
Lemma skin_weights_normalized_witness :
  @Skin.Compile_load Demo.E0 Demo.model Skin.two_bones = Done Skin.two_bones
  /\ exists s', @Skin.Compile Demo.E0 Demo.model Skin.two_bones = Done s'
       /\ Skin.vertid s' = [[0; 1; 2]; [0; 1; 2]]
       /\ Forall2 (fun iw ws1' =>
                     divided_by_total 3 (Skin.vertid Skin.two_bones)
                       (Skin.vertweight Skin.two_bones) (fst iw) (snd iw) ws1')
                  (combine (Skin.vertid Skin.two_bones)
                           (Skin.vertweight Skin.two_bones))
                  (Skin.vertweight s')
       /\ Skin.vertweight s'
          = [[F_num false (11184811 # 33554432); F_num false (1 # 2);
              F_num false (1 # 2)];
             [F_num false (11184811 # 16777216); F_num false (1 # 2);
              F_num false (1 # 2)]].
Proof.
  assert (Hl : @Skin.Compile_load Demo.E0 Demo.model Skin.two_bones
               = Done Skin.two_bones) by reflexivity.
  split; [exact Hl|].
  destruct (@Skin.Compile Demo.E0 Demo.model Skin.two_bones) as [s'| | |] eqn:Hc;
    try (vm_compute in Hc; discriminate).
  exists s'.
  destruct (@skin_weights_normalized Demo.E0 Demo.model Skin.two_bones
              Skin.two_bones Hl) as [_ H].
  destruct (H s' Hc) as (Hid & Hdiv & _).
  split; [reflexivity|]. split; [exact Hid|]. split; [exact Hdiv|].
  vm_compute in Hc. inversion Hc; subst s'. reflexivity.
Defined.

(** C3, as stated, fails.  On the skin with two bones the stored weights
    of vertex 0 sum to 1 + 2^-25, not to 1, and neither is 1/3 or 2/3.
    On the skin whose two weights of vertex 0 are the largest [float],
    their total is +infinity: it passes the test, Compile returns, and
    both stored weights are 0. *)
Lemma skin_weights_sum_is_not_one :
  (exists s' q,
     @Skin.Compile Demo.E0 Demo.model Skin.two_bones = Done s'
     /\ Skin.vertex_sum 0 (Skin.vertid s') (Skin.vertweight s') = Some q
     /\ Qeq_bool q (33554433 # 33554432) = true
     /\ Qeq_bool q 1 = false)
  /\ (exists s' q,
        @Skin.Compile Demo.E0 Demo.model Skin.heavy_bones = Done s'
        /\ Skin.vertex_total 0 (Skin.vertid Skin.heavy_bones)
             (Skin.vertweight Skin.heavy_bones) (F_num false 0)
           = F_inf false
        /\ Skin.vertex_sum 0 (Skin.vertid s') (Skin.vertweight s') = Some q
        /\ Qeq_bool q 0 = true).
Proof.
  split.
  - eexists. eexists. split; [vm_compute; reflexivity|].
    split; [vm_compute; reflexivity|]. split; reflexivity.
  - eexists. eexists. split; [vm_compute; reflexivity|].
    split; [vm_compute; reflexivity|].
    split; [vm_compute; reflexivity | reflexivity].
Qed.

(** ** Loop indices *)

Lemma in_iota (n x : Z) : In x (iota n) <-> 0 <= x < n.
Proof.
  unfold iota. rewrite in_map_iff. split.
  - intros (k & <- & Hk). apply in_seq in Hk. lia.
  - intros Hx. exists (Z.to_nat x). split; [lia|]. apply in_seq. lia.
Qed.

Lemma NoDup_iota (n : Z) : NoDup (iota n).
Proof.
  unfold iota. apply Finite.Injective_map_NoDup; [|apply seq_NoDup].
  intros a b Hab. lia.
Qed.

Lemma length_iota (n : Z) : List.length (iota n) = Z.to_nat n.
Proof. unfold iota. now rewrite length_map, length_seq. Qed.

(** ** LoadOBJ: the v axis of the texture coordinates *)

(** The flip loop over any set of distinct pairs [ks]: the v component of
    the pairs in [ks] becomes one minus itself, every other cell is kept. *)
Lemma flip_loop (ks : list Z) :
  forall l : list Q,
    NoDup ks ->
    (forall k, In k ks -> 0 <= 2 * k + 1 < len l) ->
    let r := fold_left (fun l i => putQ l (2 * i + 1) (1 - getQ l (2 * i + 1))%Q) ks l in
    len r = len l
    /\ forall j, 0 <= j ->
         getQ r j = if existsb (fun k => 2 * k + 1 =? j) ks
                    then (1 - getQ l j)%Q else getQ l j.
Proof.
  induction ks as [|k ks IH]; intros l Hnd Hin; cbn [fold_left existsb].
  - split; reflexivity.
  - inversion Hnd as [|? ? Hk Hnd']; subst.
    set (l1 := putQ l (2 * k + 1) (1 - getQ l (2 * k + 1))%Q).
    assert (Hl1 : len l1 = len l) by apply putQ_length.
    destruct (IH l1 Hnd') as [Hlen Hget].
    { intros k' Hk'. rewrite Hl1. apply Hin. now right. }
    split; [now rewrite Hlen|].
    intros j Hj. rewrite (Hget j Hj). unfold l1.
    rewrite getQ_putQ by (try apply Hin; try (now left); assumption).
    rewrite (Z.eqb_sym j).
    destruct (2 * k + 1 =? j) eqn:Hkj; cbn [orb].
    + apply Z.eqb_eq in Hkj.
      assert (Hno : existsb (fun k0 => 2 * k0 + 1 =? j) ks = false).
      { apply not_true_is_false. intros Hex.
        apply existsb_exists in Hex as (k' & Hk' & Hkj').
        apply Z.eqb_eq in Hkj'. assert (k' = k) by lia. subst k'. contradiction. }
      rewrite Hno. now subst j.
    + reflexivity.
Qed.

Lemma flip_texcoord_spec (tc : list Q) :
  len (flip_texcoord tc) = len tc
  /\ (forall i, 1 <= i < len tc / 2 ->
        getQ (flip_texcoord tc) (2 * i + 1) = (1 - getQ tc (2 * i + 1))%Q)
  /\ getQ (flip_texcoord tc) 1 = getQ tc 1
  /\ (forall i, 0 <= i -> getQ (flip_texcoord tc) (2 * i) = getQ tc (2 * i)).
Proof.
  unfold flip_texcoord.
  set (ks := map (fun k => 1 + k) (iota (len tc / 2 - 1))).
  assert (Hks : forall k, In k ks <-> 1 <= k < len tc / 2).
  { intros k. unfold ks. rewrite in_map_iff. split.
    - intros (x & <- & Hx). apply in_iota in Hx. lia.
    - intros Hk. exists (k - 1). split; [lia|]. apply in_iota. lia. }
  destruct (flip_loop ks tc) as [Hlen Hget].
  { unfold ks. apply Finite.Injective_map_NoDup; [|apply NoDup_iota].
    intros a b Hab. lia. }
  { intros k Hk. apply Hks in Hk.
    pose proof (Z.mul_div_le (len tc) 2 ltac:(lia)). lia. }
  split; [exact Hlen|]. split; [|split].
  - intros i Hi. rewrite Hget by lia.
    assert (Hex : existsb (fun k => 2 * k + 1 =? 2 * i + 1) ks = true).
    { apply existsb_exists. exists i. split; [now apply Hks | apply Z.eqb_refl]. }
    now rewrite Hex.
  - rewrite Hget by lia.
    assert (Hex : existsb (fun k => 2 * k + 1 =? 1) ks = false).
    { apply not_true_is_false. intros Hex.
      apply existsb_exists in Hex as (k & Hk & Hk1).
      apply Hks in Hk. apply Z.eqb_eq in Hk1. lia. }
    now rewrite Hex.
  - intros i Hi. rewrite Hget by lia.
    assert (Hex : existsb (fun k => 2 * k + 1 =? 2 * i) ks = false).
    { apply not_true_is_false. intros Hex.
      apply existsb_exists in Hex as (k & Hk & Hk1).
      apply Z.eqb_eq in Hk1. lia. }
    now rewrite Hex.
Qed.

Lemma LoadOBJ_texcoord (E : Externals) (m m' : mjCMesh) (obj : ObjData) :
  obj_reader (file m) = Some obj ->
  LoadOBJ m = Done m' ->
  usertexcoord m' = flip_texcoord (attrib_texcoords obj).
Proof.
  intros Hobj H. unfold LoadOBJ in H. rewrite Hobj in H.
  inv_bind H as m2 Hm2. inversion H; subst m'; clear H. cbn.
  destruct (shapes0 obj).
  - inv_bind Hm2 as fi Hfi. inv_bind Hm2 as es Hes.
    inversion Hm2; subst m2. reflexivity.
  - inversion Hm2; subst m2. reflexivity.
Qed.

(** C8. After an OBJ load, the texcoord at every index [i >= 1] has the
    v component [1 - v] of the file, and the texcoord at index 0 keeps
    the v component of the file; the u components are those of the file. *)
Theorem LoadOBJ_flips_v_but_first (E : Externals) (m m' : mjCMesh) (obj : ObjData) :
  obj_reader (file m) = Some obj ->
  LoadOBJ m = Done m' ->
  let read := attrib_texcoords obj in
  len (usertexcoord m') = len read
  /\ (forall i, 1 <= i < len read / 2 ->
        getQ (usertexcoord m') (2 * i + 1) = (1 - getQ read (2 * i + 1))%Q)
  /\ getQ (usertexcoord m') 1 = getQ read 1
  /\ (forall i, 0 <= i -> getQ (usertexcoord m') (2 * i) = getQ read (2 * i)).
Proof.
  intros Hobj H read.
  rewrite (LoadOBJ_texcoord E m m' obj Hobj H).
  apply flip_texcoord_spec.
Qed.

(** ** LoadSTL *)

Lemma len_app {A : Type} (a b : list A) : len (a ++ b) = len a + len b.
Proof. unfold len. rewrite length_app. lia. Qed.

Lemma len_nonneg {A : Type} (a : list A) : 0 <= len a.
Proof. unfold len. lia. Qed.

(** A store into the middle part of [a ++ l ++ b]. *)
Lemma store_app {A : Type} (what : string) (a l b : list A) (k : Z) (v : A)
  (l' : list A) (idx : Z) :
  upd l k v = Some l' ->
  idx = len a + k ->
  store what (a ++ l ++ b) idx v = Done (a ++ l' ++ b).
Proof.
  intros Hupd ->. unfold store, upd in *.
  destruct ((k <? 0) || (len l <=? k)) eqn:Hk; [discriminate|].
  apply orb_false_iff in Hk as [H1 H2].
  apply Z.ltb_ge in H1. apply Z.leb_gt in H2.
  injection Hupd as <-.
  assert (Hc : (len a + k <? 0) || (len (a ++ l ++ b) <=? len a + k) = false).
  { apply orb_false_iff. rewrite !len_app.
    pose proof (len_nonneg a). pose proof (len_nonneg b).
    split; [apply Z.ltb_ge | apply Z.leb_gt]; lia. }
  rewrite Hc. f_equal. unfold len in *.
  replace (Z.to_nat (Z.of_nat (List.length a) + k))
    with (List.length a + Z.to_nat k)%nat by lia.
  rewrite firstn_app_2.
  replace (S (List.length a + Z.to_nat k))
    with (List.length a + S (Z.to_nat k))%nat by lia.
  rewrite skipn_app.
  rewrite (skipn_all2 a) by lia.
  replace (List.length a + S (Z.to_nat k) - List.length a)%nat
    with (S (Z.to_nat k)) by lia.
  rewrite firstn_app, skipn_app.
  replace (Z.to_nat k - List.length l)%nat with 0%nat by lia.
  replace (S (Z.to_nat k) - List.length l)%nat with 0%nat by lia.
  cbn [firstn skipn app]. rewrite app_nil_r, <- !app_assoc. reflexivity.
Qed.

Section STLFacts.
Context {E : Externals}.


Lemma stl_throws_bind {A B : Type} (c : outcome A) (k : A -> outcome B) :
  stl_throws c -> stl_throws (bind c k).
Proof. intros [-> | ->]; [left | right]; reflexivity. Qed.

Lemma stl_check_corner (buf : list byte) (i j : Z) :
  (stl_corner_ok buf i j = true
   /\ stl_check buf (84 + 50 * i + 12 * (j + 1)) [0; 1; 2] = Done tt)
  \/ (stl_corner_ok buf i j = false
      /\ stl_throws (stl_check buf (84 + 50 * i + 12 * (j + 1)) [0; 1; 2])).
Proof.
  unfold stl_corner_ok, stl_coord_ok, stl_check.
  set (off := 84 + 50 * i + 12 * (j + 1)).
  replace (off + 4 * 0) with off by lia.
  replace (off + 4 * 1) with (off + 4) by lia.
  replace (off + 4 * 2) with (off + 8) by lia.
  destruct (f32_isnan (f32_at buf off) || f32_isinf (f32_at buf off));
    [right; split; [reflexivity | left; reflexivity]|].
  destruct (Qlt_bool (2 ^ 30) (Qabs (f32_value (f32_at buf off))));
    [right; split; [reflexivity | right; reflexivity]|].
  destruct (f32_isnan (f32_at buf (off + 4)) || f32_isinf (f32_at buf (off + 4)));
    [right; split; [reflexivity | left; reflexivity]|].
  destruct (Qlt_bool (2 ^ 30) (Qabs (f32_value (f32_at buf (off + 4)))));
    [right; split; [reflexivity | right; reflexivity]|].
  destruct (f32_isnan (f32_at buf (off + 8)) || f32_isinf (f32_at buf (off + 8)));
    [right; split; [reflexivity | left; reflexivity]|].
  destruct (Qlt_bool (2 ^ 30) (Qabs (f32_value (f32_at buf (off + 8)))));
    [right; split; [reflexivity | right; reflexivity]|].
  left. split; reflexivity.
Qed.

(** One corner whose coordinates pass the tests: the face entry and the
    three coordinates are stored and the vertex count advances. *)
Lemma stl_corner_step (rh : bool) (buf : list byte) (i j : Z)
  (rest : list (Z * Z)) (F F3 F3' Fb : list Z) (V V3 Vb : list Q) (n : Z) :
  stl_corner_ok buf i j = true ->
  upd F3 (if rh || (j =? 0) then j else 3 - j) n = Some F3' ->
  len F = 3 * i ->
  len V3 = 3 ->
  len V = 3 * n ->
  stl_corners rh buf ((i, j) :: rest)
    {| s_face := F ++ F3 ++ Fb; s_vert := V ++ V3 ++ Vb; s_nvert := n |}
  = stl_corners rh buf rest
      {| s_face := F ++ F3' ++ Fb;
         s_vert := (V ++ stl_corner_vert buf i j) ++ Vb;
         s_nvert := n + 1 |}.
Proof.
  intros Hok Hupd HF HV3 HV. cbn [stl_corners s_face s_vert s_nvert].
  destruct (stl_check_corner buf i j) as [[_ Hc] | [Hc _]]; [|congruence].
  rewrite Hc. cbn [bind].
  rewrite (store_app _ F F3 Fb _ n F3' _ Hupd)
    by (destruct (rh || (j =? 0)); lia).
  cbn [bind].
  destruct V3 as [|x0 [|x1 [|x2 [|? ?]]]]; try (unfold len in HV3; simpl in HV3; lia).
  set (off := 84 + 50 * i + 12 * (j + 1)).
  rewrite (store_app _ V [x0; x1; x2] Vb 0 _ [f32_value (f32_at buf off); x1; x2])
    by (try reflexivity; lia).
  cbn [bind].
  rewrite (store_app _ V [f32_value (f32_at buf off); x1; x2] Vb 1 _
             [f32_value (f32_at buf off); f32_value (f32_at buf (off + 4)); x2])
    by (try reflexivity; lia).
  cbn [bind].
  rewrite (store_app _ V [f32_value (f32_at buf off);
                          f32_value (f32_at buf (off + 4)); x2] Vb 2 _
             [f32_value (f32_at buf off); f32_value (f32_at buf (off + 4));
              f32_value (f32_at buf (off + 8))])
    by (try reflexivity; lia).
  cbn [bind]. unfold stl_corner_vert. fold off.
  rewrite <- !app_assoc. reflexivity.
Qed.

(** A corner with a bad coordinate throws. *)
Lemma stl_corner_throw (rh : bool) (buf : list byte) (i j : Z)
  (rest : list (Z * Z)) (s : stl_state) :
  stl_corner_ok buf i j = false ->
  stl_throws (stl_corners rh buf ((i, j) :: rest) s).
Proof.
  intros Hbad. cbn [stl_corners].
  destruct (stl_check_corner buf i j) as [[Hc _] | [_ Hc]]; [congruence|].
  apply stl_throws_bind. exact Hc.
Qed.

(** One triangle. *)
Lemma stl_triangle_step (rh : bool) (buf : list byte) (i : Z)
  (rest : list (Z * Z)) (F Fb : list Z) (V Vb : list Q) :
  len F = 3 * i ->
  len V = 9 * i ->
  let s := {| s_face := F ++ [0; 0; 0] ++ Fb;
              s_vert := V ++ repeat 0%Q 9 ++ Vb;
              s_nvert := 3 * i |} in
  (stl_tri_ok buf i = true ->
   stl_corners rh buf ((i, 0) :: (i, 1) :: (i, 2) :: rest) s
   = stl_corners rh buf rest
       {| s_face := (F ++ stl_tri_face rh i) ++ Fb;
          s_vert := (V ++ stl_tri_vert buf i) ++ Vb;
          s_nvert := 3 * (i + 1) |})
  /\ (stl_tri_ok buf i = false ->
      stl_throws (stl_corners rh buf ((i, 0) :: (i, 1) :: (i, 2) :: rest) s)).
Proof.
  intros HF HV s. unfold stl_tri_ok.
  assert (Hv3 : forall a, len (stl_corner_vert buf i a) = 3) by reflexivity.
  destruct (stl_corner_ok buf i 0) eqn:H0; cbn [andb];
    [| split; [discriminate | intros _; now apply stl_corner_throw]].
  assert (S1 :
    stl_corners rh buf ((i, 0) :: (i, 1) :: (i, 2) :: rest) s
    = stl_corners rh buf ((i, 1) :: (i, 2) :: rest)
        {| s_face := F ++ [3 * i; 0; 0] ++ Fb;
           s_vert := (V ++ stl_corner_vert buf i 0) ++ repeat 0%Q 6 ++ Vb;
           s_nvert := 3 * i + 1 |}).
  { unfold s.
    change (repeat 0%Q 9 ++ Vb) with ([0; 0; 0]%Q ++ (repeat 0%Q 6 ++ Vb)).
    rewrite (stl_corner_step rh buf i 0 _ F [0; 0; 0] [3 * i; 0; 0] Fb
               V [0; 0; 0]%Q (repeat 0%Q 6 ++ Vb) (3 * i))
      by first [assumption | destruct rh; reflexivity | lia].
    reflexivity. }
  rewrite S1.
  destruct (stl_corner_ok buf i 1) eqn:H1; cbn [andb];
    [| split; [discriminate | intros _; now apply stl_corner_throw]].
  assert (S2 :
    stl_corners rh buf ((i, 1) :: (i, 2) :: rest)
        {| s_face := F ++ [3 * i; 0; 0] ++ Fb;
           s_vert := (V ++ stl_corner_vert buf i 0) ++ repeat 0%Q 6 ++ Vb;
           s_nvert := 3 * i + 1 |}
    = stl_corners rh buf ((i, 2) :: rest)
        {| s_face := F ++ (if rh then [3 * i; 3 * i + 1; 0]
                           else [3 * i; 0; 3 * i + 1]) ++ Fb;
           s_vert := ((V ++ stl_corner_vert buf i 0) ++ stl_corner_vert buf i 1)
                     ++ repeat 0%Q 3 ++ Vb;
           s_nvert := 3 * i + 1 + 1 |}).
  { change (repeat 0%Q 6 ++ Vb) with ([0; 0; 0]%Q ++ (repeat 0%Q 3 ++ Vb)).
    apply stl_corner_step;
      first [assumption | destruct rh; reflexivity
            | rewrite ?len_app, ?Hv3; lia]. }
  rewrite S2.
  destruct (stl_corner_ok buf i 2) eqn:H2; cbn [andb];
    [| split; [discriminate | intros _; now apply stl_corner_throw]].
  split; [intros _ | discriminate].
  change (repeat 0%Q 3 ++ Vb) with ([0; 0; 0]%Q ++ Vb).
  replace (3 * i + 1 + 1) with (3 * i + 2) by lia.
  rewrite (stl_corner_step rh buf i 2 rest F _ (stl_tri_face rh i) Fb
             _ [0; 0; 0]%Q Vb (3 * i + 2))
    by first [assumption | destruct rh; reflexivity
             | rewrite ?len_app, ?Hv3; lia].
  f_equal. f_equal; [now rewrite <- app_assoc | | lia].
  unfold stl_tri_vert. now rewrite <- !app_assoc.
Qed.


Lemma stl_triangles (rh : bool) (buf : list byte) (m : nat) :
  forall (k : nat) (F : list Z) (V : list Q),
    len F = 3 * Z.of_nat k ->
    len V = 9 * Z.of_nat k ->
    let l := map Z.of_nat (seq k m) in
    let r := stl_corners rh buf (corners_of l)
               {| s_face := F ++ repeat 0 (3 * m);
                  s_vert := V ++ repeat 0%Q (9 * m);
                  s_nvert := 3 * Z.of_nat k |} in
    (forallb (stl_tri_ok buf) l = true ->
     r = Done {| s_face := F ++ flat_map (stl_tri_face rh) l;
                 s_vert := V ++ flat_map (stl_tri_vert buf) l;
                 s_nvert := 3 * Z.of_nat (k + m) |})
    /\ (forallb (stl_tri_ok buf) l = false -> stl_throws r).
Proof.
  induction m as [|m IH]; intros k F V HF HV; cbn zeta.
  - cbn. rewrite !app_nil_r, Nat.add_0_r. split; [reflexivity | discriminate].
  - cbn [seq map corners_of flat_map forallb app].
    replace (3 * S m)%nat with (3 + 3 * m)%nat by lia.
    replace (9 * S m)%nat with (9 + 9 * m)%nat by lia.
    rewrite !repeat_app.
    change (repeat 0 3) with [0; 0; 0].
    destruct (stl_triangle_step rh buf (Z.of_nat k)
                (corners_of (map Z.of_nat (seq (S k) m)))
                F (repeat 0 (3 * m)) V (repeat 0%Q (9 * m)) HF HV)
      as [Hgood Hbad].
    unfold corners_of in Hgood, Hbad.
    destruct (stl_tri_ok buf (Z.of_nat k)) eqn:Hk; cbn [andb].
    + rewrite (Hgood eq_refl).
      assert (HF' : len (F ++ stl_tri_face rh (Z.of_nat k)) = 3 * Z.of_nat (S k)).
      { rewrite len_app, HF. destruct rh; unfold len; simpl List.length; lia. }
      assert (HV' : len (V ++ stl_tri_vert buf (Z.of_nat k)) = 9 * Z.of_nat (S k)).
      { rewrite len_app, HV. unfold len; simpl List.length; lia. }
      replace (3 * (Z.of_nat k + 1)) with (3 * Z.of_nat (S k)) by lia.
      destruct (IH (S k) _ _ HF' HV') as [IHgood IHbad].
      split.
      * intros Hall. unfold corners_of in IHgood. rewrite (IHgood Hall).
        rewrite <- !app_assoc. do 3 f_equal. lia.
      * intros Hall. unfold corners_of in IHbad. apply IHbad, Hall.
    + split; [discriminate|]. intros _. apply Hbad. reflexivity.
Qed.

Lemma corners_iota (n : Z) : corners n = corners_of (map Z.of_nat (seq 0 (Z.to_nat n))).
Proof. reflexivity. Qed.

(** The vertex loop of LoadSTL on a fresh object. *)
Lemma stl_loop (rh : bool) (buf : list byte) (n : Z) :
  0 <= n ->
  let r := stl_corners rh buf (corners n)
             {| s_face := repeat 0 (Z.to_nat (3 * n));
                s_vert := repeat 0%Q (Z.to_nat (9 * n));
                s_nvert := 0 |} in
  (stl_valid buf n = true ->
   r = Done {| s_face := stl_faces rh n; s_vert := stl_vertices buf n;
               s_nvert := 3 * n |})
  /\ (stl_valid buf n = false -> stl_throws r).
Proof.
  intros Hn. cbn zeta. rewrite corners_iota.
  replace (Z.to_nat (3 * n)) with (3 * Z.to_nat n)%nat by lia.
  replace (Z.to_nat (9 * n)) with (9 * Z.to_nat n)%nat by lia.
  destruct (stl_triangles rh buf (Z.to_nat n) 0 [] [] eq_refl eq_refl)
    as [Hgood Hbad].
  cbn [app] in Hgood, Hbad. change (3 * Z.of_nat 0) with 0 in Hgood, Hbad.
  split.
  - intros Hall. unfold stl_valid, iota in Hall. rewrite (Hgood Hall).
    unfold stl_faces, stl_vertices, iota. do 2 f_equal. lia.
  - intros Hall. apply Hbad. exact Hall.
Qed.

End STLFacts.

(** ** What the stages of Compile leave alone *)




(** Projections out of updated objects. *)
Declare Reduction mesh_red :=
  cbn
    [set set_refpos set_refquat set_scale set_smoothnormal set_needhull
     set_file set_uservert set_usernormal set_usertexcoord set_userface
     set_userfacenormal set_userfacetexcoord set_useredge set_pos_surface
     set_pos_volume set_quat_surface set_quat_volume set_boxsz_surface
     set_boxsz_volume set_aabb set_surface set_volume set_nvert set_nnormal
     set_ntexcoord set_nface set_szgraph set_vert set_normal set_texcoord
     set_face set_facenormal set_facetexcoord set_graph
     set_invalidorientation set_validarea set_validvolume
     set_valideigenvalue set_validinequality set_processed set_warnings
     set_VolumeRef set_InertiaBox set_Pos set_Quat
     refpos refquat scale smoothnormal file uservert usernormal usertexcoord
     userface userfacenormal userfacetexcoord useredge pos_surface
     pos_volume quat_surface quat_volume boxsz_surface boxsz_volume aabb
     surface volume nvert nnormal ntexcoord nface szgraph vert normal
     texcoord face facenormal facetexcoord graph needhull
     invalidorientation validarea validvolume valideigenvalue
     validinequality processed warnings
     tex_view orient_view valid_view].

Ltac mesh_simpl_goal :=
  match goal with |- ?g => let g' := eval mesh_red in g in change g' end.

Ltac mesh_simpl_in H :=
  let t := type of H in let t' := eval mesh_red in t in change t' in H.

Ltac mesh_simpl :=
  repeat match goal with
         | H : _ |- _ => progress mesh_simpl_in H
         end;
  mesh_simpl_goal.

(** Inversion of a run that returned, through every test and bind. *)
Ltac run_inv :=
  repeat first
    [ progress done_inv
    | match goal with
      | H : bind _ _ = Done _ |- _ =>
          apply bind_Done in H; destruct H as (? & ? & H)
      | H : (if ?c then _ else _) = Done _ |- _ => destruct c eqn:?
      | H : match ?x with _ => _ end = Done _ |- _ => destruct x eqn:?
      end ].

Lemma CheckMesh_unprocessed (m : mjCMesh) :
  processed m = false -> CheckMesh m = Done tt.
Proof. intros H. unfold CheckMesh. now rewrite H. Qed.

Section Views.
Context {E : Externals}.
Variable model : mjCModel.

Lemma RemoveRepeated_views (m m' : mjCMesh) :
  RemoveRepeated m = Done m' ->
  orient_view m' = orient_view m /\ valid_view m' = valid_view m
  /\ texcoord m' = texcoord m /\ ntexcoord m' = ntexcoord m
  /\ nface m' = nface m.
Proof.
  unfold RemoveRepeated. intros H. run_inv; repeat split; reflexivity.
Qed.

Lemma LoadSTL_views (m m' : mjCMesh) :
  LoadSTL m = Done m' ->
  orient_view m' = orient_view m /\ valid_view m' = valid_view m
  /\ texcoord m' = texcoord m /\ ntexcoord m' = ntexcoord m.
Proof.
  unfold LoadSTL. intros H. inv_bind H as m1 H1.
  apply RemoveRepeated_views in H as (Ho & Hv & Ht & Hn & _).
  rewrite Ho, Hv, Ht, Hn. clear Ho Hv Ht Hn.
  unfold LoadSTL_emit in H1. run_inv. repeat split; reflexivity.
Qed.

Lemma LoadOBJ_views (m m' : mjCMesh) :
  LoadOBJ m = Done m' ->
  orient_view m' = orient_view m /\ valid_view m' = valid_view m
  /\ tex_view m' = tex_view m.
Proof.
  unfold LoadOBJ. intros H. run_inv; repeat split; reflexivity.
Qed.

(** What LoadMSH returns, field by field. *)
Lemma LoadMSH_inv (m m' : mjCMesh) :
  LoadMSH m = Done m' ->
  exists buffer,
    open_file (file m) = Some buffer
    /\ 16 <= len buffer
    /\ let nv := i32_at buffer 0 in
       let nn := i32_at buffer 4 in
       let nt := i32_at buffer 8 in
       let nf := i32_at buffer 12 in
       let off2 := 16 + 4 * wrap32 (3 * nv)
                   + (if nn =? 0 then 0 else 4 * wrap32 (3 * nv)) in
       let off3 := off2 + (if nt =? 0 then 0 else 4 * wrap32 (2 * nv)) in
       let raw := ints_at buffer off3 (msh_bytes 3 nf / 4) in
       4 <= nv /\ 0 <= nf /\ (nn = 0 \/ nn = nv) /\ (nt = 0 \/ nt = nv)
       /\ to_size_t (len buffer) = msh_size nv nn nt nf
       /\ nvert m' = nv /\ nnormal m' = nn /\ ntexcoord m' = nt /\ nface m' = nf
       /\ 16 + msh_bytes 3 nv <= len buffer
       /\ vert m' = Some (floats_at buffer 16 (msh_bytes 3 nv / 4))
       /\ texcoord m'
          = (if nt =? 0 then texcoord m
             else Some (floats_at buffer off2 (msh_bytes 2 nv / 4)))
       /\ (nt <> 0 -> off2 + msh_bytes 2 nv <= len buffer)
       /\ face m'
          = (if nf =? 0 then face m
             else Some (if righthand m then raw
                        else swap_faces (Z.to_nat nf) raw))
       /\ facenormal m' = (if nf =? 0 then facenormal m else Some raw)
       /\ orient_view m' = orient_view m /\ valid_view m' = valid_view m.
Proof.
  unfold LoadMSH. intros H.
  destruct (open_file (file m)) as [buffer|]; [|discriminate].
  exists buffer. split; [reflexivity|].
  destruct (len buffer =? 0); [discriminate|].
  destruct (len buffer <? 16) eqn:H16; [discriminate|]. apply Z.ltb_ge in H16.
  split; [assumption|]. cbn zeta.
  set (nv := i32_at buffer 0) in *. set (nn := i32_at buffer 4) in *.
  set (nt := i32_at buffer 8) in *. set (nf := i32_at buffer 12) in *.
  destruct ((nv <? 4) || (nf <? 0) || (nn <? 0) || (nt <? 0)
            || (nn >? 0) && negb (nn =? nv) || (nt >? 0) && negb (nt =? nv))
    eqn:Hsz; [discriminate|].
  repeat (apply orb_false_iff in Hsz; destruct Hsz as [Hsz ?]).
  destruct (negb (to_size_t (len buffer) =? msh_size nv nn nt nf)) eqn:Hfs;
    [discriminate|].
  apply negb_false_iff, Z.eqb_eq in Hfs.
  assert (Hnv : 4 <= nv) by (apply Z.ltb_ge; assumption).
  assert (Hnf : 0 <= nf) by (apply Z.ltb_ge; assumption).
  assert (Hnn : nn = 0 \/ nn = nv).
  { assert (0 <= nn) by (apply Z.ltb_ge; assumption).
    destruct (nn >? 0) eqn:Hp; cbn [andb] in *.
    - right. apply Z.eqb_eq. now apply negb_false_iff.
    - left. rewrite Z.gtb_ltb in Hp. apply Z.ltb_ge in Hp. lia. }
  assert (Hnt : nt = 0 \/ nt = nv).
  { assert (0 <= nt) by (apply Z.ltb_ge; assumption).
    destruct (nt >? 0) eqn:Hp; cbn [andb] in *.
    - right. apply Z.eqb_eq. now apply negb_false_iff.
    - left. rewrite Z.gtb_ltb in Hp. apply Z.ltb_ge in Hp. lia. }
  do 5 (split; [assumption|]).
  unfold msh_floats, msh_ints in H.
  run_inv.
  all: cbn [negb andb] in *; try discriminate.
  all: mesh_simpl.
  all: repeat match goal with
         | H : Some _ = Some _ |- _ => injection H as <-
         | H : Some _ = None |- _ => discriminate H
         | H : None = Some _ |- _ => discriminate H
         | H : negb (righthand ?m) = _ |- _ => destruct (righthand m)
         | H : (_ <=? _) = true |- _ => apply Z.leb_le in H
         end.
  all: cbn [negb] in *; try discriminate.
  all: rewrite ?Z.add_0_r.
  all: repeat split; try reflexivity; try assumption; try (intros _; assumption).
  all: try (intros Hc; exfalso; apply Hc; apply Z.eqb_eq; assumption).
Qed.

End Views.

(** ** LoadSTL: validation and emission *)

Lemma byteZ_range (b : byte) : 0 <= byteZ b < 256.
Proof.
  unfold byteZ. pose proof (Byte.to_N_bounded b). lia.
Qed.

Lemma u32_at_range (buf : list byte) (off : Z) : 0 <= u32_at buf off < 2 ^ 32.
Proof.
  unfold u32_at, byte_at.
  pose proof (byteZ_range (nth (Z.to_nat off) buf x00)).
  pose proof (byteZ_range (nth (Z.to_nat (off + 1)) buf x00)).
  pose proof (byteZ_range (nth (Z.to_nat (off + 2)) buf x00)).
  pose proof (byteZ_range (nth (Z.to_nat (off + 3)) buf x00)).
  change (2 ^ 32) with 4294967296. lia.
Qed.

Lemma flat_map_length_const {A B : Type} (f : A -> list B) (k : nat) (l : list A) :
  (forall x, List.length (f x) = k) ->
  List.length (flat_map f l) = (k * List.length l)%nat.
Proof.
  intros Hf. induction l as [|x l IH]; simpl; [lia|].
  rewrite length_app, Hf, IH. lia.
Qed.

Lemma len_stl_vertices (buf : list byte) (n : Z) :
  0 <= n -> len (stl_vertices buf n) = 9 * n.
Proof.
  intros Hn. unfold len, stl_vertices.
  rewrite (flat_map_length_const _ 9) by reflexivity.
  rewrite length_iota. lia.
Qed.

Lemma len_stl_faces (rh : bool) (n : Z) :
  0 <= n -> len (stl_faces rh n) = 3 * n.
Proof.
  intros Hn. unfold len, stl_faces.
  rewrite (flat_map_length_const _ 3) by (intros x; destruct rh; reflexivity).
  rewrite length_iota. lia.
Qed.


Lemma Qlt_bool_iff (a b : Q) : Qlt_bool a b = true <-> (a < b)%Q.
Proof.
  unfold Qlt_bool. rewrite negb_true_iff. split.
  - intros H. apply Qnot_le_lt. intros Hle. apply Qle_bool_iff in Hle. congruence.
  - intros H. apply not_true_is_false. intros Hle. apply Qle_bool_iff in Hle.
    apply (Qlt_not_le _ _ H Hle).
Qed.

Lemma stl_coord_ok_false (w : Z) : stl_coord_ok w = false <-> stl_coord_bad w.
Proof.
  unfold stl_coord_ok, stl_coord_bad. split.
  - intros H. apply andb_false_iff in H as [H | H].
    + apply negb_false_iff, orb_true_iff in H. tauto.
    + apply negb_false_iff, Qlt_bool_iff in H. tauto.
  - intros [H | [H | H]].
    + now rewrite H.
    + rewrite H, orb_true_r. reflexivity.
    + apply Qlt_bool_iff in H. rewrite H. apply andb_false_r.
Qed.


Lemma stl_corner_ok_false (buf : list byte) (i j : Z) :
  stl_corner_ok buf i j = false <->
  exists k, 0 <= k < 3 /\ stl_coord_bad (stl_word buf i j k).
Proof.
  unfold stl_corner_ok, stl_word. cbv zeta.
  set (off := 84 + 50 * i + 12 * (j + 1)).
  replace (f32_at buf off) with (f32_at buf (off + 4 * 0))
    by (f_equal; lia).
  change (off + 4) with (off + 4 * 1). change (off + 8) with (off + 4 * 2).
  rewrite !andb_false_iff, !stl_coord_ok_false. split.
  - intros [[H | H] | H]; [exists 0 | exists 1 | exists 2]; split; try lia; exact H.
  - intros (k & Hk & H).
    assert (Hk' : k = 0 \/ k = 1 \/ k = 2) by lia.
    destruct Hk' as [-> | [-> | ->]]; tauto.
Qed.

Lemma stl_tri_ok_false (buf : list byte) (i : Z) :
  stl_tri_ok buf i = false <->
  exists j k, 0 <= j < 3 /\ 0 <= k < 3 /\ stl_coord_bad (stl_word buf i j k).
Proof.
  unfold stl_tri_ok. rewrite !andb_false_iff, !stl_corner_ok_false. split.
  - intros [[(k & Hk & H) | (k & Hk & H)] | (k & Hk & H)];
      [exists 0, k | exists 1, k | exists 2, k]; repeat split; try lia; exact H.
  - intros (j & k & Hj & Hk & H).
    assert (Hj' : j = 0 \/ j = 1 \/ j = 2) by lia.
    destruct Hj' as [-> | [-> | ->]]; [left; left | left; right | right];
      exists k; split; assumption.
Qed.

Lemma stl_valid_false (buf : list byte) (n : Z) :
  stl_valid buf n = false <->
  exists i j k, 0 <= i < n /\ 0 <= j < 3 /\ 0 <= k < 3
                /\ stl_coord_bad (stl_word buf i j k).
Proof.
  unfold stl_valid. split.
  - intros H.
    assert (Hex : exists i, In i (iota n) /\ stl_tri_ok buf i = false).
    { induction (iota n) as [|i l IH]; [discriminate|]. cbn [forallb] in H.
      apply andb_false_iff in H as [H | H].
      - exists i. split; [now left | exact H].
      - destruct (IH H) as (i' & Hi' & Hb). exists i'. split; [now right | exact Hb]. }
    destruct Hex as (i & Hi & Hb). apply in_iota in Hi.
    apply stl_tri_ok_false in Hb as (j & k & Hj & Hk & Hb).
    exists i, j, k. tauto.
  - intros (i & j & k & Hi & Hj & Hk & Hb).
    apply not_true_is_false. intros Hall.
    rewrite forallb_forall in Hall. specialize (Hall i (proj2 (in_iota n i) Hi)).
    assert (Hf : stl_tri_ok buf i = false)
      by (apply stl_tri_ok_false; exists j, k; tauto).
    congruence.
Qed.

Section LoaderFacts.
Context {E : Externals}.

Lemma LoadSTL_emit_cases (m : mjCMesh) (buffer : list byte) :
  open_file (file m) = Some buffer ->
  nvert m = 0 ->
  let N := u32_at buffer 80 in
  (len buffer < 84 ->
   LoadSTL_emit m
   = throw (if len buffer =? 0 then msg_stl_empty else msg_stl_header) [])
  /\ (84 <= len buffer -> (N < 1 \/ 200000 < N) ->
      LoadSTL_emit m = throw msg_stl_nface [])
  /\ (84 <= len buffer -> 1 <= N <= 200000 -> len buffer <> 84 + 50 * N ->
      LoadSTL_emit m = throw msg_stl_size [])
  /\ (1 <= N <= 200000 -> len buffer = 84 + 50 * N ->
      (exists i j k, 0 <= i < N /\ 0 <= j < 3 /\ 0 <= k < 3
                     /\ stl_coord_bad (stl_word buffer i j k)) ->
      stl_throws (LoadSTL_emit m))
  /\ (1 <= N <= 200000 -> len buffer = 84 + 50 * N ->
      (forall i j k, 0 <= i < N -> 0 <= j < 3 -> 0 <= k < 3 ->
                     ~ stl_coord_bad (stl_word buffer i j k)) ->
      let m1 := m <| nface := N |>
                  <| face := Some (stl_faces (righthand m) N) |>
                  <| vert := Some (stl_vertices buffer N) |>
                  <| nvert := 3 * N |> in
      LoadSTL_emit m = Done m1).
Proof.
  intros Hopen Hfresh N.
  pose proof (u32_at_range buffer 80) as HU. fold N in HU.
  assert (Hint : 1 <= N <= 200000 -> to_int N = N).
  { intros HN. unfold to_int.
    assert (Hlt : (N <? 2 ^ 31) = true) by (apply Z.ltb_lt; lia).
    now rewrite Hlt. }
  assert (Hhead : 84 <= len buffer ->
            LoadSTL_emit m
            = (let nf := to_int N in
               if (nf <? 1) || (nf >? 200000) then throw msg_stl_nface []
               else if negb (nf * 50 =? len buffer - 84) then throw msg_stl_size []
               else
                 s <- stl_corners (righthand m) buffer (corners nf)
                        {| s_face := repeat 0 (Z.to_nat (3 * nf));
                           s_vert := repeat 0%Q (Z.to_nat (9 * nf));
                           s_nvert := nvert m |} ;;
                 Done (m <| nface := nf |> <| face := Some (s_face s) |>
                         <| vert := Some (s_vert s) |> <| nvert := s_nvert s |>))).
  { intros H84. unfold LoadSTL_emit. rewrite Hopen.
    assert (H0 : (len buffer =? 0) = false) by (apply Z.eqb_neq; lia).
    assert (H1 : (len buffer <? 84) = false) by (apply Z.ltb_ge; lia).
    now rewrite H0, H1. }
  assert (Hgood : 1 <= N <= 200000 -> len buffer = 84 + 50 * N ->
            LoadSTL_emit m
            = (s <- stl_corners (righthand m) buffer (corners N)
                      {| s_face := repeat 0 (Z.to_nat (3 * N));
                         s_vert := repeat 0%Q (Z.to_nat (9 * N));
                         s_nvert := 0 |} ;;
               Done (m <| nface := N |> <| face := Some (s_face s) |>
                       <| vert := Some (s_vert s) |> <| nvert := s_nvert s |>))).
  { intros HN Hsz. rewrite Hhead by lia. cbn zeta. rewrite (Hint HN).
    assert (H1 : (N <? 1) || (N >? 200000) = false).
    { apply orb_false_iff. split; [apply Z.ltb_ge; lia|].
      rewrite Z.gtb_ltb. apply Z.ltb_ge. lia. }
    assert (H2 : negb (N * 50 =? len buffer - 84) = false).
    { apply negb_false_iff, Z.eqb_eq. lia. }
    rewrite H1, H2, Hfresh. reflexivity. }
  split; [|split; [|split; [|split]]].
  - intros Hshort. unfold LoadSTL_emit. rewrite Hopen.
    destruct (len buffer =? 0); [reflexivity|].
    assert (H1 : (len buffer <? 84) = true) by (apply Z.ltb_lt; lia).
    now rewrite H1.
  - intros H84 Hout. rewrite Hhead by assumption. cbn zeta.
    assert (H1 : (to_int N <? 1) || (to_int N >? 200000) = true).
    { apply orb_true_iff. unfold to_int.
      destruct (N <? 2 ^ 31) eqn:Hlt.
      - destruct Hout; [left; apply Z.ltb_lt; lia|].
        right. rewrite Z.gtb_ltb. apply Z.ltb_lt. lia.
      - left. apply Z.ltb_ge in Hlt. apply Z.ltb_lt.
        change (2 ^ 32) with 4294967296 in *. lia. }
    now rewrite H1.
  - intros H84 HN Hsz. rewrite Hhead by assumption. cbn zeta. rewrite (Hint HN).
    assert (H1 : (N <? 1) || (N >? 200000) = false).
    { apply orb_false_iff. split; [apply Z.ltb_ge; lia|].
      rewrite Z.gtb_ltb. apply Z.ltb_ge. lia. }
    assert (H2 : negb (N * 50 =? len buffer - 84) = true).
    { apply negb_true_iff, Z.eqb_neq. lia. }
    now rewrite H1, H2.
  - intros HN Hsz Hbad. rewrite (Hgood HN Hsz).
    apply stl_throws_bind.
    apply (stl_loop (righthand m) buffer N); [lia|].
    apply stl_valid_false. exact Hbad.
  - intros HN Hsz Hall m1.
    assert (Hv : stl_valid buffer N = true).
    { destruct (stl_valid buffer N) eqn:Hv; [reflexivity|].
      apply stl_valid_false in Hv as (i & j & k & Hi & Hj & Hk & Hb).
      exfalso. exact (Hall i j k Hi Hj Hk Hb). }
    rewrite (Hgood HN Hsz).
    destruct (stl_loop (righthand m) buffer N ltac:(lia)) as [Hl _].
    cbn zeta in Hl. rewrite (Hl Hv). reflexivity.
Qed.


(** A run of the emission that returned went through all the tests. *)
Lemma LoadSTL_emit_inv (m m1 : mjCMesh) :
  nvert m = 0 ->
  LoadSTL_emit m = Done m1 ->
  exists buffer,
    open_file (file m) = Some buffer
    /\ let N := u32_at buffer 80 in
       1 <= N <= 200000 /\ len buffer = 84 + 50 * N
       /\ stl_valid buffer N = true
       /\ m1 = m <| nface := N |> <| face := Some (stl_faces (righthand m) N) |>
                 <| vert := Some (stl_vertices buffer N) |> <| nvert := 3 * N |>.
Proof.
  intros Hfresh H.
  destruct (open_file (file m)) as [buffer|] eqn:Hopen;
    [| unfold LoadSTL_emit in H; rewrite Hopen in H; discriminate].
  exists buffer. split; [reflexivity|]. cbn zeta.
  destruct (LoadSTL_emit_cases m buffer Hopen Hfresh) as (C1 & C2 & C3 & C4 & C5).
  set (N := u32_at buffer 80) in *.
  destruct (Z_lt_le_dec (len buffer) 84) as [Hs | H84];
    [rewrite (C1 Hs) in H; discriminate|].
  assert (HN : 1 <= N <= 200000).
  { destruct (Z_lt_le_dec N 1) as [Hl | Hl];
      [rewrite (C2 H84 (or_introl Hl)) in H; discriminate|].
    destruct (Z_lt_le_dec 200000 N) as [Hu | Hu];
      [rewrite (C2 H84 (or_intror Hu)) in H; discriminate|]. lia. }
  assert (Hsz : len buffer = 84 + 50 * N).
  { destruct (Z.eq_dec (len buffer) (84 + 50 * N)) as [Heq | Hne]; [exact Heq|].
    rewrite (C3 H84 HN Hne) in H. discriminate. }
  assert (Hv : stl_valid buffer N = true).
  { destruct (stl_valid buffer N) eqn:Hv; [reflexivity|].
    apply stl_valid_false in Hv.
    destruct (C4 HN Hsz Hv) as [Ht | Ht]; rewrite Ht in H; discriminate. }
  repeat split; try lia; try assumption.
  assert (Hall : forall i j k, 0 <= i < N -> 0 <= j < 3 -> 0 <= k < 3 ->
                   ~ stl_coord_bad (stl_word buffer i j k)).
  { intros i j k Hi Hj Hk Hb.
    assert (Hf : stl_valid buffer N = false)
      by (apply stl_valid_false; exists i, j, k; tauto).
    congruence. }
  pose proof (C5 HN Hsz Hall) as Hemit. cbn zeta in Hemit.
  rewrite Hemit in H. now injection H as <-.
Qed.

End LoaderFacts.

(** ** Handedness of the loaders *)

Lemma swap23_app3 {A : Type} (a b c : A) (l : list A) :
  swap23 ([a; b; c] ++ l) = [a; c; b] ++ swap23 l.
Proof. reflexivity. Qed.

Lemma stl_faces_swap (l : list Z) :
  flat_map (stl_tri_face false) l = swap23 (flat_map (stl_tri_face true) l).
Proof.
  induction l as [|i l IH]; [reflexivity|].
  cbn [flat_map]. unfold stl_tri_face at 1 3.
  rewrite swap23_app3, <- IH. reflexivity.
Qed.

Lemma map_swap23 {A B : Type} (f : A -> B) (l : list A) :
  map f (swap23 l) = swap23 (map f l).
Proof.
  revert l. fix IH 1. intros [|a [|b [|c l]]]; try reflexivity.
  cbn [swap23 map]. now rewrite IH.
Qed.

Lemma obj_face_swap (f : list index_t) :
  obj_face false f = (t <- obj_face true f ;; Done (swap23 t)).
Proof.
  destruct f as [|a [|b [|c [|d [|e f]]]]]; reflexivity.
Qed.

Lemma obj_face_triples (f t : list index_t) (rest : list index_t) :
  obj_face true f = Done t -> swap23 (t ++ rest) = swap23 t ++ swap23 rest.
Proof.
  destruct f as [|a [|b [|c [|d [|e f]]]]]; intros H; inversion H; reflexivity.
Qed.

Lemma obj_faces_swap (mesh : list (list index_t)) :
  obj_faces false mesh = (r <- obj_faces true mesh ;; Done (swap23 r)).
Proof.
  induction mesh as [|f mesh IH]; [reflexivity|].
  cbn [obj_faces]. rewrite obj_face_swap, IH.
  destruct (obj_face true f) as [t| | |] eqn:Hf; try reflexivity. cbn [bind].
  destruct (obj_faces true mesh) as [r| | |]; try reflexivity. cbn [bind].
  now rewrite (obj_face_triples f t r Hf).
Qed.

Lemma righthand_spec (m : mjCMesh) :
  righthand m = true <->
  (let '(s0, s1, s2) := scale m in 0 < s0 * s1 * s2)%Q.
Proof.
  unfold righthand. destruct (scale m) as [[s0 s1] s2].
  unfold Qgt_bool. apply Qlt_bool_iff.
Qed.

Section Handedness.
Context {E : Externals}.

(** C6 (as amended). A load is right-handed exactly when the product of
    the three scales is positive; every other load, a product of zero
    included, is treated as left-handed.  A right-handed load stores the
    triangles in the order read, a left-handed load stores them with the
    2nd and 3rd vertex exchanged:
    - LoadSTL emits the corners [0, 1, 2, ...] of the file in turn;
    - LoadMSH keeps or exchanges the indices read from the file;
    - LoadOBJ appends the triangles of the file, a quad [(a, b, c, d)]
      as the fan [(a, b, c), (a, c, d)]. *)
Theorem loaders_handedness (m : mjCMesh) :
  (righthand m = true <->
   (let '(s0, s1, s2) := scale m in 0 < s0 * s1 * s2)%Q)
  /\ (forall m1, nvert m = 0 -> LoadSTL_emit m = Done m1 ->
       let read := flat_map (fun i => [3 * i; 3 * i + 1; 3 * i + 2]) (iota (nface m1)) in
       face m1 = Some (if righthand m then read else swap23 read))
  /\ (forall m', LoadMSH m = Done m' -> nface m' <> 0 ->
       exists buffer off,
         open_file (file m) = Some buffer
         /\ let read := ints_at buffer off (msh_bytes 3 (nface m') / 4) in
            face m' = Some (if righthand m then read
                            else swap_faces (Z.to_nat (nface m')) read))
  /\ (forall obj mesh m',
        obj_reader (file m) = Some obj -> shapes0 obj = Some mesh ->
        LoadOBJ m = Done m' ->
        exists read,
          obj_faces true mesh = Done read
          /\ userface m'
             = userface m ++ (if righthand m then map vertex_index read
                              else swap23 (map vertex_index read))).
Proof.
  split; [apply righthand_spec|]. split; [|split].
  - intros m1 Hfresh H read.
    apply (LoadSTL_emit_inv m m1 Hfresh) in H as (buffer & Hopen & HN & Hsz & Hv & ->).
    unfold read. mesh_simpl.
    change (flat_map (fun i => [3 * i; 3 * i + 1; 3 * i + 2]))
      with (flat_map (stl_tri_face true)).
    unfold stl_faces. destruct (righthand m); [reflexivity|].
    now rewrite stl_faces_swap.
  - intros m' H Hnf.
    apply LoadMSH_inv in H as (buffer & Hopen & _ & H). cbn zeta in H.
    destruct H as (_ & _ & _ & _ & _ & _ & _ & _ & Hf & _ & _ & _ & _ & Hface & _).
    rewrite Hf in Hnf. apply Z.eqb_neq in Hnf. rewrite Hnf in Hface.
    eexists buffer, _. split; [exact Hopen|]. cbn zeta. rewrite Hf. exact Hface.
  - intros obj mesh m' Hobj Hmesh H.
    unfold LoadOBJ in H. rewrite Hobj, Hmesh in H.
    inv_bind H as m2 H2. inv_bind H2 as fi Hfi. inv_bind H2 as es Hes.
    injection H2 as <-. injection H as <-. mesh_simpl.
    destruct (righthand m).
    + exists fi. split; [exact Hfi | reflexivity].
    + rewrite obj_faces_swap in Hfi. inv_bind Hfi as read Hread.
      injection Hfi as <-. exists read. split; [exact Hread|].
      now rewrite map_swap23.
Qed.

End Handedness.

(** ** The stages of Compile, view by view *)

Lemma mesh_eta (m : mjCMesh) (s v : Q) :
  surface m = s -> volume m = v -> m = m <| surface := s |> <| volume := v |>.
Proof. intros <- <-. destruct m. reflexivity. Qed.

Lemma triples_ind (P : list Z -> Prop) :
  P [] -> (forall a, P [a]) -> (forall a b, P [a; b]) ->
  (forall a b c l, P l -> P (a :: b :: c :: l)) ->
  forall l, P l.
Proof.
  intros H0 H1 H2 H3. fix IH 1.
  intros [|a [|b [|c l]]]; [exact H0 | apply H1 | apply H2 | apply H3, IH].
Qed.


Ltac view_simpl :=
  unfold kept_view in *; mesh_simpl.

Section Frames.
Context {E : Externals}.
Variable model : mjCModel.


Lemma volumes_only_refl (m : mjCMesh) : volumes_only m m.
Proof. exists (surface m), (volume m). now apply mesh_eta. Qed.

Lemma volumes_only_trans (m1 m2 m3 : mjCMesh) :
  volumes_only m1 m2 -> volumes_only m2 m3 -> volumes_only m1 m3.
Proof.
  intros (s & v & ->) (s' & v' & ->). exists s', v'. reflexivity.
Qed.

Lemma set_VolumeRef_inv (m m' : mjCMesh) (type : mjtMeshType) (x : Q) :
  set_VolumeRef m type x = Done m' ->
  CheckMesh m = Done tt
  /\ m' = match type with
          | mjSHELL_MESH => m <| surface := x |>
          | mjVOLUME_MESH => m <| volume := x |>
          end.
Proof.
  unfold set_VolumeRef. destruct (CheckMesh m) as [[]| | |]; try discriminate.
  cbn [bind]. intros H. injection H as <-. split; reflexivity.
Qed.

Lemma set_VolumeRef_volumes (m m' : mjCMesh) (type : mjtMeshType) (x : Q) :
  set_VolumeRef m type x = Done m' -> volumes_only m m'.
Proof.
  intros H. apply set_VolumeRef_inv in H as [_ ->].
  destruct type.
  - exists (surface m), x. destruct m; reflexivity.
  - exists x, (volume m). destruct m; reflexivity.
Qed.

Lemma GetVolumeRef_inv (m : mjCMesh) (type : mjtMeshType) (x : Q) :
  GetVolumeRef m type = Done x ->
  CheckMesh m = Done tt
  /\ x = match type with
         | mjSHELL_MESH => surface m
         | mjVOLUME_MESH => volume m
         end.
Proof.
  unfold GetVolumeRef. destruct (CheckMesh m) as [[]| | |]; try discriminate.
  cbn [bind]. intros H. injection H as <-. split; reflexivity.
Qed.

Lemma set_InertiaBox_inv (m m' : mjCMesh) (type : mjtMeshType) (b : vec3) :
  set_InertiaBox m type b = Done m' ->
  m' = match type with
       | mjSHELL_MESH => m <| boxsz_surface := b |>
       | mjVOLUME_MESH => m <| boxsz_volume := b |>
       end.
Proof.
  unfold set_InertiaBox. destruct (CheckMesh m) as [[]| | |]; try discriminate.
  cbn [bind]. intros H. now injection H as <-.
Qed.

Lemma com_loop_volumes (type : mjtMeshType) (v : list Q) (facecen : vec3)
  (fs : list Z) :
  forall m CoM m' CoM',
    com_loop model type v facecen fs m CoM = Done (m', CoM') ->
    volumes_only m m'.
Proof.
  induction fs as [| | |a b c fs IH] using triples_ind; intros m CoM m' CoM' H;
    cbn [com_loop] in H.
  1-3: injection H as <- _; apply volumes_only_refl.
  destruct (_triangle (vtx v a) (vtx v b) (vtx v c)) as [[ar nrm] cen].
  inv_bind H as cur Hcur. inv_bind H as m1 Hm1.
  apply set_VolumeRef_volumes in Hm1. apply IH in H.
  eapply volumes_only_trans; eassumption.
Qed.

Lemma inertia_loop_volumes (type : mjtMeshType) (v : list Q) (fs : list Z) :
  forall m P m' P',
    inertia_loop model type v fs m P = Done (m', P') ->
    volumes_only m m'.
Proof.
  induction fs as [| | |a b c fs IH] using triples_ind; intros m P m' P' H;
    cbn [inertia_loop] in H.
  1-3: injection H as <- _; apply volumes_only_refl.
  cbv zeta in H.
  destruct (_triangle (vtx v a) (vtx v b) (vtx v c)) as [[ar nrm] cen].
  inv_bind H as cur Hcur. inv_bind H as m1 Hm1.
  apply set_VolumeRef_volumes in Hm1. apply IH in H.
  eapply volumes_only_trans; eassumption.
Qed.


Lemma kept_refl (m : mjCMesh) : kept m m.
Proof. repeat split. Qed.

Lemma kept_trans (m1 m2 m3 : mjCMesh) : kept m1 m2 -> kept m2 m3 -> kept m1 m3.
Proof.
  intros (K1 & N1 & F1) (K2 & N2 & F2). repeat split; congruence.
Qed.

Lemma volumes_only_kept (m m' : mjCMesh) : volumes_only m m' -> kept m m'.
Proof. intros (s & v & ->). repeat split. Qed.

Ltac kept_now := unfold kept, kept_view; mesh_simpl_goal; repeat split; reflexivity.

Lemma Process_centroid_kept (type : mjtMeshType) (m : mjCMesh) (v0 n0 : list Q)
  (fs : list Z) (m1 : mjCMesh) (fc : vec3) (stop : bool) :
  Process_centroid type m v0 n0 fs = Done (m1, fc, stop) -> kept m m1.
Proof.
  unfold Process_centroid. intros H. destruct type.
  - destruct (Process_transform m v0 n0) as [v n].
    inv_bind H as p Hp. destruct p as [facecen area].
    destruct (Qlt_bool area mjMINVAL); injection H as <- _ _; kept_now.
  - injection H as <- _ _. apply kept_refl.
Qed.

Lemma Process_com_kept (type : mjtMeshType) (m : mjCMesh) (v : list Q)
  (fc : vec3) (fs : list Z) (m4 : mjCMesh) (CoM : vec3) (stop : bool) :
  Process_com model type m v fc fs = Done (m4, CoM, stop) -> kept m m4.
Proof.
  unfold Process_com. intros H.
  inv_bind H as m2 H2. inv_bind H as p Hp. destruct p as [m3 CoM0].
  inv_bind H as vol Hvol.
  apply set_VolumeRef_volumes, volumes_only_kept in H2.
  apply com_loop_volumes, volumes_only_kept in Hp.
  apply (kept_trans _ _ _ H2). apply (kept_trans _ _ _ Hp).
  destruct (Qlt_bool vol mjMINVAL).
  - injection H as <- _ _. kept_now.
  - inv_bind H as vol' Hvol'. injection H as <- _ _. destruct type; kept_now.
Qed.

Lemma Process_inertia_kept (type : mjtMeshType) (m : mjCMesh) (v1 : list Q)
  (CoM : vec3) (fs : list Z) (m7 : mjCMesh) (eq : vec3 * quat) (stop : bool) :
  Process_inertia model type m v1 CoM fs = Done (m7, eq, stop) -> kept m m7.
Proof.
  unfold Process_inertia. cbv zeta. intros H.
  inv_bind H as m6 H6. inv_bind H as p Hp. destruct p as [m7' P].
  apply set_VolumeRef_volumes, volumes_only_kept in H6.
  apply inertia_loop_volumes, volumes_only_kept in Hp.
  assert (K5 : kept m m7').
  { refine (kept_trans _ _ _ _ (kept_trans _ _ _ H6 Hp)). kept_now. }
  apply (kept_trans _ _ _ K5).
  destruct (mju_eig3 _) as [[[[e0 e1] e2] evec] qt].
  destruct (Qle_bool e2 0); [injection H as <- _ _; kept_now|].
  destruct (_ || _); injection H as <- _ _; [kept_now | apply kept_refl].
Qed.

Lemma Process_box_kept (type : mjtMeshType) (m : mjCMesh) (eigval : vec3)
  (quattmp : quat) (m9 : mjCMesh) :
  Process_box model type m eigval quattmp = Done m9 -> kept m m9.
Proof.
  unfold Process_box. destruct eigval as [[e0 e1] e2]. intros H.
  inv_bind H as volm Hv. inv_bind H as m8 H8.
  apply set_InertiaBox_inv in H8. subst m8.
  destruct type.
  - destruct quattmp as [[[t0 t1] t2] t3]. injection H as <-. kept_now.
  - injection H as <-. kept_now.
Qed.

Lemma Process_type_kept (type : mjtMeshType) (m m' : mjCMesh) (stop : bool) :
  Process_type model type m = Done (m', stop) -> kept m m'.
Proof.
  unfold Process_type. intros H.
  destruct (vert m) as [v0|]; [|discriminate].
  destruct (normal m) as [n0|]; [|discriminate].
  destruct (face m) as [fs0|]; [|discriminate].
  cbv zeta in H.
  inv_bind H as p1 H1. destruct p1 as [[m1 fc] stop1].
  apply Process_centroid_kept in H1.
  destruct stop1; [injection H as <- _; exact H1|].
  inv_bind H as p2 H2. destruct p2 as [[m4 CoM] stop2].
  apply Process_com_kept in H2. pose proof (kept_trans _ _ _ H1 H2) as K2.
  destruct stop2; [injection H as <- _; exact K2|].
  inv_bind H as p3 H3. destruct p3 as [[m7 eq] stop3].
  apply Process_inertia_kept in H3. pose proof (kept_trans _ _ _ K2 H3) as K3.
  destruct stop3; [injection H as <- _; exact K3|].
  inv_bind H as m9 H9. apply Process_box_kept in H9.
  injection H as <- _. exact (kept_trans _ _ _ K3 H9).
Qed.

Lemma Process_kept (m m' : mjCMesh) : Process model m = Done m' -> kept m m'.
Proof.
  unfold Process. intros H. inv_bind H as p Hp. destruct p as [m1 stop].
  apply Process_type_kept in Hp.
  destruct stop.
  - injection H as <-. exact Hp.
  - inv_bind H as p H2. destruct p as [m2 stop2]. injection H as <-.
    apply Process_type_kept in H2. exact (kept_trans _ _ _ Hp H2).
Qed.

End Frames.

(** ** Compile after the orientation check *)

Section Finish.
Context {E : Externals}.
Variable model : mjCModel.

Ltac views_now :=
  unfold kept_view; mesh_simpl_goal; repeat split; reflexivity.

Lemma MakeGraph_with_views (answer : option qhT) (m m' : mjCMesh) :
  MakeGraph_with answer m = Done m' ->
  kept_view m' = kept_view m /\ valid_view m' = valid_view m
  /\ vert m' = vert m /\ face m' = face m /\ nface m' = nface m.
Proof.
  unfold MakeGraph_with. intros H.
  destruct (nvert m <? 4); [injection H as <-; repeat split|].
  destruct answer as [qh|]; [|discriminate].
  inv_bind H as b Hb. unfold MakeGraph_build in Hb. cbv zeta in Hb.
  inv_bind Hb as s Hs.
  destruct (negb _); [discriminate|].
  inv_bind Hb as buf Hbuf.
  unfold MakeGraph_relabel in H.
  destruct (ok s); injection Hb as <-; cbn [b_live b_mesh b_buf b_numvert b_numface] in H.
  - inv_bind H as buf' Hbuf'. injection H as <-. views_now.
  - destruct (0 <? _); [discriminate|]. injection H as <-. views_now.
Qed.

Lemma MakeGraph_views (m m' : mjCMesh) :
  MakeGraph m = Done m' ->
  kept_view m' = kept_view m /\ valid_view m' = valid_view m
  /\ vert m' = vert m /\ face m' = face m /\ nface m' = nface m.
Proof.
  unfold MakeGraph. destruct (vert m) as [v|] eqn:Hv.
  - intros H. apply MakeGraph_with_views in H. rewrite Hv in H. exact H.
  - destruct (nvert m <? 4); [|discriminate].
    intros H. injection H as <-. repeat split. exact Hv.
Qed.

Lemma CopyGraph_views (m m' : mjCMesh) :
  CopyGraph m = Done m' ->
  kept_view m' = kept_view m /\ valid_view m' = valid_view m /\ vert m' = vert m.
Proof.
  unfold CopyGraph. intros H.
  destruct (face m); [injection H as <-; repeat split|].
  destruct (graph m) as [buf|]; [|discriminate].
  inv_bind H as nv Hnv. inv_bind H as nf Hnf. inv_bind H as fs Hfs.
  injection H as <-. views_now.
Qed.

Lemma MakeNormal_views (m m' : mjCMesh) :
  MakeNormal m = Done m' ->
  kept_view m' = kept_view m /\ valid_view m' = valid_view m
  /\ vert m' = vert m /\ face m' = face m /\ nface m' = nface m.
Proof.
  unfold MakeNormal. intros H.
  destruct (normal m); [injection H as <-; repeat split|].
  destruct (vert m) as [v|] eqn:Hv; [|discriminate].
  destruct (face m) as [fs|] eqn:Hf; [|discriminate].
  cbv zeta in H. destruct (negb _); [discriminate|].
  injection H as <-. mesh_simpl_goal. rewrite Hv, Hf. views_now.
Qed.

Lemma Compile_facenormal_views (m m' : mjCMesh) :
  Compile_facenormal m = Done m' ->
  kept_view m' = kept_view m /\ valid_view m' = valid_view m
  /\ vert m' = vert m /\ face m' = face m /\ nface m' = nface m.
Proof.
  unfold Compile_facenormal. intros H.
  destruct (is_empty (userfacenormal m)); [injection H as <-; repeat split|].
  destruct (negb (is_null _)); [discriminate|].
  destruct (negb (_ =? _)); [discriminate|].
  destruct (VecToArray _ _) as [arr rest]. injection H as <-. views_now.
Qed.

Lemma Compile_facetexcoord_views (m m' : mjCMesh) :
  Compile_facetexcoord m = Done m' ->
  kept_view m' = kept_view m /\ valid_view m' = valid_view m
  /\ vert m' = vert m /\ face m' = face m /\ nface m' = nface m.
Proof.
  unfold Compile_facetexcoord. intros H.
  destruct (is_empty (userfacetexcoord m)); [injection H as <-; repeat split|].
  destruct (negb (is_null _)); [discriminate|].
  destruct (VecToArray _ _) as [arr rest]. injection H as <-. views_now.
Qed.

Lemma Compile_default_facenormal_views (m m' : mjCMesh) :
  Compile_default_facenormal m = Done m' ->
  kept_view m' = kept_view m /\ valid_view m' = valid_view m
  /\ vert m' = vert m /\ face m' = face m /\ nface m' = nface m.
Proof.
  unfold Compile_default_facenormal. intros H.
  destruct (facenormal m); [injection H as <-; repeat split|].
  destruct (face m) as [fs|] eqn:Hf; [|discriminate].
  injection H as <-. mesh_simpl_goal. rewrite Hf. views_now.
Qed.


Lemma Compile_finish_prepare (m : mjCMesh) :
  Compile_finish model m
  = (if is_null (vert m) then throw "no vertices" []
     else m6 <- Compile_prepare model m ;;
          m7 <- Process model m6 ;;
          Done (m7 <| processed := true |>)).
Proof.
  unfold Compile_finish, Compile_prepare.
  destruct (is_null (vert m)); [reflexivity|].
  destruct (if (convexhull model && needhull m) || is_null (face m)
            then MakeGraph m else Done m) as [m1| | |]; try reflexivity.
  cbn [bind].
  destruct (if is_null (face m1) then CopyGraph m1 else Done m1) as [m2| | |];
    try reflexivity.
  cbn [bind].
  destruct (if is_null (normal m2) then MakeNormal m2 else Done m2) as [m3| | |];
    try reflexivity.
  cbn [bind].
  destruct (Compile_facenormal m3) as [m4| | |]; try reflexivity. cbn [bind].
  destruct (Compile_facetexcoord m4) as [m5| | |]; reflexivity.
Qed.

Lemma Compile_prepare_views (m m' : mjCMesh) :
  Compile_prepare model m = Done m' ->
  kept_view m' = kept_view m /\ valid_view m' = valid_view m /\ vert m' = vert m.
Proof.
  unfold Compile_prepare. intros H.
  inv_bind H as m1 H1. inv_bind H as m2 H2. inv_bind H as m3 H3.
  inv_bind H as m4 H4. inv_bind H as m5 H5.
  assert (K1 : kept_view m1 = kept_view m /\ valid_view m1 = valid_view m
               /\ vert m1 = vert m).
  { destruct (_ || _); [apply MakeGraph_views in H1; tauto|].
    injection H1 as <-. repeat split. }
  assert (K2 : kept_view m2 = kept_view m1 /\ valid_view m2 = valid_view m1
               /\ vert m2 = vert m1).
  { destruct (is_null (face m1)); [apply CopyGraph_views in H2; tauto|].
    injection H2 as <-. repeat split. }
  assert (K3 : kept_view m3 = kept_view m2 /\ valid_view m3 = valid_view m2
               /\ vert m3 = vert m2).
  { destruct (is_null (normal m2)); [apply MakeNormal_views in H3; tauto|].
    injection H3 as <-. repeat split. }
  apply Compile_facenormal_views in H4 as (A4 & B4 & C4 & _).
  apply Compile_facetexcoord_views in H5 as (A5 & B5 & C5 & _).
  apply Compile_default_facenormal_views in H as (A6 & B6 & C6 & _).
  destruct K1 as (A1 & B1 & C1), K2 as (A2 & B2 & C2), K3 as (A3 & B3 & C3).
  repeat split; congruence.
Qed.

(** What Compile keeps after the orientation check, and that it ends
    with the object marked as processed. *)
Lemma Compile_finish_kept (m m' : mjCMesh) :
  Compile_finish model m = Done m' ->
  texcoord m' = texcoord m /\ ntexcoord m' = ntexcoord m /\ nvert m' = nvert m
  /\ invalidorientation m' = invalidorientation m
  /\ useredge m' = useredge m
  /\ processed m' = true.
Proof.
  rewrite Compile_finish_prepare. intros H.
  destruct (is_null (vert m)); [discriminate|].
  inv_bind H as m6 H6. inv_bind H as m7 H7. injection H as <-.
  apply Compile_prepare_views in H6 as (K6 & _).
  apply Process_kept in H7 as (K7 & _).
  unfold kept_view in K6, K7. mesh_simpl_goal.
  injection K6 as ? ? ? ? ? ?. injection K7 as ? ? ? ? ? ?.
  repeat split; congruence.
Qed.

End Finish.

(** ** Fixed-width arithmetic *)

Lemma to_int_range (u : Z) : 0 <= u < 2 ^ 32 -> - 2 ^ 31 <= to_int u < 2 ^ 31.
Proof.
  intros Hu. unfold to_int. change (2 ^ 32) with 4294967296 in *.
  change (2 ^ 31) with 2147483648.
  destruct (u <? 2147483648) eqn:H; [apply Z.ltb_lt in H | apply Z.ltb_ge in H]; lia.
Qed.

Lemma wrap32_range (z : Z) : - 2 ^ 31 <= wrap32 z < 2 ^ 31.
Proof.
  unfold wrap32. apply to_int_range. apply Z.mod_pos_bound. reflexivity.
Qed.

Lemma wrap32_small (z : Z) : - 2 ^ 31 <= z < 2 ^ 31 -> wrap32 z = z.
Proof.
  intros Hz. unfold wrap32, to_int.
  change (2 ^ 32) with 4294967296. change (2 ^ 31) with 2147483648 in *.
  destruct (Z_lt_le_dec z 0) as [Hneg | Hpos].
  - replace (z mod 4294967296) with (z + 4294967296).
    + assert (H : (z + 4294967296 <? 2147483648) = false) by (apply Z.ltb_ge; lia).
      rewrite H. lia.
    + apply Z.mod_unique with (q := -1); lia.
  - rewrite Z.mod_small by lia.
    assert (H : (z <? 2147483648) = true) by (apply Z.ltb_lt; lia).
    now rewrite H.
Qed.

Lemma i32_at_range (buf : list byte) (off : Z) :
  - 2 ^ 31 <= i32_at buf off < 2 ^ 31.
Proof. unfold i32_at. apply to_int_range, u32_at_range. Qed.

(** A byte count that fits a file is the count that was meant, unless
    the [int] product has wrapped to a small positive number. *)
Lemma msh_bytes_cases (k n : Z) :
  (0 <= wrap32 (k * n) /\ msh_bytes k n = 4 * wrap32 (k * n))
  \/ (wrap32 (k * n) < 0 /\ 2 ^ 63 <= msh_bytes k n).
Proof.
  unfold msh_bytes, to_size_t. pose proof (wrap32_range (k * n)) as Hw.
  set (w := wrap32 (k * n)) in *.
  change (2 ^ 31) with 2147483648 in Hw.
  change (2 ^ 64) with 18446744073709551616.
  change (2 ^ 63) with 9223372036854775808.
  destruct (Z_lt_le_dec w 0) as [Hneg | Hpos].
  - right. split; [assumption|].
    replace (w mod 18446744073709551616) with (w + 18446744073709551616)
      by (apply Z.mod_unique with (q := -1); lia).
    replace ((w + 18446744073709551616) * 4 mod 18446744073709551616)
      with (4 * w + 18446744073709551616)
      by (apply Z.mod_unique with (q := 3); lia).
    lia.
  - left. split; [assumption|].
    rewrite (Z.mod_small w) by lia. rewrite Z.mod_small by lia. lia.
Qed.

Lemma msh_bytes_texcoord (n : Z) :
  0 <= n < 2 ^ 31 -> msh_bytes 2 n < 2 ^ 31 -> msh_bytes 2 n = 8 * n.
Proof.
  intros Hn Hb. change (2 ^ 31) with 2147483648 in *.
  destruct (msh_bytes_cases 2 n) as [[Hw He] | [_ Hbig]];
    [| change (2 ^ 63) with 9223372036854775808 in Hbig; lia].
  rewrite He in *.
  destruct (Z_lt_le_dec (2 * n) 2147483648) as [Hs | Hl].
  - rewrite wrap32_small; change (2 ^ 31) with 2147483648; lia.
  - exfalso. 
    assert (Hx : wrap32 (2 * n) = 2 * n - 4294967296).
    { unfold wrap32, to_int. change (2 ^ 32) with 4294967296.
      change (2 ^ 31) with 2147483648.
      rewrite Z.mod_small by lia.
      assert (H : (2 * n <? 2147483648) = false) by (apply Z.ltb_ge; lia).
      now rewrite H. }
    lia.
Qed.

Lemma len_floats_at (buf : list byte) (off n : Z) :
  0 <= n -> len (floats_at buf off n) = n.
Proof.
  intros Hn. unfold len, floats_at. rewrite length_map, length_iota. lia.
Qed.

Lemma len_ints_at (buf : list byte) (off n : Z) :
  0 <= n -> len (ints_at buf off n) = n.
Proof.
  intros Hn. unfold len, ints_at. rewrite length_map, length_iota. lia.
Qed.

(** ** Compile up to the orientation check *)



Section Stage.
Context {E : Externals}.
Variable model : mjCModel.

Lemma LoadMSH_tex (m m' : mjCMesh) :
  int_sized_files E ->
  texcoord m = None ->
  LoadMSH m = Done m' ->
  tex_ok m' /\ (ntexcoord m' = 0 \/ ntexcoord m' = nvert m')
  /\ vert m' <> None.
Proof.
  intros Hfiles Hnone H.
  apply LoadMSH_inv in H as (buffer & Hopen & H16 & H). cbv zeta in H.
  set (nv := i32_at buffer 0) in *. set (nt := i32_at buffer 8) in *.
  destruct H as (Hnv & _ & _ & Hnt & _ & Hv & _ & Ht & _ & Hb1 & Hvert & Htex
                 & Hb2 & _).
  pose proof (Hfiles _ _ Hopen) as Hsmall.
  pose proof (i32_at_range buffer 0) as Hr. fold nv in Hr.
  unfold tex_ok. rewrite Ht, Hv.
  split; [|split; [exact Hnt | rewrite Hvert; discriminate]].
  destruct Hnt as [Hz | Heq].
  - left. rewrite Hz in Htex. cbn in Htex. rewrite Htex. split; assumption.
  - right. assert (Hne : nt <> 0) by lia.
    specialize (Hb2 Hne).
    assert (Hnz : (nt =? 0) = false) by (apply Z.eqb_neq; exact Hne).
    rewrite Hnz in Htex.
    destruct (msh_bytes_cases 3 nv) as [[Hw He] | [_ Hbig]];
      [| change (2 ^ 63) with 9223372036854775808 in Hbig;
         change (2 ^ 31) with 2147483648 in Hsmall; lia].
    assert (Hb : msh_bytes 2 nv < 2 ^ 31).
    { destruct (i32_at buffer 4 =? 0); lia. }
    rewrite (msh_bytes_texcoord nv) in Htex by lia.
    eexists. split; [exact Htex|]. split.
    + rewrite len_floats_at by (apply Z.div_pos; lia).
      rewrite Heq. replace (8 * nv) with (2 * nv * 4) by lia.
      now rewrite Z.div_mul by lia.
    + lia.
Qed.

Lemma Compile_load_views (m m' : mjCMesh) :
  Compile_load model m = Done m' ->
  orient_view m' = orient_view m /\ valid_view m' = valid_view m.
Proof.
  unfold Compile_load. intros H.
  destruct (has_file m); [|injection H as <-; split; reflexivity].
  set (m1 := if strippath model then _ else m) in *.
  assert (H1 : orient_view m1 = orient_view m /\ valid_view m1 = valid_view m)
    by (unfold m1; destruct (strippath model); split; reflexivity).
  destruct H1 as [<- <-].
  destruct (file_ext (file m1)); try discriminate.
  - apply LoadSTL_views in H. tauto.
  - apply LoadOBJ_views in H. tauto.
  - apply LoadMSH_inv in H as (buffer & _ & _ & H). cbv zeta in H. tauto.
Qed.

Lemma Compile_load_tex (m m' : mjCMesh) :
  int_sized_files E ->
  texcoord m = None -> ntexcoord m = 0 ->
  Compile_load model m = Done m' ->
  tex_ok m'.
Proof.
  unfold Compile_load. intros Hfiles Hnone Hzero H.
  destruct (has_file m); [|injection H as <-; left; auto].
  set (m1 := if strippath model then _ else m) in *.
  assert (H1 : texcoord m1 = None /\ ntexcoord m1 = 0)
    by (unfold m1; destruct (strippath model); split; assumption).
  destruct H1 as [Hn1 Hz1].
  destruct (file_ext (file m1)); try discriminate.
  - apply LoadSTL_views in H as (_ & _ & Ht & Hn). left. split; congruence.
  - apply LoadOBJ_views in H as (_ & _ & Ht). unfold tex_view in Ht.
    injection Ht as Ht Hn _. left. split; congruence.
  - apply (LoadMSH_tex m1 m' Hfiles Hn1) in H. tauto.
Qed.

Lemma Compile_vert_views (m m' : mjCMesh) :
  Compile_vert m = Done m' ->
  orient_view m' = orient_view m /\ valid_view m' = valid_view m
  /\ texcoord m' = texcoord m /\ ntexcoord m' = ntexcoord m.
Proof.
  unfold Compile_vert. intros H. run_inv; repeat split; reflexivity.
Qed.

Lemma Compile_normal_views (m m' : mjCMesh) :
  Compile_normal m = Done m' ->
  orient_view m' = orient_view m /\ valid_view m' = valid_view m
  /\ tex_view m' = tex_view m.
Proof.
  unfold Compile_normal. intros H. run_inv; repeat split; reflexivity.
Qed.

Lemma Compile_texcoord_views (m m' : mjCMesh) :
  Compile_texcoord m = Done m' ->
  orient_view m' = orient_view m /\ valid_view m' = valid_view m
  /\ nvert m' = nvert m.
Proof.
  unfold Compile_texcoord. intros H. run_inv; repeat split; reflexivity.
Qed.

Lemma Compile_texcoord_tex (m m' : mjCMesh) :
  tex_ok m -> Compile_texcoord m = Done m' -> tex_ok m'.
Proof.
  unfold Compile_texcoord. intros Hok H.
  destruct (usertexcoord m) as [|x tc] eqn:Hu; cbn [is_empty] in H;
    [injection H as <-; exact Hok|].
  destruct (texcoord m) eqn:Ht; cbn [is_null negb] in H; [discriminate|].
  destruct (negb (len (x :: tc) mod 2 =? 0)) eqn:Hmod; [discriminate|].
  apply negb_false_iff, Z.eqb_eq in Hmod.
  cbn [VecToArray] in H. injection H as <-. right.
  exists (x :: tc). mesh_simpl_goal. split; [reflexivity|].
  assert (Hpos : 0 < len (x :: tc)) by (unfold len; simpl List.length; lia).
  pose proof (Z.div_mod (len (x :: tc)) 2 ltac:(lia)) as Hdm.
  rewrite Hmod in Hdm. split; lia.
Qed.

Lemma Compile_face_views (m m' : mjCMesh) :
  Compile_face m = Done m' ->
  orient_view m' = orient_view m /\ valid_view m' = valid_view m
  /\ tex_view m' = tex_view m.
Proof.
  unfold Compile_face. intros H. cbv zeta in H.
  destruct (is_empty (userface m)); [injection H as <-; repeat split|].
  destruct (negb (is_null (face m))); [discriminate|].
  destruct (negb (_ =? 0)); [discriminate|].
  destruct (VecToArray (userface m) (has_file m)) as [arr uf].
  destruct (existsb _ uf); [discriminate|].
  destruct (is_empty _); [|injection H as <-; repeat split].
  destruct (vert _) as [v|].
  - inv_bind H as es Hes. injection H as <-. repeat split.
  - destruct (0 <? _); [discriminate|]. injection H as <-. repeat split.
Qed.

(** The staging keeps the flags, and leaves the texture coordinates of a
    fresh object consistent. *)
Lemma Compile_stage_views (m m1 : mjCMesh) :
  Compile_stage model m = Done m1 ->
  orient_view m1 = orient_view m /\ valid_view m1 = valid_view m.
Proof.
  unfold Compile_stage. intros H.
  inv_bind H as a Ha. inv_bind H as b Hb. inv_bind H as c Hc. inv_bind H as d Hd.
  apply Compile_load_views in Ha as (A1 & A2).
  apply Compile_vert_views in Hb as (B1 & B2 & _).
  apply Compile_normal_views in Hc as (C1 & C2 & _).
  apply Compile_texcoord_views in Hd as (D1 & D2 & _).
  apply Compile_face_views in H as (F1 & F2 & _).
  split; congruence.
Qed.

Lemma Compile_stage_tex (m m1 : mjCMesh) :
  int_sized_files E ->
  texcoord m = None -> ntexcoord m = 0 ->
  Compile_stage model m = Done m1 ->
  tex_ok m1.
Proof.
  unfold Compile_stage. intros Hfiles Hn Hz H.
  inv_bind H as a Ha. inv_bind H as b Hb. inv_bind H as c Hc. inv_bind H as d Hd.
  apply (Compile_load_tex m a Hfiles Hn Hz) in Ha.
  apply Compile_vert_views in Hb as (_ & _ & B3 & B4).
  apply Compile_normal_views in Hc as (_ & _ & C3).
  apply Compile_face_views in H as (_ & _ & F3).
  assert (Hc' : tex_ok c).
  { unfold tex_view in C3. injection C3 as C3 C4 _.
    unfold tex_ok in *. rewrite C3, C4, B3, B4. exact Ha. }
  pose proof (Compile_texcoord_tex c d Hc' Hd) as Hd'.
  unfold tex_view in F3. injection F3 as F3 F4 _.
  unfold tex_ok in *. rewrite F3, F4. exact Hd'.
Qed.

Lemma Compile_orientation_views (m : mjCMesh) :
  tex_view (Compile_orientation m) = tex_view m
  /\ valid_view (Compile_orientation m) = valid_view m
  /\ processed (Compile_orientation m) = processed m.
Proof.
  unfold Compile_orientation.
  destruct (is_empty (useredge m)); [repeat split|].
  cbv zeta. destruct (adjacent_find _) as [[a b]|]; repeat split.
Qed.

End Stage.
(** ** The rest of Compile and the pair of the orientation check *)






Ltac pair_eq :=
  unfold with_pair_fst, with_pair_fst3, with_pair_built, with_pair;
  repeat match goal with m : mjCMesh |- _ => destruct m end;
  reflexivity.

Ltac pair_done := first [reflexivity | pair_done | pair_eq].

Ltac pair_cases :=
  repeat (match goal with
          | |- context [match ?x with _ => _ end] => destruct x
          end; cbn [bind omap]).

Lemma with_pair_same (m : mjCMesh) : with_pair (invalidorientation m) m = m.
Proof. pair_eq. Qed.

Lemma with_pair_pair (p q : Z * Z) (m : mjCMesh) :
  with_pair p (with_pair q m) = with_pair p m.
Proof. pair_eq. Qed.

Lemma omap_id {A : Type} (f : A -> A) (o : outcome A) :
  (forall a, f a = a) -> omap f o = o.
Proof. intros H. destruct o; cbn [omap]; [now rewrite H | | |]; reflexivity. Qed.

Section Pair.
Context {E : Externals}.
Variable model : mjCModel.
Variable p : Z * Z.

Lemma processed_with_pair (m : mjCMesh) : processed (with_pair p m) = processed m.
Proof. pair_eq. Qed.

Lemma CheckMesh_pair (m : mjCMesh) :
  processed m = false -> CheckMesh (with_pair p m) = CheckMesh m.
Proof.
  intros H. rewrite !CheckMesh_unprocessed; [reflexivity | exact H |].
  now rewrite processed_with_pair.
Qed.

Lemma GetVolumeRef_pair (m : mjCMesh) (type : mjtMeshType) :
  processed m = false ->
  GetVolumeRef (with_pair p m) type = GetVolumeRef m type.
Proof.
  intros H. unfold GetVolumeRef. rewrite CheckMesh_pair by exact H.
  destruct (CheckMesh m); reflexivity.
Qed.

Lemma set_VolumeRef_pair (m : mjCMesh) (type : mjtMeshType) (x : Q) :
  processed m = false ->
  set_VolumeRef (with_pair p m) type x = omap (with_pair p) (set_VolumeRef m type x).
Proof.
  intros H. unfold set_VolumeRef. rewrite CheckMesh_pair by exact H.
  destruct (CheckMesh m); cbn [bind omap]; try reflexivity.
  destruct type; pair_done.
Qed.

Lemma set_InertiaBox_pair (m : mjCMesh) (type : mjtMeshType) (b : vec3) :
  processed m = false ->
  set_InertiaBox (with_pair p m) type b = omap (with_pair p) (set_InertiaBox m type b).
Proof.
  intros H. unfold set_InertiaBox. rewrite CheckMesh_pair by exact H.
  destruct (CheckMesh m); cbn [bind omap]; try reflexivity.
  destruct type; pair_done.
Qed.

Lemma set_VolumeRef_processed (m m' : mjCMesh) (type : mjtMeshType) (x : Q) :
  set_VolumeRef m type x = Done m' -> processed m' = processed m.
Proof.
  intros H. apply set_VolumeRef_inv in H as [_ ->]. destruct type; reflexivity.
Qed.

Lemma com_loop_pair (type : mjtMeshType) (v : list Q) (facecen : vec3)
  (fs : list Z) :
  forall m CoM,
    processed m = false ->
    com_loop model type v facecen fs (with_pair p m) CoM
    = omap (with_pair_fst p) (com_loop model type v facecen fs m CoM).
Proof.
  induction fs as [| | |a b c fs IH] using triples_ind; intros m CoM Hp;
    cbn [com_loop]; try reflexivity.
  destruct (_triangle (vtx v a) (vtx v b) (vtx v c)) as [[ar nrm] cen].
  rewrite GetVolumeRef_pair by exact Hp.
  destruct (GetVolumeRef m type) as [cur| | |]; cbn [bind omap]; try reflexivity.
  rewrite set_VolumeRef_pair by exact Hp.
  destruct (set_VolumeRef m type _) as [m1| | |] eqn:H1; cbn [bind omap];
    try reflexivity.
  apply IH. apply set_VolumeRef_processed in H1. congruence.
Qed.

Lemma inertia_loop_pair (type : mjtMeshType) (v : list Q) (fs : list Z) :
  forall m P,
    processed m = false ->
    inertia_loop model type v fs (with_pair p m) P
    = omap (with_pair_fst p) (inertia_loop model type v fs m P).
Proof.
  induction fs as [| | |a b c fs IH] using triples_ind; intros m P Hp;
    cbn [inertia_loop]; try reflexivity.
  cbv zeta.
  destruct (_triangle (vtx v a) (vtx v b) (vtx v c)) as [[ar nrm] cen].
  rewrite GetVolumeRef_pair by exact Hp.
  destruct (GetVolumeRef m type) as [cur| | |]; cbn [bind omap]; try reflexivity.
  rewrite set_VolumeRef_pair by exact Hp.
  destruct (set_VolumeRef m type _) as [m1| | |] eqn:H1; cbn [bind omap];
    try reflexivity.
  apply IH. apply set_VolumeRef_processed in H1. congruence.
Qed.

Lemma kept_processed (m m' : mjCMesh) : kept m m' -> processed m' = processed m.
Proof.
  intros (K & _). unfold kept_view in K. injection K as _ _ _ _ H _. exact H.
Qed.

Lemma Process_centroid_pair (type : mjtMeshType) (m : mjCMesh) (v0 n0 : list Q)
  (fs : list Z) :
  Process_centroid type (with_pair p m) v0 n0 fs
  = omap (with_pair_fst3 p) (Process_centroid type m v0 n0 fs).
Proof.
  unfold Process_centroid. destruct type; [|reflexivity].
  replace (Process_transform (with_pair p m) v0 n0)
    with (Process_transform m v0 n0) by pair_eq.
  replace (nvert (with_pair p m)) with (nvert m) by pair_eq.
  destruct (Process_transform m v0 n0) as [v n].
  destruct (centroid v (nvert m) fs 0 (0, 0, 0)%Q 0%Q) as [[fc ar]| | |];
    cbn [bind omap]; try reflexivity.
  destruct (Qlt_bool ar mjMINVAL); cbn [omap]; pair_done.
Qed.

Lemma Process_com_pair (type : mjtMeshType) (m : mjCMesh) (v : list Q)
  (facecen : vec3) (fs : list Z) :
  processed m = false ->
  Process_com model type (with_pair p m) v facecen fs
  = omap (with_pair_fst3 p) (Process_com model type m v facecen fs).
Proof.
  intros Hp. unfold Process_com.
  rewrite set_VolumeRef_pair by exact Hp.
  destruct (set_VolumeRef m type 0) as [m2| | |] eqn:H2; cbn [bind omap];
    try reflexivity.
  apply set_VolumeRef_processed in H2.
  rewrite com_loop_pair by congruence.
  destruct (com_loop model type v facecen fs m2 (0, 0, 0)%Q)
    as [[m3 CoM0]| | |] eqn:H3; cbn [bind omap]; try reflexivity.
  apply com_loop_volumes, volumes_only_kept, kept_processed in H3.
  cbn [with_pair_fst fst snd].
  rewrite GetVolumeRef_pair by congruence.
  destruct (GetVolumeRef m3 type) as [vol| | |]; cbn [bind omap]; try reflexivity.
  destruct (Qlt_bool vol mjMINVAL); cbn [omap bind]; [pair_done|].
  destruct type; pair_done.
Qed.

Lemma Process_inertia_pair (type : mjtMeshType) (m : mjCMesh) (v1 : list Q)
  (CoM : vec3) (fs : list Z) :
  processed m = false ->
  Process_inertia model type (with_pair p m) v1 CoM fs
  = omap (with_pair_fst3 p) (Process_inertia model type m v1 CoM fs).
Proof.
  intros Hp. unfold Process_inertia. cbv zeta.
  replace (nvert (with_pair p m)) with (nvert m) by pair_eq.
  set (v2 := match type with
             | mjVOLUME_MESH => map3 (fun q => vsub q CoM) (Z.to_nat (nvert m)) v1
             | mjSHELL_MESH => v1
             end).
  replace ((with_pair p m) <| vert := Some v2 |>)
    with (with_pair p (m <| vert := Some v2 |>)) by pair_eq.
  rewrite set_VolumeRef_pair by exact Hp.
  destruct (set_VolumeRef (m <| vert := Some v2 |>) type 0) as [m6| | |] eqn:H6;
    cbn [bind omap]; try reflexivity.
  apply set_VolumeRef_processed in H6.
  rewrite inertia_loop_pair by (rewrite H6; exact Hp).
  destruct (inertia_loop model type v2 fs m6 _) as [[m7 P]| | |];
    cbn [bind omap]; try reflexivity.
  cbn [with_pair_fst fst snd].
  destruct (mju_eig3 _) as [[[[e0 e1] e2] evec] qt].
  destruct (Qle_bool e2 0); cbn [omap]; [pair_done|].
  destruct (_ || _); cbn [omap]; pair_done.
Qed.

Lemma Process_box_pair (type : mjtMeshType) (m : mjCMesh) (eigval : vec3)
  (quattmp : quat) :
  processed m = false ->
  Process_box model type (with_pair p m) eigval quattmp
  = omap (with_pair p) (Process_box model type m eigval quattmp).
Proof.
  intros Hp. unfold Process_box. destruct eigval as [[e0 e1] e2].
  rewrite GetVolumeRef_pair by exact Hp.
  destruct (GetVolumeRef m type) as [volm| | |]; cbn [bind omap]; try reflexivity.
  rewrite set_InertiaBox_pair by exact Hp.
  destruct (set_InertiaBox m type _) as [m8| | |]; cbn [bind omap]; try reflexivity.
  destruct type.
  - destruct quattmp as [[[t0 t1] t2] t3]. cbn [omap]. pair_done.
  - cbn [omap]. pair_done.
Qed.

Lemma Process_type_pair (type : mjtMeshType) (m : mjCMesh) :
  processed m = false ->
  Process_type model type (with_pair p m)
  = omap (with_pair_fst p) (Process_type model type m).
Proof.
  intros Hp. unfold Process_type.
  replace (vert (with_pair p m)) with (vert m) by pair_eq.
  replace (normal (with_pair p m)) with (normal m) by pair_eq.
  replace (face (with_pair p m)) with (face m) by pair_eq.
  replace (nface (with_pair p m)) with (nface m) by pair_eq.
  destruct (vert m) as [v0|]; [|reflexivity].
  destruct (normal m) as [n0|]; [|reflexivity].
  destruct (face m) as [fs0|]; [|reflexivity].
  cbv zeta. rewrite Process_centroid_pair.
  destruct (Process_centroid type m v0 n0 _) as [[[m1 fc] stop1]| | |] eqn:H1;
    cbn [bind omap]; try reflexivity.
  apply Process_centroid_kept, kept_processed in H1.
  cbn [with_pair_fst3 fst snd].
  destruct stop1; [reflexivity|].
  replace (vert (with_pair p m1)) with (vert m1) by pair_eq.
  rewrite Process_com_pair by congruence.
  destruct (Process_com model type m1 _ fc _) as [[[m4 CoM] stop2]| | |] eqn:H2;
    cbn [bind omap]; try reflexivity.
  apply Process_com_kept, kept_processed in H2.
  cbn [with_pair_fst3 fst snd].
  destruct stop2; [reflexivity|].
  rewrite Process_inertia_pair by congruence.
  destruct (Process_inertia model type m4 _ CoM _) as [[[m7 eq] stop3]| | |] eqn:H3;
    cbn [bind omap]; try reflexivity.
  apply Process_inertia_kept, kept_processed in H3.
  cbn [with_pair_fst3 fst snd].
  destruct stop3; [reflexivity|].
  rewrite Process_box_pair by congruence.
  destruct (Process_box model type m7 (fst eq) (snd eq)); reflexivity.
Qed.

Lemma Process_pair (m : mjCMesh) :
  processed m = false ->
  Process model (with_pair p m) = omap (with_pair p) (Process model m).
Proof.
  intros Hp. unfold Process. rewrite Process_type_pair by exact Hp.
  destruct (Process_type model mjVOLUME_MESH m) as [[m1 stop]| | |] eqn:H1;
    cbn [bind omap]; try reflexivity.
  apply Process_type_kept, kept_processed in H1.
  cbn [with_pair_fst fst snd].
  destruct stop; [reflexivity|].
  rewrite Process_type_pair by congruence.
  destruct (Process_type model mjSHELL_MESH m1) as [[m2 stop2]| | |];
    reflexivity.
Qed.

Lemma MakeGraph_build_pair (qh : qhT) (m : mjCMesh) :
  MakeGraph_build qh (with_pair p m)
  = omap (with_pair_built p) (MakeGraph_build qh m).
Proof.
  unfold MakeGraph_build. cbv zeta.
  replace (nvert (with_pair p m)) with (nvert m) by pair_eq.
  destruct (fill_vertices _ _ _ _ _) as [s| | |]; cbn [bind omap];
    try reflexivity.
  destruct (negb _); [reflexivity|].
  destruct (fill_facets _ _ _ _) as [buf| | |]; cbn [bind omap]; try reflexivity.
  destruct (ok s); cbn [omap]; f_equal; unfold with_pair_built;
    cbn [b_mesh b_buf b_live b_numvert b_numface]; pair_done.
Qed.

Lemma MakeGraph_relabel_pair (b : built) :
  MakeGraph_relabel (with_pair_built p b)
  = omap (with_pair p) (MakeGraph_relabel b).
Proof.
  unfold MakeGraph_relabel, with_pair_built.
  cbn [b_mesh b_buf b_live b_numvert b_numface].
  destruct (b_live b).
  - destruct (relabel _ _ _); cbn [bind omap]; pair_done.
  - destruct (0 <? _); reflexivity.
Qed.

Lemma MakeGraph_with_pair (answer : option qhT) (m : mjCMesh) :
  MakeGraph_with answer (with_pair p m)
  = omap (with_pair p) (MakeGraph_with answer m).
Proof.
  unfold MakeGraph_with.
  replace (nvert (with_pair p m)) with (nvert m) by pair_eq.
  destruct (nvert m <? 4); [reflexivity|].
  destruct answer as [qh|]; [|reflexivity].
  rewrite MakeGraph_build_pair.
  destruct (MakeGraph_build qh m) as [b| | |]; cbn [bind omap]; try reflexivity.
  apply MakeGraph_relabel_pair.
Qed.

Lemma MakeGraph_pair (m : mjCMesh) :
  MakeGraph (with_pair p m) = omap (with_pair p) (MakeGraph m).
Proof.
  unfold MakeGraph.
  replace (vert (with_pair p m)) with (vert m) by pair_eq.
  replace (nvert (with_pair p m)) with (nvert m) by pair_eq.
  destruct (vert m); [apply MakeGraph_with_pair|].
  destruct (nvert m <? 4); reflexivity.
Qed.

Lemma CopyGraph_pair (m : mjCMesh) :
  CopyGraph (with_pair p m) = omap (with_pair p) (CopyGraph m).
Proof.
  unfold CopyGraph.
  replace (face (with_pair p m)) with (face m) by pair_eq.
  replace (graph (with_pair p m)) with (graph m) by pair_eq.
  destruct (face m); [reflexivity|].
  destruct (graph m) as [buf|]; [|reflexivity].
  destruct (load _ buf 0) as [nv| | |]; cbn [bind omap]; try reflexivity.
  destruct (load _ buf 1) as [nf| | |]; cbn [bind omap]; try reflexivity.
  destruct (copy_faces _ _ _) as [fs| | |]; cbn [bind omap]; pair_done.
Qed.

Lemma MakeNormal_pair (m : mjCMesh) :
  MakeNormal (with_pair p m) = omap (with_pair p) (MakeNormal m).
Proof.
  unfold MakeNormal.
  replace (normal (with_pair p m)) with (normal m) by pair_eq.
  replace (vert (with_pair p m)) with (vert m) by pair_eq.
  replace (face (with_pair p m)) with (face m) by pair_eq.
  replace (nvert (with_pair p m)) with (nvert m) by pair_eq.
  replace (nface (with_pair p m)) with (nface m) by pair_eq.
  replace (facenormal (with_pair p m)) with (facenormal m) by pair_eq.
  replace (smoothnormal (with_pair p m)) with (smoothnormal m) by pair_eq.
  destruct (normal m); [reflexivity|].
  destruct (vert m) as [v|]; [|reflexivity].
  destruct (face m) as [fs0|]; [|reflexivity].
  cbv zeta. destruct (negb _); [reflexivity|].
  cbn [omap]. pair_done.
Qed.

Lemma Compile_facenormal_pair (m : mjCMesh) :
  Compile_facenormal (with_pair p m) = omap (with_pair p) (Compile_facenormal m).
Proof.
  unfold Compile_facenormal, has_file.
  replace (userfacenormal (with_pair p m)) with (userfacenormal m) by pair_eq.
  replace (facenormal (with_pair p m)) with (facenormal m) by pair_eq.
  replace (nface (with_pair p m)) with (nface m) by pair_eq.
  replace (file (with_pair p m)) with (file m) by pair_eq.
  destruct (is_empty _); [reflexivity|].
  destruct (negb (is_null _)); [reflexivity|].
  destruct (negb (_ =? _)); [reflexivity|].
  destruct (VecToArray _ _) as [arr rest]. cbn [omap]. pair_done.
Qed.

Lemma Compile_facetexcoord_pair (m : mjCMesh) :
  Compile_facetexcoord (with_pair p m)
  = omap (with_pair p) (Compile_facetexcoord m).
Proof.
  unfold Compile_facetexcoord, has_file.
  replace (userfacetexcoord (with_pair p m)) with (userfacetexcoord m) by pair_eq.
  replace (facetexcoord (with_pair p m)) with (facetexcoord m) by pair_eq.
  replace (file (with_pair p m)) with (file m) by pair_eq.
  destruct (is_empty _); [reflexivity|].
  destruct (negb (is_null _)); [reflexivity|].
  destruct (VecToArray _ _) as [arr rest]. cbn [omap]. pair_done.
Qed.

Lemma Compile_default_facenormal_pair (m : mjCMesh) :
  Compile_default_facenormal (with_pair p m)
  = omap (with_pair p) (Compile_default_facenormal m).
Proof.
  unfold Compile_default_facenormal.
  replace (facenormal (with_pair p m)) with (facenormal m) by pair_eq.
  replace (face (with_pair p m)) with (face m) by pair_eq.
  replace (nface (with_pair p m)) with (nface m) by pair_eq.
  destruct (facenormal m); [reflexivity|].
  destruct (face m); [|reflexivity].
  cbn [omap]. pair_done.
Qed.

Lemma Compile_prepare_pair (m : mjCMesh) :
  Compile_prepare model (with_pair p m)
  = omap (with_pair p) (Compile_prepare model m).
Proof.
  unfold Compile_prepare.
  replace (needhull (with_pair p m)) with (needhull m) by pair_eq.
  replace (face (with_pair p m)) with (face m) by pair_eq.
  assert (H1 : (if (convexhull model && needhull m) || is_null (face m)
                then MakeGraph (with_pair p m) else Done (with_pair p m))
               = omap (with_pair p)
                   (if (convexhull model && needhull m) || is_null (face m)
                    then MakeGraph m else Done m)).
  { destruct (_ || _); [apply MakeGraph_pair | reflexivity]. }
  rewrite H1. clear H1.
  destruct (if (convexhull model && needhull m) || is_null (face m)
            then MakeGraph m else Done m) as [m1| | |]; cbn [bind omap];
    try reflexivity.
  replace (face (with_pair p m1)) with (face m1) by pair_eq.
  assert (H2 : (if is_null (face m1) then CopyGraph (with_pair p m1)
                else Done (with_pair p m1))
               = omap (with_pair p)
                   (if is_null (face m1) then CopyGraph m1 else Done m1)).
  { destruct (is_null _); [apply CopyGraph_pair | reflexivity]. }
  rewrite H2. clear H2.
  destruct (if is_null (face m1) then CopyGraph m1 else Done m1) as [m2| | |];
    cbn [bind omap]; try reflexivity.
  replace (normal (with_pair p m2)) with (normal m2) by pair_eq.
  assert (H3 : (if is_null (normal m2) then MakeNormal (with_pair p m2)
                else Done (with_pair p m2))
               = omap (with_pair p)
                   (if is_null (normal m2) then MakeNormal m2 else Done m2)).
  { destruct (is_null _); [apply MakeNormal_pair | reflexivity]. }
  rewrite H3. clear H3.
  destruct (if is_null (normal m2) then MakeNormal m2 else Done m2) as [m3| | |];
    cbn [bind omap]; try reflexivity.
  rewrite Compile_facenormal_pair.
  destruct (Compile_facenormal m3) as [m4| | |]; cbn [bind omap]; try reflexivity.
  rewrite Compile_facetexcoord_pair.
  destruct (Compile_facetexcoord m4) as [m5| | |]; cbn [bind omap];
    try reflexivity.
  apply Compile_default_facenormal_pair.
Qed.

(** The rest of Compile on an object that was not processed before: the
    outcome with the pair [p] is the outcome with any other pair, with
    [p] in the result. *)
Lemma Compile_finish_pair (m : mjCMesh) :
  processed m = false ->
  Compile_finish model (with_pair p m)
  = omap (with_pair p) (Compile_finish model m).
Proof.
  intros Hp. rewrite !Compile_finish_prepare.
  replace (vert (with_pair p m)) with (vert m) by pair_eq.
  destruct (is_null (vert m)); [reflexivity|].
  rewrite Compile_prepare_pair.
  destruct (Compile_prepare model m) as [m6| | |] eqn:H6; cbn [bind omap];
    try reflexivity.
  apply Compile_prepare_views in H6 as (K6 & _).
  assert (Hp6 : processed m6 = false).
  { unfold kept_view in K6. injection K6 as _ _ _ _ H _. congruence. }
  rewrite Process_pair by exact Hp6.
  destruct (Process model m6) as [m7| | |]; cbn [bind omap]; pair_done.
Qed.

End Pair.

(** ** The orientation check *)




Lemma edge_leb_spec (a b : Z * Z) :
  edge_leb a b = true
  <-> fst a < fst b \/ (fst a = fst b /\ snd a <= snd b).
Proof.
  unfold edge_leb.
  rewrite orb_true_iff, andb_true_iff, Z.ltb_lt, Z.eqb_eq, Z.leb_le. tauto.
Qed.

Lemma edge_eqb_spec (a b : Z * Z) : edge_eqb a b = true <-> a = b.
Proof.
  unfold edge_eqb. rewrite andb_true_iff, !Z.eqb_eq.
  destruct a, b; cbn [fst snd]. split.
  - intros [-> ->]. reflexivity.
  - intros H. injection H as -> ->. auto.
Qed.

Lemma edge_le_refl (a : Z * Z) : edge_le a a.
Proof. apply edge_leb_spec. lia. Qed.

Lemma edge_le_trans (a b c : Z * Z) : edge_le a b -> edge_le b c -> edge_le a c.
Proof. unfold edge_le. rewrite !edge_leb_spec. lia. Qed.

Lemma edge_le_total (a b : Z * Z) : edge_leb a b = false -> edge_le b a.
Proof.
  intros H. apply edge_leb_spec.
  destruct (Z_lt_le_dec (fst b) (fst a)) as [Hlt | Hle]; [left; assumption|].
  right. assert (Hn : ~ (fst a < fst b \/ (fst a = fst b /\ snd a <= snd b))).
  { rewrite <- edge_leb_spec, H. discriminate. }
  lia.
Qed.

Lemma edge_le_antisym (a b : Z * Z) : edge_le a b -> edge_le b a -> a = b.
Proof.
  unfold edge_le. rewrite !edge_leb_spec. destruct a, b; cbn [fst snd].
  intros H1 H2. f_equal; lia.
Qed.

Lemma insert_edge_perm (e : Z * Z) (l : list (Z * Z)) :
  Permutation (insert_edge e l) (e :: l).
Proof.
  induction l as [|x l IH]; cbn [insert_edge]; [reflexivity|].
  destruct (edge_leb e x); [reflexivity|].
  rewrite IH. apply perm_swap.
Qed.

Lemma sort_edges_perm (l : list (Z * Z)) : Permutation (sort_edges l) l.
Proof.
  unfold sort_edges. induction l as [|x l IH]; cbn [fold_right]; [reflexivity|].
  rewrite insert_edge_perm. now apply perm_skip.
Qed.

Lemma Permutation_Forall_edges (P : Z * Z -> Prop) (l l' : list (Z * Z)) :
  Permutation l l' -> Forall P l' -> Forall P l.
Proof.
  intros Hp H. rewrite Forall_forall in *. intros x Hx.
  apply H. eapply Permutation_in; eassumption.
Qed.

Lemma insert_edge_sorted (e : Z * Z) (l : list (Z * Z)) :
  StronglySorted edge_le l -> StronglySorted edge_le (insert_edge e l).
Proof.
  induction 1 as [|x l Hs IH Hall]; cbn [insert_edge].
  - constructor; constructor.
  - destruct (edge_leb e x) eqn:Hex.
    + constructor; [constructor; assumption|].
      constructor; [exact Hex|].
      eapply Forall_impl; [|exact Hall].
      intros y Hy. eapply edge_le_trans; [exact Hex | exact Hy].
    + constructor; [exact IH|].
      apply (Permutation_Forall_edges _ _ _ (insert_edge_perm e l)).
      constructor; [now apply edge_le_total | exact Hall].
Qed.

Lemma sort_edges_sorted (l : list (Z * Z)) : StronglySorted edge_le (sort_edges l).
Proof.
  unfold sort_edges. induction l as [|x l IH]; cbn [fold_right].
  - constructor.
  - now apply insert_edge_sorted.
Qed.

Lemma occurrences_sort (e : Z * Z) (l : list (Z * Z)) :
  occurrences e (sort_edges l) = occurrences e l.
Proof.
  unfold occurrences. apply Permutation_count_occ, sort_edges_perm.
Qed.

Lemma occurrences_In (e : Z * Z) (l : list (Z * Z)) :
  (1 <= occurrences e l)%nat -> In e l.
Proof.
  unfold occurrences. intros H. apply (count_occ_In edge_eq_dec). lia.
Qed.

(** A pair found by [std::adjacent_find] is in the list twice. *)
Lemma adjacent_find_twice (l : list (Z * Z)) (e : Z * Z) :
  adjacent_find l = Some e -> (2 <= occurrences e l)%nat.
Proof.
  unfold occurrences.
  induction l as [|a l IH]; [discriminate|].
  destruct l as [|b l]; [discriminate|].
  cbn [adjacent_find]. destruct (edge_eqb a b) eqn:Hab.
  - apply edge_eqb_spec in Hab. subst b. intros H. injection H as ->.
    rewrite !count_occ_cons_eq by reflexivity. lia.
  - intros H. specialize (IH H).
    destruct (edge_eq_dec a e) as [-> | Hne].
    + rewrite count_occ_cons_eq by reflexivity. lia.
    + rewrite count_occ_cons_neq by assumption. exact IH.
Qed.

(** In a sorted list it is the least pair that is there twice. *)
Lemma adjacent_find_least (l : list (Z * Z)) (x : Z * Z) :
  StronglySorted edge_le l ->
  (2 <= occurrences x l)%nat ->
  exists e, adjacent_find l = Some e /\ edge_le e x.
Proof.
  unfold occurrences.
  induction 1 as [|a l Hs IH Hall]; [cbn; lia|].
  intros Hx. destruct l as [|b l].
  - cbn in Hx. destruct (edge_eq_dec a x); cbn in Hx; lia.
  - cbn [adjacent_find]. destruct (edge_eqb a b) eqn:Hab.
    + exists a. split; [reflexivity|].
      assert (Hin : In x (a :: b :: l))
        by (apply (count_occ_In edge_eq_dec); lia).
      destruct Hin as [<- | Hin]; [apply edge_le_refl|].
      rewrite Forall_forall in Hall. now apply Hall.
    + destruct (edge_eq_dec a x) as [-> | Hne].
      * exfalso. rewrite count_occ_cons_eq in Hx by reflexivity.
        assert (Hin : In x (b :: l))
          by (apply (count_occ_In edge_eq_dec); lia).
        assert (Hxb : edge_le x b) by (inversion Hall; assumption).
        assert (Hbx : edge_le b x).
        { destruct Hin as [<- | Hin]; [apply edge_le_refl|].
          inversion Hs as [|? ? _ Hb]. subst.
          rewrite Forall_forall in Hb. now apply Hb. }
        pose proof (edge_le_antisym _ _ Hxb Hbx) as Heq.
        apply edge_eqb_spec in Heq. congruence.
      * rewrite count_occ_cons_neq in Hx by assumption.
        exact (IH Hx).
Qed.

Lemma adjacent_find_none (l : list (Z * Z)) :
  NoDup l -> adjacent_find l = None.
Proof.
  intros Hnd. destruct (adjacent_find l) as [e|] eqn:H; [|reflexivity].
  apply adjacent_find_twice in H. unfold occurrences in H.
  rewrite (NoDup_count_occ edge_eq_dec) in Hnd. specialize (Hnd e). lia.
Qed.

Lemma Compile_orientation_twice (m : mjCMesh) (x : Z * Z) :
  (2 <= occurrences x (useredge m))%nat ->
  exists a b,
    (2 <= occurrences (a, b) (useredge m))%nat
    /\ edge_le (a, b) x
    /\ invalidorientation (Compile_orientation m) = (a + 1, b + 1).
Proof.
  intros Hx. unfold Compile_orientation.
  destruct (useredge m) as [|e0 es] eqn:Hu; [cbn in Hx; lia|].
  cbn [is_empty]. cbv zeta. rewrite <- Hu in *.
  destruct (adjacent_find_least (sort_edges (useredge m)) x) as ([a b] & Hf & Hle).
  - apply sort_edges_sorted.
  - now rewrite occurrences_sort.
  - exists a, b. rewrite Hf. split; [|split; [exact Hle | reflexivity]].
    rewrite <- occurrences_sort. now apply adjacent_find_twice.
Qed.

Lemma Compile_orientation_NoDup (m : mjCMesh) :
  NoDup (useredge m) ->
  invalidorientation (Compile_orientation m) = invalidorientation m.
Proof.
  intros Hnd. unfold Compile_orientation.
  destruct (is_empty (useredge m)); [reflexivity|]. cbv zeta.
  rewrite adjacent_find_none; [reflexivity|].
  eapply Permutation_NoDup; [|exact Hnd].
  symmetry. apply sort_edges_perm.
Qed.

Lemma CheckMesh_orientation (m : mjCMesh) (a b : Z) :
  processed m = true ->
  invalidorientation m = (a, b) ->
  0 <= a \/ 0 <= b ->
  CheckMesh m
  = throw "faces of mesh '%s' have inconsistent orientation. Please check the faces containing the vertices %d and %d."
      [a; b].
Proof.
  intros Hp Hi Hab. unfold CheckMesh. rewrite Hp, Hi. cbn [negb fst snd].
  assert (H : (a >=? 0) || (b >=? 0) = true).
  { apply orb_true_iff. rewrite !Z.geb_le. lia. }
  now rewrite H.
Qed.

Section Orientation.
Context {E : Externals}.
Variable model : mjCModel.

(** C7.  After the staging, Compile sorts the directed edges and scans
    neighbours.  If some directed edge is in the list at least twice,
    [invalidorientation] becomes the pair (a+1, b+1) of the least such
    edge (a, b); if no edge is there twice the pair is left as it was.
    The check itself never stops Compile, and on an object that was not
    processed before the rest of Compile does not depend on the pair:
    with any other pair in its place the rest would end in the same way,
    with the same result but for the pair.  A finished Compile keeps the
    pair and sets [processed], and then, the ids being vertex indices,
    both accessors throw the orientation error with the two 1-based
    ids. *)
Theorem Compile_orientation_recorded (m m1 : mjCMesh) :
  Compile_stage model m = Done m1 ->
  let m2 := Compile_orientation m1 in
  Compile model m = Compile_finish model m2
  /\ (forall x, (2 <= occurrences x (useredge m1))%nat ->
        exists a b,
          (2 <= occurrences (a, b) (useredge m1))%nat
          /\ edge_le (a, b) x
          /\ invalidorientation m2 = (a + 1, b + 1))
  /\ (NoDup (useredge m1) -> invalidorientation m2 = invalidorientation m)
  /\ (processed m = false ->
      forall q : Z * Z,
        Compile_finish model (with_pair q m2)
        = omap (with_pair q) (Compile model m))
  /\ (forall m', Compile model m = Done m' ->
        processed m' = true
        /\ invalidorientation m' = invalidorientation m2
        /\ forall a b, invalidorientation m2 = (a + 1, b + 1) ->
             0 <= a \/ 0 <= b ->
             forall type,
               GetInertiaBoxPtr m' type
               = throw "faces of mesh '%s' have inconsistent orientation. Please check the faces containing the vertices %d and %d."
                   [a + 1; b + 1]
               /\ GetVolumeRef m' type
                  = throw "faces of mesh '%s' have inconsistent orientation. Please check the faces containing the vertices %d and %d."
                      [a + 1; b + 1]).
Proof.
  intros Hstage m2.
  assert (Hc : Compile model m = Compile_finish model m2).
  { unfold Compile. rewrite Hstage. reflexivity. }
  split; [exact Hc|]. split; [|split; [|split]].
  - intros x Hx. now apply Compile_orientation_twice.
  - intros Hnd. unfold m2. rewrite Compile_orientation_NoDup by assumption.
    apply Compile_stage_views in Hstage as [Ho _].
    unfold orient_view in Ho. congruence.
  - intros Hp q. rewrite Hc. apply Compile_finish_pair.
    apply Compile_stage_views in Hstage as [Ho _].
    destruct (Compile_orientation_views m1) as (_ & _ & Hp2).
    unfold orient_view in Ho. fold m2 in Hp2.
    injection Ho as _ Hp1. congruence.
  - intros m' Hm'. rewrite Hc in Hm'.
    apply Compile_finish_kept in Hm' as (_ & _ & _ & Hinv & _ & Hp).
    split; [exact Hp|]. split; [exact Hinv|].
    intros a b Hab Hpos type.
    assert (Hchk : CheckMesh m'
      = throw "faces of mesh '%s' have inconsistent orientation. Please check the faces containing the vertices %d and %d."
          [a + 1; b + 1]).
    { apply CheckMesh_orientation; [exact Hp | congruence | lia]. }
    unfold GetInertiaBoxPtr, GetVolumeRef. rewrite Hchk. split; reflexivity.
Qed.

End Orientation.

(** ** CheckMesh and the accessors *)

#[local] Open Scope Q_scope.

Lemma Qlt_bool_false (a b : Q) : Qlt_bool a b = false <-> b <= a.
Proof.
  unfold Qlt_bool. rewrite negb_false_iff. apply Qle_bool_iff.
Qed.

Lemma Qlt_bool_true (a b : Q) : Qlt_bool a b = true <-> a < b.
Proof.
  unfold Qlt_bool. rewrite negb_true_iff. split.
  - intros H. apply Qnot_le_lt. intros Hle. apply Qle_bool_iff in Hle. congruence.
  - intros H. destruct (Qle_bool b a) eqn:Hb; [|reflexivity].
    apply Qle_bool_iff in Hb. exfalso. eapply Qlt_not_le; eassumption.
Qed.

Section OneTriangle.
Context {E : Externals}.
Variable model : mjCModel.


#[local] Close Scope Q_scope.


#[local] Open Scope Q_scope.


End OneTriangle.

#[local] Close Scope Q_scope.

(** ** The examples *)


Lemma int_sized_demo_files : int_sized_files Demo.E0.
Proof.
  intros name buf. cbn [open_file Demo.E0 Demo.externals].
  unfold Demo.lookup, Demo.files. cbn [find fst snd].
  repeat (destruct (String.eqb _ name);
          [intros H; injection H as <-; vm_compute; reflexivity|]).
  discriminate.
Qed.



(** C7, on the cube with one face turned over: the edge (0, 1) is there
    twice, the pair (1, 2) is recorded, Compile returns all the same, and
    the accessor of the compiled mesh throws the orientation error. *)
Lemma Compile_orientation_recorded_witness :
  @Compile_stage Demo.E0 Demo.model Examples.cube_flipped
  = Done Examples.cube_flipped_staged
  /\ (exists a b,
        (2 <= occurrences (a, b) (useredge Examples.cube_flipped_staged))%nat
        /\ edge_le (a, b) (0, 1)
        /\ invalidorientation (Compile_orientation Examples.cube_flipped_staged)
           = (a + 1, b + 1))
  /\ exists m',
       @Compile Demo.E0 Demo.model Examples.cube_flipped = Done m'
       /\ processed m' = true
       /\ invalidorientation m' = (1, 2)
       /\ GetVolumeRef m' mjVOLUME_MESH
          = throw "faces of mesh '%s' have inconsistent orientation. Please check the faces containing the vertices %d and %d."
              [1; 2]
       /\ @Compile_finish Demo.E0 Demo.model
            (with_pair (-1, -1) (Compile_orientation Examples.cube_flipped_staged))
          = Done (with_pair (-1, -1) m').
Proof.
  assert (Hs : @Compile_stage Demo.E0 Demo.model Examples.cube_flipped
               = Done Examples.cube_flipped_staged) by (vm_compute; reflexivity).
  destruct (@Compile_orientation_recorded Demo.E0 Demo.model _ _ Hs)
    as (_ & Htwice & _ & Hany & Hacc).
  split; [exact Hs|]. split.
  { apply Htwice. apply Nat.leb_le. vm_compute. reflexivity. }
  assert (Hc : exists m', @Compile Demo.E0 Demo.model Examples.cube_flipped = Done m')
    by (eexists; vm_compute; reflexivity).
  destruct Hc as [m' Hc].
  exists m'. split; [exact Hc|].
  destruct (Hacc m' Hc) as (Hp & Hi & Hthrow).
  assert (Hpair : invalidorientation (Compile_orientation Examples.cube_flipped_staged)
                  = (0 + 1, 1 + 1)) by (vm_compute; reflexivity).
  split; [exact Hp|]. split; [rewrite Hi; exact Hpair|].
  split; [apply (Hthrow 0 1 Hpair); left; lia|].
  pose proof (Hany eq_refl (-1, -1)) as Hq. rewrite Hc in Hq. exact Hq.
Defined.

(** C9, as it is written, fails on the cube with one pair of texture
    coordinates: Compile accepts it, and the array has one pair for eight
    vertices. *)
Lemma Compile_accepts_one_texcoord :
  exists m', @Compile Demo.E0 Demo.model Examples.cube_tex = Done m'
             /\ texcoord m' = Some [0; 0]%Q
             /\ ntexcoord m' = 1 /\ nvert m' = 8
             /\ ~ (texcoord m' = None \/ ntexcoord m' = nvert m').
Proof.
  eexists. split; [vm_compute; reflexivity|].
  cbn. repeat split; try reflexivity.
  intros [H | H]; discriminate.
Qed.

(** C6, as it is written, fails on a scale with a zero: the product is not
    negative, and the triangle (0, 1, 2) of the file is stored as
    (0, 2, 1). *)
Lemma LoadMSH_zero_scale_is_left_handed :
  (let '(s0, s1, s2) := scale Examples.msh_flat in ~ (s0 * s1 * s2 < 0)%Q)
  /\ exists m', @LoadMSH Demo.E0 Examples.msh_flat = Done m'
                /\ face m' = Some [0; 2; 1]
  /\ exists m0, @LoadMSH Demo.E0 Examples.msh_plain = Done m0
                /\ face m0 = Some [0; 1; 2].
Proof.
  split; [cbn; intros H; discriminate|].
  eexists. split; [vm_compute; reflexivity|]. split; [reflexivity|].
  eexists. split; [vm_compute; reflexivity|]. reflexivity.
Qed.

(** C5 at the mirrored file of one triangle: the face is stored turned
    over, the normal indices as read. *)
Lemma LoadMSH_mirrored_facenormal :
  exists m', @LoadMSH Demo.E0 Examples.msh_mirrored = Done m'
             /\ nface m' = 1
             /\ face m' = Some [0; 2; 1]
             /\ facenormal m' = Some [0; 1; 2].
Proof.
  eexists. split; [vm_compute; reflexivity|]. repeat split.
Qed.

(** ** The texture coordinates of a compiled mesh *)

Section Texcoord.
Context {E : Externals}.
Variable model : mjCModel.

(** C9 (as amended).  With files of [int] size, a mesh that Compile
    accepts, compiled from an object without texture coordinates of its
    own, has no texture array and a count of zero, or an array of exactly
    [ntexcoord] pairs with [ntexcoord > 0].  LoadMSH leaves the count at 0
    or at [nvert]; for the coordinates of the user or of an OBJ file the
    count is half the number of values given, whatever [nvert] is. *)
Theorem Compile_texcoord_count :
  int_sized_files E ->
  (forall m m',
     texcoord m = None -> ntexcoord m = 0 ->
     Compile model m = Done m' ->
     tex_ok m')
  /\ (forall m m',
        texcoord m = None ->
        LoadMSH m = Done m' ->
        tex_ok m' /\ (ntexcoord m' = 0 \/ ntexcoord m' = nvert m'))
  /\ (forall m m',
        usertexcoord m <> [] ->
        Compile_texcoord m = Done m' ->
        texcoord m' = Some (usertexcoord m)
        /\ ntexcoord m' = len (usertexcoord m) / 2
        /\ nvert m' = nvert m).
Proof.
  intros Hfiles. split; [|split].
  - intros m m' Hnone Hzero Hc. unfold Compile in Hc.
    inv_bind Hc as m1 Hstage.
    apply (Compile_stage_tex model m m1 Hfiles Hnone Hzero) in Hstage.
    destruct (Compile_orientation_views m1) as (Ht & _).
    apply Compile_finish_kept in Hc as (K1 & K2 & _).
    unfold tex_view in Ht. injection Ht as Ht1 Ht2 _.
    unfold tex_ok in *. rewrite K1, K2, Ht1, Ht2. exact Hstage.
  - intros m m' Hnone H.
    destruct (LoadMSH_tex m m' Hfiles Hnone H) as (A & B & _). split; assumption.
  - intros m m' Hne H. unfold Compile_texcoord in H.
    destruct (usertexcoord m) as [|x tc] eqn:Hu; [congruence|].
    cbn [is_empty] in H.
    destruct (negb (is_null (texcoord m))); [discriminate|].
    destruct (negb (len (x :: tc) mod 2 =? 0)); [discriminate|].
    cbn [VecToArray] in H. injection H as <-. mesh_simpl_goal.
    repeat split.
Qed.

End Texcoord.

(** C9 as amended, on the cube with one pair of texture coordinates. *)
Lemma Compile_texcoord_count_witness :
  exists m', @Compile Demo.E0 Demo.model Examples.cube_tex = Done m'
             /\ tex_ok m' /\ ntexcoord m' = 1.
Proof.
  eexists. split; [vm_compute; reflexivity|]. split; [|reflexivity].
  apply (proj1 (@Compile_texcoord_count Demo.E0 Demo.model int_sized_demo_files)
           Examples.cube_tex).
  - reflexivity.
  - reflexivity.
  - vm_compute. reflexivity.
Defined.

(** ** The loaders on the example files *)

(** C6 as amended, on the mirrored MSH file: the triangle read is stored
    with its 2nd and 3rd vertex exchanged. *)
Lemma loaders_handedness_witness :
  righthand Examples.msh_mirrored = false
  /\ exists m', @LoadMSH Demo.E0 Examples.msh_mirrored = Done m'
       /\ exists buffer off,
            @open_file Demo.E0 "one.msh" = Some buffer
            /\ face m' = Some (swap_faces 1 (ints_at buffer off 3)).
Proof.
  split; [reflexivity|].
  eexists. split; [vm_compute; reflexivity|].
  destruct (@loaders_handedness Demo.E0 Examples.msh_mirrored) as (_ & _ & H & _).
  refine (H _ _ _).
  - vm_compute. reflexivity.
  - cbn. discriminate.
Defined.

(** C8, on the OBJ file with three texture coordinates. *)
Lemma LoadOBJ_flips_v_but_first_witness :
  exists m', @LoadOBJ Demo.E0 Examples.obj_mesh = Done m'
    /\ usertexcoord m' = [0; 1 # 4; 1; 3 # 4; 1; 1 # 4]%Q
    /\ len (usertexcoord m') = 6
    /\ (forall i, 1 <= i < 3 ->
          getQ (usertexcoord m') (2 * i + 1)
          = (1 - getQ (attrib_texcoords Demo.obj_patch) (2 * i + 1))%Q)
    /\ getQ (usertexcoord m') 1 = getQ (attrib_texcoords Demo.obj_patch) 1.
Proof.
  eexists. split; [vm_compute; reflexivity|]. split; [vm_compute; reflexivity|].
  destruct (LoadOBJ_flips_v_but_first Demo.E0 Examples.obj_mesh _ Demo.obj_patch
              eq_refl ltac:(vm_compute; reflexivity)) as (A & B & C & _).
  split; [exact A|]. split; [exact B | exact C].
Defined.

(** ** More on Compile: the edge list *)

Section Edges.
Context {E : Externals}.
Variable model : mjCModel.

Lemma Compile_orientation_edges (m : mjCMesh) :
  useredge (Compile_orientation m) = sort_edges (useredge m).
Proof.
  unfold Compile_orientation.
  destruct (useredge m) as [|e es] eqn:Hu; cbn [is_empty].
  - now rewrite Hu.
  - cbv zeta. rewrite <- Hu.
    destruct (adjacent_find (sort_edges (useredge m))) as [[a b]|]; reflexivity.
Qed.

(** X1. A compiled mesh holds the directed edges of the staging, each as often
    as before, in lexicographic order. *)
Theorem Compile_sorts_edges (m m' : mjCMesh) :
  Compile model m = Done m' ->
  StronglySorted edge_le (useredge m')
  /\ exists m1, Compile_stage model m = Done m1
                /\ Permutation (useredge m') (useredge m1)
                /\ forall e, occurrences e (useredge m') = occurrences e (useredge m1).
Proof.
  intros H. unfold Compile in H. inv_bind H as m1 Hstage.
  apply Compile_finish_kept in H as (_ & _ & _ & _ & He & _).
  rewrite He, Compile_orientation_edges.
  split; [apply sort_edges_sorted|]. exists m1.
  split; [exact Hstage|]. split; [apply sort_edges_perm|].
  intros e. apply occurrences_sort.
Qed.

End Edges.

Lemma Compile_sorts_edges_witness :
  exists m', @Compile Demo.E0 Demo.model Demo.cube = Done m'
             /\ StronglySorted edge_le (useredge m')
             /\ List.length (useredge m') = 36%nat.
Proof.
  eexists. split; [vm_compute; reflexivity|]. split; [|reflexivity].
  refine (proj1 (@Compile_sorts_edges Demo.E0 Demo.model Demo.cube _ _)).
  vm_compute. reflexivity.
Defined.

(** ** More on LoadMSH *)

Lemma msh_bytes_exact (k n : Z) :
  0 <= k * n < 2 ^ 31 -> msh_bytes k n = 4 * (k * n).
Proof.
  intros H. destruct (msh_bytes_cases k n) as [[_ He] | [Hneg _]].
  - rewrite He, wrap32_small; lia.
  - rewrite wrap32_small in Hneg; lia.
Qed.

Lemma to_size_t_small (z : Z) : 0 <= z < 2 ^ 64 -> to_size_t z = z.
Proof. intros H. unfold to_size_t. now apply Z.mod_small. Qed.

Lemma msh_size_exact (nv nn nt nf : Z) :
  0 <= 3 * nv < 2 ^ 31 -> 0 <= 3 * nn < 2 ^ 31 ->
  0 <= 2 * nt < 2 ^ 31 -> 0 <= 3 * nf < 2 ^ 31 ->
  msh_size nv nn nt nf = 16 + 12 * nv + 12 * nn + 8 * nt + 12 * nf.
Proof.
  intros Hv Hn Ht Hf. unfold msh_size.
  rewrite !msh_bytes_exact by assumption.
  change (2 ^ 31) with 2147483648 in *.
  rewrite to_size_t_small; [lia|].
  change (2 ^ 64) with 18446744073709551616. lia.
Qed.

Section MSH.
Context {E : Externals}.

Lemma LoadMSH_sizes_refused (m : mjCMesh) (buffer : list byte) :
  open_file (file m) = Some buffer ->
  16 <= len buffer ->
  let nv := i32_at buffer 0 in
  let nn := i32_at buffer 4 in
  let nt := i32_at buffer 8 in
  let nf := i32_at buffer 12 in
  (nv < 4 \/ nf < 0 \/ (nn <> 0 /\ nn <> nv) \/ (nt <> 0 /\ nt <> nv)) ->
  LoadMSH m = throw msg_msh_sizes [].
Proof.
  intros Hopen H16 nv nn nt nf Hbad. unfold LoadMSH. rewrite Hopen.
  assert (H0 : (len buffer =? 0) = false) by (apply Z.eqb_neq; lia).
  assert (H1 : (len buffer <? 16) = false) by (apply Z.ltb_ge; lia).
  rewrite H0, H1. cbv zeta. fold nv nn nt nf.
  assert (Hc : (nv <? 4) || (nf <? 0) || (nn <? 0) || (nt <? 0)
               || (nn >? 0) && negb (nn =? nv)
               || (nt >? 0) && negb (nt =? nv) = true).
  { rewrite !orb_true_iff, !andb_true_iff, !negb_true_iff, !Z.gtb_ltb,
      !Z.ltb_lt, !Z.eqb_neq. lia. }
  now rewrite Hc.
Qed.

Lemma LoadMSH_sizes_pass (nv nn nt nf : Z) :
  4 <= nv -> 0 <= nf -> nn = 0 \/ nn = nv -> nt = 0 \/ nt = nv ->
  (nv <? 4) || (nf <? 0) || (nn <? 0) || (nt <? 0)
  || (nn >? 0) && negb (nn =? nv) || (nt >? 0) && negb (nt =? nv) = false.
Proof.
  intros Hv Hf Hn Ht.
  rewrite !orb_false_iff, !andb_false_iff, !negb_false_iff, !Z.gtb_ltb,
    !Z.ltb_ge, !Z.eqb_eq. lia.
Qed.

(** X2. LoadMSH on the buffer of its file, for a header whose counts keep
    [3*nvert] and [3*nface] inside [int]: an empty buffer, a buffer
    without the 16 bytes of the header, counts that break
    [nvert >= 4], [nface >= 0], [nnormal] and [ntexcoord] in
    [{0, nvert}], and a buffer that is not exactly
    [16 + 12 nvert + 12 nnormal + 8 ntexcoord + 12 nface] bytes long are
    refused, each with its own error; every other buffer is loaded, with
    the four counts of the header and [3 nvert] vertex coordinates. *)
Theorem LoadMSH_validation (m : mjCMesh) (buffer : list byte) :
  open_file (file m) = Some buffer ->
  len buffer < 2 ^ 31 ->
  let nv := i32_at buffer 0 in
  let nn := i32_at buffer 4 in
  let nt := i32_at buffer 8 in
  let nf := i32_at buffer 12 in
  (len buffer = 0 -> LoadMSH m = throw msg_msh_empty [])
  /\ (0 < len buffer < 16 -> LoadMSH m = throw msg_msh_header [])
  /\ (16 <= len buffer ->
      (nv < 4 \/ nf < 0 \/ (nn <> 0 /\ nn <> nv) \/ (nt <> 0 /\ nt <> nv)) ->
      LoadMSH m = throw msg_msh_sizes [])
  /\ (16 <= len buffer -> 4 <= nv -> 0 <= nf ->
      nn = 0 \/ nn = nv -> nt = 0 \/ nt = nv ->
      3 * nv < 2 ^ 31 -> 3 * nf < 2 ^ 31 ->
      (len buffer <> 16 + 12 * nv + 12 * nn + 8 * nt + 12 * nf ->
       LoadMSH m = throw msg_msh_filesize [])
      /\ (len buffer = 16 + 12 * nv + 12 * nn + 8 * nt + 12 * nf ->
          exists m' v,
            LoadMSH m = Done m'
            /\ nvert m' = nv /\ nnormal m' = nn /\ ntexcoord m' = nt
            /\ nface m' = nf
            /\ vert m' = Some v /\ len v = 3 * nv)).
Proof.
  intros Hopen Hint nv nn nt nf.
  split; [|split; [|split]].
  - intros H0. unfold LoadMSH. rewrite Hopen, H0. reflexivity.
  - intros H. unfold LoadMSH. rewrite Hopen.
    assert (H0 : (len buffer =? 0) = false) by (apply Z.eqb_neq; lia).
    assert (H1 : (len buffer <? 16) = true) by (apply Z.ltb_lt; lia).
    now rewrite H0, H1.
  - intros H16 Hbad. now apply LoadMSH_sizes_refused with (buffer := buffer).
  - intros H16 Hv Hf Hn Ht Hv3 Hf3.
    change (2 ^ 31) with 2147483648 in *.
    assert (Hsize : msh_size nv nn nt nf
                    = 16 + 12 * nv + 12 * nn + 8 * nt + 12 * nf).
    { apply msh_size_exact; change (2 ^ 31) with 2147483648; lia. }
    assert (Hlen : to_size_t (len buffer) = len buffer).
    { apply to_size_t_small. change (2 ^ 64) with 18446744073709551616. lia. }
    assert (H0 : (len buffer =? 0) = false) by (apply Z.eqb_neq; lia).
    assert (H1 : (len buffer <? 16) = false) by (apply Z.ltb_ge; lia).
    pose proof (LoadMSH_sizes_pass nv nn nt nf Hv Hf Hn Ht) as Hpass.
    split.
    + intros Hne. unfold LoadMSH. rewrite Hopen, H0, H1. cbv zeta.
      fold nv nn nt nf. rewrite Hpass, Hlen, Hsize.
      assert (Hc : (len buffer =? 16 + 12 * nv + 12 * nn + 8 * nt + 12 * nf)
                   = false) by (apply Z.eqb_neq; exact Hne).
      now rewrite Hc.
    + intros Heq. unfold LoadMSH. rewrite Hopen, H0, H1. cbv zeta.
      fold nv nn nt nf. rewrite Hpass, Hlen, Hsize.
      assert (Hc : (len buffer =? 16 + 12 * nv + 12 * nn + 8 * nt + 12 * nf)
                   = true) by (apply Z.eqb_eq; exact Heq).
      rewrite Hc. cbn [negb].
      unfold msh_floats, msh_ints.
      rewrite !(msh_bytes_exact 3 nv), !(msh_bytes_exact 2 nv),
        !(msh_bytes_exact 3 nf), !(wrap32_small (3 * nv)), !(wrap32_small (2 * nv))
        by (change (2 ^ 31) with 2147483648; lia).
      assert (L1 : (16 + 4 * (3 * nv) <=? len buffer) = true)
        by (apply Z.leb_le; lia).
      match goal with
      | |- exists m' v, ?r = Done m' /\ _ => assert (Hs : exists m', r = Done m')
      end.
      2: { destruct Hs as [m' Hm']. 
           assert (Hload : LoadMSH m = Done m').
           { unfold LoadMSH. rewrite Hopen, H0, H1. cbv zeta.
             fold nv nn nt nf. rewrite Hpass, Hlen, Hsize, Hc. cbn [negb].
             unfold msh_floats, msh_ints.
             rewrite !(msh_bytes_exact 3 nv), !(msh_bytes_exact 2 nv),
               !(msh_bytes_exact 3 nf), !(wrap32_small (3 * nv)),
               !(wrap32_small (2 * nv))
               by (change (2 ^ 31) with 2147483648; lia).
             exact Hm'. }
           apply LoadMSH_inv in Hload as (buffer' & Hopen' & _ & Hinv).
           rewrite Hopen in Hopen'. injection Hopen' as <-. cbv zeta in Hinv.
           fold nv nn nt nf in Hinv.
           destruct Hinv as (_ & _ & _ & _ & _ & A & B & C & D & _ & F & _).
           rewrite msh_bytes_exact in F
             by (change (2 ^ 31) with 2147483648; lia).
           exists m', (floats_at buffer 16 (4 * (3 * nv) / 4)).
           split; [exact Hm'|]. do 5 (split; [assumption|]).
           rewrite len_floats_at; [rewrite Z.mul_comm; apply Z.div_mul; lia|].
           apply Z.div_pos; lia. }
      rewrite L1. cbn [bind].
      destruct (Z.eqb_spec nn 0) as [En | En];
        destruct (Z.eqb_spec nt 0) as [Et | Et];
        destruct (Z.eqb_spec nf 0) as [Ef | Ef];
        repeat (cbn [bind negb andb];
                match goal with
                | |- context [?a <=? len buffer] =>
                    let H := fresh in
                    assert (H : (a <=? len buffer) = true)
                      by (apply Z.leb_le; lia);
                    rewrite H; clear H
                end);
        cbn [bind negb andb].
      all: try (destruct (texcoord _); cbn [bind negb andb]).
      all: try (destruct (face _); cbn [bind negb andb]).
      all: try (destruct (righthand m); cbn [bind negb andb]).
      all: eexists; reflexivity.
Qed.

(** X3. After LoadMSH with faces, [facenormal] holds the indices as the file
    has them, and [face] the same indices, with the 2nd and 3rd of every
    triangle exchanged when the load is left-handed: the two arrays are
    equal exactly for a right-handed load, or when the exchange changes
    nothing. *)
Theorem LoadMSH_facenormal_as_read (m m' : mjCMesh) :
  LoadMSH m = Done m' ->
  nface m' <> 0 ->
  exists raw,
    facenormal m' = Some raw
    /\ face m' = Some (if righthand m then raw
                       else swap_faces (Z.to_nat (nface m')) raw)
    /\ (righthand m = true -> face m' = facenormal m')
    /\ (face m' = facenormal m' ->
        righthand m = true \/ swap_faces (Z.to_nat (nface m')) raw = raw).
Proof.
  intros H Hnf.
  apply LoadMSH_inv in H as (buffer & Hopen & _ & H). cbv zeta in H.
  destruct H as (_ & _ & _ & _ & _ & _ & _ & _ & Hf & _ & _ & _ & _ & Hface
                 & Hfn & _).
  rewrite Hf in Hnf. apply Z.eqb_neq in Hnf. rewrite Hnf in Hface, Hfn.
  rewrite Hface, Hfn, Hf. eexists. split; [reflexivity|].
  split; [reflexivity|]. split.
  - intros ->. reflexivity.
  - destruct (righthand m); [left; reflexivity|].
    intros Heq. right. now injection Heq.
Qed.

End MSH.

Lemma LoadMSH_validation_witness :
  exists m' v,
    @LoadMSH Demo.E0 Examples.msh_plain = Done m'
    /\ nvert m' = 4 /\ nnormal m' = 0 /\ ntexcoord m' = 0 /\ nface m' = 1
    /\ vert m' = Some v /\ len v = 12.
Proof.
  assert (Ho : @open_file Demo.E0 (file Examples.msh_plain) = Some msh_one)
    by (vm_compute; reflexivity).
  assert (Hi : len msh_one < 2 ^ 31) by (vm_compute; reflexivity).
  destruct (@LoadMSH_validation Demo.E0 Examples.msh_plain msh_one Ho Hi)
    as (_ & _ & _ & H).
  refine (proj2 (H _ _ _ _ _ _ _) _); vm_compute;
    try reflexivity; try discriminate; left; reflexivity.
Defined.

Lemma LoadMSH_facenormal_as_read_witness :
  exists m' raw,
    @LoadMSH Demo.E1 Examples.msh_normals_mirrored = Done m'
    /\ facenormal m' = Some raw
    /\ face m' = Some (swap_faces 1 raw).
Proof.
  eexists.
  assert (H : @LoadMSH Demo.E1 Examples.msh_normals_mirrored = Done _)
    by (vm_compute; reflexivity).
  destruct (@LoadMSH_facenormal_as_read Demo.E1 _ _ H) as (raw & A & B & _).
  - cbn. discriminate.
  - exists raw. split; [exact H|]. split; [exact A | exact B].
Defined.

(** The same file through Compile: with normals in the file, the face and
    the normal indices stay as the loader left them. *)
Lemma Compile_keeps_mirrored_facenormal :
  exists m', @Compile Demo.E1 Demo.model Examples.msh_normals_mirrored = Done m'
             /\ face m' = Some [0; 2; 1]
             /\ facenormal m' = Some [0; 1; 2].
Proof.
  eexists. split; [vm_compute; reflexivity|]. repeat split.
Qed.

(** ** More on Process: what it writes *)





Ltac coords_now :=
  unfold coordinates_only, index_view, user_view; mesh_simpl_goal;
  repeat split; try reflexivity;
  try (intros _; discriminate); try (intros Hkeep; exact Hkeep).

Ltac flags_now :=
  unfold valid_view; mesh_simpl_goal; reflexivity.

Section ProcessFacts.
Context {E : Externals}.
Variable model : mjCModel.

Lemma coordinates_only_refl (m : mjCMesh) : coordinates_only m m.
Proof. repeat split; auto. Qed.

Lemma coordinates_only_trans (m1 m2 m3 : mjCMesh) :
  coordinates_only m1 m2 -> coordinates_only m2 m3 -> coordinates_only m1 m3.
Proof.
  intros (A1 & B1 & C1 & D1) (A2 & B2 & C2 & D2).
  repeat split; try congruence; auto.
Qed.

Lemma volumes_only_coordinates (m m' : mjCMesh) :
  volumes_only m m' -> coordinates_only m m'.
Proof. intros (s & v & ->). coords_now. Qed.

Lemma volumes_only_flags (m m' : mjCMesh) :
  volumes_only m m' -> valid_view m' = valid_view m.
Proof. intros (s & v & ->). reflexivity. Qed.

Lemma Process_centroid_writes (type : mjtMeshType) (m : mjCMesh) (v0 n0 : list Q)
  (fs : list Z) (m1 : mjCMesh) (fc : vec3) (stop : bool) :
  Process_centroid type m v0 n0 fs = Done (m1, fc, stop) ->
  coordinates_only m m1
  /\ valid_view m1
     = (if stop
        then (false, validvolume m, valideigenvalue m, validinequality m)
        else valid_view m).
Proof.
  unfold Process_centroid. intros H. destruct type.
  - destruct (Process_transform m v0 n0) as [v n].
    inv_bind H as p Hp. destruct p as [facecen area].
    destruct (Qlt_bool area mjMINVAL); injection H as <- _ <-;
      (split; [coords_now | flags_now]).
  - injection H as <- _ <-. split; [apply coordinates_only_refl | reflexivity].
Qed.

Lemma Process_com_writes (type : mjtMeshType) (m : mjCMesh) (v : list Q)
  (fc : vec3) (fs : list Z) (m4 : mjCMesh) (CoM : vec3) (stop : bool) :
  Process_com model type m v fc fs = Done (m4, CoM, stop) ->
  coordinates_only m m4
  /\ valid_view m4
     = (if stop
        then (validarea m, false, valideigenvalue m, validinequality m)
        else valid_view m).
Proof.
  unfold Process_com. intros H.
  inv_bind H as m2 H2. inv_bind H as p Hp. destruct p as [m3 CoM0].
  inv_bind H as vol Hvol.
  apply set_VolumeRef_volumes in H2. apply com_loop_volumes in Hp.
  pose proof (volumes_only_trans _ _ _ H2 Hp) as Hv.
  pose proof (volumes_only_coordinates _ _ Hv) as Kc.
  pose proof (volumes_only_flags _ _ Hv) as Kf.
  unfold valid_view in Kf. injection Kf as F1 F2 F3 F4.
  destruct (Qlt_bool vol mjMINVAL).
  - injection H as <- _ <-. split.
    + apply (coordinates_only_trans _ _ _ Kc). coords_now.
    + unfold valid_view. mesh_simpl_goal. congruence.
  - inv_bind H as vol' Hvol'. injection H as <- _ <-. split.
    + apply (coordinates_only_trans _ _ _ Kc). destruct type; coords_now.
    + unfold valid_view. destruct type; mesh_simpl_goal; congruence.
Qed.

Lemma Process_inertia_writes (type : mjtMeshType) (m : mjCMesh) (v1 : list Q)
  (CoM : vec3) (fs : list Z) (m7 : mjCMesh) (eq : vec3 * quat) (stop : bool) :
  Process_inertia model type m v1 CoM fs = Done (m7, eq, stop) ->
  coordinates_only m m7
  /\ (if stop
      then valid_view m7
           = (validarea m, validvolume m, false, validinequality m)
           \/ valid_view m7
              = (validarea m, validvolume m, valideigenvalue m, false)
      else valid_view m7 = valid_view m).
Proof.
  unfold Process_inertia. cbv zeta. intros H.
  inv_bind H as m6 H6. inv_bind H as p Hp. destruct p as [m7' P].
  apply set_VolumeRef_volumes in H6. apply inertia_loop_volumes in Hp.
  pose proof (volumes_only_trans _ _ _ H6 Hp) as Hv.
  assert (K5 : coordinates_only m m7').
  { refine (coordinates_only_trans _ _ _ _ (volumes_only_coordinates _ _ Hv)).
    coords_now. }
  assert (F5 : valid_view m7' = valid_view m).
  { rewrite (volumes_only_flags _ _ Hv). reflexivity. }
  unfold valid_view in F5. injection F5 as F1 F2 F3 F4.
  destruct (mju_eig3 _) as [[[[e0 e1] e2] evec] qt].
  destruct (Qle_bool e2 0).
  { injection H as <- _ <-. split.
    - apply (coordinates_only_trans _ _ _ K5). coords_now.
    - left. unfold valid_view. mesh_simpl_goal. congruence. }
  destruct (_ || _); injection H as <- _ <-.
  - split.
    + apply (coordinates_only_trans _ _ _ K5). coords_now.
    + right. unfold valid_view. mesh_simpl_goal. congruence.
  - split; [exact K5|]. unfold valid_view. congruence.
Qed.

Lemma Process_box_writes (type : mjtMeshType) (m : mjCMesh) (eigval : vec3)
  (quattmp : quat) (m9 : mjCMesh) :
  Process_box model type m eigval quattmp = Done m9 ->
  coordinates_only m m9 /\ valid_view m9 = valid_view m.
Proof.
  unfold Process_box. destruct eigval as [[e0 e1] e2]. intros H.
  inv_bind H as volm Hv. inv_bind H as m8 H8.
  apply set_InertiaBox_inv in H8. subst m8.
  destruct type.
  - destruct quattmp as [[[t0 t1] t2] t3]. injection H as <-.
    split; [coords_now | flags_now].
  - injection H as <-. split; [coords_now | flags_now].
Qed.

Lemma Process_type_writes (type : mjtMeshType) (m m' : mjCMesh) (stop : bool) :
  Process_type model type m = Done (m', stop) ->
  coordinates_only m m'
  /\ vert m' <> None /\ normal m' <> None /\ face m' <> None
  /\ (if stop then cleared_one m m' else valid_view m' = valid_view m).
Proof.
  unfold Process_type. intros H.
  destruct (vert m) as [v0|] eqn:Hv0; [|discriminate].
  destruct (normal m) as [n0|] eqn:Hn0; [|discriminate].
  destruct (face m) as [fs0|] eqn:Hf0; [|discriminate].
  cbv zeta in H.
  assert (Hend : forall (m2 : mjCMesh) (stop2 : bool),
            coordinates_only m m2 ->
            (if stop2 then cleared_one m m2 else valid_view m2 = valid_view m) ->
            coordinates_only m m2
            /\ vert m2 <> None /\ normal m2 <> None /\ face m2 <> None
            /\ (if stop2 then cleared_one m m2
                else valid_view m2 = valid_view m)).
  { intros m2 stop2 K F. split; [exact K|].
    destruct K as (Ki & _ & Kv & Kn).
    split; [apply Kv; rewrite Hv0; discriminate|].
    split; [apply Kn; rewrite Hn0; discriminate|].
    split; [|exact F].
    unfold index_view in Ki. injection Ki as ? ? ? ? ? Kf ? ? ? ? ? ? ? ?.
    rewrite Kf, Hf0. discriminate. }
  inv_bind H as p1 H1. destruct p1 as [[m1 fc] stop1].
  apply Process_centroid_writes in H1 as [K1 F1].
  destruct stop1.
  { injection H as <- <-. apply (Hend _ true); [exact K1|]. left. exact F1. }
  inv_bind H as p2 H2. destruct p2 as [[m4 CoM] stop2].
  apply Process_com_writes in H2 as [K2 F2].
  pose proof (coordinates_only_trans _ _ _ K1 K2) as K12.
  unfold valid_view in F1. injection F1 as A1 A2 A3 A4.
  destruct stop2.
  { injection H as <- <-. apply (Hend _ true); [exact K12|]. right. left.
    rewrite F2. congruence. }
  inv_bind H as p3 H3. destruct p3 as [[m7 eq] stop3].
  apply Process_inertia_writes in H3 as [K3 F3].
  pose proof (coordinates_only_trans _ _ _ K12 K3) as K123.
  unfold valid_view in F2. injection F2 as B1 B2 B3 B4.
  destruct stop3.
  { injection H as <- <-. apply (Hend _ true); [exact K123|]. right. right.
    destruct F3 as [F3 | F3]; [left | right]; rewrite F3; congruence. }
  inv_bind H as m9 H9. apply Process_box_writes in H9 as [K9 F9].
  injection H as <- <-. apply (Hend _ false).
  - exact (coordinates_only_trans _ _ _ K123 K9).
  - rewrite F9, F3. unfold valid_view. congruence.
Qed.

Lemma Process_run_writes (m m' : mjCMesh) :
  Process model m = Done m' ->
  coordinates_only m m'
  /\ vert m' <> None /\ normal m' <> None /\ face m' <> None
  /\ (valid_view m' = valid_view m \/ cleared_one m m').
Proof.
  unfold Process. intros H. inv_bind H as p Hp. destruct p as [m1 stop].
  apply Process_type_writes in Hp as (K1 & V1 & N1 & F1 & C1).
  destruct stop.
  - injection H as <-. repeat (split; [assumption|]). right. exact C1.
  - inv_bind H as p H2. destruct p as [m2 stop2]. injection H as <-.
    apply Process_type_writes in H2 as (K2 & V2 & N2 & F2 & C2).
    split; [exact (coordinates_only_trans _ _ _ K1 K2)|].
    repeat (split; [assumption|]).
    unfold valid_view in C1. injection C1 as A1 A2 A3 A4.
    destruct stop2.
    + right. unfold cleared_one in *. rewrite <- A1, <- A2, <- A3, <- A4.
      exact C2.
    + left. rewrite C2. unfold valid_view. congruence.
Qed.

(** X4. Process writes coordinates, inertial data and validity flags only:
    the counts, the index arrays, the texture coordinates, the graph, the
    edges and the user's settings are as before, and the vertex, normal
    and face arrays are still there.  It returns at the first check that
    fails, so it clears at most one validity flag and sets none. *)
Theorem Process_writes (m m' : mjCMesh) :
  Process model m = Done m' ->
  coordinates_only m m'
  /\ vert m' <> None /\ normal m' <> None /\ face m' <> None
  /\ (valid_view m' = valid_view m \/ cleared_one m m').
Proof. apply Process_run_writes. Qed.

End ProcessFacts.

(** ** More on Compile: what a compiled mesh has *)

Section Compiled.
Context {E : Externals}.
Variable model : mjCModel.

Lemma Compile_default_facenormal_set (m m' : mjCMesh) :
  Compile_default_facenormal m = Done m' -> facenormal m' <> None.
Proof.
  unfold Compile_default_facenormal. intros H.
  destruct (facenormal m) eqn:Hfn.
  - injection H as <-. rewrite Hfn. discriminate.
  - destruct (face m); [|discriminate]. injection H as <-.
    mesh_simpl_goal. discriminate.
Qed.

(** X5. A mesh that Compile accepts is marked as processed and has its
    vertex, normal, face and face-normal arrays; and of the validity flags
    that were set before, at most one has been cleared. *)
Theorem Compile_arrays_and_flags (m m' : mjCMesh) :
  Compile model m = Done m' ->
  processed m' = true
  /\ vert m' <> None /\ normal m' <> None /\ face m' <> None
  /\ facenormal m' <> None
  /\ (valid_view m' = valid_view m \/ cleared_one m m').
Proof.
  intros H. unfold Compile in H. inv_bind H as m1 Hstage.
  apply Compile_stage_views in Hstage as [_ Hv1].
  destruct (Compile_orientation_views m1) as (_ & Hv2 & _).
  rewrite Compile_finish_prepare in H.
  destruct (is_null (vert (Compile_orientation m1))); [discriminate|].
  inv_bind H as m6 H6. inv_bind H as m7 H7. injection H as <-.
  pose proof (Compile_default_facenormal_set) as Hdef.
  assert (Hfn6 : facenormal m6 <> None).
  { unfold Compile_prepare in H6.
    inv_bind H6 as a Ha. inv_bind H6 as b Hb. inv_bind H6 as c Hc.
    inv_bind H6 as d Hd. inv_bind H6 as e He.
    exact (Hdef _ _ H6). }
  apply Compile_prepare_views in H6 as (_ & Hv6 & _).
  apply Process_run_writes in H7 as (K & V & N & F & C).
  destruct K as (Ki & _).
  unfold index_view in Ki. injection Ki as ? ? ? ? ? ? Kfn ? ? ? ? ? ? ?.
  mesh_simpl_goal. split; [reflexivity|].
  do 3 (split; [assumption|]). split; [rewrite Kfn; exact Hfn6|].
  assert (Hv0 : valid_view m6 = valid_view m) by congruence.
  destruct C as [C | C].
  - left. unfold valid_view in *. mesh_simpl_goal. congruence.
  - right. unfold cleared_one, valid_view in *. mesh_simpl_goal.
    injection Hv0 as <- <- <- <-. exact C.
Qed.

(** X6. Vertices given twice, fewer than four vertices, or a number of
    coordinates that is not a multiple of 3 stop Compile right after the
    file is loaded; and without any vertices Compile stops after the
    orientation check. *)
Theorem Compile_vertex_errors (m m1 : mjCMesh) :
  Compile_load model m = Done m1 ->
  (uservert m1 <> [] ->
     (vert m1 <> None ->
        Compile model m = throw "repeated vertex specification" [])
     /\ (vert m1 = None -> len (uservert m1) < 12 ->
           Compile model m = throw "at least 4 verices required" [])
     /\ (vert m1 = None -> 12 <= len (uservert m1) ->
         len (uservert m1) mod 3 <> 0 ->
           Compile model m = throw "vertex data must be a multiple of 3" []))
  /\ (uservert m1 = [] -> vert m1 = None ->
      forall m', Compile model m <> Done m').
Proof.
  intros Hload. split.
  - intros Hne. unfold Compile, Compile_stage. rewrite Hload. cbn [bind].
    unfold Compile_vert.
    destruct (uservert m1) as [|x l] eqn:Hu; [congruence|]. cbn [is_empty].
    split; [|split].
    + intros Hv. destruct (vert m1); [reflexivity | congruence].
    + intros -> Hlen. cbn [is_null negb].
      assert (Hc : (len (x :: l) <? 12) = true) by (apply Z.ltb_lt; exact Hlen).
      now rewrite Hc.
    + intros -> Hlen Hmod. cbn [is_null negb].
      assert (Hc : (len (x :: l) <? 12) = false) by (apply Z.ltb_ge; exact Hlen).
      assert (Hd : (len (x :: l) mod 3 =? 0) = false)
        by (apply Z.eqb_neq; exact Hmod).
      now rewrite Hc, Hd.
  - intros Hu Hv m' Hc. unfold Compile in Hc. inv_bind Hc as m5 Hstage.
    unfold Compile_stage in Hstage. rewrite Hload in Hstage. cbn [bind] in Hstage.
    unfold Compile_vert in Hstage. rewrite Hu in Hstage. cbn [is_empty bind] in Hstage.
    inv_bind Hstage as m3 H3. inv_bind Hstage as m4 H4.
    assert (V3 : vert m3 = None).
    { unfold Compile_normal in H3. run_inv; mesh_simpl_goal; assumption. }
    assert (V4 : vert m4 = None).
    { unfold Compile_texcoord in H4. run_inv; mesh_simpl_goal; assumption. }
    assert (V5 : vert m5 = None).
    { unfold Compile_face in Hstage. cbv zeta in Hstage.
      destruct (is_empty (userface m4)); [injection Hstage as <-; exact V4|].
      destruct (negb (is_null (face m4))); [discriminate|].
      destruct (negb (_ =? 0)); [discriminate|].
      destruct (VecToArray (userface m4) (has_file m4)) as [arr uf].
      destruct (existsb _ uf); [discriminate|].
      destruct (is_empty _); [|injection Hstage as <-; mesh_simpl_goal; exact V4].
      revert Hstage. mesh_simpl_goal. rewrite V4.
      destruct (0 <? _); [discriminate|].
      intros Hs. injection Hs as <-. mesh_simpl_goal. exact V4. }
    unfold Compile_finish in Hc.
    assert (V6 : vert (Compile_orientation m5) = None).
    { unfold Compile_orientation. destruct (is_empty _); [exact V5|].
      cbv zeta. destruct (adjacent_find _) as [[a b]|]; mesh_simpl_goal; exact V5. }
    rewrite V6 in Hc. discriminate.
Qed.

End Compiled.

(** ** More on Compile: the indices of the user's faces *)

Section FaceIndices.
Context {E : Externals}.

Lemma existsb_out_of_range (nv : Z) (l : list Z) :
  existsb (fun vertex_index => (vertex_index >=? nv) || (vertex_index <? 0)) l
  = false ->
  Forall (fun i => 0 <= i < nv) l.
Proof.
  induction l as [|x l IH]; cbn [existsb]; intros H; constructor.
  - apply orb_false_iff in H as [H _]. apply orb_false_iff in H as [H1 H2].
    rewrite Z.geb_leb in H1. apply Z.leb_gt in H1. apply Z.ltb_ge in H2. lia.
  - apply IH. now apply orb_false_iff in H as [_ H].
Qed.

(** X7. The faces of the user become the face array, three indices a face.
    For a mesh without a file every index has been tested against
    [nvert]; for a mesh with a file the test comes after the vector has
    been emptied, and faces with any indices pass. *)
Theorem Compile_face_range_check (m : mjCMesh) :
  userface m <> [] ->
  (forall m', has_file m = false -> Compile_face m = Done m' ->
     face m' = Some (userface m)
     /\ userface m' = userface m
     /\ nface m' = len (userface m) / 3
     /\ len (userface m) mod 3 = 0
     /\ Forall (fun i => 0 <= i < nvert m') (userface m))
  /\ (has_file m = true -> face m = None -> len (userface m) mod 3 = 0 ->
      useredge m <> [] ->
      Compile_face m
      = Done (m <| nface := len (userface m) / 3 |>
                <| face := Some (userface m) |> <| userface := [] |>)).
Proof.
  intros Hne. destruct (userface m) as [|x l] eqn:Hu; [congruence|].
  split.
  - intros m' Hfile H. unfold Compile_face in H. rewrite Hu, Hfile in H.
    cbn [is_empty VecToArray] in H. cbv zeta in H.
    destruct (negb (is_null (face m))); [discriminate|].
    destruct (negb (len (x :: l) mod 3 =? 0)) eqn:Hmod; [discriminate|].
    apply negb_false_iff, Z.eqb_eq in Hmod.
    revert H. mesh_simpl_goal.
    destruct (existsb _ (x :: l)) eqn:Hex; [discriminate|].
    apply existsb_out_of_range in Hex.
    destruct (is_empty (useredge m)).
    + destruct (vert m) as [v|].
      * intros H. inv_bind H as es Hes. injection H as <-. mesh_simpl_goal.
        repeat split; try reflexivity; assumption.
      * destruct (0 <? _); [discriminate|]. intros H. injection H as <-.
        mesh_simpl_goal. repeat split; try reflexivity; assumption.
    + intros H. injection H as <-. mesh_simpl_goal.
      repeat split; try reflexivity; assumption.
  - intros Hfile Hface Hmod Hedge. unfold Compile_face.
    rewrite Hu, Hfile, Hface. cbn [is_empty VecToArray is_null negb]. cbv zeta.
    rewrite Hmod. cbn [Z.eqb negb existsb]. mesh_simpl_goal.
    destruct (useredge m); [congruence|]. reflexivity.
Qed.

End FaceIndices.

(** ** MakeNormal *)

Lemma len_repeat {A : Type} (x : A) (n : Z) : 0 <= n -> len (repeat x (Z.to_nat n)) = n.
Proof. intros H. unfold len. rewrite repeat_length. lia. Qed.

Lemma len_map3 (f : vec3 -> vec3) (n : nat) (p : list Q) :
  len (map3 f n p) = len p.
Proof.
  unfold len. f_equal. revert p.
  induction n as [|n IH]; intros p; [reflexivity|].
  destruct p as [|x [|y [|z p]]]; try reflexivity.
  cbn [map3]. destruct (f (x, y, z)) as [[x' y'] z']. cbn [List.length].
  now rewrite IH.
Qed.

Section Normals.
Context {E : Externals}.

Lemma len_set3 (p : list Q) (i : Z) (a : vec3) : len (set3 p i a) = len p.
Proof.
  unfold set3. destruct a as [[x y] z]. now rewrite !putQ_length.
Qed.

Lemma len_add3 (p : list Q) (i : Z) (a : vec3) : len (add3 p i a) = len p.
Proof. unfold add3. apply len_set3. Qed.

Lemma len_normal_accumulate (v : list Q) (fs : list Z) :
  forall nrmls, len (normal_accumulate v fs nrmls) = len nrmls.
Proof.
  induction fs as [| | |a b c fs IH] using triples_ind; intros nrmls;
    try reflexivity.
  cbn [normal_accumulate]. destruct (face_normal v a b c) as [nrm area].
  now rewrite IH, !len_add3.
Qed.

Lemma len_remove_corner (nrmls : list Q) (nrm : vec3) (area : Q) (vid : Z)
  (nremove : list Q) :
  len (remove_corner nrmls nrm area vid nremove) = len nremove.
Proof.
  unfold remove_corner. destruct (Qlt_bool _ _); [apply len_add3 | reflexivity].
Qed.

Lemma len_normal_remove (v : list Q) (fs : list Z) (nrmls : list Q) :
  forall nremove, len (normal_remove v fs nrmls nremove) = len nremove.
Proof.
  induction fs as [| | |a b c fs IH] using triples_ind; intros nremove;
    try reflexivity.
  cbn [normal_remove]. destruct (face_normal v a b c) as [nrm area].
  now rewrite IH, !len_remove_corner.
Qed.

(** X8. MakeNormal leaves a mesh with normals as it is.  On a mesh without
    normals it returns only if every index of the first [nface] faces is
    a vertex (the source reads [vert] at those indices unchecked); it
    then gives one normal per vertex and makes the normal indices of
    these faces equal to their vertex indices, whatever they were.  The
    vertices and faces are not written. *)
Theorem MakeNormal_one_per_vertex (m m' : mjCMesh) :
  MakeNormal m = Done m' ->
  (normal m <> None -> m' = m)
  /\ (normal m = None -> 0 <= nvert m ->
      exists v fs nrm fn,
        vert m = Some v /\ face m = Some fs
        /\ let used := firstn (Z.to_nat (3 * nface m)) fs in
           Forall (fun i => 0 <= i < nvert m) used
           /\ nnormal m' = nvert m
           /\ normal m' = Some nrm /\ len nrm = 3 * nvert m
           /\ facenormal m' = Some fn
           /\ firstn (List.length used) fn = used
           /\ vert m' = vert m /\ face m' = face m
           /\ nvert m' = nvert m /\ nface m' = nface m).
Proof.
  unfold MakeNormal. intros H. split.
  - intros Hn. destruct (normal m); [now injection H as <- | congruence].
  - intros Hn Hnv. rewrite Hn in H.
    destruct (vert m) as [v|] eqn:Hv; [|discriminate].
    destruct (face m) as [fs|] eqn:Hf; [|discriminate].
    cbv zeta in H.
    destruct (negb (forallb _ _)) eqn:Hrange; [discriminate|].
    apply negb_false_iff in Hrange. rewrite forallb_forall in Hrange.
    injection H as <-.
    eexists v, fs, _, _. split; [reflexivity|]. split; [reflexivity|].
    cbv zeta. split.
    { apply Forall_forall. intros i Hi. specialize (Hrange i Hi).
      unfold in_range in Hrange. apply andb_true_iff in Hrange as [A B].
      apply Z.leb_le in A. apply Z.ltb_lt in B. lia. }
    split; [reflexivity|]. split; [reflexivity|]. split.
    { rewrite len_map3.
      set (n1 := normal_accumulate _ _ _).
      assert (L1 : len n1 = 3 * nvert m).
      { unfold n1. rewrite len_normal_accumulate. apply len_repeat. lia. }
      destruct (smoothnormal m); [exact L1|].
      set (nr := normal_remove _ _ _ _).
      assert (L2 : len nr = 3 * nvert m).
      { unfold nr. rewrite len_normal_remove. apply len_repeat. lia. }
      unfold len in *. rewrite length_map, length_combine. lia. }
    split; [reflexivity|]. split.
    { rewrite firstn_app, Nat.sub_diag, firstn_all. cbn [firstn].
      now rewrite app_nil_r. }
    repeat split; mesh_simpl_goal; congruence.
Qed.

End Normals.

(** ** The comparison of RemoveRepeated *)

Section VertCompare.
Context {E : Externals}.

#[local] Open Scope Q_scope.

Lemma vertcompare_Lt (v : list Q) (a b : Z) :
  vertcompare v a b = Lt <-> vertkey v a < vertkey v b.
Proof.
  unfold vertcompare. destruct (Qlt_bool _ _) eqn:H.
  - apply Qlt_bool_iff in H. tauto.
  - split; [destruct (Qeq_bool _ _); discriminate|].
    intros Hlt. apply Qlt_bool_iff in Hlt. congruence.
Qed.

Lemma vertcompare_Eq (v : list Q) (a b : Z) :
  vertcompare v a b = Eq <-> vertkey v a == vertkey v b.
Proof.
  unfold vertcompare. destruct (Qlt_bool _ _) eqn:H.
  - apply Qlt_bool_iff in H. split; [discriminate|].
    intros He. rewrite He in H. exfalso. exact (Qlt_irrefl _ H).
  - destruct (Qeq_bool _ _) eqn:He.
    + apply Qeq_bool_iff in He. tauto.
    + split; [discriminate|]. intros Hq. apply Qeq_bool_iff in Hq. congruence.
Qed.

Lemma vertcompare_Gt (v : list Q) (a b : Z) :
  vertcompare v a b = Gt <-> vertkey v b < vertkey v a.
Proof.
  destruct (vertcompare v a b) eqn:Hc.
  - apply vertcompare_Eq in Hc. split; [discriminate|].
    intros H. rewrite Hc in H. exfalso. exact (Qlt_irrefl _ H).
  - apply vertcompare_Lt in Hc. split; [discriminate|].
    intros H. exfalso. exact (Qlt_irrefl _ (Qlt_trans _ _ _ H Hc)).
  - split; [|reflexivity]. intros _.
    destruct (Q_dec (vertkey v a) (vertkey v b)) as [[Hlt | Hgt] | Heq].
    + apply vertcompare_Lt in Hlt. congruence.
    + exact Hgt.
    + apply vertcompare_Eq in Heq. congruence.
Qed.

(** X9. The comparison that RemoveRepeated hands to the sort is a total
    preorder on the vertex indices, by the key [x + y/100 + z/10000]: it
    is reflexive, turning the arguments round turns the answer round,
    and it is transitive.  Vertices with equal coordinates compare as
    equal. *)
Theorem vertcompare_total_preorder (v : list Q) :
  (forall a, vertcompare v a a = Eq)
  /\ (forall a b, vertcompare v b a = CompOpp (vertcompare v a b))
  /\ (forall a b c, vertcompare v a b <> Gt -> vertcompare v b c <> Gt ->
                    vertcompare v a c <> Gt)
  /\ (forall a b, veqb (vtx v a) (vtx v b) = true -> vertcompare v a b = Eq).
Proof.
  split; [|split; [|split]].
  - intros a. apply vertcompare_Eq. reflexivity.
  - intros a b. destruct (vertcompare v a b) eqn:Hc; cbn [CompOpp].
    + apply vertcompare_Eq. apply vertcompare_Eq in Hc. now symmetry.
    + apply vertcompare_Gt. now apply vertcompare_Lt in Hc.
    + apply vertcompare_Lt. now apply vertcompare_Gt in Hc.
  - intros a b c Hab Hbc Hac. apply vertcompare_Gt in Hac.
    assert (H1 : vertkey v a <= vertkey v b).
    { apply Qnot_lt_le. intros H. apply Hab. now apply vertcompare_Gt. }
    assert (H2 : vertkey v b <= vertkey v c).
    { apply Qnot_lt_le. intros H. apply Hbc. now apply vertcompare_Gt. }
    apply (Qlt_irrefl (vertkey v a)).
    eapply Qle_lt_trans; [exact H1|]. eapply Qle_lt_trans; [exact H2 | exact Hac].
  - intros a b H. apply vertcompare_Eq. unfold veqb, vtx in H.
    apply andb_true_iff in H as [H Hz]. apply andb_true_iff in H as [Hx Hy].
    apply Qeq_bool_iff in Hx, Hy, Hz. unfold vertkey.
    replace (1 + 3 * a)%Z with (3 * a + 1)%Z by lia.
    replace (2 + 3 * a)%Z with (3 * a + 2)%Z by lia.
    replace (1 + 3 * b)%Z with (3 * b + 1)%Z by lia.
    replace (2 + 3 * b)%Z with (3 * b + 2)%Z by lia.
    now rewrite Hx, Hy, Hz.
Qed.

End VertCompare.

(** ** RemoveRepeated *)

Lemma putZ_length (l : list Z) (i v : Z) : len (putZ l i v) = len l.
Proof.
  unfold putZ, upd, len.
  destruct ((i <? 0) || (Z.of_nat (List.length l) <=? i)) eqn:Hc; [reflexivity|].
  apply orb_false_iff in Hc as [H1 H2].
  apply Z.ltb_ge in H1. apply Z.leb_gt in H2.
  rewrite length_update; [reflexivity | lia].
Qed.

Lemma getZ_putZ (l : list Z) (i j v : Z) :
  0 <= i < len l -> 0 <= j ->
  getZ (putZ l i v) j = if j =? i then v else getZ l j.
Proof.
  intros Hi Hj. unfold putZ, upd, getZ, len in *.
  destruct ((i <? 0) || (Z.of_nat (List.length l) <=? i)) eqn:Hc.
  - apply orb_true_iff in Hc as [H | H];
      [apply Z.ltb_lt in H | apply Z.leb_le in H]; lia.
  - rewrite nth_update by lia.
    destruct (Z.eqb_spec j i) as [-> | Hne].
    + now rewrite Nat.eqb_refl.
    + assert (Hn : Nat.eqb (Z.to_nat j) (Z.to_nat i) = false)
        by (apply Nat.eqb_neq; lia).
      now rewrite Hn.
Qed.

Lemma getZ_iota (n i : Z) : 0 <= i < n -> getZ (iota n) i = i.
Proof.
  intros Hi. unfold getZ, iota.
  rewrite nth_indep with (d' := Z.of_nat 0) by (rewrite length_map, length_seq; lia).
  rewrite map_nth, seq_nth by lia. lia.
Qed.

Lemma len_iota (n : Z) : 0 <= n -> len (iota n) = n.
Proof. intros H. unfold len. rewrite length_iota. lia. Qed.


Lemma same_place_refl (a : vec3) : same_place a a.
Proof.
  destruct a as [[x y] z]. unfold same_place, veqb.
  rewrite !andb_true_iff, !Qeq_bool_iff. repeat split; reflexivity.
Qed.

Lemma same_place_sym (a b : vec3) : same_place a b -> same_place b a.
Proof.
  destruct a as [[x y] z], b as [[x' y'] z']. unfold same_place, veqb.
  rewrite !andb_true_iff, !Qeq_bool_iff. intros [[A B] C].
  repeat split; symmetry; assumption.
Qed.

Lemma same_place_trans (a b c : vec3) :
  same_place a b -> same_place b c -> same_place a c.
Proof.
  destruct a as [[x y] z], b as [[x' y'] z'], c as [[x'' y''] z''].
  unfold same_place, veqb. rewrite !andb_true_iff, !Qeq_bool_iff.
  intros [[A B] C] [[A' B'] C']. repeat split; etransitivity; eassumption.
Qed.


Lemma redirects_iota (v : list Q) (n : Z) : 0 <= n -> redirects v n (iota n).
Proof.
  intros Hn. split; [now apply len_iota|].
  intros i Hi. rewrite getZ_iota by assumption.
  split; [assumption | apply same_place_refl].
Qed.

Lemma redirects_put (v : list Q) (n : Z) (redirect : list Z) (i j : Z) :
  redirects v n redirect ->
  0 <= j < n -> same_place (vtx v j) (vtx v i) ->
  redirects v n (putZ redirect i j).
Proof.
  intros [Hlen Hall] Hj Hsame. split; [now rewrite putZ_length|].
  intros k Hk.
  destruct (Z_lt_le_dec i 0) as [Hneg | Hpos].
  { unfold putZ, upd. assert (Hc : (i <? 0) = true) by (apply Z.ltb_lt; lia).
    rewrite Hc. cbn [orb]. now apply Hall. }
  destruct (Z_lt_le_dec i n) as [Hin | Hout].
  - rewrite getZ_putZ by lia.
    destruct (Z.eqb_spec k i) as [-> | Hne]; [split; assumption | now apply Hall].
  - unfold putZ, upd.
    assert (Hc : (len redirect <=? i) = true) by (apply Z.leb_le; lia).
    rewrite Hc, orb_true_r. now apply Hall.
Qed.

Lemma find_repeated_spec (v : list Q) (n : Z) (rest : list Z) :
  forall prev redirect repeated redirect' repeated',
    find_repeated v prev rest redirect repeated = (redirect', repeated') ->
    redirects v n redirect ->
    0 <= prev < n -> Forall (fun i => 0 <= i < n) rest ->
    redirects v n redirect' /\ repeated <= repeated' <= repeated + len rest.
Proof.
  induction rest as [|cur rest IH];
    intros prev redirect repeated redirect' repeated' H Hr Hp Hall.
  - cbn [find_repeated] in H. injection H as <- <-.
    split; [assumption|]. unfold len. cbn. lia.
  - cbn [find_repeated] in H. inversion Hall as [|? ? Hcur Hrest]; subst.
    assert (Hl : len (cur :: rest) = 1 + len rest)
      by (unfold len; cbn [List.length]; lia).
    destruct (veqb (vtx v cur) (vtx v prev)) eqn:Heq.
    + apply IH in H; try assumption.
      * rewrite Hl. destruct H as [H1 H2]. split; [assumption | lia].
      * apply redirects_put; try assumption. apply same_place_sym. exact Heq.
    + apply IH in H; try assumption.
      rewrite Hl. destruct H as [H1 H2]. split; [assumption | lia].
Qed.

Lemma chase_spec (v : list Q) (n : Z) (redirect : list Z) (fuel : nat) :
  redirects v n redirect ->
  forall i j, 0 <= i < n -> chase redirect i fuel = Some j ->
    0 <= j < n /\ same_place (vtx v j) (vtx v i) /\ getZ redirect j = j
    /\ (getZ redirect i = i -> j = i).
Proof.
  intros Hr. induction fuel as [|fuel IH]; intros i j Hi H; cbn [chase] in H.
  - destruct (Z.eqb_spec (getZ redirect i) i) as [Heq | Hne]; [|discriminate].
    injection H as <-. repeat split; try lia; try assumption.
    apply same_place_refl.
  - destruct (Z.eqb_spec (getZ redirect i) i) as [Heq | Hne].
    + injection H as <-. repeat split; try lia; try assumption.
      apply same_place_refl.
    + destruct Hr as [Hlen Hall]. destruct (Hall i Hi) as [Hin Hsame].
      destruct (IH _ _ Hin H) as (A & B & C & _).
      split; [assumption|]. split; [|split; [assumption | congruence]].
      eapply same_place_trans; eassumption.
Qed.


Lemma resolve_spec (v : list Q) (n : Z) (idx : list Z) :
  forall redirect done redirect',
    resolve idx redirect = Done redirect' ->
    redirects v n redirect -> resolved redirect done ->
    Forall (fun i => 0 <= i < n) idx -> Forall (fun i => 0 <= i < n) done ->
    redirects v n redirect' /\ resolved redirect' (done ++ idx).
Proof.
  induction idx as [|i idx IH]; intros redirect done redirect' H Hr Hd Hidx Hdone.
  - cbn [resolve] in H. injection H as <-. now rewrite app_nil_r.
  - cbn [resolve] in H. inversion Hidx as [|? ? Hi Hrest]; subst.
    destruct (chase redirect i (List.length redirect)) as [j|] eqn:Hc;
      [|discriminate].
    destruct (chase_spec v n redirect _ Hr i j Hi Hc) as (Hj & Hsame & Hroot & Hfix).
    assert (Hlen : len redirect = n) by apply Hr.
    apply (IH _ (done ++ [i])) in H.
    + now rewrite <- app_assoc in H.
    + now apply redirects_put.
    + intros k Hk. apply in_app_or in Hk.
      assert (Hkin : 0 <= k < n).
      { destruct Hk as [Hk | [<- | []]]; [|assumption].
        rewrite Forall_forall in Hdone. now apply Hdone. }
      rewrite (getZ_putZ redirect i k) by lia.
      destruct (Z.eqb_spec k i) as [-> | Hne].
      * rewrite getZ_putZ by lia.
        destruct (Z.eqb_spec j i); [reflexivity | exact Hroot].
      * destruct Hk as [Hk | [<- | []]]; [|congruence].
        specialize (Hd k Hk).
        destruct Hr as [_ Hall]. destruct (Hall k Hkin) as [Hrk _].
        rewrite getZ_putZ by lia.
        destruct (Z.eqb_spec (getZ redirect k) i) as [Heq | Hneq]; [|exact Hd].
        rewrite Heq in Hd. rewrite Heq. exact (Hfix Hd).
    + assumption.
    + apply Forall_app. split; [assumption | now constructor].
Qed.

Lemma vtx_put3 (vert : list Q) (j t : Z) (x y z : Q) :
  0 <= j -> 3 * j + 2 < len vert -> 0 <= t ->
  vtx (putQ (putQ (putQ vert (3 * j) x) (3 * j + 1) y) (3 * j + 2) z) t
  = if t =? j then (x, y, z) else vtx vert t.
Proof.
  intros Hj Hlen Ht. unfold vtx.
  rewrite !getQ_putQ by (rewrite ?putQ_length; lia).
  destruct (Z.eqb_spec t j) as [-> | Hne].
  - rewrite !Z.eqb_refl.
    replace (3 * j =? 3 * j + 2) with false by (symmetry; apply Z.eqb_neq; lia).
    replace (3 * j =? 3 * j + 1) with false by (symmetry; apply Z.eqb_neq; lia).
    replace (3 * j + 1 =? 3 * j + 2) with false by (symmetry; apply Z.eqb_neq; lia).
    reflexivity.
  - repeat match goal with
           | |- context [?a =? ?b] =>
               replace (a =? b) with false by (symmetry; apply Z.eqb_neq; lia)
           end.
    reflexivity.
Qed.


Lemma compress_spec (v0 : list Q) (redirect : list Z) (n : Z) (k : nat) :
  3 * n <= len v0 ->
  forall (i0 : nat) index vert j index' vert' j',
    compress (map Z.of_nat (seq i0 k)) redirect index vert j = (index', vert', j') ->
    Z.of_nat (i0 + k) <= n ->
    compressed v0 redirect n (Z.of_nat i0) index vert j ->
    compressed v0 redirect n (Z.of_nat (i0 + k)) index' vert' j'.
Proof.
  intros Hv0. induction k as [|k IH];
    intros i0 index vert j index' vert' j' H Hn Hc.
  - cbn [seq map compress] in H. injection H as <- <- <-.
    now rewrite Nat.add_0_r.
  - cbn [seq map compress] in H.
    destruct Hc as (Hj & Hli & Hlv & Hroots & Hrest).
    replace (i0 + S k)%nat with (S i0 + k)%nat by lia.
    destruct (Z.eqb_spec (getZ redirect (Z.of_nat i0)) (Z.of_nat i0)) as [Hroot | Hno].
    + destruct (vtx vert (Z.of_nat i0)) as [[x y] z] eqn:Hread.
      apply IH in H; [exact H | lia |].
      assert (Hput : forall t, 0 <= t ->
                vtx (putQ (putQ (putQ vert (3 * j) x) (3 * j + 1) y) (3 * j + 2) z) t
                = if t =? j then (x, y, z) else vtx vert t).
      { intros t Ht. apply vtx_put3; lia. }
      split; [lia|]. split; [now rewrite putZ_length|].
      split; [now rewrite !putQ_length|]. split.
      * intros r Hr Hrr. rewrite getZ_putZ by lia.
        destruct (Z.eqb_spec r (Z.of_nat i0)) as [-> | Hne].
        -- split; [lia|]. rewrite Hput by lia. rewrite Z.eqb_refl.
           rewrite <- Hread. apply Hrest. lia.
        -- destruct (Hroots r ltac:(lia) Hrr) as [Hp Hv].
           split; [lia|]. rewrite Hput by lia.
           replace (getZ index r =? j) with false
             by (symmetry; apply Z.eqb_neq; lia).
           exact Hv.
      * intros t Ht. rewrite Hput by lia.
        replace (t =? j) with false by (symmetry; apply Z.eqb_neq; lia).
        apply Hrest. lia.
    + apply IH in H; [exact H | lia |].
      split; [lia|]. split; [now rewrite putZ_length|]. split; [assumption|].
      split; [|assumption].
      intros r Hr Hrr. rewrite getZ_putZ by lia.
      destruct (Z.eqb_spec r (Z.of_nat i0)) as [-> | Hne]; [congruence|].
      apply Hroots; [lia | assumption].
Qed.

Section Repeated.
Context {E : Externals}.

Lemma reface_spec (redirect index : list Z) (limit : Z) (fs : list Z) :
  forall fs',
    reface redirect index limit fs = Done fs' ->
    Forall2 (fun f f' => f' = getZ index (getZ redirect f) /\ 0 <= f' < limit)
            fs fs'.
Proof.
  induction fs as [|f fs IH]; intros fs' H; cbn [reface] in H.
  - injection H as <-. constructor.
  - cbv zeta in H. destruct (_ || _) eqn:Hc; [discriminate|].
    inv_bind H as rest Hrest. injection H as <-.
    apply orb_false_iff in Hc as [H1 H2].
    apply Z.ltb_ge in H1. rewrite Z.geb_leb in H2. apply Z.leb_gt in H2.
    constructor; [split; [reflexivity | lia] | now apply IH].
Qed.

End Repeated.

Lemma Forall2_getZ (R : Z -> Z -> Prop) (l l' : list Z) :
  Forall2 R l l' ->
  len l' = len l
  /\ forall k, 0 <= k < len l -> R (getZ l k) (getZ l' k).
Proof.
  induction 1 as [|x y l l' Hxy Hrest [IHl IH]].
  - split; [reflexivity|]. intros k Hk. unfold len in Hk. cbn in Hk. lia.
  - assert (Hl : forall (A : Type) (a : A) (t : list A), len (a :: t) = 1 + len t)
      by (intros; unfold len; cbn [List.length]; lia).
    split; [rewrite !Hl; lia|].
    intros k Hk. rewrite Hl in Hk. unfold getZ.
    destruct (Z.eqb_spec k 0) as [-> | Hne]; [exact Hxy|].
    replace (Z.to_nat k) with (S (Z.to_nat (k - 1))) by lia. cbn [nth].
    apply (IH (k - 1)). lia.
Qed.

Lemma getZ_app_l (l l' : list Z) (k : Z) :
  0 <= k < len l -> getZ (l ++ l') k = getZ l k.
Proof. intros H. unfold getZ, len in *. apply app_nth1. lia. Qed.

Lemma getZ_firstn (l : list Z) (n : nat) (k : Z) :
  0 <= k < Z.of_nat n -> getZ (firstn n l) k = getZ l k.
Proof.
  intros H. unfold getZ. rewrite nth_firstn.
  assert (Hc : (Z.to_nat k <? n)%nat = true) by (apply Nat.ltb_lt; lia).
  now rewrite Hc.
Qed.

Lemma getQ_firstn (l : list Q) (n : nat) (k : Z) :
  0 <= k < Z.of_nat n -> getQ (firstn n l) k = getQ l k.
Proof.
  intros H. unfold getQ. rewrite nth_firstn.
  assert (Hc : (Z.to_nat k <? n)%nat = true) by (apply Nat.ltb_lt; lia).
  now rewrite Hc.
Qed.

Lemma vtx_firstn (l : list Q) (L t : Z) :
  0 <= t < L -> vtx (firstn (Z.to_nat (3 * L)) l) t = vtx l t.
Proof.
  intros H. unfold vtx. rewrite !getQ_firstn by lia. reflexivity.
Qed.

Section RepeatedVertices.
Context {E : Externals}.


Lemma RemoveRepeated_corners (m m' : mjCMesh) (v : list Q) (fs : list Z) :
  sort_permutes ->
  RemoveRepeated m = Done m' ->
  vert m = Some v -> face m = Some fs ->
  0 <= nvert m -> 3 * nvert m <= len v ->
  Forall (fun f => 0 <= f < nvert m) (firstn (Z.to_nat (3 * nface m)) fs) ->
  exists v' fs',
    vert m' = Some v' /\ face m' = Some fs'
    /\ len fs' = len fs /\ nface m' = nface m /\ nvert m' <= nvert m
    /\ forall k, 0 <= k < 3 * nface m -> k < len fs ->
         0 <= getZ fs' k < nvert m'
         /\ same_place (vtx v' (getZ fs' k)) (vtx v (getZ fs k)).
Proof.
  intros Hsort H Hv Hf Hn Hlen Hfaces.
  unfold RemoveRepeated in H. rewrite Hv, Hf in H. cbv zeta in H.
  set (n := nvert m) in *.
  set (N := Z.to_nat (3 * nface m)) in *.
  set (index := mjQUICKSORT (vertcompare v) (iota n)) in *.
  assert (Hperm : Permutation index (iota n)) by apply Hsort.
  assert (Hidx : Forall (fun i => 0 <= i < n) index).
  { apply Forall_forall. intros i Hi. apply in_iota.
    eapply Permutation_in; eassumption. }
  assert (Hilen : len index = n).
  { unfold len. rewrite (Permutation_length Hperm). now apply len_iota. }
  assert (Hused : forall k, 0 <= k < 3 * nface m -> k < len fs ->
            0 <= getZ fs k < n).
  { intros k Hk Hk'. rewrite Forall_forall in Hfaces.
    rewrite <- (getZ_firstn fs N k) by (unfold N; lia).
    apply Hfaces. unfold getZ. apply nth_In.
    rewrite length_firstn. unfold len in Hk'. unfold N. lia. }
  destruct (match index with
            | [] => (iota n, 0)
            | first :: rest => find_repeated v first rest (iota n) 0
            end) as [redirect repeated] eqn:Hfind.
  assert (Hred : redirects v n redirect /\ 0 <= repeated).
  { destruct index as [|first rest].
    - injection Hfind as <- <-. split; [now apply redirects_iota | lia].
    - inversion Hidx as [|? ? Hfirst Hrest]; subst.
      apply (find_repeated_spec v n) in Hfind; try assumption.
      + destruct Hfind as [A B]. split; [assumption | lia].
      + now apply redirects_iota. }
  destruct Hred as [Hred Hrep].
  destruct (Z.eqb_spec repeated 0) as [Hzero | Hpos].
  { injection H as <-. exists v, fs. rewrite Hv, Hf.
    repeat split; try reflexivity; try lia.
    - now apply Hused.
    - now apply Hused.
    - apply same_place_refl. }
  inv_bind H as redirect' Hres.
  apply (resolve_spec v n _ _ []) in Hres; try assumption.
  2: { intros k []. }
  2: { apply Forall_forall. intros i Hi. now apply in_iota. }
  2: { constructor. }
  destruct Hres as [Hred' Hroots]. cbn [app] in Hroots.
  destruct (compress (iota n) redirect' index v 0) as [[index' v'] j'] eqn:Hcomp.
  unfold iota in Hcomp.
  apply (compress_spec v redirect' n (Z.to_nat n) Hlen 0%nat) in Hcomp.
  2: { lia. }
  2: { split; [cbn; lia|]. split; [assumption|]. split; [reflexivity|].
       split; [intros r Hr; cbn in Hr; lia | reflexivity]. }
  destruct Hcomp as (_ & _ & Hlv' & Hplaces & _).
  inv_bind H as fs' Hface. injection H as <-.
  apply reface_spec, Forall2_getZ in Hface as [Hfl Hfs'].
  exists (firstn (Z.to_nat (3 * (n - repeated))) v'), (fs' ++ skipn N fs).
  split; [reflexivity|]. split; [reflexivity|].
  change (nvert (_ <| vert := _ |>)) with (n - repeated).
  assert (Hl1 : len (firstn N fs) = Z.min (Z.of_nat N) (len fs)).
  { unfold len. rewrite length_firstn. lia. }
  split.
  { unfold len in *. rewrite length_app, length_skipn. lia. }
  split; [reflexivity|]. split; [lia|].
  intros k Hk Hk'.
  assert (Hkin : 0 <= k < len (firstn N fs)) by (rewrite Hl1; unfold N; lia).
  rewrite getZ_app_l by lia.
  destruct (Hfs' k Hkin) as [Heq Hrange].
  rewrite getZ_firstn in Heq by (unfold N; lia).
  split; [exact Hrange|].
  rewrite vtx_firstn by exact Hrange.
  specialize (Hused k Hk Hk').
  destruct Hred' as [_ Hall]. destruct (Hall _ Hused) as [Hr Hsame].
  assert (Hroot : getZ redirect' (getZ redirect' (getZ fs k))
                  = getZ redirect' (getZ fs k)).
  { apply Hroots. now apply in_iota. }
  destruct (Hplaces (getZ redirect' (getZ fs k))) as [_ Hv'].
  { rewrite Nat.add_0_l, Z2Nat.id by lia. exact Hr. }
  { exact Hroot. }
  rewrite Heq, Hv'. exact Hsame.
Qed.

(** X10. RemoveRepeated keeps the shape of the mesh.  With a sort that
    rearranges its array, on a mesh whose faces name vertices, a
    RemoveRepeated that returns leaves the number of faces, does not
    add vertices, and every corner of every face names a vertex of the new
    array that lies where the corner was before. *)
Theorem RemoveRepeated_keeps_corners (m m' : mjCMesh) (v : list Q) (fs : list Z) :
  sort_permutes ->
  RemoveRepeated m = Done m' ->
  vert m = Some v -> face m = Some fs ->
  0 <= nvert m -> 3 * nvert m <= len v ->
  Forall (fun f => 0 <= f < nvert m) (firstn (Z.to_nat (3 * nface m)) fs) ->
  exists v' fs',
    vert m' = Some v' /\ face m' = Some fs'
    /\ len fs' = len fs /\ nface m' = nface m /\ nvert m' <= nvert m
    /\ forall k, 0 <= k < 3 * nface m -> k < len fs ->
         0 <= getZ fs' k < nvert m'
         /\ same_place (vtx v' (getZ fs' k)) (vtx v (getZ fs k)).
Proof. apply RemoveRepeated_corners. Qed.

End RepeatedVertices.

(** ** LoadSTL from the file to the mesh *)

Lemma nth_flat_map_chunks {A : Type} (f : Z -> list A) (c : nat) (d : A) :
  (forall x, List.length (f x) = c) ->
  forall (n s i j : nat),
    (i < n)%nat -> (j < c)%nat ->
    nth (c * i + j) (flat_map f (map Z.of_nat (seq s n))) d
    = nth j (f (Z.of_nat (s + i))) d.
Proof.
  intros Hc. induction n as [|n IH]; intros s i j Hi Hj; [lia|].
  cbn [seq map flat_map]. destruct i as [|i].
  - rewrite Nat.mul_0_r, Nat.add_0_l, Nat.add_0_r.
    apply app_nth1. rewrite Hc. exact Hj.
  - rewrite app_nth2 by (rewrite Hc; nia).
    rewrite Hc. replace (c * S i + j - c)%nat with (c * i + j)%nat by nia.
    rewrite IH by lia. do 2 f_equal. lia.
Qed.



Lemma vtx_stl_vertices (buf : list byte) (N i j : Z) :
  0 <= i < N -> 0 <= j < 3 ->
  vtx (stl_vertices buf N) (3 * i + j) = stl_place buf i j.
Proof.
  intros Hi Hj. unfold vtx, getQ, stl_vertices, iota.
  assert (Hlen : forall x, List.length (stl_tri_vert buf x) = 9%nat) by reflexivity.
  assert (Hnth : forall c, 0 <= c < 3 ->
            nth (Z.to_nat (3 * (3 * i + j) + c))
                (flat_map (stl_tri_vert buf) (map Z.of_nat (seq 0 (Z.to_nat N)))) 0%Q
            = nth (Z.to_nat (3 * j + c)) (stl_tri_vert buf i) 0%Q).
  { intros c Hc.
    replace (Z.to_nat (3 * (3 * i + j) + c))
      with (9 * Z.to_nat i + Z.to_nat (3 * j + c))%nat by lia.
    rewrite (nth_flat_map_chunks _ 9 0%Q Hlen) by lia.
    rewrite Nat.add_0_l, Z2Nat.id by lia. reflexivity. }
  replace (3 * (3 * i + j)) with (3 * (3 * i + j) + 0) at 1 by lia.
  rewrite !Hnth by lia.
  assert (Hjs : j = 0 \/ j = 1 \/ j = 2) by lia.
  destruct Hjs as [-> | [-> | ->]]; reflexivity.
Qed.

Lemma getZ_stl_faces (rh : bool) (N i j : Z) :
  0 <= i < N -> 0 <= j < 3 ->
  getZ (stl_faces rh N) (3 * i + j) = 3 * i + stl_stored rh j.
Proof.
  intros Hi Hj. unfold getZ, stl_faces, iota.
  assert (Hlen : forall x, List.length (stl_tri_face rh x) = 3%nat)
    by (intros x; destruct rh; reflexivity).
  replace (Z.to_nat (3 * i + j)) with (3 * Z.to_nat i + Z.to_nat j)%nat by lia.
  rewrite (nth_flat_map_chunks _ 3 0 Hlen) by lia.
  rewrite Nat.add_0_l, Z2Nat.id by lia.
  assert (Hjs : j = 0 \/ j = 1 \/ j = 2) by lia.
  unfold stl_stored, stl_tri_face.
  destruct rh; destruct Hjs as [-> | [-> | ->]]; cbn [Z.to_nat nth];
    try change (Pos.to_nat 1) with 1%nat; try change (Pos.to_nat 2) with 2%nat;
    cbn [Z.eqb]; lia.
Qed.

Section STLMesh.
Context {E : Externals}.

(** X11. LoadSTL from the file to the mesh.  With a sort that rearranges its
    array, a load that returns has read a file of [N] triangles, with
    [1 <= N <= 200000] and [84 + 50 N] bytes; the mesh has [N] faces over
    at most [3 N] vertices, and corner [j] of face [i] names a vertex at
    the place that the file gives for this corner, or, in a left-handed
    load, for the corner exchanged with it. *)
Theorem LoadSTL_triangles (m m' : mjCMesh) :
  sort_permutes ->
  nvert m = 0 ->
  LoadSTL m = Done m' ->
  exists buffer v' fs',
    open_file (file m) = Some buffer
    /\ let N := u32_at buffer 80 in
       1 <= N <= 200000 /\ len buffer = 84 + 50 * N
       /\ nface m' = N /\ nvert m' <= 3 * N
       /\ vert m' = Some v' /\ face m' = Some fs' /\ len fs' = 3 * N
       /\ forall i j, 0 <= i < N -> 0 <= j < 3 ->
            0 <= getZ fs' (3 * i + j) < nvert m'
            /\ same_place (vtx v' (getZ fs' (3 * i + j)))
                          (stl_place buffer i (stl_stored (righthand m) j)).
Proof.
  intros Hsort Hfresh H. unfold LoadSTL in H. inv_bind H as m1 Hemit.
  apply (LoadSTL_emit_inv m m1 Hfresh) in Hemit as (buffer & Hopen & Hemit).
  cbv zeta in Hemit. destruct Hemit as (HN & Hsz & _ & ->).
  set (N := u32_at buffer 80) in *.
  set (m1 := m <| nface := N |> <| face := Some (stl_faces (righthand m) N) |>
               <| vert := Some (stl_vertices buffer N) |> <| nvert := 3 * N |>) in *.
  assert (Hstored : forall j, 0 <= j < 3 -> 0 <= stl_stored (righthand m) j < 3).
  { intros j Hj. unfold stl_stored. destruct (righthand m); [lia|].
    destruct (Z.eqb_spec j 0); lia. }
  assert (Hfl : len (stl_faces (righthand m) N) = 3 * N)
    by (apply len_stl_faces; lia).
  destruct (RemoveRepeated_corners m1 m' (stl_vertices buffer N)
              (stl_faces (righthand m) N) Hsort H eq_refl eq_refl)
    as (v' & fs' & Hv' & Hf' & Hlen & Hnf & Hnv & Hcorners).
  - change (nvert m1) with (3 * N). lia.
  - change (nvert m1) with (3 * N). rewrite len_stl_vertices; lia.
  - change (nvert m1) with (3 * N). change (nface m1) with N.
    apply Forall_forall. intros f Hf.
    apply In_nth with (d := 0) in Hf as (k & Hk & <-).
    rewrite length_firstn in Hk. unfold len in Hfl.
    rewrite nth_firstn.
    assert (Hc : (k <? Z.to_nat (3 * N))%nat = true) by (apply Nat.ltb_lt; lia).
    rewrite Hc.
    replace k with (Z.to_nat (3 * (Z.of_nat k / 3) + Z.of_nat k mod 3))
      by (rewrite <- Z.div_mod by lia; lia).
    fold (getZ (stl_faces (righthand m) N)
               (3 * (Z.of_nat k / 3) + Z.of_nat k mod 3)).
    pose proof (Z.mod_pos_bound (Z.of_nat k) 3 ltac:(lia)) as Hmod.
    assert (Hdiv : 0 <= Z.of_nat k / 3 < N).
    { split; [apply Z.div_pos; lia | apply Z.div_lt_upper_bound; lia]. }
    rewrite getZ_stl_faces by assumption.
    specialize (Hstored _ Hmod). lia.
  - exists buffer, v', fs'. split; [exact Hopen|]. cbv zeta. fold N.
    change (nface m1) with N in Hnf. change (nvert m1) with (3 * N) in Hnv.
    change (nface m1) with N in Hcorners.
    do 2 (split; [assumption|]). split; [exact Hnf|]. split; [exact Hnv|].
    split; [exact Hv'|]. split; [exact Hf'|]. split; [lia|].
    intros i j Hi Hj.
    destruct (Hcorners (3 * i + j)) as [Hr Hs]; [lia | lia |].
    split; [exact Hr|].
    rewrite getZ_stl_faces in Hs by assumption.
    rewrite vtx_stl_vertices in Hs by (auto; lia). exact Hs.
Qed.

End STLMesh.
(** ** RemoveRepeated: which vertices become one *)






Lemma getZ_cons (a : Z) (l : list Z) (t : Z) :
  1 <= t -> getZ (a :: l) t = getZ l (t - 1).
Proof.
  intros Ht. unfold getZ.
  replace (Z.to_nat t) with (S (Z.to_nat (t - 1))) by lia. reflexivity.
Qed.

Lemma getZ_In (l : list Z) (t : Z) : 0 <= t < len l -> In (getZ l t) l.
Proof. intros Ht. unfold getZ, len in *. apply nth_In. lia. Qed.

Lemma getZ_NoDup (l : list Z) (s t : Z) :
  NoDup l -> 0 <= s < len l -> 0 <= t < len l ->
  getZ l s = getZ l t -> s = t.
Proof.
  intros Hnd Hs Ht H. unfold getZ, len in *.
  rewrite NoDup_nth in Hnd. specialize (Hnd (Z.to_nat s) (Z.to_nat t)).
  assert (Z.to_nat s = Z.to_nat t) by (apply Hnd; [lia | lia | exact H]). lia.
Qed.

Lemma In_getZ (l : list Z) (x : Z) :
  In x l -> exists t, 0 <= t < len l /\ getZ l t = x.
Proof.
  intros H. apply In_nth with (d := 0) in H as (k & Hk & <-).
  exists (Z.of_nat k). unfold len, getZ. rewrite Nat2Z.id. split; [lia | reflexivity].
Qed.

Lemma len_cons_Z {A : Type} (a : A) (l : list A) : len (a :: l) = 1 + len l.
Proof. unfold len. cbn [List.length]. lia. Qed.

Lemma repeats_nonneg (v : list Q) (rest : list Z) :
  forall prev, 0 <= repeats v prev rest <= len rest.
Proof.
  induction rest as [|cur rest IH]; intros prev; cbn [repeats].
  - unfold len. cbn. lia.
  - rewrite len_cons_Z. specialize (IH cur).
    destruct (veqb _ _); lia.
Qed.

(** No vertex lies at the place of its predecessor when the count is
    zero. *)
Lemma repeats_zero (v : list Q) (rest : list Z) :
  forall prev, repeats v prev rest = 0 ->
    forall t, 1 <= t <= len rest ->
      veqb (vtx v (getZ (prev :: rest) t)) (vtx v (getZ (prev :: rest) (t - 1)))
      = false.
Proof.
  induction rest as [|cur rest IH]; intros prev H t Ht.
  - unfold len in Ht. cbn in Ht. lia.
  - cbn [repeats] in H. rewrite len_cons_Z in Ht.
    pose proof (repeats_nonneg v rest cur) as Hr.
    destruct (veqb (vtx v cur) (vtx v prev)) eqn:He; [lia|].
    destruct (Z.eq_dec t 1) as [-> | Hne].
    + exact He.
    + rewrite (getZ_cons prev) by lia. rewrite (getZ_cons prev _ (t - 1)) by lia.
      apply (IH cur); lia.
Qed.

(** ** What the loop over the sorted order leaves in [redirect] *)

Lemma find_repeated_pos (v : list Q) (n : Z) (rest : list Z) :
  forall prev redirect repeated redirect' repeated',
    find_repeated v prev rest redirect repeated = (redirect', repeated') ->
    NoDup (prev :: rest) -> Forall (fun i => 0 <= i < n) (prev :: rest) ->
    len redirect = n ->
    repeated' = repeated + repeats v prev rest
    /\ len redirect' = n
    /\ (forall i, 0 <= i -> ~ In i rest -> getZ redirect' i = getZ redirect i)
    /\ (forall t, 1 <= t <= len rest ->
          getZ redirect' (getZ (prev :: rest) t)
          = if veqb (vtx v (getZ (prev :: rest) t))
                    (vtx v (getZ (prev :: rest) (t - 1)))
            then getZ (prev :: rest) (t - 1)
            else getZ redirect (getZ (prev :: rest) t)).
Proof.
  induction rest as [|cur rest IH];
    intros prev redirect repeated redirect' repeated' H Hnd Hall Hlen.
  - cbn [find_repeated] in H. injection H as <- <-. cbn [repeats].
    split; [lia|]. split; [exact Hlen|]. split; [reflexivity|].
    intros t Ht. unfold len in Ht. cbn in Ht. lia.
  - cbn [find_repeated] in H.
    inversion Hnd as [|? ? Hprev Hnd']; subst.
    inversion Hall as [|? ? Hp Hall']; subst.
    inversion Hnd' as [|? ? Hcur Hnd'']; subst.
    inversion Hall' as [|? ? Hc Hall'']; subst.
    set (red1 := if veqb (vtx v cur) (vtx v prev)
                 then putZ redirect cur prev else redirect).
    assert (Hlen1 : len red1 = len redirect)
      by (unfold red1; destruct (veqb _ _); [apply putZ_length | reflexivity]).
    assert (Hrun : find_repeated v cur rest red1
                     (repeated + (if veqb (vtx v cur) (vtx v prev) then 1 else 0))
                   = (redirect', repeated')).
    { unfold red1. destruct (veqb (vtx v cur) (vtx v prev)); [exact H|].
      rewrite Z.add_0_r. exact H. }
    apply IH in Hrun; [|assumption|assumption|lia].
    destruct Hrun as (Hrep & Hlen' & Hout & Hpos).
    assert (Hred1 : forall i, 0 <= i -> i <> cur -> getZ red1 i = getZ redirect i).
    { intros i Hi Hne. unfold red1. destruct (veqb _ _); [|reflexivity].
      rewrite getZ_putZ by lia.
      destruct (Z.eqb_spec i cur); [contradiction | reflexivity]. }
    cbn [repeats]. split; [lia|]. split; [exact Hlen'|]. split.
    + intros i Hi Hnot. rewrite Hout.
      * apply Hred1; [exact Hi|]. intros ->. apply Hnot. now left.
      * exact Hi.
      * intros Hin. apply Hnot. now right.
    + intros t Ht. rewrite len_cons_Z in Ht.
      destruct (Z.eq_dec t 1) as [-> | Hne].
      * change (getZ (prev :: cur :: rest) 1) with cur.
        change (getZ (prev :: cur :: rest) (1 - 1)) with prev.
        rewrite Hout by (lia || assumption).
        unfold red1. destruct (veqb (vtx v cur) (vtx v prev)); [|reflexivity].
        rewrite getZ_putZ by lia. now rewrite Z.eqb_refl.
      * clearbody red1.
        rewrite (getZ_cons prev) by lia.
        rewrite (getZ_cons prev _ (t - 1)) by lia.
        rewrite Hpos by lia.
        destruct (veqb (vtx v (getZ (cur :: rest) (t - 1))) _); [reflexivity|].
        apply Hred1.
        -- assert (Hin : In (getZ (cur :: rest) (t - 1)) (cur :: rest))
             by (apply getZ_In; rewrite len_cons_Z; lia).
           rewrite Forall_forall in Hall'. specialize (Hall' _ Hin). lia.
        -- rewrite getZ_cons by lia. intros Heq. apply Hcur.
           rewrite <- Heq. apply getZ_In. lia.
Qed.

(** ** Chains of redirections *)

Lemma chase_root (r : list Z) (j : Z) (f : nat) :
  getZ r j = j -> chase r j f = Some j.
Proof. intros H. destruct f; cbn [chase]; now rewrite H, Z.eqb_refl. Qed.

Lemma chase_step (r : list Z) (j : Z) (f : nat) :
  getZ r j <> j -> chase r j (S f) = chase r (getZ r j) f.
Proof.
  intros H. cbn [chase]. apply Z.eqb_neq in H. now rewrite H.
Qed.

Lemma chase_end (r : list Z) (f : nat) :
  forall j x, chase r j f = Some x -> getZ r x = x.
Proof.
  induction f as [|f IH]; intros j x H; cbn [chase] in H.
  - destruct (Z.eqb_spec (getZ r j) j) as [He|]; [|discriminate].
    injection H as <-. exact He.
  - destruct (Z.eqb_spec (getZ r j) j) as [He|].
    + injection H as <-. exact He.
    + eapply IH. exact H.
Qed.

Lemma chase_mono (r : list Z) (f : nat) :
  forall j x f', chase r j f = Some x -> (f <= f')%nat -> chase r j f' = Some x.
Proof.
  induction f as [|f IH]; intros j x f' H Hle; cbn [chase] in H.
  - destruct (Z.eqb_spec (getZ r j) j) as [He|]; [|discriminate].
    injection H as <-. now apply chase_root.
  - destruct (Z.eqb_spec (getZ r j) j) as [He|Hne].
    + injection H as <-. now apply chase_root.
    + destruct f' as [|f']; [lia|]. rewrite chase_step by exact Hne.
      apply IH; [exact H | lia].
Qed.

Lemma chase_det (r : list Z) (j x y : Z) (f f' : nat) :
  chase r j f = Some x -> chase r j f' = Some y -> x = y.
Proof.
  intros Hx Hy.
  apply (chase_mono _ _ _ _ (Nat.max f f')) in Hx; [|lia].
  apply (chase_mono _ _ _ _ (Nat.max f f')) in Hy; [|lia].
  congruence.
Qed.

(** Writing its root into the entry of [i] leaves the root of every
    vertex as it was. *)
Lemma chase_put (r : list Z) (n i j : Z) (f0 : nat) :
  len r = n ->
  (forall k, 0 <= k < n -> 0 <= getZ r k < n) ->
  0 <= i < n -> chase r i f0 = Some j ->
  forall (f : nat) k x,
    0 <= k < n -> chase r k f = Some x -> chase (putZ r i j) k f = Some x.
Proof.
  intros Hlen Hrange Hi Hij.
  assert (Hj : getZ r j = j) by (eapply chase_end; exact Hij).
  assert (Hput : forall k, 0 <= k < n ->
            getZ (putZ r i j) k = if k =? i then j else getZ r k).
  { intros k Hk. apply getZ_putZ; lia. }
  induction f as [|f IH]; intros k x Hk H.
  - cbn [chase] in H. destruct (Z.eqb_spec (getZ r k) k) as [He|]; [|discriminate].
    injection H as <-. apply chase_root. rewrite Hput by exact Hk.
    destruct (Z.eqb_spec k i) as [-> | Hne]; [|exact He].
    rewrite (chase_root r i f0 He) in Hij. now injection Hij as <-.
  - destruct (Z.eqb_spec (getZ r k) k) as [He|Hne].
    + rewrite (chase_root r k _ He) in H. injection H as <-.
      apply chase_root. rewrite Hput by exact Hk.
      destruct (Z.eqb_spec k i) as [-> | Hki]; [|exact He].
      rewrite (chase_root r i f0 He) in Hij. now injection Hij as <-.
    + rewrite chase_step in H by exact Hne.
      destruct (Z.eqb_spec k i) as [-> | Hki].
      * assert (Hxj : x = j).
        { eapply chase_det; [|exact Hij].
          rewrite <- (chase_step r i f Hne) in H. exact H. }
        subst x.
        assert (Hji : j <> i) by (intros ->; contradiction).
        assert (Hjn : 0 <= j < n).
        { clear IH. revert Hi Hij. generalize i as i0. induction f0 as [|f0 IHf];
            intros i0 Hi0 Hc; cbn [chase] in Hc.
          - destruct (getZ r i0 =? i0); [|discriminate]. injection Hc as <-. exact Hi0.
          - destruct (getZ r i0 =? i0); [injection Hc as <-; exact Hi0|].
            apply (IHf (getZ r i0)); [now apply Hrange | exact Hc]. }
        rewrite chase_step.
        -- rewrite Hput, Z.eqb_refl by exact Hi. apply chase_root.
           rewrite Hput by exact Hjn.
           destruct (Z.eqb_spec j i); [contradiction | exact Hj].
        -- rewrite Hput, Z.eqb_refl by exact Hi. exact Hji.
      * rewrite chase_step.
        -- rewrite Hput by exact Hk.
           destruct (Z.eqb_spec k i); [contradiction|].
           apply IH; [now apply Hrange | exact H].
        -- rewrite Hput by exact Hk.
           destruct (Z.eqb_spec k i); [contradiction | exact Hne].
Qed.

(** The root of the vertex at position [t] of the sorted order is the
    vertex at the start of its run. *)
Lemma chase_sorted (v : list Q) (n : Z) (first : Z) (rest : list Z)
  (r0 : list Z) (rep : Z) :
  find_repeated v first rest (iota n) 0 = (r0, rep) ->
  NoDup (first :: rest) -> Forall (fun i => 0 <= i < n) (first :: rest) ->
  0 <= n ->
  forall k : nat,
    Z.of_nat k <= len rest ->
    exists s,
      0 <= s <= Z.of_nat k
      /\ chase r0 (getZ (first :: rest) (Z.of_nat k)) k
         = Some (getZ (first :: rest) s)
      /\ glued v (first :: rest) s (Z.of_nat k)
      /\ (s = 0
          \/ veqb (vtx v (getZ (first :: rest) s))
                  (vtx v (getZ (first :: rest) (s - 1))) = false).
Proof.
  intros Hfind Hnd Hall Hn.
  destruct (find_repeated_pos v n rest first (iota n) 0 r0 rep Hfind Hnd Hall
              (len_iota n Hn)) as (_ & Hlen & Hout & Hpos).
  assert (Hfirst : ~ In first rest) by (inversion Hnd; assumption).
  assert (Hf : 0 <= first < n) by (inversion Hall; assumption).
  set (idx := first :: rest) in *.
  assert (Hidx : forall t, 0 <= t <= len rest -> 0 <= getZ idx t < n).
  { intros t Ht. rewrite Forall_forall in Hall. apply Hall.
    apply getZ_In. unfold idx. rewrite len_cons_Z. lia. }
  induction k as [|k IH]; intros Hk.
  - exists 0. split; [lia|]. split; [|split; [|left; reflexivity]].
    + apply chase_root. cbn [Z.of_nat]. change (getZ idx 0) with first.
      rewrite (Hout first) by (lia || assumption). apply getZ_iota. exact Hf.
    + intros t Ht. lia.
  - destruct IH as (s & Hs & Hchase & Hglue & Hstart); [lia|].
    replace (Z.of_nat (S k)) with (Z.of_nat k + 1) in * by lia.
    pose proof (Hpos (Z.of_nat k + 1) ltac:(lia)) as Hx. fold idx in Hx.
    replace (Z.of_nat k + 1 - 1) with (Z.of_nat k) in Hx by lia.
    destruct (veqb (vtx v (getZ idx (Z.of_nat k + 1))) (vtx v (getZ idx (Z.of_nat k))))
      eqn:He.
    + exists s. split; [lia|]. split; [|split; [|exact Hstart]].
      * rewrite chase_step; rewrite Hx; [exact Hchase|].
        intros Heq. apply getZ_NoDup in Heq;
          [lia | exact Hnd | unfold idx; rewrite len_cons_Z; lia
           | unfold idx; rewrite len_cons_Z; lia].
      * intros t Ht. destruct (Z.eq_dec t (Z.of_nat k + 1)) as [-> | Hne].
        -- replace (Z.of_nat k + 1 - 1) with (Z.of_nat k) by lia. exact He.
        -- apply Hglue. lia.
    + exists (Z.of_nat k + 1). split; [lia|]. split; [|split].
      * apply chase_root. rewrite Hx. apply getZ_iota. apply Hidx. lia.
      * intros t Ht. lia.
      * right. replace (Z.of_nat k + 1 - 1) with (Z.of_nat k) by lia. exact He.
Qed.

(** Two positions have the same start exactly if the sorted order joins
    them. *)
Lemma same_start (v : list Q) (idx : list Z) (p q sp sq : Z) :
  0 <= sp <= p -> p <= q -> 0 <= sq <= q ->
  glued v idx sp p -> glued v idx sq q ->
  (sp = 0 \/ veqb (vtx v (getZ idx sp)) (vtx v (getZ idx (sp - 1))) = false) ->
  (sq = 0 \/ veqb (vtx v (getZ idx sq)) (vtx v (getZ idx (sq - 1))) = false) ->
  (sp = sq <-> glued v idx p q).
Proof.
  intros Hsp Hpq Hsq Gp Gq Sp Sq. split.
  - intros -> t Ht. apply Gq. lia.
  - intros G.
    destruct (Z.lt_trichotomy sp sq) as [Hlt | [Heq | Hgt]]; [|exact Heq|].
    + exfalso. destruct Sq as [-> | Sq]; [lia|].
      assert (He : same_place (vtx v (getZ idx sq)) (vtx v (getZ idx (sq - 1)))).
      { destruct (Z_le_gt_dec sq p); [apply Gp | apply G]; lia. }
      unfold same_place in He. congruence.
    + exfalso. destruct Sp as [-> | Sp]; [lia|].
      assert (He : same_place (vtx v (getZ idx sp)) (vtx v (getZ idx (sp - 1))))
        by (apply Gq; lia).
      unfold same_place in He. congruence.
Qed.

(** ** The loop that follows the redirections *)

Lemma length_len {A : Type} (l : list A) (n : Z) :
  len l = n -> List.length l = Z.to_nat n.
Proof. unfold len. lia. Qed.

Section Dedup.
Context {E : Externals}.

Lemma resolve_total (v : list Q) (n : Z) (idx : list Z) :
  forall r,
    redirects v n r ->
    Forall (fun i => 0 <= i < n) idx ->
    (forall k, 0 <= k < n -> exists x, chase r k (Z.to_nat n) = Some x) ->
    exists r',
      resolve idx r = Done r'
      /\ forall k x, 0 <= k < n ->
           chase r k (Z.to_nat n) = Some x -> chase r' k (Z.to_nat n) = Some x.
Proof.
  induction idx as [|i idx IH]; intros r Hr Hidx Htot.
  - exists r. split; [reflexivity|]. intros k x _ H. exact H.
  - inversion Hidx as [|? ? Hi Hrest]; subst.
    cbn [resolve]. rewrite (length_len r n) by apply Hr.
    destruct (Htot i Hi) as [j Hj]. rewrite Hj.
    destruct (chase_spec v n r _ Hr i j Hi Hj) as (Hjn & Hsame & _ & _).
    assert (Hkeep : forall (f : nat) k x, 0 <= k < n ->
              chase r k f = Some x -> chase (putZ r i j) k f = Some x).
    { apply (chase_put r n i j (Z.to_nat n)); [apply Hr | | exact Hi | exact Hj].
      intros k Hk. apply Hr. exact Hk. }
    destruct (IH (putZ r i j)) as (r' & Hres & Hroots).
    + now apply redirects_put.
    + exact Hrest.
    + intros k Hk. destruct (Htot k Hk) as [x Hx]. exists x. now apply Hkeep.
    + exists r'. split; [exact Hres|].
      intros k x Hk Hx. apply Hroots; [exact Hk|]. now apply Hkeep.
Qed.

(** After the loop every entry is the root that its chain had before. *)
Lemma resolve_roots (v : list Q) (n : Z) (r r' : list Z) :
  redirects v n r ->
  (forall k, 0 <= k < n -> exists x, chase r k (Z.to_nat n) = Some x) ->
  resolve (iota n) r = Done r' ->
  redirects v n r'
  /\ forall k x, 0 <= k < n -> chase r k (Z.to_nat n) = Some x -> getZ r' k = x.
Proof.
  intros Hr Htot Hres.
  assert (Hin : Forall (fun i => 0 <= i < n) (iota n))
    by (apply Forall_forall; intros i Hi; now apply in_iota).
  destruct (resolve_total v n (iota n) r Hr Hin Htot) as (r1 & Hres1 & Hkeep).
  rewrite Hres in Hres1. injection Hres1 as <-.
  destruct (resolve_spec v n (iota n) r [] r' Hres Hr) as [Hr' Hroots];
    [intros k [] | exact Hin | constructor |].
  split; [exact Hr'|].
  intros k x Hk Hx. apply Hkeep in Hx; [|exact Hk].
  assert (Hroot : getZ r' (getZ r' k) = getZ r' k)
    by (apply Hroots; cbn [app]; now apply in_iota).
  destruct (Z.eqb_spec (getZ r' k) k) as [He | Hne].
  - rewrite (chase_root r' k _ He) in Hx. injection Hx as <-. exact He.
  - destruct (Z.to_nat n) as [|f] eqn:Hf; [lia|].
    rewrite chase_step in Hx by exact Hne.
    rewrite (chase_root r' _ _ Hroot) in Hx. now injection Hx as <-.
Qed.

End Dedup.

(** ** Counting the roots *)

Lemma filter_one_less {A : Type} (f g : A -> bool) (l : list A) (a : A) :
  NoDup l -> In a l -> f a = true -> g a = false ->
  (forall x, In x l -> x <> a -> g x = f x) ->
  S (List.length (filter g l)) = List.length (filter f l).
Proof.
  induction l as [|y l IH]; intros Hnd Hin Hf Hg Hsame; [destruct Hin|].
  inversion Hnd as [|? ? Hy Hnd']; subst. cbn [filter].
  destruct Hin as [-> | Hin].
  - rewrite Hf, Hg. cbn [List.length]. f_equal.
    f_equal. apply filter_ext_in. intros x Hx. apply Hsame; [now right|].
    intros ->. contradiction.
  - assert (Hya : y <> a) by (intros ->; contradiction).
    rewrite (Hsame y (or_introl eq_refl) Hya).
    destruct (f y); cbn [List.length]; [f_equal|];
      apply IH; try assumption; intros x Hx; apply Hsame; now right.
Qed.

Lemma nroots_iota (n : Z) : 0 <= n -> nroots n (iota n) = n.
Proof.
  intros Hn. unfold nroots.
  rewrite forallb_filter_id; [now apply len_iota|].
  apply forallb_forall. intros i Hi. apply in_iota in Hi.
  unfold is_root. rewrite getZ_iota by exact Hi. apply Z.eqb_refl.
Qed.

Lemma nroots_put (n : Z) (r : list Z) (i x : Z) :
  len r = n -> 0 <= i < n -> getZ r i = i -> x <> i ->
  nroots n (putZ r i x) = nroots n r - 1.
Proof.
  intros Hlen Hi Hroot Hx. unfold nroots, len.
  rewrite <- (filter_one_less (is_root r) (is_root (putZ r i x)) (iota n) i).
  - lia.
  - apply NoDup_iota.
  - now apply in_iota.
  - unfold is_root. rewrite Hroot. apply Z.eqb_refl.
  - unfold is_root. rewrite getZ_putZ by lia. rewrite Z.eqb_refl.
    now apply Z.eqb_neq.
  - intros k Hk Hne. apply in_iota in Hk. unfold is_root.
    rewrite getZ_putZ by lia.
    destruct (Z.eqb_spec k i); [contradiction | reflexivity].
Qed.

Lemma find_repeated_roots (v : list Q) (n : Z) (rest : list Z) :
  forall prev redirect repeated redirect' repeated',
    find_repeated v prev rest redirect repeated = (redirect', repeated') ->
    NoDup (prev :: rest) -> Forall (fun i => 0 <= i < n) (prev :: rest) ->
    len redirect = n ->
    (forall i, In i rest -> getZ redirect i = i) ->
    nroots n redirect' = nroots n redirect - (repeated' - repeated).
Proof.
  induction rest as [|cur rest IH];
    intros prev redirect repeated redirect' repeated' H Hnd Hall Hlen Hid.
  - cbn [find_repeated] in H. injection H as <- <-. lia.
  - cbn [find_repeated] in H.
    inversion Hnd as [|? ? Hprev Hnd']; subst.
    inversion Hall as [|? ? Hp Hall']; subst.
    inversion Hnd' as [|? ? Hcur _]; subst.
    inversion Hall' as [|? ? Hc _]; subst.
    destruct (veqb (vtx v cur) (vtx v prev)).
    + apply IH in H; [|assumption|assumption|now rewrite putZ_length|].
      * rewrite H, nroots_put; [lia | reflexivity | exact Hc | |].
        -- apply Hid. now left.
        -- intros ->. apply Hprev. now left.
      * intros i Hi. rewrite getZ_putZ.
        -- destruct (Z.eqb_spec i cur) as [-> | _]; [contradiction|].
           apply Hid. now right.
        -- exact Hc.
        -- rewrite Forall_forall in Hall'. specialize (Hall' i (or_intror Hi)). lia.
    + apply IH in H; [exact H|assumption|assumption|reflexivity|].
      intros i Hi. apply Hid. now right.
Qed.

(** ** The compression *)

Lemma compress_count (redirect : list Z) (idx : list Z) :
  forall index vert j index' vert' j',
    compress idx redirect index vert j = (index', vert', j') ->
    j' = j + len (filter (is_root redirect) idx).
Proof.
  induction idx as [|i idx IH]; intros index vert j index' vert' j' H;
    cbn [compress filter] in H |- *.
  - injection H as _ _ <-. unfold len. cbn. lia.
  - unfold is_root at 1. destruct (getZ redirect i =? i).
    + destruct (vtx vert i) as [[x y] z]. apply IH in H.
      rewrite len_cons_Z. lia.
    + apply IH in H. exact H.
Qed.


Lemma compress_ranked (redirect : list Z) (n : Z) (k : nat) :
  forall (i0 : nat) index vert j index' vert' j',
    compress (map Z.of_nat (seq i0 k)) redirect index vert j = (index', vert', j') ->
    Z.of_nat (i0 + k) <= n -> 0 <= j ->
    ranked redirect n (Z.of_nat i0) index j ->
    ranked redirect n (Z.of_nat (i0 + k)) index' j'.
Proof.
  induction k as [|k IH]; intros i0 index vert j index' vert' j' H Hn Hj Hc.
  - cbn [seq map compress] in H. injection H as <- _ <-.
    now rewrite Nat.add_0_r.
  - cbn [seq map compress] in H.
    destruct Hc as (Hli & Hrange & Hmono).
    replace (i0 + S k)%nat with (S i0 + k)%nat by lia.
    destruct (Z.eqb_spec (getZ redirect (Z.of_nat i0)) (Z.of_nat i0)) as [Hroot | Hno].
    + destruct (vtx vert (Z.of_nat i0)) as [[x y] z].
      apply IH in H; [exact H | lia | lia |].
      split; [now rewrite putZ_length|]. split.
      * intros r Hr Hrr. rewrite getZ_putZ by lia.
        destruct (Z.eqb_spec r (Z.of_nat i0)) as [-> | Hne]; [lia|].
        specialize (Hrange r ltac:(lia) Hrr). lia.
      * intros r1 r2 H1 H12 H2 R1 R2. rewrite !getZ_putZ by lia.
        destruct (Z.eqb_spec r1 (Z.of_nat i0)) as [-> | Hne1]; [lia|].
        destruct (Z.eqb_spec r2 (Z.of_nat i0)) as [-> | Hne2].
        -- specialize (Hrange r1 ltac:(lia) R1). lia.
        -- apply Hmono; try assumption; lia.
    + apply IH in H; [exact H | lia | lia |].
      split; [now rewrite putZ_length|]. split.
      * intros r Hr Hrr. rewrite getZ_putZ by lia.
        destruct (Z.eqb_spec r (Z.of_nat i0)) as [-> | Hne]; [congruence|].
        apply Hrange; [lia | exact Hrr].
      * intros r1 r2 H1 H12 H2 R1 R2. rewrite !getZ_putZ by lia.
        destruct (Z.eqb_spec r1 (Z.of_nat i0)) as [-> | Hne1]; [congruence|].
        destruct (Z.eqb_spec r2 (Z.of_nat i0)) as [-> | Hne2]; [congruence|].
        apply Hmono; try assumption; lia.
Qed.

Section Reface.
Context {E : Externals}.

Lemma reface_total (redirect index : list Z) (limit : Z) (fs : list Z) :
  Forall (fun f => 0 <= getZ index (getZ redirect f) < limit) fs ->
  exists fs', reface redirect index limit fs = Done fs'.
Proof.
  induction 1 as [|f fs Hf Hall [fs' IH]]; cbn [reface].
  - exists []. reflexivity.
  - cbv zeta.
    assert (Hc : (getZ index (getZ redirect f) <? 0)
                 || (getZ index (getZ redirect f) >=? limit) = false).
    { apply orb_false_iff. split; [apply Z.ltb_ge; lia|].
      rewrite Z.geb_leb. apply Z.leb_gt. lia. }
    rewrite Hc, IH. cbn [bind]. eexists. reflexivity.
Qed.

End Reface.

Section Merges.
Context {E : Externals}.

(** RemoveRepeated returns, and what it returns.  With a sort that
    rearranges its array, on a mesh whose faces name vertices: the
    vertices that are left are as many as the vertices before less those
    that lie at the place of their predecessor in the sorted order; every
    vertex [a] has a new index [newid a], which names a vertex at the
    place of [a] and which replaces [a] in the faces; and the vertices
    at two positions of the sorted order get the same new index exactly
    if every vertex between them lies at the place of its predecessor. *)
Lemma RemoveRepeated_merges (m : mjCMesh) (v : list Q) (fs : list Z) :
  sort_permutes ->
  vert m = Some v -> face m = Some fs ->
  0 <= nvert m -> 3 * nvert m <= len v ->
  Forall (fun f => 0 <= f < nvert m) (firstn (Z.to_nat (3 * nface m)) fs) ->
  let n := nvert m in
  let index := mjQUICKSORT (vertcompare v) (iota n) in
  exists m' v' fs' newid,
    RemoveRepeated m = Done m'
    /\ vert m' = Some v' /\ face m' = Some fs'
    /\ nface m' = nface m /\ len fs' = len fs
    /\ nvert m' = n - repeated_in v index
    /\ 0 <= repeated_in v index
    /\ 3 * nvert m' <= len v'
    /\ (forall k, 0 <= k < 3 * nface m -> k < len fs ->
          getZ fs' k = newid (getZ fs k))
    /\ (forall a, 0 <= a < n ->
          0 <= newid a < nvert m'
          /\ same_place (vtx v' (newid a)) (vtx v a))
    /\ (forall p q, 0 <= p -> p <= q -> q < n ->
          (newid (getZ index p) = newid (getZ index q) <-> glued v index p q)).
Proof.
  intros Hsort Hv Hf Hn Hlen Hfaces n index.
  unfold RemoveRepeated. rewrite Hv, Hf. cbv zeta.
  fold n. fold index.
  set (N := Z.to_nat (3 * nface m)) in *.
  assert (Hperm : Permutation index (iota n)) by apply Hsort.
  assert (Hidx : Forall (fun i => 0 <= i < n) index).
  { apply Forall_forall. intros i Hi. apply in_iota.
    eapply Permutation_in; eassumption. }
  assert (Hilen : len index = n).
  { unfold len. rewrite (Permutation_length Hperm). now apply len_iota. }
  assert (Hnd : NoDup index).
  { eapply Permutation_NoDup; [symmetry; exact Hperm | apply NoDup_iota]. }
  assert (Hused : forall k, 0 <= k < 3 * nface m -> k < len fs ->
            0 <= getZ fs k < n).
  { intros k Hk Hk'. rewrite Forall_forall in Hfaces.
    rewrite <- (getZ_firstn fs N k) by (unfold N; lia).
    apply Hfaces. unfold getZ. apply nth_In.
    rewrite length_firstn. unfold len in Hk'. unfold N. lia. }
  clearbody index.
  destruct index as [|first rest].
  { (* no vertices *)
    assert (Hn0 : n = 0) by (rewrite <- Hilen; reflexivity).
    cbn [Z.eqb]. exists m, v, fs, (fun a => a).
    rewrite Hv, Hf. cbn [repeated_in].
    repeat split; try reflexivity; try lia. }
  destruct (find_repeated v first rest (iota n) 0) as [r0 rep] eqn:Hfind.
  rewrite len_cons_Z in Hilen.
  destruct (find_repeated_pos v n rest first (iota n) 0 r0 rep Hfind Hnd Hidx
              (len_iota n Hn)) as (Hrep & Hlen0 & Hout & Hpos).
  rewrite Z.add_0_l in Hrep.
  pose proof (repeats_nonneg v rest first) as Hrange.
  cbn [repeated_in]. rewrite <- Hrep.
  pose proof (chase_sorted v n first rest r0 rep Hfind Hnd Hidx Hn) as Hsorted.
  destruct (Z.eqb_spec rep 0) as [Hzero | Hpos0].
  { (* nothing to merge *)
    exists m, v, fs, (fun a => a). rewrite Hv, Hf.
    split; [reflexivity|]. split; [reflexivity|]. split; [reflexivity|].
    split; [reflexivity|]. split; [reflexivity|]. split; [fold n; lia|].
    split; [lia|]. split; [fold n; lia|]. split; [reflexivity|].
    split; [intros a Ha; split; [fold n; lia | apply same_place_refl]|].
    intros p q Hp Hpq Hq. split.
    - intros Heq. apply getZ_NoDup in Heq;
        [|exact Hnd | rewrite len_cons_Z; lia | rewrite len_cons_Z; lia].
      subst q. intros t Ht. lia.
    - intros G. destruct (Z.eq_dec p q) as [-> | Hne]; [reflexivity|].
      exfalso. specialize (G (p + 1) ltac:(lia)).
      rewrite Hzero in Hrep. symmetry in Hrep.
      pose proof (repeats_zero v rest first Hrep (p + 1) ltac:(lia)) as Hno.
      unfold same_place in G. congruence. }
  (* some vertex is merged *)
  assert (Hred : redirects v n r0).
  { inversion Hidx as [|? ? Hfirst Hrest]; subst.
    apply (find_repeated_spec v n) in Hfind; try assumption.
    - apply Hfind.
    - now apply redirects_iota. }
  assert (Hat : forall k, 0 <= k < n ->
            exists t, 0 <= t < n /\ getZ (first :: rest) t = k).
  { intros k Hk.
    assert (Hin : In k (first :: rest)).
    { eapply Permutation_in; [symmetry; exact Hperm | now apply in_iota]. }
    apply In_getZ in Hin as (t & Ht & Heq). rewrite len_cons_Z in Ht.
    exists t. split; [lia | exact Heq]. }
  assert (Hstart : forall t, 0 <= t < n ->
            exists s, 0 <= s <= t
              /\ chase r0 (getZ (first :: rest) t) (Z.to_nat n)
                 = Some (getZ (first :: rest) s)
              /\ glued v (first :: rest) s t
              /\ (s = 0 \/ veqb (vtx v (getZ (first :: rest) s))
                                (vtx v (getZ (first :: rest) (s - 1))) = false)).
  { intros t Ht.
    destruct (Hsorted (Z.to_nat t)) as (s & Hs & Hc & G & S); [lia|].
    rewrite Z2Nat.id in * by lia.
    exists s. split; [exact Hs|]. split; [|split; assumption].
    eapply chase_mono; [exact Hc | lia]. }
  assert (Htot : forall k, 0 <= k < n ->
            exists x, chase r0 k (Z.to_nat n) = Some x).
  { intros k Hk. destruct (Hat k Hk) as (t & Ht & <-).
    destruct (Hstart t Ht) as (s & _ & Hc & _). eexists. exact Hc. }
  assert (Hin : Forall (fun i => 0 <= i < n) (iota n))
    by (apply Forall_forall; intros i Hi; now apply in_iota).
  destruct (resolve_total v n (iota n) r0 Hred Hin Htot) as (r' & Hres & _).
  rewrite Hres. cbn [bind].
  destruct (resolve_roots v n r0 r' Hred Htot Hres) as [Hred' Hroots].
  assert (Hroot' : forall k, 0 <= k < n -> getZ r' (getZ r' k) = getZ r' k).
  { intros k Hk. destruct (Htot k Hk) as [x Hx].
    rewrite (Hroots k x Hk Hx).
    assert (Hxn : 0 <= x < n).
    { rewrite <- (Hroots k x Hk Hx). apply Hred'. exact Hk. }
    apply (Hroots x x Hxn). apply chase_root. eapply chase_end. exact Hx. }
  assert (Hsame_roots : nroots n r' = nroots n r0).
  { unfold nroots. f_equal. apply filter_ext_in. intros k Hk.
    apply in_iota in Hk. destruct (Htot k Hk) as [x Hx].
    unfold is_root. rewrite (Hroots k x Hk Hx).
    destruct (Z.eqb_spec (getZ r0 k) k) as [He | Hne].
    - rewrite (chase_root r0 k _ He) in Hx. injection Hx as <-. apply Z.eqb_refl.
    - apply Z.eqb_neq. intros ->. apply Hne. eapply chase_end. exact Hx. }
  assert (Hcount : nroots n r0 = n - rep).
  { rewrite (find_repeated_roots v n rest first (iota n) 0 r0 rep Hfind Hnd Hidx
               (len_iota n Hn)).
    - rewrite nroots_iota by exact Hn. lia.
    - intros i Hi. apply getZ_iota.
      rewrite Forall_forall in Hidx. apply Hidx. now right. }
  destruct (compress (iota n) r' (first :: rest) v 0) as [[index' v'] j'] eqn:Hcomp.
  pose proof (compress_count r' (iota n) _ _ _ _ _ _ Hcomp) as Hj'.
  fold (nroots n r') in Hj'. rewrite Hsame_roots, Hcount, Z.add_0_l in Hj'.
  unfold iota in Hcomp.
  pose proof (compress_ranked r' n (Z.to_nat n) 0%nat _ _ _ _ _ _ Hcomp) as Hrank.
  apply (compress_spec v r' n (Z.to_nat n) Hlen 0%nat) in Hcomp.
  2: { lia. }
  2: { split; [cbn; lia|]. split; [rewrite len_cons_Z; lia|].
       split; [reflexivity|].
       split; [intros r Hr; cbn in Hr; lia | reflexivity]. }
  destruct Hcomp as (_ & _ & Hlv' & Hplaces & _).
  destruct Hrank as (Hli' & Hnew & Hmono).
  { lia. }
  { lia. }
  { split; [rewrite len_cons_Z; lia|].
    split; [intros r Hr; cbn in Hr; lia | intros r1 r2 H1 H12 H2; cbn in H2; lia]. }
  rewrite Nat.add_0_l, Z2Nat.id in Hnew, Hmono, Hplaces by lia.
  subst j'.
  assert (Hid : forall a, 0 <= a < n ->
            0 <= getZ r' a < n /\ getZ r' (getZ r' a) = getZ r' a
            /\ 0 <= getZ index' (getZ r' a) < n - rep).
  { intros a Ha. destruct Hred' as [_ Hall]. destruct (Hall a Ha) as [Hr _].
    split; [exact Hr|]. split; [now apply Hroot'|].
    apply Hnew; [exact Hr | now apply Hroot']. }
  destruct (reface_total r' index' (n - rep) (firstn N fs)) as [fs' Hface].
  { apply Forall_forall. intros f Hfin.
    rewrite Forall_forall in Hfaces. apply Hid. now apply Hfaces. }
  rewrite Hface. cbn [bind].
  exists (m <| face := Some (fs' ++ skipn N fs) |> <| nvert := n - rep |>
            <| vert := Some (firstn (Z.to_nat (3 * (n - rep))) v') |>),
         (firstn (Z.to_nat (3 * (n - rep))) v'), (fs' ++ skipn N fs),
         (fun a => getZ index' (getZ r' a)).
  apply reface_spec, Forall2_getZ in Hface as [Hfl Hfs'].
  assert (Hl1 : len (firstn N fs) = Z.min (Z.of_nat N) (len fs)).
  { unfold len. rewrite length_firstn. lia. }
  split; [reflexivity|]. split; [reflexivity|]. split; [reflexivity|].
  split; [reflexivity|].
  split.
  { unfold len in *. rewrite length_app, length_skipn. lia. }
  split; [reflexivity|]. split; [lia|].
  split.
  { change (nvert (_ <| vert := _ |>)) with (n - rep).
    unfold len in *. rewrite length_firstn. lia. }
  split.
  { intros k Hk Hk'.
    assert (Hkin : 0 <= k < len (firstn N fs)) by (rewrite Hl1; unfold N; lia).
    rewrite getZ_app_l by lia.
    destruct (Hfs' k Hkin) as [Heq _].
    rewrite getZ_firstn in Heq by (unfold N; lia). exact Heq. }
  split.
  { intros a Ha. change (nvert (_ <| vert := _ |>)) with (n - rep).
    destruct (Hid a Ha) as (Hr & Hrr & Hnr).
    split; [exact Hnr|].
    rewrite vtx_firstn by exact Hnr.
    destruct (Hplaces (getZ r' a) Hr Hrr) as [_ Hv'].
    rewrite Hv'. destruct Hred' as [_ Hall]. apply Hall. exact Ha. }
  intros p q Hp Hpq Hq.
  destruct (Hstart p ltac:(lia)) as (sp & Hsp & Hcp & Gp & Sp).
  destruct (Hstart q ltac:(lia)) as (sq & Hsq & Hcq & Gq & Sq).
  assert (Hap : 0 <= getZ (first :: rest) p < n).
  { rewrite Forall_forall in Hidx. apply Hidx, getZ_In. rewrite len_cons_Z. lia. }
  assert (Haq : 0 <= getZ (first :: rest) q < n).
  { rewrite Forall_forall in Hidx. apply Hidx, getZ_In. rewrite len_cons_Z. lia. }
  rewrite (Hroots _ _ Hap Hcp), (Hroots _ _ Haq Hcq).
  rewrite <- (same_start v (first :: rest) p q sp sq) by (assumption || lia).
  assert (Hrp : 0 <= getZ (first :: rest) sp < n
                /\ getZ r' (getZ (first :: rest) sp) = getZ (first :: rest) sp).
  { rewrite <- (Hroots _ _ Hap Hcp). destruct (Hid _ Hap) as (A & B & _).
    split; assumption. }
  assert (Hrq : 0 <= getZ (first :: rest) sq < n
                /\ getZ r' (getZ (first :: rest) sq) = getZ (first :: rest) sq).
  { rewrite <- (Hroots _ _ Haq Hcq). destruct (Hid _ Haq) as (A & B & _).
    split; assumption. }
  split.
  - intros Heq.
    apply (getZ_NoDup (first :: rest)); [exact Hnd | | |];
      [rewrite len_cons_Z; lia | rewrite len_cons_Z; lia |].
    destruct (Z.lt_trichotomy (getZ (first :: rest) sp) (getZ (first :: rest) sq))
      as [Hlt | [He | Hgt]]; [|exact He|].
    + pose proof (Hmono _ _ (proj1 (proj1 Hrp)) Hlt (proj2 (proj1 Hrq))
                    (proj2 Hrp) (proj2 Hrq)). lia.
    + pose proof (Hmono _ _ (proj1 (proj1 Hrq)) Hgt (proj2 (proj1 Hrp))
                    (proj2 Hrq) (proj2 Hrp)). lia.
  - intros ->. reflexivity.
Qed.

End Merges.

Section STLDedup.
Context {E : Externals}.

(** C4 (as amended). LoadSTL on a fresh object, for the buffer of its file:
    - a buffer shorter than 84 bytes is refused (empty file or malformed
      header);
    - a triangle count outside [[1, 200000]] is refused;
    - a size other than [84 + 50 N] is refused;
    - a coordinate that is a NaN, an infinity or beyond [2^30] in
      absolute value is refused by one of the two coordinate errors;
    - otherwise the loader emits the [3 N] vertices of the file, one per
      face corner, and [N] faces over them, and hands them to
      RemoveRepeated.  With a sort that rearranges its array the load then
      returns: a vertex is merged into the vertex before it in the sorted
      order when the two lie at the same place, and only then.  The
      vertices left are [3 N] less the vertices so merged, every corner
      names a vertex at the place it had in the file, and the vertices at
      two positions of the sorted order have become one exactly if every
      vertex between them lies at the place of its predecessor. *)
Theorem LoadSTL_validation (m : mjCMesh) (buffer : list byte) :
  open_file (file m) = Some buffer ->
  nvert m = 0 ->
  let N := u32_at buffer 80 in
  (len buffer < 84 ->
   LoadSTL m = throw (if len buffer =? 0 then msg_stl_empty else msg_stl_header) [])
  /\ (84 <= len buffer -> (N < 1 \/ 200000 < N) ->
      LoadSTL m = throw msg_stl_nface [])
  /\ (84 <= len buffer -> 1 <= N <= 200000 -> len buffer <> 84 + 50 * N ->
      LoadSTL m = throw msg_stl_size [])
  /\ (1 <= N <= 200000 -> len buffer = 84 + 50 * N ->
      (exists i j k, 0 <= i < N /\ 0 <= j < 3 /\ 0 <= k < 3
                     /\ stl_coord_bad (stl_word buffer i j k)) ->
      stl_throws (LoadSTL m))
  /\ (1 <= N <= 200000 -> len buffer = 84 + 50 * N ->
      (forall i j k, 0 <= i < N -> 0 <= j < 3 -> 0 <= k < 3 ->
                     ~ stl_coord_bad (stl_word buffer i j k)) ->
      let v := stl_vertices buffer N in
      let fs := stl_faces (righthand m) N in
      let m1 := m <| nface := N |> <| face := Some fs |>
                  <| vert := Some v |> <| nvert := 3 * N |> in
      LoadSTL_emit m = Done m1
      /\ len v = 3 * (3 * N)
      /\ len fs = 3 * N
      /\ LoadSTL m = RemoveRepeated m1
      /\ (sort_permutes ->
          let index := mjQUICKSORT (vertcompare v) (iota (3 * N)) in
          exists m' v' fs' newid,
            LoadSTL m = Done m'
            /\ nface m' = N
            /\ vert m' = Some v' /\ face m' = Some fs' /\ len fs' = 3 * N
            /\ nvert m' = 3 * N - repeated_in v index
            /\ 0 <= repeated_in v index
            /\ (forall k, 0 <= k < 3 * N -> getZ fs' k = newid (getZ fs k))
            /\ (forall a, 0 <= a < 3 * N ->
                  0 <= newid a < nvert m'
                  /\ same_place (vtx v' (newid a)) (vtx v a))
            /\ (forall p q, 0 <= p -> p <= q -> q < 3 * N ->
                  (newid (getZ index p) = newid (getZ index q)
                   <-> glued v index p q)))).
Proof.
  intros Hopen Hfresh N.
  destruct (LoadSTL_emit_cases m buffer Hopen Hfresh) as (C1 & C2 & C3 & C4 & C5).
  fold N in C1, C2, C3, C4, C5. unfold LoadSTL.
  split; [|split; [|split; [|split]]].
  - intros H. now rewrite (C1 H).
  - intros H84 H. now rewrite (C2 H84 H).
  - intros H84 HN H. now rewrite (C3 H84 HN H).
  - intros HN Hsz H. apply stl_throws_bind. exact (C4 HN Hsz H).
  - intros HN Hsz H. pose proof (C5 HN Hsz H) as Hemit. cbn zeta in Hemit.
    set (v := stl_vertices buffer N) in *.
    set (fs := stl_faces (righthand m) N) in *.
    set (m1 := m <| nface := N |> <| face := Some fs |>
                 <| vert := Some v |> <| nvert := 3 * N |>) in *.
    assert (Hlv : len v = 3 * (3 * N)) by (unfold v; rewrite len_stl_vertices; lia).
    assert (Hlf : len fs = 3 * N) by (unfold fs; apply len_stl_faces; lia).
    split; [exact Hemit|]. split; [exact Hlv|]. split; [exact Hlf|].
    split; [now rewrite Hemit|].
    intros Hsort. set (index := mjQUICKSORT (vertcompare v) (iota (3 * N))).
    rewrite Hemit. cbn [bind].
    assert (Hstored : forall j, 0 <= j < 3 -> 0 <= stl_stored (righthand m) j < 3).
    { intros j Hj. unfold stl_stored. destruct (righthand m); [lia|].
      destruct (Z.eqb_spec j 0); lia. }
    destruct (RemoveRepeated_merges m1 v fs Hsort eq_refl eq_refl)
      as (m' & v' & fs' & newid & Hrun & Hv' & Hf' & Hnf & Hlen & Hnv & Hrep
          & _ & Hfaces & Hnew & Hmerge).
    + change (nvert m1) with (3 * N). lia.
    + change (nvert m1) with (3 * N). lia.
    + change (nvert m1) with (3 * N). change (nface m1) with N.
      apply Forall_forall. intros f Hf.
      apply In_nth with (d := 0) in Hf as (k & Hk & <-).
      rewrite length_firstn in Hk. unfold len in Hlf.
      rewrite nth_firstn.
      assert (Hc : (k <? Z.to_nat (3 * N))%nat = true) by (apply Nat.ltb_lt; lia).
      rewrite Hc.
      replace k with (Z.to_nat (3 * (Z.of_nat k / 3) + Z.of_nat k mod 3))
        by (rewrite <- Z.div_mod by lia; lia).
      fold (getZ fs (3 * (Z.of_nat k / 3) + Z.of_nat k mod 3)).
      pose proof (Z.mod_pos_bound (Z.of_nat k) 3 ltac:(lia)) as Hmod.
      assert (Hdiv : 0 <= Z.of_nat k / 3 < N).
      { split; [apply Z.div_pos; lia | apply Z.div_lt_upper_bound; lia]. }
      unfold fs. rewrite getZ_stl_faces by assumption.
      specialize (Hstored _ Hmod). lia.
    + change (nvert m1) with (3 * N) in *. change (nface m1) with N in *.
      exists m', v', fs', newid.
      split; [exact Hrun|]. split; [exact Hnf|]. split; [exact Hv'|].
      split; [exact Hf'|]. split; [lia|]. split; [exact Hnv|].
      split; [exact Hrep|].
      split; [intros k Hk; apply Hfaces; lia|].
      split; [exact Hnew | exact Hmerge].
Qed.

End STLDedup.


(** ** The shape of a compiled skin *)


Lemma len_cons {A : Type} (a : A) (l : list A) : len (a :: l) = 1 + len l.
Proof. unfold len. cbn [List.length]. lia. Qed.

Lemma len_nil_iff {A : Type} (l : list A) : len l = 0 <-> l = [].
Proof.
  destruct l; [tauto|]. rewrite len_cons. pose proof (len_nonneg l).
  split; [lia | discriminate].
Qed.

Section SkinShape.
Context {E : Externals}.
Variable model : mjCModel.

Lemma resolve_bodies_length (names : list string) :
  forall ids, Skin.resolve_bodies names = Done ids -> len ids = len names.
Proof.
  induction names as [|n names IH]; intros ids H; cbn [Skin.resolve_bodies] in H.
  - now injection H as <-.
  - destruct (find_body n); [|discriminate].
    inv_bind H as rest Hrest. injection H as <-.
    rewrite !len_cons. now rewrite (IH _ Hrest).
Qed.

Lemma accumulate_bone_range (nv : Z) (ids : list Z) :
  forall ws vw vw',
    Skin.accumulate_bone nv ids ws vw = Done vw' ->
    len ws = len ids -> Forall (fun id => 0 <= id < nv) ids.
Proof.
  induction ids as [|jj ids IH]; intros ws vw vw' H Hlen; [constructor|].
  destruct ws as [|w ws].
  - unfold len in Hlen. cbn [List.length] in Hlen. lia.
  - cbn [Skin.accumulate_bone] in H.
    destruct ((jj <? 0) || (jj >=? nv)) eqn:Hc; [discriminate|].
    apply orb_false_iff in Hc as [H1 H2]. apply Z.ltb_ge in H1.
    rewrite Z.geb_leb in H2. apply Z.leb_gt in H2.
    rewrite !len_cons in Hlen.
    constructor; [lia|]. eapply IH; [exact H | lia].
Qed.

Lemma accumulate_shape (nv : Z) (ids : list (list Z)) :
  forall ws vw vw',
    Skin.accumulate nv ids ws vw = Done vw' ->
    len ws = len ids -> Forall2 (bone_ok nv) ids ws.
Proof.
  induction ids as [|bi ids IH]; intros ws vw vw' H Hlen.
  - destruct ws; [constructor|].
    unfold len in Hlen. cbn [List.length] in Hlen. lia.
  - destruct ws as [|bw ws].
    { unfold len in Hlen. cbn [List.length] in Hlen. lia. }
    cbn [Skin.accumulate] in H.
    destruct (negb (len bw =? len bi) || (len bi =? 0)) eqn:Hc; [discriminate|].
    apply orb_false_iff in Hc as [H1 H2].
    apply negb_false_iff, Z.eqb_eq in H1. apply Z.eqb_neq in H2.
    inv_bind H as vw1 Hb. rewrite !len_cons in Hlen.
    constructor.
    + split; [exact H1|]. split.
      * intros ->. apply H2. reflexivity.
      * eapply accumulate_bone_range; eassumption.
    + eapply IH; [exact H | lia].
Qed.

Lemma len_normalize_bone (vw : list float32) (ids : list Z) (ws : list float32) :
  len ws = len ids -> len (Skin.normalize_bone vw ids ws) = len ids.
Proof.
  intros H. unfold Skin.normalize_bone, len in *.
  rewrite length_map, length_combine. lia.
Qed.

Lemma normalize_weights_shape (nv : Z) (vw : list float32) (ids : list (list Z))
  (ws : list (list float32)) :
  Forall2 (bone_ok nv) ids ws ->
  Forall2 (bone_ok nv) ids (Skin.normalize_weights vw ids ws).
Proof.
  unfold Skin.normalize_weights.
  induction 1 as [|bi bw ids ws (A & B & C) Hrest IH]; cbn [combine map];
    constructor; [|exact IH].
  cbn [fst snd]. split; [now apply len_normalize_bone | split; assumption].
Qed.

Lemma len_normalize_quats (q : list Q) :
  len (Skin.normalize_quats q) = len q.
Proof.
  unfold len. f_equal.
  assert (H : forall n (l : list Q), (List.length l <= n)%nat ->
            List.length (Skin.normalize_quats l) = List.length l).
  { induction n as [|n IH]; intros l Hl.
    - destruct l; [reflexivity | cbn in Hl; lia].
    - destruct l as [|a [|b [|c [|d l]]]]; try reflexivity.
      cbn [Skin.normalize_quats].
      destruct (mju_normalize4 (a, b, c, d)) as [[[a' b'] c'] d'].
      cbn [List.length] in *. rewrite IH by lia. reflexivity. }
  apply (H (List.length q)). lia.
Qed.

Lemma Compile_check_Done (s : Skin.mjCSkin) :
  Skin.Compile_check s = Done tt ->
  Skin.vert s <> [] /\ Skin.face s <> [] /\ Skin.bodyname s <> []
  /\ len (Skin.vert s) mod 3 = 0
  /\ (Skin.texcoord s = []
      \/ len (Skin.texcoord s) = 2 * len (Skin.vert s) / 3)
  /\ len (Skin.face s) mod 3 = 0
  /\ len (Skin.bindpos s) = 3 * len (Skin.bodyname s)
  /\ len (Skin.bindquat s) = 4 * len (Skin.bodyname s)
  /\ len (Skin.vertid s) = len (Skin.bodyname s)
  /\ len (Skin.vertweight s) = len (Skin.bodyname s).
Proof.
  unfold Skin.Compile_check. intros H.
  destruct (is_empty (Skin.vert s)) eqn:E1; [discriminate|].
  destruct (is_empty (Skin.face s)) eqn:E2; [discriminate|].
  destruct (is_empty (Skin.bodyname s)) eqn:E3; [discriminate|].
  destruct (is_empty (Skin.bindpos s)) eqn:E4; [discriminate|].
  destruct (is_empty (Skin.bindquat s)) eqn:E5; [discriminate|].
  destruct (is_empty (Skin.vertid s)) eqn:E6; [discriminate|].
  destruct (is_empty (Skin.vertweight s)) eqn:E7; [discriminate|].
  cbn [orb] in H.
  destruct (negb (len (Skin.vert s) mod 3 =? 0)) eqn:H3; [discriminate|].
  destruct (negb (is_empty (Skin.texcoord s)) && _) eqn:Ht; [discriminate|].
  destruct (negb (len (Skin.face s) mod 3 =? 0)) eqn:Hf; [discriminate|].
  cbv zeta in H.
  destruct (negb (len (Skin.bindpos s) =? _)) eqn:Hp; [discriminate|].
  destruct (negb (len (Skin.bindquat s) =? _)) eqn:Hq; [discriminate|].
  destruct (negb (len (Skin.vertid s) =? _)) eqn:Hi; [discriminate|].
  destruct (negb (len (Skin.vertweight s) =? _)) eqn:Hw; [discriminate|].
  apply negb_false_iff in H3, Hf, Hp, Hq, Hi, Hw.
  apply Z.eqb_eq in H3, Hf, Hp, Hq, Hi, Hw.
  assert (Hne : forall (A : Type) (l : list A), is_empty l = false -> l <> [])
    by (intros A l Hl ->; discriminate).
  split; [now apply Hne|]. split; [now apply Hne|]. split; [now apply Hne|].
  split; [assumption|]. split.
  { destruct (Skin.texcoord s) as [|t ts] eqn:Htc; [left; reflexivity|].
    right. cbn [is_empty negb andb] in Ht.
    now apply negb_false_iff, Z.eqb_eq in Ht. }
  repeat split; assumption.
Qed.

(** X12. A skin that Compile accepts is well formed: vertices and faces come
    in threes, texture coordinates are absent or one pair per vertex,
    every bone has a body id, a position, a quaternion and a list of
    vertex ids with as many weights, at least one, and every vertex id of
    every bone is a vertex of the skin. *)
Theorem skin_compiled_shape (s s' : Skin.mjCSkin) :
  Skin.Compile model s = Done s' ->
  let nbone := len (Skin.bodyname s') in
  let nv := len (Skin.vert s') / 3 in
  0 < nbone /\ 0 < nv
  /\ len (Skin.vert s') = 3 * nv
  /\ len (Skin.face s') mod 3 = 0 /\ Skin.face s' <> []
  /\ (Skin.texcoord s' = [] \/ len (Skin.texcoord s') = 2 * nv)
  /\ len (Skin.bodyid s') = nbone
  /\ len (Skin.bindpos s') = 3 * nbone
  /\ len (Skin.bindquat s') = 4 * nbone
  /\ Forall2 (bone_ok nv) (Skin.vertid s') (Skin.vertweight s')
  /\ len (Skin.vertid s') = nbone.
Proof.
  intros H. unfold Skin.Compile in H.
  inv_bind H as s1 Hload. inv_bind H as u Hcheck. destruct u.
  inv_bind H as ids Hids. cbv zeta in H. inv_bind H as s3 Hmat.
  inv_bind H as vw Hacc. inv_bind H as u Hcov. injection H as <-.
  apply Compile_check_Done in Hcheck
    as (Hv & Hf & Hb & Hv3 & Ht & Hf3 & Hp & Hq & Hi & Hw).
  apply resolve_bodies_length in Hids.
  assert (Hs3 : exists k, s3 = s1 <| Skin.bodyid := ids |> <| Skin.matid := k |>).
  { unfold Skin.resolve_material in Hmat.
    destruct (find_material _) as [id|].
    - injection Hmat as <-. eexists. reflexivity.
    - destruct (negb _); [discriminate|]. injection Hmat as <-.
      exists (Skin.matid s1). destruct s1; reflexivity. }
  destruct Hs3 as [k ->].
  cbn [Skin.vert Skin.vertid Skin.vertweight Skin.bindquat set
       Skin.set_bodyid Skin.set_matid Skin.set_vertweight Skin.set_bindquat
       Skin.bodyname Skin.face Skin.texcoord Skin.bodyid Skin.bindpos] in *.
  assert (Hvpos : 0 < len (Skin.vert s1)).
  { pose proof (len_nonneg (Skin.vert s1)).
    destruct (Z.eq_dec (len (Skin.vert s1)) 0) as [H0 | H0]; [|lia].
    apply len_nil_iff in H0. congruence. }
  assert (Hbpos : 0 < len (Skin.bodyname s1)).
  { pose proof (len_nonneg (Skin.bodyname s1)).
    destruct (Z.eq_dec (len (Skin.bodyname s1)) 0) as [H0 | H0]; [|lia].
    apply len_nil_iff in H0. congruence. }
  pose proof (Z.div_mod (len (Skin.vert s1)) 3 ltac:(lia)) as Hdm.
  rewrite Hv3 in Hdm.
  apply accumulate_shape in Hacc; [|lia].
  split; [assumption|]. split; [lia|]. split; [lia|].
  split; [assumption|]. split; [assumption|]. split.
  { destruct Ht as [Ht | Ht]; [left; assumption | right].
    rewrite Ht. rewrite Hdm at 1. rewrite Z.add_0_r.
    replace (2 * (3 * (len (Skin.vert s1) / 3)))
      with (2 * (len (Skin.vert s1) / 3) * 3) by lia.
    now rewrite Z.div_mul by lia. }
  split; [assumption|]. split; [assumption|].
  split; [now rewrite len_normalize_quats|].
  split; [now apply normalize_weights_shape | assumption].
Qed.

End SkinShape.

(** ** More on LoadOBJ: polygons and index triples *)


Section OBJFaces.
Context {E : Externals}.

Lemma obj_face_cases (rh : bool) (f : list index_t) :
  (exists t, obj_face rh f = Done t /\ len t = 3 * obj_triangles f
             /\ (len f = 3 \/ len f = 4))
  \/ (obj_face rh f = throw msg_obj_ngon [] /\ len f <> 3 /\ len f <> 4).
Proof.
  unfold obj_triangles.
  destruct f as [|a [|b [|c [|d [|e f]]]]];
    try (right; split; [reflexivity|]; unfold len; cbn [List.length]; lia).
  - left. eexists. split; [reflexivity|]. destruct rh; split; try reflexivity;
      left; reflexivity.
  - left. eexists. split; [reflexivity|]. destruct rh; split; try reflexivity;
      right; reflexivity.
Qed.

Lemma obj_faces_cases (rh : bool) (mesh : list (list index_t)) :
  (exists fi, obj_faces rh mesh = Done fi
              /\ len fi = 3 * fold_right (fun f n => obj_triangles f + n) 0 mesh
              /\ Forall (fun f => len f = 3 \/ len f = 4) mesh)
  \/ (obj_faces rh mesh = throw msg_obj_ngon []
      /\ Exists (fun f => len f <> 3 /\ len f <> 4) mesh).
Proof.
  induction mesh as [|f mesh IH]; cbn [obj_faces fold_right].
  - left. exists []. repeat split. constructor.
  - destruct (obj_face_cases rh f) as [(t & -> & Ht & Hf) | (-> & Hf)].
    + cbn [bind]. destruct IH as [(fi & -> & Hfi & Hall) | (-> & Hex)].
      * left. exists (t ++ fi). split; [reflexivity|]. split.
        -- rewrite len_app. lia.
        -- now constructor.
      * right. split; [reflexivity | now apply Exists_cons_tl].
    + right. split; [reflexivity | now apply Exists_cons_hd].
Qed.

(** The edge loop reads the three corners of every triple: it returns if
    every vertex index lies in [uservert], and reads outside it
    otherwise. *)
Lemma obj_edges_cases (vert : list Q) :
  forall fi, len fi mod 3 = 0 ->
    (Forall (fun ix => obj_corner_ok vert (vertex_index ix) = true) fi
     /\ exists es, obj_edges vert fi = Done es)
    \/ (Exists (fun ix => obj_corner_ok vert (vertex_index ix) = false) fi
        /\ obj_edges vert fi = Undefined ub_obj_vertex).
Proof.
  fix IH 1. intros [|a [|b [|c l]]] Hlen.
  - left. split; [constructor | exists []; reflexivity].
  - unfold len in Hlen. cbn in Hlen. discriminate.
  - unfold len in Hlen. cbn in Hlen. discriminate.
  - assert (Hl : len l mod 3 = 0).
    { rewrite !len_cons in Hlen.
      replace (1 + (1 + (1 + len l))) with (len l + 1 * 3) in Hlen by lia.
      now rewrite Z.mod_add in Hlen by lia. }
    cbn [obj_edges].
    destruct (obj_corner_ok vert (vertex_index a)) eqn:Ha.
    2: { right. split; [apply Exists_cons_hd; exact Ha | reflexivity]. }
    destruct (obj_corner_ok vert (vertex_index b)) eqn:Hb.
    2: { right. split; [|reflexivity].
         apply Exists_cons_tl, Exists_cons_hd. exact Hb. }
    destruct (obj_corner_ok vert (vertex_index c)) eqn:Hc.
    2: { right. split; [|reflexivity].
         do 2 apply Exists_cons_tl. apply Exists_cons_hd. exact Hc. }
    cbn [andb].
    destruct (IH l Hl) as [(Hall & es & ->) | (Hex & ->)].
    + left. split; [repeat (constructor; [assumption|]); exact Hall|].
      eexists. reflexivity.
    + right. split; [|reflexivity]. do 3 apply Exists_cons_tl. exact Hex.
Qed.

(** X13. LoadOBJ takes the first shape of the file polygon by polygon: a
    polygon with other than three or four corners stops the load with
    the error for unsupported meshes; otherwise a triangle gives one
    index triple and a quad two.  The edge loop then reads the vertex of
    every triple with no test of the index: an index whose vertex is
    not among the vertices of the file is a read outside [uservert].
    If every index has its vertex the load returns, and the vertex,
    normal and texture indices are appended from the same triples, so
    that a left-handed load exchanges all three kinds together.  Normal
    and texture indices are appended only if the file has normals, or
    texture coordinates. *)
Theorem LoadOBJ_index_triples (m : mjCMesh) (obj : ObjData)
  (mesh : list (list index_t)) :
  obj_reader (file m) = Some obj ->
  shapes0 obj = Some mesh ->
  (Exists (fun f => len f <> 3 /\ len f <> 4) mesh ->
   LoadOBJ m = throw msg_obj_ngon [])
  /\ (Forall (fun f => len f = 3 \/ len f = 4) mesh ->
      exists fi,
        obj_faces (righthand m) mesh = Done fi
        /\ len fi = 3 * fold_right (fun f n => obj_triangles f + n) 0 mesh
        /\ (Exists (fun ix => obj_corner_ok (attrib_vertices obj)
                                (vertex_index ix) = false) fi ->
            LoadOBJ m = Undefined ub_obj_vertex)
        /\ (Forall (fun ix => obj_corner_ok (attrib_vertices obj)
                                (vertex_index ix) = true) fi ->
            exists m',
              LoadOBJ m = Done m'
              /\ userface m' = userface m ++ map vertex_index fi
              /\ userfacenormal m'
                 = (match attrib_normals obj with
                    | [] => userfacenormal m
                    | _ => userfacenormal m ++ map normal_index fi
                    end)
              /\ userfacetexcoord m'
                 = (match attrib_texcoords obj with
                    | [] => userfacetexcoord m
                    | _ => userfacetexcoord m ++ map texcoord_index fi
                    end)
              /\ uservert m' = attrib_vertices obj
              /\ vert m' = vert m)).
Proof.
  intros Hobj Hmesh. unfold LoadOBJ. rewrite Hobj, Hmesh.
  destruct (obj_faces_cases (righthand m) mesh)
    as [(fi & Hfi & Hlen & Hall) | (Hthrow & Hex)].
  - split.
    + intros Hbad. exfalso. rewrite Forall_forall in Hall.
      apply Exists_exists in Hbad as (f & Hin & H3 & H4).
      destruct (Hall f Hin); contradiction.
    + intros _. rewrite Hfi. cbn [bind].
      exists fi. split; [reflexivity|]. split; [exact Hlen|].
      assert (Hmod : len fi mod 3 = 0)
        by (rewrite Hlen, Z.mul_comm; apply Z.mod_mul; lia).
      mesh_simpl_goal.
      destruct (obj_edges_cases (attrib_vertices obj) fi Hmod)
        as [(Hok & es & Hes) | (Hbad & Hes)]; rewrite Hes; cbn [bind].
      * split.
        -- intros Hex. exfalso. rewrite Forall_forall in Hok.
           apply Exists_exists in Hex as (ix & Hin & Hix).
           rewrite (Hok ix Hin) in Hix. discriminate.
        -- intros _. eexists. split; [reflexivity|].
           mesh_simpl_goal. repeat split.
      * split; [reflexivity|].
        intros Hok. exfalso. rewrite Forall_forall in Hok.
        apply Exists_exists in Hbad as (ix & Hin & Hix).
        rewrite (Hok ix Hin) in Hix. discriminate.
  - split.
    + intros _. now rewrite Hthrow.
    + intros Hall. exfalso. rewrite Forall_forall in Hall.
      apply Exists_exists in Hex as (f & Hin & H3 & H4).
      destruct (Hall f Hin); contradiction.
Qed.

End OBJFaces.

Lemma LoadOBJ_index_triples_witness :
  exists m' fi,
    @LoadOBJ Demo.E0 Examples.obj_mesh = Done m'
    /\ len fi = 9
    /\ userface m' = map vertex_index fi
    /\ userfacetexcoord m' = map texcoord_index fi
    /\ userfacenormal m' = [].
Proof.
  destruct (@LoadOBJ_index_triples Demo.E0 Examples.obj_mesh Demo.obj_patch
              [[Demo.ix 0; Demo.ix 1; Demo.ix 2];
               [Demo.ix 0; Demo.ix 1; Demo.ix 2; Demo.ix 3]]
              eq_refl eq_refl) as [_ H].
  destruct H as (fi & Hfi & B & _ & H).
  - constructor; [left; reflexivity|]. constructor; [right; reflexivity|].
    constructor.
  - destruct H as (m' & A & C & D & F & _).
    + vm_compute in Hfi. injection Hfi as <-.
      repeat (constructor; [vm_compute; reflexivity|]). constructor.
    + exists m', fi. split; [exact A|]. split; [exact B|].
      split; [exact C|]. split; [exact F | exact D].
Defined.

(** ** LoadSKN *)




Lemma len_firstn_le {A : Type} (n : Z) (l : list A) :
  0 <= n <= len l -> len (firstn (Z.to_nat n) l) = n.
Proof. intros H. unfold len in *. rewrite length_firstn. lia. Qed.

Lemma len_skipn_le {A : Type} (n : Z) (l : list A) :
  0 <= n <= len l -> len (skipn (Z.to_nat n) l) = len l - n.
Proof. intros H. unfold len in *. rewrite length_skipn. lia. Qed.

Lemma len_splice {A : Type} (i k : Z) (mid l : list A) :
  0 <= i -> len mid = k -> i + k <= len l ->
  len (firstn (Z.to_nat i) l ++ mid ++ skipn (Z.to_nat (i + k)) l) = len l.
Proof.
  intros Hi Hm Hl. pose proof (len_nonneg mid).
  rewrite !len_app, len_firstn_le, len_skipn_le by lia. lia.
Qed.

Lemma firstn_splice {A : Type} (i : Z) (x : A) (l : list A) :
  0 <= i < len l ->
  firstn (Z.to_nat (i + 1))
         (firstn (Z.to_nat i) l ++ [x] ++ skipn (Z.to_nat (i + 1)) l)
  = firstn (Z.to_nat i) l ++ [x].
Proof.
  intros Hi. rewrite app_assoc.
  assert (Hlen : List.length (firstn (Z.to_nat i) l ++ [x]) = Z.to_nat (i + 1)).
  { rewrite length_app, length_firstn. unfold len in Hi. cbn [List.length]. lia. }
  rewrite firstn_app, Hlen, Nat.sub_diag. cbn [firstn].
  rewrite app_nil_r. rewrite <- Hlen. apply firstn_all.
Qed.

Lemma len_resize {T : Type} (d : T) (n : Z) (v : list T) :
  0 <= n -> len (Skin.resize d n v) = n.
Proof.
  intros Hn. unfold Skin.resize, len.
  rewrite length_app, length_firstn, repeat_length. lia.
Qed.

Lemma len_f32s_at (buf : list byte) (off n : Z) :
  0 <= n -> len (f32s_at buf off n) = n.
Proof.
  intros Hn. unfold len, f32s_at. rewrite length_map, length_iota. lia.
Qed.

Lemma bone_words_app (a b : list (list Z)) :
  bone_words (a ++ b) = bone_words a + bone_words b.
Proof.
  unfold bone_words.
  induction a as [|x a IH]; cbn [app fold_right]; [reflexivity|].
  rewrite IH. lia.
Qed.

Lemma bone_words_one (l : list Z) : bone_words [l] = 18 + 2 * len l.
Proof. unfold bone_words. cbn [fold_right]. lia. Qed.

(** A copy that returned took [n] items that lie in the file. *)
Lemma skn_copy_Done {T : Type} (read : list byte -> Z -> Z -> list T)
  (buf : list byte) (c n : Z) (l : list T) (c' : Z) :
  Skin.skn_copy read buf c n = Done (l, c') ->
  len buf < 2 ^ 31 -> n < 2 ^ 31 ->
  0 <= n /\ 0 <= c /\ 16 + 4 * c + 4 * n <= len buf
  /\ l = read buf (16 + 4 * c) n /\ c' = c + n.
Proof.
  unfold Skin.skn_copy, Skin.skn_in. intros H Hb Hn.
  change (2 ^ 31) with 2147483648 in *.
  destruct (n <? 0) eqn:Hn0; [discriminate|]. apply Z.ltb_ge in Hn0.
  assert (Hs : to_size_t (n * 4) = n * 4).
  { unfold to_size_t. apply Z.mod_small. change (2 ^ 64) with 18446744073709551616. lia. }
  rewrite Hs in H.
  destruct (0 <=? c) eqn:Hc; [|discriminate]. apply Z.leb_le in Hc.
  destruct (16 + 4 * c + n * 4 <=? len buf) eqn:Hin; [|discriminate].
  apply Z.leb_le in Hin. cbn [andb negb] in H.
  injection H as <- <-.
  rewrite wrap32_small by (change (2 ^ 31) with 2147483648; lia).
  repeat split; lia.
Qed.

(** A write that returned replaced [k] cells that the array has. *)
Lemma skn_put_Done {T : Type} (a : list T) (k i : Z) (x a' : list T) :
  Skin.skn_put a k i x = Done a' ->
  0 <= k * i < 2 ^ 31 ->
  k * i + k <= len a
  /\ a' = firstn (Z.to_nat (k * i)) a ++ x ++ skipn (Z.to_nat (k * i + k)) a.
Proof.
  unfold Skin.skn_put. intros H Hk. cbv zeta in H.
  rewrite wrap32_small in H by (change (2 ^ 31) with 2147483648 in *; lia).
  destruct (0 <=? k * i); [|discriminate].
  destruct (k * i + k <=? len a) eqn:Hin; [|discriminate].
  apply Z.leb_le in Hin. injection H as <-. split; [exact Hin | reflexivity].
Qed.

Section SKN.
Context {E : Externals}.


Lemma read_bones_spec (buf : list byte) (np nq nb c0 : Z) (k : nat) :
  len buf < 2 ^ 31 -> np < 2 ^ 31 -> nq < 2 ^ 31 -> nb < 2 ^ 31 ->
  forall (i0 : nat) cnt s s' cnt',
    Skin.read_bones buf (map Z.of_nat (seq i0 k)) cnt s = Done (s', cnt') ->
    bones_read buf np nq nb c0 (Z.of_nat i0) cnt s ->
    bones_read buf np nq nb c0 (Z.of_nat (i0 + k)) cnt' s'
    /\ skin_mesh s' = skin_mesh s.
Proof.
  intros Hbuf Hnp Hnq Hnb.
  induction k as [|k IH]; intros i0 cnt s s' cnt' H Hinv.
  - cbn [seq map Skin.read_bones] in H. injection H as <- <-.
    rewrite Nat.add_0_r. split; [assumption | reflexivity].
  - cbn [seq map Skin.read_bones] in H. cbv zeta in H.
    destruct Hinv as (Hn & Hp & Hp3 & Hq & Hq4 & Hi & Hw & Hall & Hc0 & Hcb & Hcw).
    set (i := Z.of_nat i0) in *.
    assert (Hi0 : 0 <= i) by (unfold i; lia).
    change (2 ^ 31) with 2147483648 in *.
    destruct (wrap32 _ <? 18); [discriminate|].
    destruct (Skin.skn_in buf cnt 72) eqn:Hin; [|discriminate].
    cbn [negb] in H. unfold Skin.skn_in in Hin.
    apply andb_prop in Hin. destruct Hin as [_ Hin]. apply Z.leb_le in Hin.
    rewrite (wrap32_small (cnt + 10)) in H
      by (change (2 ^ 31) with 2147483648; lia).
    rewrite (wrap32_small (cnt + 10 + 3)) in H
      by (change (2 ^ 31) with 2147483648; lia).
    rewrite (wrap32_small (cnt + 10 + 3 + 4)) in H
      by (change (2 ^ 31) with 2147483648; lia).
    rewrite (wrap32_small (cnt + 10 + 3 + 4 + 1)) in H
      by (change (2 ^ 31) with 2147483648; lia).
    inv_bind H as bp Hbp.
    apply skn_put_Done in Hbp; [|change (2 ^ 31) with 2147483648; lia].
    destruct Hbp as [Hbp3 ->].
    inv_bind H as bq Hbq.
    apply skn_put_Done in Hbq; [|change (2 ^ 31) with 2147483648; lia].
    destruct Hbq as [Hbq4 ->].
    set (vcount := i32_at buf _) in H.
    pose proof (i32_at_range buf (16 + 4 * (cnt + 10 + 3 + 4))) as Hvr.
    fold vcount in Hvr. change (2 ^ 31) with 2147483648 in Hvr.
    destruct (vcount <? 1) eqn:Hvc; [discriminate|]. apply Z.ltb_ge in Hvc.
    destruct (wrap32 _ <? wrap32 _); [discriminate|].
    inv_bind H as r Hr. destruct r as [ids c1].
    apply skn_copy_Done in Hr;
      [|change (2 ^ 31) with 2147483648; lia
       |change (2 ^ 31) with 2147483648; lia].
    destruct Hr as (_ & _ & Hr1 & -> & ->).
    inv_bind H as vi Hvi.
    apply skn_put_Done in Hvi; [|change (2 ^ 31) with 2147483648; lia].
    destruct Hvi as [Hvi1 ->].
    inv_bind H as r Hr. destruct r as [wts c2].
    apply skn_copy_Done in Hr;
      [|change (2 ^ 31) with 2147483648; lia
       |change (2 ^ 31) with 2147483648; lia].
    destruct Hr as (_ & _ & Hr2 & -> & ->).
    inv_bind H as vw Hvw.
    apply skn_put_Done in Hvw; [|change (2 ^ 31) with 2147483648; lia].
    destruct Hvw as [Hvw1 ->].
    apply IH in H.
    + replace (i0 + S k)%nat with (S i0 + k)%nat by lia. exact H.
    + unfold bones_read.
      cbn [Skin.bodyname Skin.bindpos Skin.bindquat Skin.vertid Skin.vertweight
           set Skin.set_bodyname Skin.set_bindpos Skin.set_bindquat
           Skin.set_vertid Skin.set_vertweight].
      replace (Z.of_nat (S i0)) with (i + 1) by (unfold i; lia).
      replace (1 * i) with i in * by lia.
      split; [rewrite len_app, Hn; reflexivity|].
      split.
      { rewrite (len_splice (3 * i) 3); try lia. apply len_floats_at. lia. }
      split; [lia|].
      split.
      { rewrite (len_splice (4 * i) 4); try lia. apply len_floats_at. lia. }
      split; [lia|].
      split.
      { rewrite (len_splice i 1); try lia. reflexivity. }
      split.
      { rewrite (len_splice i 1); try lia. reflexivity. }
      rewrite !firstn_splice by lia.
      split.
      { apply Forall2_app; [exact Hall|]. constructor; [|constructor].
        split; [|rewrite len_ints_at; lia].
        rewrite len_f32s_at, len_ints_at by lia. reflexivity. }
      split; [lia|]. split; [lia|].
      rewrite bone_words_app, bone_words_one, len_ints_at by lia. lia.
Qed.

(** One block of the mesh data: untouched for a count of zero, otherwise
    [wrap32 (k * n)] items of the file. *)
Lemma skn_block {T : Type} (read : list byte -> Z -> Z -> list T)
  (buf : list byte) (k n c : Z) (old l : list T) (c' : Z) :
  (forall off m, 0 <= m -> len (read buf off m) = m) ->
  len buf < 2 ^ 31 -> 0 <= c -> 16 + 4 * c <= len buf ->
  (if n =? 0 then Done (old, c)
   else '(v, c1) <- Skin.skn_copy read buf c (wrap32 (k * n)) ;;
        Done (v, c1)) = Done (l, c') ->
  let w := if n =? 0 then 0 else wrap32 (k * n) in
  0 <= w /\ c' = c + w /\ 16 + 4 * c' <= len buf
  /\ (n = 0 -> l = old) /\ (n <> 0 -> len l = w).
Proof.
  intros Hread Hbuf Hc Hcb H. cbv zeta.
  destruct (n =? 0) eqn:Hn.
  - injection H as <- <-. apply Z.eqb_eq in Hn.
    repeat split; try lia; try (intros Hne; contradiction).
  - apply Z.eqb_neq in Hn. inv_bind H as r Hr. destruct r as [v c1].
    injection H as <- <-.
    apply skn_copy_Done in Hr; [|exact Hbuf|apply wrap32_range].
    destruct Hr as (Hw & _ & Hin & -> & ->).
    repeat split; try lia; try (intros _; apply Hread; exact Hw).
Qed.

(** X14. What LoadSKN leaves.  A load that returns has read a header of four
    counts, none negative.  The vertex, texture and face data are
    untouched for a count of zero and otherwise hold the [int] product of
    the count by three, two and three: the product itself unless it
    passes the largest [int].  Every one of the [nbone] bones has a name,
    a position, a quaternion, and lists of vertex ids and weights of the
    same length, at least one.  The file is as long as its header and
    the data so read: nothing was read past its end and nothing is left
    over. *)
Theorem LoadSKN_shape (s s' : Skin.mjCSkin) (buffer : list byte) :
  Skin.LoadSKN s = Done s' ->
  open_file (Skin.file s) = Some buffer ->
  len buffer < 2 ^ 31 ->
  let nv := i32_at buffer 0 in
  let nt := i32_at buffer 4 in
  let nf := i32_at buffer 8 in
  let nbone := i32_at buffer 12 in
  let words := fun k n => if n =? 0 then 0 else wrap32 (k * n) in
  0 <= nv /\ 0 <= nt /\ 0 <= nf /\ 0 <= nbone
  /\ (nv = 0 -> Skin.vert s' = Skin.vert s)
  /\ (nv <> 0 -> len (Skin.vert s') = wrap32 (3 * nv)
                 /\ (3 * nv < 2 ^ 31 -> len (Skin.vert s') = 3 * nv))
  /\ (nt = 0 -> Skin.texcoord s' = Skin.texcoord s)
  /\ (nt <> 0 -> len (Skin.texcoord s') = wrap32 (2 * nt)
                 /\ (2 * nt < 2 ^ 31 -> len (Skin.texcoord s') = 2 * nt))
  /\ (nf = 0 -> Skin.face s' = Skin.face s)
  /\ (nf <> 0 -> len (Skin.face s') = wrap32 (3 * nf)
                 /\ (3 * nf < 2 ^ 31 -> len (Skin.face s') = 3 * nf))
  /\ len (Skin.bodyname s') = nbone
  /\ len (Skin.bindpos s') = 3 * nbone
  /\ len (Skin.bindquat s') = 4 * nbone
  /\ len (Skin.vertid s') = nbone
  /\ Forall2 bone_read (Skin.vertid s') (Skin.vertweight s')
  /\ len buffer
     = 16 + 4 * (words 3 nv + words 2 nt + words 3 nf
                 + bone_words (Skin.vertid s')).
Proof.
  unfold Skin.LoadSKN. intros H Hopen Hbuf. rewrite Hopen in H.
  destruct (len buffer =? 0); [discriminate|].
  destruct (len buffer <? 16) eqn:H16; [discriminate|]. apply Z.ltb_ge in H16.
  cbv zeta in H. cbv zeta.
  set (nv := i32_at buffer 0) in *. set (nt := i32_at buffer 4) in *.
  set (nf := i32_at buffer 8) in *. set (nbone := i32_at buffer 12) in *.
  destruct ((nv <? 0) || (nt <? 0) || (nf <? 0) || (nbone <? 0)) eqn:Hneg;
    [discriminate|].
  repeat (apply orb_false_iff in Hneg; destruct Hneg as [Hneg ?]).
  assert (Hnv : 0 <= nv) by (apply Z.ltb_ge; assumption).
  assert (Hnt : 0 <= nt) by (apply Z.ltb_ge; assumption).
  assert (Hnf : 0 <= nf) by (apply Z.ltb_ge; assumption).
  assert (Hnb : 0 <= nbone) by (apply Z.ltb_ge; assumption).
  destruct (len buffer <? wrap32 _); [discriminate|].
  inv_bind H as r1 Hr1. destruct r1 as [s1 c1].
  inv_bind H as r2 Hr2. destruct r2 as [s2 c2].
  inv_bind H as r3 Hr3. destruct r3 as [s3 c3].
  assert (B1 : (if nv =? 0 then Done (Skin.vert s, 0)
                else '(v, c) <- Skin.skn_copy floats_at buffer 0 (wrap32 (3 * nv)) ;;
                     Done (v, c)) = Done (Skin.vert s1, c1)
               /\ Skin.texcoord s1 = Skin.texcoord s /\ Skin.face s1 = Skin.face s).
  { destruct (nv =? 0).
    - injection Hr1 as <- <-. repeat split.
    - inv_bind Hr1 as r Hr. destruct r as [v c]. injection Hr1 as <- <-.
      rewrite Hr. repeat split. }
  destruct B1 as (B1 & T1 & F1). clear Hr1.
  apply skn_block in B1; [|intros; apply len_floats_at; assumption|exact Hbuf|lia|lia].
  cbv zeta in B1. destruct B1 as (W1 & -> & I1 & V0 & V1).
  assert (B2 : (if nt =? 0 then Done (Skin.texcoord s1, 0 + (if nv =? 0 then 0 else wrap32 (3 * nv)))
                else '(v, c) <- Skin.skn_copy floats_at buffer
                                  (0 + (if nv =? 0 then 0 else wrap32 (3 * nv)))
                                  (wrap32 (2 * nt)) ;;
                     Done (v, c)) = Done (Skin.texcoord s2, c2)
               /\ Skin.vert s2 = Skin.vert s1 /\ Skin.face s2 = Skin.face s1).
  { destruct (nt =? 0).
    - injection Hr2 as <- <-. repeat split.
    - inv_bind Hr2 as r Hr. destruct r as [v c]. injection Hr2 as <- <-.
      rewrite Hr. repeat split. }
  destruct B2 as (B2 & V2 & F2). clear Hr2.
  apply skn_block in B2; [|intros; apply len_floats_at; assumption|exact Hbuf|lia|lia].
  cbv zeta in B2. destruct B2 as (W2 & -> & I2 & T0 & T2).
  set (w1 := if nv =? 0 then 0 else wrap32 (3 * nv)) in *.
  set (w2 := if nt =? 0 then 0 else wrap32 (2 * nt)) in *.
  assert (B3 : (if nf =? 0 then Done (Skin.face s2, 0 + w1 + w2)
                else '(v, c) <- Skin.skn_copy ints_at buffer (0 + w1 + w2)
                                  (wrap32 (3 * nf)) ;;
                     Done (v, c)) = Done (Skin.face s3, c3)
               /\ Skin.vert s3 = Skin.vert s2
               /\ Skin.texcoord s3 = Skin.texcoord s2).
  { destruct (nf =? 0).
    - injection Hr3 as <- <-. repeat split.
    - inv_bind Hr3 as r Hr. destruct r as [v c]. injection Hr3 as <- <-.
      rewrite Hr. repeat split. }
  destruct B3 as (B3 & V3 & T3). clear Hr3.
  apply skn_block in B3; [|intros; apply len_ints_at; assumption|exact Hbuf|lia|lia].
  cbv zeta in B3. destruct B3 as (W3 & -> & I3 & F0 & F3).
  set (w3 := if nf =? 0 then 0 else wrap32 (3 * nf)) in *.
  destruct ((wrap32 (3 * nbone) <? 0) || (wrap32 (4 * nbone) <? 0)) eqn:Hrs;
    [discriminate|].
  apply orb_false_iff in Hrs. destruct Hrs as [Hrp Hrq].
  apply Z.ltb_ge in Hrp, Hrq.
  inv_bind H as r Hr. destruct r as [s5 cnt].
  destruct (len buffer =? wrap32 (16 + 4 * cnt)) eqn:Hsz; [|discriminate].
  cbn [negb] in H. injection H as <-. apply Z.eqb_eq in Hsz.
  pose proof (i32_at_range buffer 12) as Hbr. fold nbone in Hbr.
  unfold iota in Hr.
  apply (read_bones_spec buffer (wrap32 (3 * nbone)) (wrap32 (4 * nbone)) nbone
           (0 + w1 + w2 + w3) (Z.to_nat nbone)
           Hbuf (proj2 (wrap32_range _)) (proj2 (wrap32_range _)) (proj2 Hbr)
           0%nat) in Hr.
  2: { unfold bones_read.
       cbn [Skin.bodyname Skin.bindpos Skin.bindquat Skin.vertid Skin.vertweight
            set Skin.set_bodyname Skin.set_bindpos Skin.set_bindquat
            Skin.set_vertid Skin.set_vertweight].
       rewrite !len_resize by lia. cbn [Z.of_nat Z.to_nat firstn bone_words fold_right].
       repeat split; try lia. constructor. }
  destruct Hr as [(Hn & Hp & Hp3 & Hq & Hq4 & Hi & Hw & Hall & Hc0 & Hcb & Hcw) Hmesh].
  rewrite Nat.add_0_l, Z2Nat.id in Hn, Hp3, Hq4, Hall, Hcw by lia.
  unfold skin_mesh in Hmesh.
  cbn [Skin.vert Skin.texcoord Skin.face set Skin.set_bodyname Skin.set_bindpos
       Skin.set_bindquat Skin.set_vertid Skin.set_vertweight] in Hmesh.
  injection Hmesh as Hv Ht Hf.
  pose proof (wrap32_range (3 * nbone)) as R3.
  pose proof (wrap32_range (4 * nbone)) as R4.
  assert (Hfull : firstn (Z.to_nat nbone) (Skin.vertid s5) = Skin.vertid s5).
  { rewrite <- Hi. unfold len. rewrite Nat2Z.id. apply firstn_all. }
  do 4 (split; [assumption|]).
  split; [intros Hz; rewrite Hv, V3, V2; apply V0; exact Hz|].
  split.
  { intros Hz. rewrite Hv, V3, V2, (V1 Hz). unfold w1.
    apply Z.eqb_neq in Hz. rewrite Hz.
    split; [reflexivity | intros Hlt; apply wrap32_small; change (2 ^ 31) with 2147483648 in *; lia]. }
  split; [intros Hz; rewrite Ht, T3, (T0 Hz); exact T1|].
  split.
  { intros Hz. rewrite Ht, T3, (T2 Hz). unfold w2.
    apply Z.eqb_neq in Hz. rewrite Hz.
    split; [reflexivity | intros Hlt; apply wrap32_small; change (2 ^ 31) with 2147483648 in *; lia]. }
  split; [intros Hz; rewrite Hf, (F0 Hz), F2; exact F1|].
  split.
  { intros Hz. rewrite Hf, (F3 Hz). unfold w3.
    apply Z.eqb_neq in Hz. rewrite Hz.
    split; [reflexivity | intros Hlt; apply wrap32_small; change (2 ^ 31) with 2147483648 in *; lia]. }
  split; [exact Hn|].
  split; [rewrite Hp; apply wrap32_small; change (2 ^ 31) with 2147483648 in *; lia|].
  split; [rewrite Hq; apply wrap32_small; change (2 ^ 31) with 2147483648 in *; lia|].
  split; [exact Hi|].
  split.
  { rewrite <- Hi in Hall at 1. rewrite <- Hw in Hall.
    unfold len in Hall. rewrite !Nat2Z.id, !firstn_all in Hall. exact Hall. }
  rewrite Hfull in Hcw.
  rewrite wrap32_small in Hsz by (change (2 ^ 31) with 2147483648 in *; lia). fold w1 w2 w3. lia.
Qed.

End SKN.
(** ** The hull graph on the path that returns *)

Lemma upd_spec (l l' : list Z) (i v : Z) :
  upd l i v = Some l' ->
  0 <= i < len l /\ len l' = len l /\ getZ l' i = v
  /\ (forall j, 0 <= j -> j <> i -> getZ l' j = getZ l j).
Proof.
  intros H.
  assert (Hi : 0 <= i < len l).
  { unfold upd in H. destruct ((i <? 0) || (len l <=? i)) eqn:Hc; [discriminate|].
    apply orb_false_iff in Hc as [H1 H2].
    apply Z.ltb_ge in H1. apply Z.leb_gt in H2. lia. }
  assert (Hp : l' = putZ l i v) by (unfold putZ; now rewrite H).
  subst l'. split; [exact Hi|]. split; [apply putZ_length|]. split.
  - rewrite getZ_putZ by lia. now rewrite Z.eqb_refl.
  - intros j Hj Hne. rewrite getZ_putZ by lia.
    destruct (Z.eqb_spec j i); [contradiction | reflexivity].
Qed.

Lemma store_spec (what : string) (l l' : list Z) (i v : Z) :
  store what l i v = Done l' ->
  0 <= i < len l /\ len l' = len l /\ getZ l' i = v
  /\ (forall j, 0 <= j -> j <> i -> getZ l' j = getZ l j).
Proof. intros H. apply store_Done in H. now apply upd_spec. Qed.

Lemma load_spec (what : string) (l : list Z) (i v : Z) :
  load what l i = Done v -> 0 <= i < len l /\ getZ l i = v.
Proof.
  unfold load, rd, getZ, len. destruct (i <? 0) eqn:Hi; [discriminate|].
  apply Z.ltb_ge in Hi.
  destruct (nth_error l (Z.to_nat i)) as [x|] eqn:Hx; [|discriminate].
  intros H. injection H as ->. split.
  - assert (Hlt : (Z.to_nat i < List.length l)%nat)
      by (apply nth_error_Some; rewrite Hx; discriminate).
    lia.
  - now apply nth_error_nth.
Qed.

Lemma load_in_range (what : string) (l : list Z) (i : Z) :
  0 <= i < len l -> load what l i = Done (getZ l i).
Proof.
  intros Hi. unfold load, rd, getZ, len in *.
  assert (H0 : (i <? 0) = false) by (apply Z.ltb_ge; lia). rewrite H0.
  destruct (nth_error l (Z.to_nat i)) as [x|] eqn:Hx.
  - now rewrite (nth_error_nth _ _ _ Hx).
  - apply nth_error_None in Hx. lia.
Qed.

Lemma In_iota (n a : Z) : In a (iota n) -> 0 <= a < n.
Proof.
  unfold iota. intros H. apply in_map_iff in H as (k & <- & Hk).
  apply in_seq in Hk. lia.
Qed.


Lemma header_kept_refl (b : list Z) : header_kept b b.
Proof. repeat split. Qed.

Lemma header_kept_trans (a b c : list Z) :
  header_kept a b -> header_kept b c -> header_kept a c.
Proof. unfold header_kept. intros (?&?&?) (?&?&?). repeat split; congruence. Qed.

Lemma header_kept_store (what : string) (l l' : list Z) (i v : Z) :
  2 <= i -> store what l i v = Done l' -> header_kept l l'.
Proof.
  intros Hi H. apply store_spec in H as (_ & Hl & _ & Hf).
  repeat split; [exact Hl | apply Hf; lia | apply Hf; lia].
Qed.

Lemma scan_facet_frame (nv pid start eoff : Z) (vs : list Z) :
  forall (cnt : Z) (s : fill) (c : Z) (s' : fill),
    2 <= eoff -> 0 <= adr s ->
    scan_facet nv pid start eoff vs cnt s = Done (c, s') ->
    adr s <= adr s' /\ header_kept (g s) (g s').
Proof.
  induction vs as [|pid1 vs IH]; intros cnt s c s' He Ha H; cbn [scan_facet] in H.
  - injection H as _ <-. split; [lia | apply header_kept_refl].
  - cbv zeta in H. destruct ((pid1 <? 0) || (pid1 >=? nv)).
    { injection H as _ <-. cbn [adr g]. split; [lia | apply header_kept_refl]. }
    destruct (pid =? pid1); [now apply IH in H|].
    destruct (recorded _ _ _ _ _); [now apply IH in H|].
    inv_bind H as g' Hg. apply header_kept_store in Hg; [|lia].
    apply IH in H; cbn [adr g] in *; try lia.
    destruct H as [H1 H2]. split; [lia | eapply header_kept_trans; eassumption].
Qed.

Lemma scan_neighbors_frame (nv pid start eoff : Z) (fs : list facetT) :
  forall (s s' : fill),
    2 <= eoff -> 0 <= adr s ->
    scan_neighbors nv pid start eoff fs s = Done s' ->
    adr s <= adr s' /\ header_kept (g s) (g s').
Proof.
  induction fs as [|f fs IH]; intros s s' He Ha H; cbn [scan_neighbors] in H.
  - injection H as <-. split; [lia | apply header_kept_refl].
  - inv_bind H as p Hp. destruct p as [c s1].
    destruct (negb _); [discriminate|].
    apply scan_facet_frame in Hp as [H1 H2]; try assumption.
    apply IH in H as [H3 H4]; try lia.
    split; [lia | eapply header_kept_trans; eassumption].
Qed.

Lemma fill_vertices_frame (nv numvert : Z) (vl : list vertexT) :
  forall (i : Z) (s s' : fill),
    0 <= numvert -> 0 <= i -> 0 <= adr s ->
    fill_vertices nv numvert vl i s = Done s' ->
    header_kept (g s) (g s').
Proof.
  induction vl as [|v vl IH]; intros i s s' Hn Hi Ha H; cbn [fill_vertices] in H.
  - injection H as <-. apply header_kept_refl.
  - cbv zeta in H. destruct ((point v <? 0) || (point v >=? nv)).
    { injection H as <-. apply header_kept_refl. }
    inv_bind H as g1 Hg1. inv_bind H as g2 Hg2. inv_bind H as s1 Hs1.
    inv_bind H as g3 Hg3.
    apply header_kept_store in Hg1; [|lia].
    apply header_kept_store in Hg2; [|lia].
    apply scan_neighbors_frame in Hs1 as [Hs1 Hk1]; cbn [adr g] in *; try lia.
    apply header_kept_store in Hg3; [|lia].
    apply IH in H; cbn [adr g] in *; try lia.
    eapply header_kept_trans; [exact Hg1|].
    eapply header_kept_trans; [exact Hg2|].
    eapply header_kept_trans; [exact Hk1|].
    eapply header_kept_trans; [exact Hg3 | exact H].
Qed.



Lemma ind_nonneg (f : facetT) (ii : Z) : 0 <= ii -> 0 <= ind f ii.
Proof.
  intros H. unfold ind. destruct (toporient f); [|exact H].
  destruct (ii =? 0); [lia|]. destruct (ii =? 1); lia.
Qed.

(** The facet loop writes nothing below [face_globalid]. *)
Lemma fill_facet_frame (foff a : Z) (f : facetT) (vs : list Z) :
  forall (ii : Z) (buf buf' : list Z),
    0 <= ii -> 0 <= foff + a ->
    fill_facet foff a f vs ii buf = Done buf' ->
    len buf' = len buf
    /\ (forall j, 0 <= j -> j < foff + a -> getZ buf' j = getZ buf j).
Proof.
  induction vs as [|pid vs IH]; intros ii buf buf' Hii Ha H; cbn [fill_facet] in H.
  - injection H as <-. split; reflexivity.
  - destruct (ii >=? 3); [discriminate|].
    inv_bind H as b1 H1. apply store_spec in H1 as (_ & L1 & _ & F1).
    apply IH in H as (L2 & F2); try lia.
    pose proof (ind_nonneg f ii Hii) as Hind.
    split; [congruence|]. intros j Hj Hlt. rewrite F2, F1 by lia. reflexivity.
Qed.

Lemma fill_facets_frame (foff : Z) (fs : list facetT) :
  forall (a : Z) (buf buf' : list Z),
    0 <= foff + a ->
    fill_facets foff fs a buf = Done buf' ->
    len buf' = len buf
    /\ (forall j, 0 <= j -> j < foff + a -> getZ buf' j = getZ buf j).
Proof.
  induction fs as [|f fs IH]; intros a buf buf' Ha H; cbn [fill_facets] in H.
  - injection H as <-. split; reflexivity.
  - inv_bind H as b1 H1.
    apply fill_facet_frame in H1 as (L1 & F1); try lia.
    apply IH in H as (L2 & F2); try lia.
    split; [congruence|]. intros j Hj Hlt. rewrite F2, F1 by lia. reflexivity.
Qed.

(** A facet with more than three vertices stops the facet loop. *)
Lemma fill_facets_triangles (foff : Z) (fs : list facetT) :
  forall (a : Z) (buf buf' : list Z),
    Forall (fun f => 3 <= len (vertices f)) fs ->
    fill_facets foff fs a buf = Done buf' ->
    Forall (fun f => len (vertices f) = 3) fs.
Proof.
  induction fs as [|f fs IH]; intros a buf buf' Hge H; cbn [fill_facets] in H.
  - constructor.
  - inversion Hge as [|? ? Hf Hfs]; subst.
    inv_bind H as b1 H1. constructor; [|now apply IH in H].
    destruct (vertices f) as [|x [|y [|z [|w l]]]];
      try (unfold len in Hf; cbn [List.length] in Hf; lia); [reflexivity|].
    exfalso. cbn [fill_facet] in H1.
    change (0 >=? 3) with false in H1. change (0 + 1 >=? 3) with false in H1.
    change (0 + 1 + 1 >=? 3) with false in H1.
    change (0 + 1 + 1 + 1 >=? 3) with true in H1. cbv iota in H1.
    inv_bind H1 as c1 K1. inv_bind H1 as c2 K2. inv_bind H1 as c3 K3.
    discriminate H1.
Qed.

Lemma fill_facet_spec (foff a : Z) (f : facetT) (buf buf' : list Z) :
  len (vertices f) = 3 -> 0 <= foff + a ->
  fill_facet foff a f (vertices f) 0 buf = Done buf' ->
  len buf' = len buf /\ foff + a + 3 <= len buf
  /\ (forall j, 0 <= j -> j < foff + a \/ foff + a + 3 <= j ->
        getZ buf' j = getZ buf j)
  /\ cells3 buf' (foff + a) = oriented f.
Proof.
  intros Hlen Ha H. unfold oriented, cells3.
  destruct (vertices f) as [|x [|y [|z [|w l]]]] eqn:Hv;
    try (unfold len in Hlen; cbn [List.length] in Hlen; lia).
  cbn [fill_facet] in H.
  change (0 >=? 3) with false in H. change (0 + 1 >=? 3) with false in H.
  change (0 + 1 + 1 >=? 3) with false in H. cbv iota in H.
  inv_bind H as b1 H1. inv_bind H as b2 H2. inv_bind H as b3 H3.
  injection H as <-.
  apply store_spec in H1 as (R1 & L1 & V1 & F1).
  apply store_spec in H2 as (R2 & L2 & V2 & F2).
  apply store_spec in H3 as (R3 & L3 & V3 & F3).
  unfold ind in *. destruct (toporient f);
    change (0 =? 0) with true in *; change (0 + 1 =? 0) with false in *;
    change (0 + 1 =? 1) with true in *; change (0 + 1 + 1 =? 0) with false in *;
    change (0 + 1 + 1 =? 1) with false in *; change (1 =? 0) with false in *;
    change (1 =? 1) with true in *; change (2 =? 0) with false in *;
    change (2 =? 1) with false in *; cbv iota in *;
    (split; [congruence|]); (split; [lia|]);
    (split; [intros j Hj Hout; rewrite F3, F2, F1 by lia; reflexivity|]).
  - f_equal; [|f_equal; [|f_equal]].
    + rewrite F3 by lia. replace (foff + a) with (foff + a + 0) by lia. exact V2.
    + rewrite F3, F2 by lia. exact V1.
    + replace (foff + a + 2) with (foff + a + (0 + 1 + 1)) by lia. exact V3.
  - f_equal; [|f_equal; [|f_equal]].
    + rewrite F3, F2 by lia. replace (foff + a) with (foff + a + 0) by lia. exact V1.
    + rewrite F3 by lia. replace (foff + a + 1) with (foff + a + (0 + 1)) by lia.
      exact V2.
    + replace (foff + a + 2) with (foff + a + (0 + 1 + 1)) by lia. exact V3.
Qed.

Lemma fill_facets_spec (foff : Z) (fs : list facetT) :
  forall (a : Z) (buf buf' : list Z),
    Forall (fun f => len (vertices f) = 3) fs -> 0 <= foff + a ->
    fill_facets foff fs a buf = Done buf' ->
    len buf' = len buf
    /\ (forall j, 0 <= j -> j < foff + a -> getZ buf' j = getZ buf j)
    /\ (forall (k : nat) (f : facetT) (z : Z),
          nth_error fs k = Some f -> z = foff + a + 3 * Z.of_nat k ->
          cells3 buf' z = oriented f).
Proof.
  induction fs as [|f fs IH]; intros a buf buf' Htri Ha H; cbn [fill_facets] in H.
  - injection H as <-. split; [reflexivity|].
    split; [reflexivity|]. intros [|k] f z Hk; discriminate.
  - inv_bind H as b1 H1. inversion Htri as [|? ? Hf Hfs]; subst.
    apply fill_facet_spec in H1 as (L1 & R1 & F1 & C1); try assumption.
    apply IH in H as (L2 & F2 & C2); try assumption; try lia.
    split; [congruence|]. split.
    { intros j Hj Hlt. rewrite F2, F1 by lia. reflexivity. }
    intros [|k] f' z Hk Hz.
    + injection Hk as <-. subst z. rewrite <- C1. unfold cells3.
      replace (foff + a + 3 * Z.of_nat 0) with (foff + a) by lia.
      rewrite !F2 by lia. reflexivity.
    + cbn [nth_error] in Hk. apply (C2 k f' z Hk). lia.
Qed.

Lemma find_global_In (buf : list Z) (goff x : Z) (cand : list Z) (a : Z) :
  find_global buf goff x cand = Some a -> In a cand.
Proof.
  induction cand as [|c cand IH]; cbn [find_global]; [discriminate|].
  destruct (_ =? x); intros H.
  - injection H as ->. now left.
  - right. now apply IH.
Qed.


Lemma relabel_spec (numvert n : Z) (idx : list Z) :
  forall (buf buf' : list Z),
    0 <= numvert -> Forall (fun i => 0 <= i < n) idx ->
    relabel numvert idx buf = Done buf' ->
    len buf' = len buf
    /\ (forall j, 0 <= j -> j < 2 + 2 * numvert \/ 2 + 2 * numvert + n <= j ->
          getZ buf' j = getZ buf j)
    /\ (forall i, 0 <= i -> In i idx \/ local_edge numvert buf i ->
          local_edge numvert buf' i).
Proof.
  induction idx as [|i0 idx IH]; intros buf buf' Hn Hidx H; cbn [relabel] in H.
  - injection H as <-. split; [reflexivity|]. split; [reflexivity|].
    intros i _ [[]|Hi]. exact Hi.
  - inversion Hidx as [|? ? Hi0 Hidx']; subst.
    inv_bind H as e He. apply load_spec in He as [Hr He].
    destruct (e >=? 0) eqn:Hge.
    + destruct (find_global _ _ _ _) as [a|] eqn:Hfind; [|discriminate].
      apply find_global_In, In_iota in Hfind.
      inv_bind H as b1 H1. apply store_spec in H1 as (R1 & L1 & V1 & F1).
      apply IH in H as (L2 & F2 & P2); try assumption.
      split; [congruence|]. split.
      { intros j Hj Hout. rewrite F2, F1 by lia. reflexivity. }
      intros i Hi Hor. apply P2; [exact Hi|].
      destruct (Z.eq_dec i i0) as [->|Hne].
      * right. unfold local_edge. rewrite V1. right. lia.
      * destruct Hor as [[Heq|Hin]|Hloc]; [congruence | now left |].
        right. unfold local_edge in *. rewrite F1 by lia. exact Hloc.
    + rewrite Z.geb_leb in Hge. apply Z.leb_gt in Hge.
      apply IH in H as (L2 & F2 & P2); try assumption.
      split; [exact L2|]. split; [exact F2|].
      intros i Hi Hor. apply P2; [exact Hi|].
      destruct Hor as [[<-|Hin]|Hloc]; [| now left | now right].
      right. left. rewrite He. exact Hge.
Qed.

Lemma Forall_iota (n : Z) : Forall (fun i => 0 <= i < n) (iota n).
Proof. apply Forall_forall. intros i Hi. now apply In_iota. Qed.

Lemma In_iota_iff (n i : Z) : 0 <= i < n -> In i (iota n).
Proof.
  intros Hi. unfold iota. apply in_map_iff. exists (Z.to_nat i).
  split; [lia | apply in_seq; lia].
Qed.

(** What a returned MakeGraph leaves when the graph was kept. *)
Lemma MakeGraph_with_inv (qh : qhT) (m m1 : mjCMesh) :
  4 <= nvert m ->
  MakeGraph_with (Some qh) m = Done m1 ->
  graph m1 <> None ->
  exists b0 buf,
    fill_facets (2 + 3 * num_vertices qh + 3 * num_facets qh)
                (facet_list qh) 0 b0 = Done buf
    /\ len b0 = 2 + 3 * num_vertices qh + 6 * num_facets qh
    /\ getZ b0 0 = num_vertices qh /\ getZ b0 1 = num_facets qh
    /\ exists buf',
         relabel (num_vertices qh)
                 (iota (num_vertices qh + 3 * num_facets qh)) buf = Done buf'
         /\ graph m1 = Some buf'
         /\ szgraph m1 = 2 + 3 * num_vertices qh + 6 * num_facets qh
         /\ face m1 = face m.
Proof.
  intros Hnv H Hg. unfold MakeGraph_with in H.
  assert (Hlt : (nvert m <? 4) = false) by (apply Z.ltb_ge; lia).
  rewrite Hlt in H.
  inv_bind H as b Hb. unfold MakeGraph_build in Hb. cbv zeta in Hb.
  inv_bind Hb as s Hs.
  destruct (negb _); [discriminate|].
  inv_bind Hb as buf Hbuf.
  assert (Hnn : 0 <= num_vertices qh /\ 0 <= num_facets qh)
    by (unfold num_vertices, num_facets, len; lia).
  apply fill_vertices_frame in Hs; cbn [adr g] in *; try lia.
  destruct Hs as (L & G0 & G1).
  unfold MakeGraph_relabel in H.
  destruct (ok s); injection Hb as <-;
    cbn [b_live b_mesh b_buf b_numvert b_numface] in H.
  - inv_bind H as buf' Hbuf'. injection H as <-.
    exists (g s), buf. split; [exact Hbuf|]. split.
    { rewrite L. unfold len. cbn [List.length]. rewrite repeat_length. lia. }
    split; [rewrite G0; reflexivity|]. split; [rewrite G1; reflexivity|].
    exists buf'. split; [exact Hbuf'|]. mesh_simpl_goal. repeat split.
  - exfalso. destruct (0 <? _); [discriminate|]. injection H as <-.
    apply Hg. mesh_simpl_goal. reflexivity.
Qed.

(** X15. MakeGraph, when it returns with a graph, leaves an array of
    [2 + 3*numvert + 6*numface] integers, [szgraph] equal to that size,
    the two counts in cells 0 and 1, and in [edge_localid] nothing but
    negative separators and vertex ids local to the hull; the face data of
    the mesh is not touched. *)
Theorem MakeGraph_graph_layout (qh : qhT) (m m1 : mjCMesh) :
  4 <= nvert m ->
  MakeGraph_with (Some qh) m = Done m1 ->
  graph m1 <> None ->
  exists buf,
    graph m1 = Some buf
    /\ szgraph m1 = 2 + 3 * num_vertices qh + 6 * num_facets qh
    /\ len buf = szgraph m1
    /\ getZ buf 0 = num_vertices qh
    /\ getZ buf 1 = num_facets qh
    /\ (forall i, 0 <= i < num_vertices qh + 3 * num_facets qh ->
          local_edge (num_vertices qh) buf i)
    /\ face m1 = face m.
Proof.
  intros Hnv H Hg.
  destruct (MakeGraph_with_inv qh m m1 Hnv H Hg)
    as (b0 & buf & Hfill & L0 & G0 & G1 & buf' & Hrel & Hgr & Hsz & Hface).
  assert (Hnn : 0 <= num_vertices qh /\ 0 <= num_facets qh)
    by (unfold num_vertices, num_facets, len; lia).
  apply fill_facets_frame in Hfill as (L1 & F1); try lia.
  apply (relabel_spec _ (num_vertices qh + 3 * num_facets qh)) in Hrel
    as (L2 & F2 & P2); try lia; [|apply Forall_iota].
  exists buf'. split; [exact Hgr|]. split; [exact Hsz|].
  split; [congruence|].
  split; [rewrite F2, F1 by lia; exact G0|].
  split; [rewrite F2, F1 by lia; exact G1|].
  split; [|exact Hface].
  intros i Hi. apply P2; [lia|]. left. now apply In_iota_iff.
Qed.

Lemma copy_faces_spec (buf : list Z) (base : Z) (idx : list Z) :
  Forall (fun i => 0 <= base + 3 * i /\ base + 3 * i + 2 < len buf) idx ->
  copy_faces buf base idx = Done (flat_map (fun i => cells3 buf (base + 3 * i)) idx).
Proof.
  induction idx as [|i idx IH]; intros Hidx; cbn [copy_faces flat_map].
  - reflexivity.
  - inversion Hidx as [|? ? Hi Hidx']; subst.
    rewrite !load_in_range by lia. cbn [bind].
    rewrite (IH Hidx'). cbn [bind]. reflexivity.
Qed.

Lemma cells3_facets (buf : list Z) (base : Z) (fs : list facetT) :
  forall s : nat,
    (forall (k : nat) (f : facetT) (z : Z),
        nth_error fs k = Some f -> z = base + 3 * (Z.of_nat s + Z.of_nat k) ->
        cells3 buf z = oriented f) ->
    flat_map (fun i => cells3 buf (base + 3 * i))
             (map Z.of_nat (seq s (List.length fs)))
    = flat_map oriented fs.
Proof.
  induction fs as [|f fs IH]; intros s H; cbn [List.length seq map flat_map].
  - reflexivity.
  - f_equal.
    + apply (H 0%nat f); [reflexivity | lia].
    + apply IH. intros k f' z Hk Hz. apply (H (S k) f' z Hk). lia.
Qed.

(** X16. CopyGraph after MakeGraph: on a mesh without face data, when no facet
    of the hull has fewer than three vertices, the graph that MakeGraph
    returned is read inside its bounds, [nface] becomes the number of hull
    facets, and the face array lists the facets of the hull in Qhull's
    order, three point ids each, the first two exchanged for a facet whose
    [toporient] is set. *)
Theorem CopyGraph_after_MakeGraph (qh : qhT) (m m1 : mjCMesh) :
  4 <= nvert m ->
  Forall (fun f => 3 <= len (vertices f)) (facet_list qh) ->
  face m = None ->
  MakeGraph_with (Some qh) m = Done m1 ->
  graph m1 <> None ->
  CopyGraph m1
  = Done (m1 <| nface := num_facets qh |>
             <| face := Some (flat_map oriented (facet_list qh)) |>)
  /\ len (flat_map oriented (facet_list qh)) = 3 * num_facets qh.
Proof.
  intros Hnv Hge Hnull H Hg.
  destruct (MakeGraph_with_inv qh m m1 Hnv H Hg)
    as (b0 & buf & Hfill & L0 & G0 & G1 & buf' & Hrel & Hgr & Hsz & Hface).
  assert (Hnn : 0 <= num_vertices qh /\ 0 <= num_facets qh)
    by (unfold num_vertices, num_facets, len; lia).
  pose proof (fill_facets_triangles _ _ _ _ _ Hge Hfill) as Htri.
  apply fill_facets_spec in Hfill as (L1 & F1 & C1); try assumption; try lia.
  apply (relabel_spec _ (num_vertices qh + 3 * num_facets qh)) in Hrel
    as (L2 & F2 & P2); try lia; [|apply Forall_iota].
  assert (Heq : flat_map (fun i => cells3 buf'
                    (2 + 3 * num_vertices qh + 3 * num_facets qh + 3 * i))
                  (iota (num_facets qh))
                = flat_map oriented (facet_list qh)).
  { unfold iota.
    replace (Z.to_nat (num_facets qh)) with (List.length (facet_list qh))
      by (unfold num_facets, len; lia).
    apply cells3_facets. intros k f z Hk Hz.
    assert (Hlt : (k < List.length (facet_list qh))%nat)
      by (apply nth_error_Some; rewrite Hk; discriminate).
    assert (Hk3 : Z.of_nat k < num_facets qh) by (unfold num_facets, len; lia).
    rewrite <- (C1 k f z Hk) by lia.
    unfold cells3. rewrite !F2 by lia. reflexivity. }
  split.
  - unfold CopyGraph. rewrite Hface, Hnull, Hgr.
    rewrite !load_in_range by lia. cbn [bind].
    rewrite F2, F1, G0 by lia. rewrite F2, F1, G1 by lia.
    rewrite copy_faces_spec.
    2:{ apply Forall_forall. intros i Hi. apply In_iota in Hi. lia. }
    cbn [bind]. rewrite Heq. reflexivity.
  - clear -Htri. unfold num_facets, len.
    induction Htri as [|f fs Hf Hfs IH].
    + reflexivity.
    + cbn [flat_map List.length]. rewrite length_app, Nat2Z.inj_add, IH.
      unfold oriented. cbn [List.length]. lia.
Qed.


Lemma tetra_graph_built : MakeGraph_with (Some hull_tetra) mesh4 = Done tetra_graph.
Proof. vm_compute. reflexivity. Qed.

Lemma MakeGraph_graph_layout_witness :
  MakeGraph_with (Some hull_tetra) mesh4 = Done tetra_graph
  /\ exists buf,
       graph tetra_graph = Some buf /\ szgraph tetra_graph = 38
       /\ len buf = 38 /\ getZ buf 0 = 4 /\ getZ buf 1 = 4
       /\ local_edge 4 buf 15.
Proof.
  split; [exact tetra_graph_built|].
  assert (Hnv : 4 <= nvert mesh4) by (vm_compute; discriminate).
  assert (Hg : graph tetra_graph <> None) by (vm_compute; discriminate).
  pose proof (MakeGraph_graph_layout hull_tetra mesh4 tetra_graph
                Hnv tetra_graph_built Hg) as HT.
  destruct HT as (buf & H1 & H2 & H3 & H4 & H5 & H6 & _).
  exists buf. split; [exact H1|]. split; [exact H2|].
  split; [rewrite H3; exact H2|]. split; [exact H4|]. split; [exact H5|].
  apply H6. vm_compute. split; [discriminate | reflexivity].
Defined.

Lemma CopyGraph_after_MakeGraph_witness :
  MakeGraph_with (Some hull_tetra) mesh4 = Done tetra_graph
  /\ CopyGraph tetra_graph
     = Done (tetra_graph <| nface := 4 |>
               <| face := Some [0; 1; 2; 0; 1; 3; 0; 2; 3; 1; 2; 3] |>).
Proof.
  split; [exact tetra_graph_built|].
  assert (Hnv : 4 <= nvert mesh4) by (vm_compute; discriminate).
  assert (Hg : graph tetra_graph <> None) by (vm_compute; discriminate).
  assert (Hge : Forall (fun f => 3 <= len (vertices f)) (facet_list hull_tetra)).
  { repeat (apply Forall_cons; [vm_compute; discriminate|]). apply Forall_nil. }
  pose proof (CopyGraph_after_MakeGraph hull_tetra mesh4 tetra_graph
                Hnv Hge eq_refl tetra_graph_built Hg) as HT.
  destruct HT as [HT _]. exact HT.
Defined.
(** ** FitGeom *)

Section FitProps.
Context {E : Externals} {L : MathLib}.

#[local] Open Scope Q_scope.

Lemma Qmax_l (a b : Q) : a <= Qmax a b.
Proof.
  unfold Qmax. destruct (Qlt_bool b a) eqn:H.
  - apply Qle_refl.
  - now apply Qlt_bool_false in H.
Qed.

Lemma Qmax_r (a b : Q) : b <= Qmax a b.
Proof.
  unfold Qmax. destruct (Qlt_bool b a) eqn:H.
  - apply Qlt_bool_true in H. now apply Qlt_le_weak.
  - apply Qle_refl.
Qed.

Lemma fit_sphere_covers (v : list Q) (cen : vec3) (idx : list Z) :
  forall s0 : Q,
    s0 <= fit_sphere v cen idx s0
    /\ (forall i, In i idx -> mjuu_dist3 (vtx v i) cen <= fit_sphere v cen idx s0).
Proof.
  induction idx as [|i0 idx IH]; intros s0; cbn [fit_sphere].
  - split; [apply Qle_refl | intros i []].
  - destruct (IH (Qmax s0 (mjuu_dist3 (vtx v i0) cen))) as [H1 H2]. split.
    + eapply Qle_trans; [apply Qmax_l | exact H1].
    + intros i [<-|Hi]; [|now apply H2].
      eapply Qle_trans; [apply Qmax_r | exact H1].
Qed.

(** The radius of the sphere is zero or the distance of some vertex. *)
Lemma fit_sphere_attained (v : list Q) (cen : vec3) (idx : list Z) :
  forall s0 : Q,
    fit_sphere v cen idx s0 = s0
    \/ (exists i, In i idx /\ fit_sphere v cen idx s0 = mjuu_dist3 (vtx v i) cen).
Proof.
  induction idx as [|i0 idx IH]; intros s0; cbn [fit_sphere].
  - now left.
  - destruct (IH (Qmax s0 (mjuu_dist3 (vtx v i0) cen))) as [H|(i & Hi & H)].
    + rewrite H. unfold Qmax. destruct (Qlt_bool _ _); [now left|].
      right. exists i0. split; [now left | reflexivity].
    + right. exists i. split; [now right | exact H].
Qed.

Lemma fit_cylinder_covers (v : list Q) (cen : vec3) (idx : list Z) :
  forall s0 s1 : Q,
    s0 <= fst (fit_cylinder v cen idx s0 s1)
    /\ s1 <= snd (fit_cylinder v cen idx s0 s1)
    /\ (forall i, In i idx ->
          dist_xy (vtx v i) cen <= fst (fit_cylinder v cen idx s0 s1)
          /\ dist_z (vtx v i) cen <= snd (fit_cylinder v cen idx s0 s1)).
Proof.
  induction idx as [|i0 idx IH]; intros s0 s1; cbn [fit_cylinder]; cbv zeta.
  - cbn [fst snd]. repeat split; try apply Qle_refl. destruct H. destruct H.
  - destruct (IH (Qmax s0 (dist_xy (vtx v i0) cen))
                 (Qmax s1 (dist_z (vtx v i0) cen))) as (H1 & H2 & H3).
    split; [eapply Qle_trans; [apply Qmax_l | exact H1]|].
    split; [eapply Qle_trans; [apply Qmax_l | exact H2]|].
    intros i [<-|Hi]; [|now apply H3]. split.
    + eapply Qle_trans; [apply Qmax_r | exact H1].
    + eapply Qle_trans; [apply Qmax_r | exact H2].
Qed.

Lemma vert_array_Some (m : mjCMesh) (v v' : list Q) :
  (0 < nvert m)%Z -> vert m = Some v -> vert_array m = Done v' -> v' = v.
Proof.
  intros Hn Hv. unfold vert_array.
  assert (H0 : (nvert m <=? 0)%Z = false) by (apply Z.leb_gt; exact Hn).
  rewrite H0, Hv. destruct (len v <? 3 * nvert m)%Z; [discriminate|].
  intros H. now injection H as <-.
Qed.

(** X17. The errors of FitGeom.  Without [fitaabb] the mesh is checked
    first, so an invalid mesh raises the error of CheckMesh whatever the
    geom type is, and a valid mesh with a geom type outside sphere,
    capsule, cylinder, ellipsoid and box raises "invalid geom type in
    fitting mesh"; every other call returns, with the mesh position.  With
    [fitaabb] the validity of the mesh is not looked at: the unsupported
    types raise "invalid fittype in mesh" and a box or an ellipsoid always
    returns. *)
Theorem FitGeom_errors (m : mjCMesh) (geom : Geom.mjCGeom) :
  (forall e, CheckMesh m = Throw e -> FitGeom false m geom = Throw e)
  /\ (CheckMesh m = Done tt -> Geom.type geom = mjGEOM_OTHER ->
      FitGeom false m geom = throw msg_fit_type [])
  /\ (CheckMesh m = Done tt -> Geom.type geom <> mjGEOM_OTHER ->
      exists g, FitGeom false m geom
                = Done (g, GetPosPtr m (Geom.typeinertia geom)))
  /\ (Geom.type geom = mjGEOM_OTHER -> FitGeom true m geom = throw msg_fit_aabb [])
  /\ (Geom.type geom = mjGEOM_BOX \/ Geom.type geom = mjGEOM_ELLIPSOID ->
      exists g, FitGeom true m geom
                = Done (g, vadd (GetPosPtr m (Geom.typeinertia geom))
                                (aabb_center m))).
Proof.
  unfold FitGeom, GetInertiaBoxPtr.
  destruct (Geom.size geom) as [[s0 s1] s2].
  split; [|split; [|split; [|split]]]; cbn [negb].
  - intros e He. rewrite He. reflexivity.
  - intros Hc Ht. rewrite Hc, Ht. cbn [bind].
    destruct (match Geom.typeinertia geom with
              | mjVOLUME_MESH => _ | mjSHELL_MESH => _ end) as [[b0 b1] b2].
    reflexivity.
  - intros Hc Ht. rewrite Hc. cbn [bind].
    destruct (match Geom.typeinertia geom with
              | mjVOLUME_MESH => _ | mjSHELL_MESH => _ end) as [[b0 b1] b2].
    destruct (Geom.type geom); try contradiction; cbn [bind];
      eexists; reflexivity.
  - intros Ht. rewrite Ht. reflexivity.
  - destruct (aabb_center m) as [[c0 c1] c2] eqn:Hcen.
    intros [Ht|Ht]; rewrite Ht; cbn [bind]; eexists; reflexivity.
Qed.

(** X18. With [fitaabb], a box or an ellipsoid gets the half extents
    of the bounding box, times [fitscale], as its three sizes, and the
    mesh position moved by the centre of the bounding box; type, inertia
    type and [fitscale] of the geom stay as they are. *)
Theorem FitGeom_aabb_box (m : mjCMesh) (geom g' : Geom.mjCGeom) (p : vec3) :
  Geom.type geom = mjGEOM_BOX \/ Geom.type geom = mjGEOM_ELLIPSOID ->
  FitGeom true m geom = Done (g', p) ->
  (forall k, (0 <= k < 3)%Z ->
     vcomp (Geom.size g') k
     == (getQ (aabb m) (3 + k) - getQ (aabb m) k) / 2 * Geom.fitscale geom
     /\ vcomp p k
        == vcomp (GetPosPtr m (Geom.typeinertia geom)) k
           + (getQ (aabb m) k + getQ (aabb m) (3 + k)) / 2)
  /\ Geom.type g' = Geom.type geom
  /\ Geom.typeinertia g' = Geom.typeinertia geom
  /\ Geom.fitscale g' = Geom.fitscale geom.
Proof.
  intros Ht H. unfold FitGeom in H. cbn [negb] in H.
  destruct (Geom.size geom) as [[s0 s1] s2].
  unfold aabb_center in H. cbv zeta in H.
  destruct (GetPosPtr m (Geom.typeinertia geom)) as [[q0 q1] q2].
  assert (Hr : g' = rescale geom
                 (getQ (aabb m) 3 - (getQ (aabb m) 0 + getQ (aabb m) 3) / 2,
                  getQ (aabb m) 4 - (getQ (aabb m) 1 + getQ (aabb m) 4) / 2,
                  getQ (aabb m) 5 - (getQ (aabb m) 2 + getQ (aabb m) 5) / 2)
               /\ p = (q0 + (getQ (aabb m) 0 + getQ (aabb m) 3) / 2,
                       q1 + (getQ (aabb m) 1 + getQ (aabb m) 4) / 2,
                       q2 + (getQ (aabb m) 2 + getQ (aabb m) 5) / 2)).
  { destruct Ht as [Ht|Ht]; rewrite Ht in H; cbn [bind vadd] in H;
      injection H as <- <-; split; reflexivity. }
  destruct Hr as [-> ->]. unfold rescale, Geom.with_size.
  cbn [Geom.size Geom.type Geom.typeinertia Geom.fitscale].
  split; [|repeat split].
  intros k Hk.
  assert (Hk3 : k = 0%Z \/ k = 1%Z \/ k = 2%Z) by lia.
  destruct Hk3 as [-> | [-> | ->]]; cbn [vcomp Z.eqb Pos.eqb Z.add Pos.add Pos.succ];
    split; field.
Qed.

(** X19. With [fitaabb], the fitted sphere and the fitted cylinder
    reach every vertex of the mesh when [fitscale] is not negative: the
    radius of the sphere is at least [fitscale] times the distance of the
    vertex from the centre of the bounding box, the radius of a cylinder
    or a capsule at least [fitscale] times its distance from the axis,
    and the half height of the cylinder at least [fitscale] times its
    height over the centre.  The mesh position is moved by the centre. *)
Theorem FitGeom_aabb_covers (m : mjCMesh) (geom g' : Geom.mjCGeom) (p : vec3)
  (v : list Q) (i : Z) :
  vert m = Some v ->
  0 <= Geom.fitscale geom ->
  FitGeom true m geom = Done (g', p) ->
  (0 <= i < nvert m)%Z ->
  p = vadd (GetPosPtr m (Geom.typeinertia geom)) (aabb_center m)
  /\ match Geom.type geom with
     | mjGEOM_SPHERE =>
         mjuu_dist3 (vtx v i) (aabb_center m) * Geom.fitscale geom
         <= vcomp (Geom.size g') 0
     | mjGEOM_CYLINDER =>
         dist_xy (vtx v i) (aabb_center m) * Geom.fitscale geom
         <= vcomp (Geom.size g') 0
         /\ dist_z (vtx v i) (aabb_center m) * Geom.fitscale geom
            <= vcomp (Geom.size g') 1
     | mjGEOM_CAPSULE =>
         dist_xy (vtx v i) (aabb_center m) * Geom.fitscale geom
         <= vcomp (Geom.size g') 0
     | _ => True
     end.
Proof.
  intros Hv Hk H Hi. unfold FitGeom in H. cbn [negb] in H.
  destruct (Geom.size geom) as [[s0 s1] s2]. cbv zeta in H.
  inv_bind H as s Hs. injection H as <- <-. split; [reflexivity|].
  assert (Hn : (0 < nvert m)%Z) by lia.
  pose proof (In_iota_iff _ _ Hi) as Hin.
  destruct (Geom.type geom); try exact I.
  - inv_bind Hs as v' Hv'. apply (vert_array_Some m v v' Hn Hv) in Hv'. subst v'.
    injection Hs as <-. unfold rescale, Geom.with_size. cbn [Geom.size vcomp Z.eqb].
    apply Qmult_le_compat_r; [|exact Hk].
    apply fit_sphere_covers. exact Hin.
  - inv_bind Hs as v' Hv'. apply (vert_array_Some m v v' Hn Hv) in Hv'. subst v'.
    pose proof (fit_cylinder_covers v (aabb_center m) (iota (nvert m)) 0 0)
      as (_ & _ & Hc).
    destruct (fit_cylinder v (aabb_center m) (iota (nvert m)) 0 0) as [r h0].
    inv_bind Hs as h Hh. injection Hs as <-.
    unfold rescale, Geom.with_size. cbn [Geom.size vcomp Z.eqb].
    apply Qmult_le_compat_r; [|exact Hk]. apply (Hc i Hin).
  - inv_bind Hs as v' Hv'. apply (vert_array_Some m v v' Hn Hv) in Hv'. subst v'.
    pose proof (fit_cylinder_covers v (aabb_center m) (iota (nvert m)) 0 0)
      as (_ & _ & Hc).
    destruct (fit_cylinder v (aabb_center m) (iota (nvert m)) 0 0) as [r h].
    injection Hs as <-.
    unfold rescale, Geom.with_size. cbn [Geom.size vcomp Z.eqb].
    split; (apply Qmult_le_compat_r; [|exact Hk]); apply (Hc i Hin).
Qed.

End FitProps.






Lemma FitGeom_aabb_box_witness :
  @FitGeom Demo.E0 demo_math true fit_mesh box_geom = Done box_fitted
  /\ (vcomp (Geom.size (fst box_fitted)) 0 == 1)%Q
  /\ (vcomp (snd box_fitted) 0 == 1 # 2)%Q.
Proof.
  assert (H : @FitGeom Demo.E0 demo_math true fit_mesh box_geom
              = Done (fst box_fitted, snd box_fitted))
    by (vm_compute; reflexivity).
  pose proof (@FitGeom_aabb_box Demo.E0 demo_math fit_mesh box_geom _ _
                (or_introl eq_refl) H) as HT.
  destruct HT as [HT _].
  assert (H0 : 0 <= 0 < 3) by lia.
  destruct (HT 0 H0) as [A B].
  split; [exact H|]. split.
  - eapply Qeq_trans; [exact A|]. vm_compute. reflexivity.
  - eapply Qeq_trans; [exact B|]. vm_compute. reflexivity.
Defined.

Lemma FitGeom_aabb_covers_witness :
  @FitGeom Demo.E0 demo_math true fit_mesh sphere_geom = Done sphere_fitted
  /\ (@mjuu_dist3 demo_math
        (vtx [0; 0; 0; 1; 0; 0; 0; 1; 0; 0; 0; 1]%Q 1)
        (aabb_center fit_mesh) * 1
      <= vcomp (Geom.size (fst sphere_fitted)) 0)%Q.
Proof.
  assert (H : @FitGeom Demo.E0 demo_math true fit_mesh sphere_geom
              = Done (fst sphere_fitted, snd sphere_fitted))
    by (vm_compute; reflexivity).
  assert (Hk : (0 <= Geom.fitscale sphere_geom)%Q) by (vm_compute; discriminate).
  assert (Hi : 0 <= 1 < nvert fit_mesh)
    by (vm_compute; split; [discriminate | reflexivity]).
  pose proof (@FitGeom_aabb_covers Demo.E0 demo_math fit_mesh sphere_geom _ _
                _ 1 eq_refl Hk H Hi) as HT.
  destruct HT as [_ HT]. split; [exact H | exact HT].
Defined.

(** ** The further results on the examples *)

Lemma insert_by_perm (cmp : Z -> Z -> comparison) (x : Z) (l : list Z) :
  Permutation (Demo.insert_by cmp x l) (x :: l).
Proof.
  induction l as [|y l IH]; cbn [Demo.insert_by]; [reflexivity|].
  destruct (cmp x y); try reflexivity.
  rewrite IH. apply perm_swap.
Qed.

Lemma demo_sort_permutes : @sort_permutes Demo.E0.
Proof.
  intros cmp l. cbn [mjQUICKSORT Demo.E0 Demo.externals]. unfold Demo.sort_by.
  induction l as [|x l IH]; cbn [fold_right]; [reflexivity|].
  rewrite insert_by_perm. now apply perm_skip.
Qed.




Lemma Process_writes_witness :
  exists m', @Process Demo.E0 Demo.model cube_prepared = Done m'
             /\ coordinates_only cube_prepared m'
             /\ valid_view m' = (true, true, true, true).
Proof.
  eexists. split; [vm_compute; reflexivity|].
  split; [|vm_compute; reflexivity].
  refine (proj1 (@Process_writes Demo.E0 Demo.model cube_prepared _ _)).
  vm_compute. reflexivity.
Defined.

Lemma Compile_arrays_and_flags_witness :
  exists m', @Compile Demo.E0 Demo.model Examples.stl_mesh = Done m'
             /\ processed m' = true /\ facenormal m' <> None
             /\ cleared_one Examples.stl_mesh m'.
Proof.
  eexists.
  assert (H : @Compile Demo.E0 Demo.model Examples.stl_mesh = Done _)
    by (vm_compute; reflexivity).
  split; [exact H|].
  destruct (@Compile_arrays_and_flags Demo.E0 Demo.model _ _ H)
    as (A & _ & _ & _ & B & C).
  split; [exact A|]. split; [exact B|].
  destruct C as [C | C]; [vm_compute in C; discriminate | exact C].
Defined.

Lemma Compile_vertex_errors_witness :
  @Compile Demo.E0 Demo.model tri_mesh = throw "at least 4 verices required" [].
Proof.
  assert (H : exists m1, @Compile_load Demo.E0 Demo.model tri_mesh = Done m1
                         /\ uservert m1 = [0; 0; 0; 1; 0; 0; 0; 1; 0]%Q
                         /\ vert m1 = None).
  { eexists. split; [vm_compute; reflexivity|]. split; reflexivity. }
  destruct H as (m1 & Hload & Hu & Hv).
  destruct (@Compile_vertex_errors Demo.E0 Demo.model tri_mesh m1 Hload)
    as [Herr _].
  destruct Herr as (_ & H4 & _).
  - rewrite Hu. discriminate.
  - apply H4; [exact Hv|]. rewrite Hu. reflexivity.
Defined.

Lemma Compile_face_range_check_witness :
  exists m', @Compile_face Demo.E0 (Demo.cube <| nvert := 8 |>
                                      <| vert := Some Demo.cube_vert |>) = Done m'
             /\ face m' = Some Demo.cube_face
             /\ Forall (fun i => 0 <= i < 8) Demo.cube_face.
Proof.
  eexists.
  assert (H : @Compile_face Demo.E0 (Demo.cube <| nvert := 8 |>
                                       <| vert := Some Demo.cube_vert |>) = Done _)
    by (vm_compute; reflexivity).
  split; [exact H|].
  destruct (@Compile_face_range_check Demo.E0
              (Demo.cube <| nvert := 8 |> <| vert := Some Demo.cube_vert |>))
    as [Hxml _].
  - discriminate.
  - destruct (Hxml _ eq_refl H) as (A & _ & _ & _ & B). split; [exact A | exact B].
Defined.

Lemma MakeNormal_one_per_vertex_witness :
  exists m' nrm, @MakeNormal Demo.E0 two_triangles = Done m'
                 /\ nnormal m' = 6
                 /\ normal m' = Some nrm /\ len nrm = 18
                 /\ facenormal m' = Some [0; 1; 2; 3; 4; 5].
Proof.
  eexists.
  assert (H : @MakeNormal Demo.E0 two_triangles = Done _)
    by (vm_compute; reflexivity).
  destruct (@MakeNormal_one_per_vertex Demo.E0 _ _ H) as [_ Hmake].
  destruct Hmake as (v & fs & nrm & fn & _ & _ & Hrest);
    [reflexivity | cbn; lia |].
  cbv zeta in Hrest. destruct Hrest as (_ & A & B & C & _).
  exists nrm. split; [exact H|]. split; [exact A|]. split; [exact B|].
  split; [exact C | reflexivity].
Defined.

Lemma RemoveRepeated_keeps_corners_witness :
  exists m' v' fs',
    @RemoveRepeated Demo.E0 two_triangles = Done m'
    /\ nvert m' = 4 /\ nface m' = 2
    /\ vert m' = Some v' /\ face m' = Some fs'
    /\ same_place (vtx v' (getZ fs' 3)) (1, 0, 0)%Q.
Proof.
  eexists.
  assert (H : @RemoveRepeated Demo.E0 two_triangles = Done _)
    by (vm_compute; reflexivity).
  destruct (@RemoveRepeated_keeps_corners Demo.E0 two_triangles _
              [0; 0; 0;  1; 0; 0;  0; 1; 0;  1; 0; 0;  1; 1; 0;  0; 1; 0]%Q
              [0; 1; 2; 3; 4; 5] demo_sort_permutes H eq_refl eq_refl)
    as (v' & fs' & A & B & _ & C & _ & D).
  - cbn. lia.
  - vm_compute. discriminate.
  - change (Forall (fun f => 0 <= f < 6) [0; 1; 2; 3; 4; 5]).
    repeat (apply Forall_cons; [lia|]). apply Forall_nil.
  - exists v', fs'. split; [exact H|]. split; [reflexivity|].
    split; [exact C|]. split; [exact A|]. split; [exact B|].
    destruct (D 3) as [_ Hs]; [cbn; lia | vm_compute; reflexivity |].
    exact Hs.
Defined.

Lemma LoadSTL_triangles_witness :
  exists m' v' fs',
    @LoadSTL Demo.E0 Examples.stl_mesh = Done m'
    /\ nface m' = 1
    /\ vert m' = Some v' /\ face m' = Some fs'
    /\ same_place (vtx v' (getZ fs' 1)) (1, 0, 0)%Q.
Proof.
  eexists.
  assert (H : @LoadSTL Demo.E0 Examples.stl_mesh = Done _)
    by (vm_compute; reflexivity).
  pose proof (@LoadSTL_triangles Demo.E0 Examples.stl_mesh _ demo_sort_permutes
                eq_refl H) as HT.
  destruct HT as (buffer & v' & fs' & Hopen & Hrest).
  assert (Ho : @open_file Demo.E0 (file Examples.stl_mesh) = Some stl_one)
    by (vm_compute; reflexivity).
  rewrite Ho in Hopen. injection Hopen as <-.
  cbv zeta in Hrest.
  destruct Hrest as (_ & _ & Hnf & _ & Hv & Hf & _ & Hc).
  exists v', fs'. split; [exact H|]. split; [exact Hnf|].
  split; [exact Hv|]. split; [exact Hf|].
  assert (H01 : 0 <= 0 < u32_at stl_one 80)
    by (vm_compute; split; [discriminate | reflexivity]).
  assert (H13 : 0 <= 1 < 3) by lia.
  destruct (Hc 0 1 H01 H13) as [_ Hs].
  assert (Hp : stl_place stl_one 0 (stl_stored (righthand Examples.stl_mesh) 1)
               = (1, 0, 0)%Q) by (vm_compute; reflexivity).
  rewrite Hp in Hs. exact Hs.
Defined.

Lemma skin_compiled_shape_witness :
  exists s', @Skin.Compile Demo.E0 Demo.model Skin.two_bones = Done s'
             /\ len (Skin.bodyid s') = 2
             /\ Forall2 (bone_ok 3) (Skin.vertid s') (Skin.vertweight s').
Proof.
  eexists.
  assert (H : @Skin.Compile Demo.E0 Demo.model Skin.two_bones = Done _)
    by (vm_compute; reflexivity).
  destruct (@skin_compiled_shape Demo.E0 Demo.model _ _ H)
    as (_ & _ & _ & _ & _ & _ & A & _ & _ & B & _).
  split; [exact H|]. split; [exact A | exact B].
Defined.


Lemma LoadSKN_shape_witness :
  exists s', @Skin.LoadSKN Demo.E1 skn_skin = Done s'
             /\ len (Skin.vert s') = 9 /\ len (Skin.face s') = 3
             /\ len (Skin.bodyname s') = 1
             /\ Forall2 bone_read (Skin.vertid s') (Skin.vertweight s')
             /\ len Demo.skn_one = 16 + 4 * (9 + 3 + bone_words (Skin.vertid s')).
Proof.
  eexists.
  assert (H : @Skin.LoadSKN Demo.E1 skn_skin = Done _)
    by (vm_compute; reflexivity).
  assert (Ho : @open_file Demo.E1 (Skin.file skn_skin) = Some Demo.skn_one)
    by (vm_compute; reflexivity).
  assert (Hb : len Demo.skn_one < 2 ^ 31) by (vm_compute; reflexivity).
  pose proof (@LoadSKN_shape Demo.E1 _ _ _ H Ho Hb) as HT. cbv zeta in HT.
  destruct HT as (_ & _ & _ & _ & _ & A & _ & _ & _ & B & C & _ & _ & _ & D & F).
  split; [exact H|].
  split.
  { destruct A as [_ A]; [vm_compute; intros Hc; inversion Hc|].
    apply A. vm_compute. reflexivity. }
  split.
  { destruct B as [_ B]; [vm_compute; intros Hc; inversion Hc|].
    apply B. vm_compute. reflexivity. }
  split; [exact C|]. split; [exact D | exact F].
Defined.

Lemma demo_more_sort_permutes : @sort_permutes Demo.E1.
Proof.
  intros cmp l. cbn [mjQUICKSORT Demo.E1 Demo.externals]. unfold Demo.sort_by.
  induction l as [|x l IH]; cbn [fold_right]; [reflexivity|].
  rewrite insert_by_perm. now apply perm_skip.
Qed.


Lemma stl_two_words (i j k : Z) :
  0 <= i < 2 -> 0 <= j < 3 -> 0 <= k < 3 ->
  ~ stl_coord_bad (stl_word stl_two i j k).
Proof.
  intros Hi Hj Hk.
  assert (His : i = 0 \/ i = 1) by lia.
  assert (Hjs : j = 0 \/ j = 1 \/ j = 2) by lia.
  assert (Hks : k = 0 \/ k = 1 \/ k = 2) by lia.
  destruct His as [-> | ->]; destruct Hjs as [-> | [-> | ->]];
    destruct Hks as [-> | [-> | ->]];
    intros [H | [H | H]]; vm_compute in H; discriminate.
Qed.

(** C4 as amended, on the file of two triangles with a common edge: the
    six corners become four vertices, and the first corners of the two
    triangles, which lie next to each other in the sorted order, name one
    vertex. *)
Lemma LoadSTL_validation_witness :
  exists m' fs',
    @LoadSTL Demo.E1 stl_two_mesh = Done m'
    /\ nface m' = 2 /\ nvert m' = 4
    /\ face m' = Some fs' /\ getZ fs' 0 = getZ fs' 3.
Proof.
  assert (Ho : @open_file Demo.E1 (file stl_two_mesh) = Some stl_two)
    by (vm_compute; reflexivity).
  destruct (@LoadSTL_validation Demo.E1 stl_two_mesh stl_two Ho eq_refl)
    as (_ & _ & _ & _ & H).
  destruct H as (_ & _ & _ & _ & H).
  - vm_compute. split; discriminate.
  - vm_compute. reflexivity.
  - exact stl_two_words.
  - destruct (H demo_more_sort_permutes)
      as (m' & v' & fs' & newid & Hrun & Hnf & _ & Hf & _ & Hnv & _ & Hfs & _ & Hm).
    exists m', fs'. split; [exact Hrun|]. split; [exact Hnf|].
    split; [rewrite Hnv; vm_compute; reflexivity|]. split; [exact Hf|].
    rewrite (Hfs 0), (Hfs 3) by (vm_compute; split; [discriminate | reflexivity]).
    assert (Hi0 : getZ (@mjQUICKSORT Demo.E1
                          (vertcompare (stl_vertices stl_two (u32_at stl_two 80)))
                          (iota (3 * u32_at stl_two 80))) 0
                  = getZ (stl_faces (righthand stl_two_mesh) (u32_at stl_two 80)) 0)
      by (vm_compute; reflexivity).
    assert (Hi1 : getZ (@mjQUICKSORT Demo.E1
                          (vertcompare (stl_vertices stl_two (u32_at stl_two 80)))
                          (iota (3 * u32_at stl_two 80))) 1
                  = getZ (stl_faces (righthand stl_two_mesh) (u32_at stl_two 80)) 3)
      by (vm_compute; reflexivity).
    rewrite <- Hi0, <- Hi1. apply Hm.
    + lia.
    + lia.
    + vm_compute. reflexivity.
    + intros t Ht. assert (t = 1) by lia. subst t. vm_compute. reflexivity.
Defined.

(** C4, as it is written, fails on the file of two triangles whose common
    corner A = (0, 0, 0) has the sort key of the corner (1, -100, 0): the
    sort leaves that corner between the two copies of A, no vertex lies
    at the place of its predecessor, and the load returns six vertices
    of which the first and the fourth lie at the same place. *)
Lemma LoadSTL_leaves_equal_vertices :
  exists m' v',
    @LoadSTL Demo.E1 stl_tied_mesh = Done m'
    /\ nface m' = 2 /\ nvert m' = 6
    /\ vert m' = Some v' /\ face m' = Some [0; 1; 2; 3; 4; 5]
    /\ vtx v' 0 = (0, 0, 0)%Q /\ vtx v' 3 = (0, 0, 0)%Q
    /\ same_place (vtx v' 0) (vtx v' 3).
Proof.
  eexists. eexists. split; [vm_compute; reflexivity|].
  repeat split.
Qed.
